(* ===== verification/_CoqProject ===== *)
-Q . S2P
Prelude.v
NumTheory.v
Primality.v
GoBig.v
Random.v
Secp256k1.v
CurveFacts.v
CurveLaws.v
ToyCurve.v
Text.v
Json.v
IntGo.v
Lagrange.v
Vss2.v
Keccak.v
Sha3.v
Commit.v
Paillier.v
Schnorr.v
Ntilde.v
MtA.v
SquareFree.v
Hv.v
Hex.v
KgMessage.v
KgSave.v
Common.v
Gg20Zk.v
DNode.v
Keygen.v
KgLife.v
KgProgress.v
KgKey.v
SgMessage.v
Signing.v
SgLife.v
SgSig.v
ReMessage.v
Reshare.v
ReLife.v
ReKey.v
EdWords.v
EdScalar.v
EdField.v
EdPrimes.v
EdCurve.v
EdGroup.v
EdPoint.v
EdTables.v
EdBase.v
EdMult.v
EdSlide.v
