(* ===== verification/Prelude.v ===== *)
(** * A verification of the threshold signature library FastMulThreshold-DSA

    The program is a Go implementation of threshold ECDSA and EdDSA: the nodes of a
    group generate a key none of them holds, sign with it, and move it to another
    group.  This library models its cryptographic core, the protocols of the ECDSA
    side and the arithmetic of the EdDSA side, and proves what they compute, what they
    check, and where they do not do what they mean to.

    ** The parts of the program

    - [smpc-lib/crypto/ec2] is the cryptographic toolbox: secret sharing, hash
      commitments, Paillier encryption, auxiliary RSA parameters, and the
      zero-knowledge proofs of the protocols.  It stands on [crypto/secp256k1]
      (curve arithmetic in Go, scalar multiplication in C), [crypto/sha3], and the
      samplers of [internal/common/math/random].
    - [smpc-lib/crypto/ed] is the toolbox of the EdDSA side: Ed25519 from scalars and
      field elements in limbs up to group elements and their encoding.
    - [smpc-lib/smpc] is the frame of a protocol: a party holds a current round,
      stores the messages that arrive, and moves on when a round has them all.
    - [smpc-lib/ecdsa/keygen], [signing] and [reshare] are three protocols in that
      frame: a state, a message type, and one [Start] per round.
    - [smpc] feeds messages of the network to the parties; [p2p], [rpc], [node],
      [cmd] and [ethdb] are the service around it.

    ** Files

    Foundations.  [Prelude]: results of Go calls (value, error, panic, no result),
    the entropy tape, Go loops, sums, tactics and hints.  [NumTheory], [Lagrange],
    [Primality]: mathematics, with certificates for the two secp256k1 primes
    ([EdPrimes] has those of Ed25519).
    [GoBig], [Text], [Hex], [Json]: what the code uses of [math/big], [fmt],
    [strings], [encoding/hex] and [encoding/json].

    Curve.  [Secp256k1] is [crypto/secp256k1/curve.go]; the C routine is the field
    [ext_scalar_mul] of the class [Curve].  [CurveFacts] proves the Jacobian formulas
    against the affine ones.  [CurveLaws] is the class through which the protocols
    see the curve: the documented behaviour of the C routine and the group structure
    of the points.  [ToyCurve] is an instance of prime order 139 on which every
    witness is evaluated.

    Hashing.  [Keccak] is [crypto/sha3/keccakf.go], [Sha3] the sponge of [sha3.go],
    [hashes.go] and [xor_generic.go].

    Toolbox, one file per source file or pair of files of [smpc-lib/crypto/ec2]:
    [Random] ([random.go] and the samplers of [int.go]), [IntGo] ([int.go]), [Vss2],
    [Commit], [Paillier] (with [safeprime.go]), [Schnorr] ([schnorrZK.go]), [Ntilde]
    (with [ntildeZK.go]), [MtA] (the three proofs of the share conversion),
    [SquareFree], [Hv], [Gg20Zk] ([tZK.go], [stZK.go], [pdl_w_slack_proof.go]).

    Ed25519, [smpc-lib/crypto/ed/edwards25519.go] and [const.go].  [EdWords]: machine
    words and loads; [EdScalar]: arithmetic modulo the group order; [EdField]: field
    elements of ten limbs; [EdCurve]: the specification, the curve as an abelian group
    over a field with Leibniz equality; [EdGroup]: the five kinds of coordinates and the
    operations on them; [EdPoint]: the 32-byte encoding; [EdTables] and [EdBase]: the
    precomputed tables and what they hold; [EdMult] and [EdSlide]: scalar multiplication.

    Frame.  [DNode] has the class [DNode] (the interface of a party), [BaseStart] and
    [BaseUpdate] of [dnode.go], and two further classes: [Ranked], what a party must
    show for [Update] to terminate, and [Stable], what it must show for an invariant
    to hold during its life.  Each protocol discharges both.  [Common] is
    [smpc-lib/smpc/common.go].

    Protocols.  For each one a message file, a party file and proof files:
    key generation [KgMessage], [KgSave], [Keygen], [KgLife], [KgProgress], [KgKey];
    signing [SgMessage], [Signing], [SgLife], [SgSig]; resharing [ReMessage],
    [Reshare], [ReLife], [ReKey].  The decoding functions of [smpc/key_ec.go],
    [smpc/sign_ec.go] and [smpc/reshare.go] are in the message files.

    ** How the code is modelled

    A Go call is a value of [res]: [Ok], [Err] with the message of the source,
    [Panic], or [Starve].  Nil pointers to big integers are [None], and their use
    panics as in Go.  Random draws read an explicit tape, so that a theorem over all
    tapes covers all outcomes of [crypto/rand]; a rejection loop consumes the tape,
    and [Starve] is the run that never accepts.  Theorems that a function returns name
    the tapes on which it does.  A party's call is an [act], which passes the party's
    record and the tape and keeps the changes made before an error.  A send on a
    channel appends to a list of the record; a call runs to its end, as under the
    mutex of [BaseDNode].

    Bounds.  [Update] recurses through the rounds: the fuel is 9, 13 and 8 for the
    three protocols, and [keygen_Update_terminates], [signing_Update_terminates] and
    [reshare_Update_terminates] show that more fuel never changes a result.  The
    loop of [CalcHPoint] runs at most 11 times, as in the source.
    [IsPerfectPowerOfPrime] has fuel from the size of its argument.  Machine integers
    are kept in range where the code depends on it: 64-bit lanes in [Keccak], bytes
    in [Sha3], the range of [Atoi] in the message files.  The 64- and 32-bit arithmetic
    of Ed25519 wraps around in the model; an interval analysis that the kernel executes
    shows that no statement of it overflows on the bounds the callers keep ([isExt] and
    the other relations of [EdGroup] carry the bounds along).

    Parameters.  Code that is not in the repository is a class field with named laws:
    [Curve] and [CurveLaws], [GoLib] (SHA-512/256, the primality test and square roots of Go's
    library), [Sha256Lib], [JsonLib] and [JsonLaws].  Every theorem that uses laws has a witness on
    a concrete instance.

    ** What is proved

    - Key generation: the nodes agree on the public key of the secret that their
      shares recombine to ([keygen_shares_key]); round 4 decides the shares, with an
      error or a panic ([round4_decides_shares]); a party has finished or waits for a message
      ([keygen_waits_or_finished]); and the published polynomial is not compared with
      the commitment ([round4_accepts_other_key]).
    - Signing: additive shares ([calcW1_additive]), products to sums
      ([signing_products]), the checks of the pre-signature ([presign_consistent]),
      and the validity of the signature ([signature_valid]), with what [Verify2] of
      [smpc] decides ([VerifySignature_decides]).
    - Resharing: the new shares belong to the old key ([reshare_keeps_key]); and
      three defects that keep the protocol from finishing ([reshare_stalls],
      [reshare_loses_node], [re_round5_lost]).
    - Type invariants of the signing and resharing parties, also across errors
      ([signing_well_formed], [reshare_well_formed]); storage of messages;
      encodings that round-trip, or do not.
    - The toolbox: sharing and recombination ([Vss2_Combine2]), verification of shares
      ([Verify2_decides]), Paillier ([Decrypt_Encrypt]), commitments; completeness of the
      proofs of the share conversion and exactly which honest proofs their verifiers
      refuse ([MtARange_complete], [MtAResp_complete], [MtAwc_complete]), and that the
      range proof bounds nothing from below ([MtARange_unbounded]); what an accepted proof
      of square-freeness establishes ([SquareFreeVerify_sound]); the prime channel under
      all three of its users ([safe_primes_invariant], [GenerateKeyPair_repeats]).
    - Hashing: the unrolled permutation is Keccak-f[1600] ([keccakF1600_correct]),
      and any sequence of writes hashes the concatenation ([sha3_streaming]).

    - Ed25519: scalars and field elements are computed exactly and fully reduced
      ([scalar_arithmetic], [field_arithmetic]); the coordinates implement the group of
      the curve ([group_operations]), whose laws are proved in [EdCurve]; encoding and
      decoding are inverse and decoding accepts exactly the points ([point_encoding],
      [FromBytes_decodes]); every entry of the tables is right ([precomputed_tables]);
      the three scalar multiplications multiply ([scalar_multiplication],
      [double_multiplication]).

    ** What is not modelled

    - The EdDSA protocols [smpc-lib/eddsa] and what they use of [smpc-lib/crypto/ed]
      beyond [edwards25519.go] and [const.go]: commitments, secret sharing and Schnorr
      proofs.
    - The service layer [smpc] beyond the decoding of messages and the inbound step
      of resharing: accounts, acceptance, persistence and message pumps over
      goroutines and a database.
    - [p2p], [rpc], [node], [cmd], [ethdb], [go-listener]: networking, processes and
      storage, in large part from go-ethereum.
    - In modelled packages: [shake.go] and the unaligned variants of [crypto/sha3],
      public key recovery (C code), [GetRandomValuesFromJN] and [modInt.Sqrt].
    - The soundness of the zero-knowledge proofs and the hiding of the commitments,
      which are statements about probability. *)

From Stdlib Require Import ZArith Lia Setoid Morphisms.
From stdpp Require Export base tactics list numbers strings.

#[global] Open Scope Z_scope.

(** * Results of Go functions

    A Go call returns a value ([Ok]), returns a non-nil [error] ([Err], with
    the message of the source), panics ([Panic]: nil dereference, index out of
    range, division by zero, explicit [panic]), or never returns ([Starve]: a
    rejection-sampling loop that has no entropy left to draw). *)
Inductive res (A : Type) : Type :=
| Ok (a : A)
| Err (e : string)
| Panic
| Starve.
Arguments Ok {A} a.
Arguments Err {A} e.
Arguments Panic {A}.
Arguments Starve {A}.

#[export] Instance res_ret : MRet res := fun A a => Ok a.
#[export] Instance res_bind : MBind res := fun A B f m =>
  match m with
  | Ok a => f a
  | Err e => Err e
  | Panic => Panic
  | Starve => Starve
  end.
#[export] Instance res_fmap : FMap res := fun A B f m => m ≫= fun a => Ok (f a).

Lemma res_bind_Ok {A B} (m : res A) (f : A -> res B) b :
  m ≫= f = Ok b <-> exists a, m = Ok a /\ f a = Ok b.
Proof. destruct m; cbn; naive_solver. Qed.

(** A possibly nil pointer to a [big.Int]. *)
Abbreviation bigint := (option Z).

(** Dereferencing a pointer; the nil pointer panics. *)
Definition deref {A} (p : option A) : res A :=
  match p with Some a => Ok a | None => Panic end.

(** Reading a slice; an index out of range panics. *)
Definition index {A} (l : list A) (i : nat) : res A := deref (l !! i).

(** * The entropy tape

    [crypto/rand] is a stream of reads, each of which yields a value or fails
    ([None]).  [rnd A] is a computation that consumes a finite tape of reads; a
    sampling loop that reaches the end of the tape is still looping, which is
    the outcome [Starve]. *)
Abbreviation tape := (list (option Z)).
Definition rnd (A : Type) : Type := tape -> res (A * tape).

#[export] Instance rnd_ret : MRet rnd := fun A a t => Ok (a, t).
#[export] Instance rnd_bind : MBind rnd := fun A B f m t =>
  '(a, t') ← m t; f a t'.
#[export] Instance rnd_fmap : FMap rnd := fun A B f m t =>
  '(a, t') ← m t; Ok (f a, t').

(** A call that draws nothing. *)
Definition lift {A} (m : res A) : rnd A := fun t => a ← m; Ok (a, t).

Lemma rnd_bind_Ok {A B} (m : rnd A) (f : A -> rnd B) t b t' :
  (m ≫= f) t = Ok (b, t') <->
  exists a t1, m t = Ok (a, t1) /\ f a t1 = Ok (b, t').
Proof.
  unfold mbind, rnd_bind, mbind, res_bind. destruct (m t) as [[a t1]|e| |]; split.
  all: naive_solver.
Qed.

Lemma lift_Ok {A} (m : res A) t a t' :
  lift m t = Ok (a, t') <-> m = Ok a /\ t' = t.
Proof. unfold lift. destruct m; cbn; naive_solver. Qed.

Lemma rnd_ret_Ok {A} (a b : A) t t' :
  (mret a : rnd A) t = Ok (b, t') <-> b = a /\ t' = t.
Proof. unfold mret, rnd_ret. naive_solver. Qed.

(** Running a sequence whose first call is known. *)
Lemma rnd_bind_run {A B} (m : rnd A) (f : A -> rnd B) t a t' :
  m t = Ok (a, t') -> (m ≫= f) t = f a t'.
Proof. intros H. unfold mbind, rnd_bind. now rewrite H. Qed.

Lemma lift_run {A} (m : res A) a t : m = Ok a -> lift m t = Ok (a, t).
Proof. now intros ->. Qed.

(** * Loops *)

(** [for { ... }] around a body that yields [Some a] to break with [a].  Every
    body used below reads the tape at least once per iteration, so one more
    iteration than the tape is long is never completed. *)
Fixpoint retry {A} (fuel : nat) (body : rnd (option A)) : rnd A := fun t =>
  match fuel with
  | O => Starve
  | S f =>
      '(o, t') ← body t;
      match o with Some a => Ok (a, t') | None => retry f body t' end
  end.

Definition loop {A} (body : rnd (option A)) : rnd A := fun t =>
  retry (S (length t)) body t.

(** What holds of every value the body breaks with holds of the loop's. *)
Lemma retry_post {A} (Q : A -> Prop) fuel body t a t' :
  (forall t1 a1 t1', body t1 = Ok (Some a1, t1') -> Q a1) ->
  retry fuel body t = Ok (a, t') -> Q a.
Proof.
  intros Hb. revert t. induction fuel as [|f IH]; cbn; intros t H; [discriminate|].
  apply res_bind_Ok in H as ([[a0|] t1] & H1 & H2); cbn in H2.
  - injection H2 as -> ->. eauto.
  - eauto.
Qed.

Lemma loop_post {A} (Q : A -> Prop) body t a t' :
  (forall t1 a1 t1', body t1 = Ok (Some a1, t1') -> Q a1) ->
  loop body t = Ok (a, t') -> Q a.
Proof. apply retry_post. Qed.

(** A loop whose body reads one entry of the tape and breaks on some entry of
    it returns. *)
Lemma loop_returns {A} (f : option Z -> option A) body t :
  (forall o t1, body (o :: t1) = Ok (f o, t1)) ->
  (exists o, o ∈ t /\ is_Some (f o)) -> exists a t', loop body t = Ok (a, t').
Proof.
  intros Hb (o & Hin & Hs). unfold loop.
  assert (Hf : (length t < S (length t))%nat) by lia. revert Hf.
  generalize (S (length t)) as fuel.
  induction Hin as [o l|o o' l Hin IH]; intros [|fuel] Hf; cbn in Hf; try lia; cbn; rewrite Hb; cbn.
  - destruct Hs as [a ->]. eauto.
  - destruct (f o'); [eauto|]. apply IH; [assumption|lia].
Qed.

(** [for _, x := range l { ... }] with an early return: the body yields
    [Some r] to leave the enclosing function with [r], [None] to continue. *)
Fixpoint forRange {A R} (l : list A) (body : nat -> A -> res (option R)) (k : nat)
  : res (option R) :=
  match l with
  | [] => Ok None
  | x :: l' =>
      o ← body k x;
      match o with Some r => Ok (Some r) | None => forRange l' body (S k) end
  end.

(** A loop that threads an accumulator and can fail. *)
Fixpoint foldRange {A S} (l : list A) (body : nat -> A -> S -> res S) (k : nat) (s : S)
  : res S :=
  match l with
  | [] => Ok s
  | x :: l' => s' ← body k x s; foldRange l' body (Datatypes.S k) s'
  end.

(** [for i, x := range l { r[i] = ... }] where the body can fail. *)
Fixpoint mapRange {A B} (f : A -> res B) (l : list A) : res (list B) :=
  match l with
  | [] => Ok []
  | x :: l' => y ← f x; ys ← mapRange f l'; Ok (y :: ys)
  end.

Lemma mapRange_Forall2 {A B} (f : A -> res B) l ys :
  mapRange f l = Ok ys <-> Forall2 (fun x y => f x = Ok y) l ys.
Proof.
  revert ys. induction l as [|x l IH]; intros ys; cbn [mapRange].
  - split; [intros [= <-]; constructor|now intros ->%Forall2_nil_inv_l].
  - rewrite res_bind_Ok. split.
    + intros (y & Hy & (ys' & Hys & [= <-])%res_bind_Ok). constructor; [assumption|]. now apply IH.
    + intros (y & ys' & Hy & Hys%IH & ->)%Forall2_cons_inv_l. exists y. split; [assumption|].
      apply res_bind_Ok. eauto.
Qed.

(** The values of a slice of pointers none of which is nil. *)
Definition allSome {A} (l : list (option A)) : option (list A) := mapM (M := option) id l.

Lemma allSome_Some {A} (l : list (option A)) r : allSome l = Some r <-> l = Some <$> r.
Proof.
  unfold allSome. rewrite mapM_Some. split.
  - induction 1 as [|x y l' k Hxy _ IH]; [done|]. rewrite fmap_cons. now f_equal.
  - intros ->. induction r; constructor; auto.
Qed.

(** [for i := range l { l[i] = ... }] with sampling: [n] results in order. *)
Fixpoint rndRepeat {A} (n : nat) (body : rnd A) : rnd (list A) :=
  match n with
  | O => mret []
  | S n' => a ← body; l ← rndRepeat n' body; mret (a :: l)
  end.

Lemma rndRepeat_post {A} (Q : A -> Prop) n body t l t' :
  (forall t1 a t1', body t1 = Ok (a, t1') -> Q a) ->
  rndRepeat n body t = Ok (l, t') -> length l = n /\ Forall Q l.
Proof.
  intros Hb. revert t l t'. induction n as [|n IH]; intros t l t' H; cbn in H.
  - apply rnd_ret_Ok in H as [-> ->]. auto.
  - apply rnd_bind_Ok in H as (a & t1 & Ha & H). apply rnd_bind_Ok in H as (l' & t2 & Hl & H).
    apply rnd_ret_Ok in H as [-> ->]. apply IH in Hl as [<- HF]. cbn. eauto.
Qed.

(** A loop of checks that all pass runs to its end. *)
Lemma forRange_pass {A R} (l : list A) (body : nat -> A -> res (option R)) : forall k,
  (forall i x, l !! i = Some x -> body (k + i)%nat x = Ok None) -> forRange l body k = Ok None.
Proof.
  induction l as [|x l IH]; intros k H; [done|]. cbn [forRange].
  pose proof (H 0%nat x eq_refl) as E. rewrite Nat.add_0_r in E. rewrite E. cbn.
  apply IH. intros i y Hi. rewrite Nat.add_succ_comm. now apply (H (S i)).
Qed.

(** A loop of checks that all return [true] or leave with [false]. *)
Definition checkAll {A} (l : list A) (body : nat -> A -> res bool) : res bool :=
  o ← forRange l (fun i x => b ← body i x; Ok (if b : bool then None else Some false)) 0;
  Ok (match o with Some r => r | None => true end).

Lemma checkAll_pass {A} (l : list A) body :
  (forall i x, l !! i = Some x -> body i x = Ok true) -> checkAll l body = Ok true.
Proof.
  intros H. unfold checkAll. rewrite forRange_pass; [done|]. intros i x Hi. cbn.
  now rewrite (H i x Hi).
Qed.

Lemma checkAll_true {A} (l : list A) body :
  checkAll l body = Ok true <-> forall i x, l !! i = Some x -> body i x = Ok true.
Proof.
  split; [|apply checkAll_pass]. unfold checkAll. intros (o & Ho & E)%res_bind_Ok i x Hi.
  assert (Hgen : forall l k i x, l !! i = Some x ->
    forRange l (fun i x => b ← body i x; Ok (if b : bool then None else Some false)) k = Ok o ->
    body (k + i)%nat x = Ok true).
  { clear l Ho i x Hi. induction l as [|y l IH]; intros k i x Hi Ho; [done|].
    cbn [forRange] in Ho. apply res_bind_Ok in Ho as (o' & Hb & Ho).
    apply res_bind_Ok in Hb as (b & Hb & [= <-]). destruct b; [|now destruct o as [[]|]].
    destruct i as [|i]; [injection Hi as ->; now rewrite Nat.add_0_r|].
    rewrite <- Nat.add_succ_comm. exact (IH _ _ _ Hi Ho). }
  exact (Hgen l 0%nat i x Hi Ho).
Qed.

(** A slice without nil pointers. *)
Lemma derefAll {A} (l : list (option A)) : (forall i, l !! i <> Some None) -> exists r, l = Some <$> r.
Proof.
  induction l as [|[x|] l IH]; intros H; [now exists []| |now destruct (H 0%nat)].
  destruct IH as [r ->]; [intros i; apply (H (S i))|]. now exists (x :: r).
Qed.

(** * Automation *)

Create HintDb mpc.

(** Decide, outermost first, the comparisons of [Z] on which the goal (or a
    hypothesis) branches; impossible branches are closed by [lia]. *)
Ltac bstep a b c :=
  lazymatch c with
  | Z.eqb => destruct (Z.eqb_spec a b)
  | Z.ltb => destruct (Z.ltb_spec a b)
  | Z.leb => destruct (Z.leb_spec a b)
  end; cbn [negb andb orb]; try (exfalso; lia).
Ltac bdestr :=
  repeat match goal with
  | |- context [if ?c ?a ?b then _ else _] => bstep a b c
  | H : context [if ?c ?a ?b then _ else _] |- _ => bstep a b c
  end.

(** Invert a chain of monadic binds that succeeded. *)
Ltac inv_ok :=
  repeat match goal with
  | H : Ok _ = Ok _ |- _ => injection H as H; subst
  | H : Err _ = Ok _ |- _ => discriminate H
  | H : Panic = Ok _ |- _ => discriminate H
  | H : Starve = Ok _ |- _ => discriminate H
  | H : deref ?p = Ok _ |- _ => destruct p eqn:?; cbn in H
  | H : _ /\ _ |- _ => destruct H
  | H : exists _, _ |- _ => destruct H
  | H : @mbind res _ _ _ _ _ = Ok _ |- _ => apply res_bind_Ok in H
  | H : @mbind rnd _ _ _ _ _ _ = Ok _ |- _ => apply rnd_bind_Ok in H
  | H : lift _ _ = Ok _ |- _ => apply lift_Ok in H
  | H : @mret rnd _ _ _ _ = Ok _ |- _ => apply rnd_ret_Ok in H
  | H : @mret res _ _ _ = Ok _ |- _ => unfold mret, res_ret in H
  | H : (_, _) = (_, _) |- _ => injection H as H; subst
  end.
