(* ===== verification/NumTheory.v ===== *)
(** Number theory used by the cryptographic components: congruence modulo [n]
    as a setoid, Fermat's little theorem and its lift modulo [p^2], the Chinese
    remainder step, and cancellation modulo a prime.  Nothing here models code
    of the repository. *)

From Stdlib Require Import ZArith Lia Znumtheory Zcong Zdivisibility Zpow_facts.
From Stdlib Require Import Setoid Morphisms.
From Stdlib Require ZmodBase ZstarBase.
From S2P Require Import Prelude.

(** * Congruence *)

Definition eqm (n a b : Z) : Prop := (n | a - b).

Declare Scope eqm_scope.
Delimit Scope eqm_scope with eqm.
Notation "'[mod' n ] a == b" := (eqm n a b)
  (at level 70, n at level 200, a at next level, b at next level, no associativity,
   format "[mod  n ]  a  ==  b") : eqm_scope.
#[global] Open Scope eqm_scope.

Lemma eqm_iff n a b : [mod n] a == b <-> a mod n = b mod n.
Proof.
  unfold eqm. destruct (Z.eq_dec n 0) as [->|Hn].
  - rewrite !Z.mod_0_r. split; [intros [k ?]; lia|intros ->; exists 0; lia].
  - split; intros H.
    + apply Z.mod_divide in H; [|lia].
      replace a with ((a - b) + b) by lia. now rewrite Zplus_mod, H, Z.add_0_l, Zmod_mod.
    + apply Z.mod_divide; [lia|]. now rewrite Zminus_mod, H, Z.sub_diag, Zmod_0_l.
Qed.

#[export] Instance eqm_equiv n : Equivalence (eqm n).
Proof. split; intros ?; intros; rewrite !eqm_iff in *; congruence. Qed.

#[export] Instance eqm_add n : Proper (eqm n ==> eqm n ==> eqm n) Z.add.
Proof.
  intros a b H c d H'. rewrite eqm_iff in *. now rewrite Zplus_mod, H, H', <- Zplus_mod.
Qed.

#[export] Instance eqm_sub n : Proper (eqm n ==> eqm n ==> eqm n) Z.sub.
Proof.
  intros a b H c d H'. rewrite eqm_iff in *. now rewrite Zminus_mod, H, H', <- Zminus_mod.
Qed.

#[export] Instance eqm_mul n : Proper (eqm n ==> eqm n ==> eqm n) Z.mul.
Proof.
  intros a b H c d H'. rewrite eqm_iff in *. now rewrite Zmult_mod, H, H', <- Zmult_mod.
Qed.

#[export] Instance eqm_opp n : Proper (eqm n ==> eqm n) Z.opp.
Proof. intros a b H. rewrite <- !Z.sub_0_l. now rewrite H. Qed.

#[export] Instance eqm_pow n : Proper (eqm n ==> eq ==> eqm n) Z.pow.
Proof.
  intros a b H k ? <-. destruct (Z_lt_le_dec k 0) as [Hk|Hk].
  - now rewrite !Z.pow_neg_r by lia.
  - revert k Hk. apply natlike_ind; [reflexivity|].
    intros k Hk IH. rewrite !Z.pow_succ_r by lia. now apply eqm_mul.
Qed.

Lemma eqm_mod n a : [mod n] a mod n == a.
Proof. apply eqm_iff. apply Zmod_mod. Qed.

Lemma eqm_mod_eq n a b : [mod n] a == b -> a mod n = b mod n.
Proof. apply eqm_iff. Qed.

Lemma eqm_small n a b : 0 <= a < n -> 0 <= b < n -> [mod n] a == b -> a = b.
Proof. rewrite eqm_iff. intros. rewrite !Z.mod_small in *; lia. Qed.

Lemma eqm_add_mul n a k : [mod n] a + k * n == a.
Proof. exists k. lia. Qed.

Lemma eqm_weaken n m a b : (m | n) -> [mod n] a == b -> [mod m] a == b.
Proof. unfold eqm. intros. now transitivity n. Qed.

Lemma eqm_0_divide n a : [mod n] a == 0 <-> (n | a).
Proof. unfold eqm. now rewrite Z.sub_0_r. Qed.

Lemma eqm_0_mod n a : [mod n] a == 0 <-> a mod n = 0.
Proof. rewrite eqm_iff. now rewrite Zmod_0_l. Qed.

#[export] Hint Rewrite eqm_mod : eqm.
#[export] Hint Resolve eqm_mod : mpc.

(** Reduce an equation between [_ mod n] to a congruence, drop the inner
    reductions and close it by ring normalisation. *)
Ltac eqm_ring :=
  match goal with
  | |- _ mod ?n = _ mod ?n => apply eqm_mod_eq
  | |- eqm _ _ _ => idtac
  end;
  rewrite ?eqm_mod;
  match goal with |- eqm ?n ?a ?b => replace a with b by ring; reflexivity end.

(** * Primes *)

(** Remove every reduction modulo [n] from a congruence modulo [n], innermost
    first. *)
Ltac unmod :=
  lazymatch goal with
  | |- eqm ?n _ _ =>
      repeat match goal with
      | |- context [?a mod n] =>
          lazymatch a with
          | context [_ mod n] => fail
          | _ => let x := fresh "m" in let H := fresh "Hm" in
                 pose proof (eqm_mod n a) as H; set (x := a mod n) in *; clearbody x
          end
      end;
      repeat match goal with
      | H : eqm n ?x _ |- _ => is_var x; try rewrite H; clear H; try clear x
      end
  end.

Lemma eqm_coprime_cancel n a b c :
  Z.coprime a n -> [mod n] a * b == a * c -> [mod n] b == c.
Proof.
  unfold eqm. rewrite <- Z.mul_sub_distr_l. intros Hc Hd.
  apply Z.gauss with a; [assumption|]. now rewrite Z.gcd_comm.
Qed.

Lemma prime_pos p : Z.prime p -> 2 <= p.
Proof. apply Z.prime_ge_2. Qed.

Lemma prime_coprime p a : Z.prime p -> a mod p <> 0 -> Z.coprime a p.
Proof.
  intros Hp Ha. symmetry. apply Z.coprime_prime_l; [assumption|].
  intros Hd. apply Ha. apply Z.mod_divide; [|assumption]. pose proof (prime_pos p Hp). lia.
Qed.

Lemma coprime_mod_ne0 p a : 2 <= p -> Z.coprime a p -> a mod p <> 0.
Proof.
  intros Hp Hc H. apply Z.mod_divide in H; [|lia].
  apply Z.divide_gcd_iff in H; [|lia]. rewrite Z.gcd_comm in H.
  unfold Z.coprime in Hc. lia.
Qed.

Lemma eqm_prime_cancel p a b c :
  Z.prime p -> a mod p <> 0 -> [mod p] a * b == a * c -> [mod p] b == c.
Proof. intros. eapply eqm_coprime_cancel; eauto using prime_coprime. Qed.

Lemma prime_mul_ne0 p a b :
  Z.prime p -> a mod p <> 0 -> b mod p <> 0 -> (a * b) mod p <> 0.
Proof.
  intros Hp Ha Hb H. apply Hb.
  assert (Hp2 := prime_pos p Hp).
  apply eqm_0_mod. apply eqm_0_mod in H.
  apply (eqm_prime_cancel p a); [assumption..|]. now rewrite Z.mul_0_r.
Qed.

Lemma eqm_ne0 p a b : [mod p] a == b -> a mod p <> 0 -> b mod p <> 0.
Proof. rewrite eqm_iff. congruence. Qed.

(** Fermat's little theorem, from the Standard Library's [Zstar]. *)
Lemma fermat p a : Z.prime p -> a mod p <> 0 -> [mod p] a ^ (p - 1) == 1.
Proof.
  intros Hp Ha. pose proof (prime_pos p Hp) as Hp2.
  pose proof (prime_coprime p a Hp Ha) as Hc.
  pose proof (ZstarBase.Zstar.fermat
                (ZstarDef.Zstar.of_Zmod (ZmodDef.Zmod.of_Z p a)) Hp) as F.
  apply (f_equal (fun z => ZmodDef.Zmod.to_Z (ZstarDef.Zstar.to_Zmod z))) in F.
  rewrite ZstarBase.Zstar.to_Zmod_pow in F.
  rewrite ZmodBase.Zmod.to_Z_pow_nonneg_r in F by lia.
  rewrite ZstarBase.Zstar.to_Zmod_of_Zmod in F.
  2:{ unfold Z.coprime. now rewrite ZmodBase.Zmod.to_Z_of_Z, Z.gcd_mod_l. }
  rewrite ZmodBase.Zmod.to_Z_of_Z, ZstarBase.Zstar.to_Zmod_1 in F.
  rewrite ZmodBase.Zmod.to_Z_1 in F by lia.
  rewrite <- Z.sub_1_r in F. rewrite <- (eqm_mod p a) at 1. apply eqm_iff.
  rewrite F. symmetry. rewrite Z.mod_small; lia.
Qed.

(** * Modular inverses *)

Lemma invmod_mul n a : Z.coprime a n -> [mod n] a * Z.invmod a n == 1.
Proof.
  intros H. rewrite Z.mul_comm. apply eqm_iff. now apply Z.invmod_coprime'.
Qed.

Lemma invmod_range n a : 0 < n -> 0 <= Z.invmod a n < n.
Proof. intros. rewrite <- Z.mod_invmod. now apply Z.mod_pos_bound. Qed.

(** A product that is congruent to one determines the inverse. *)
Lemma invmod_unique n a b : Z.coprime a n -> [mod n] a * b == 1 -> [mod n] b == Z.invmod a n.
Proof.
  intros Hc H. apply (eqm_coprime_cancel n a); [assumption|].
  now rewrite H, invmod_mul.
Qed.

Lemma eqm_1_coprime n a b : [mod n] a * b == 1 -> Z.coprime a n.
Proof.
  intros [k H]. apply Z.Bezout_coprime_iff.
  exists b, (- k). lia.
Qed.

Lemma coprime_divide_r a n m : (m | n) -> Z.coprime a n -> Z.coprime a m.
Proof.
  intros [k ->] H. apply Z.Bezout_coprime_iff in H as (u & v & H).
  apply Z.Bezout_coprime_iff. exists u, (v * k). lia.
Qed.

(** * Powers of [1 + x] modulo [x^2], and the order of units modulo [N^2] *)

Lemma one_plus_pow x n : 0 <= n -> [mod x * x] (1 + x) ^ n == 1 + n * x.
Proof.
  revert n. apply natlike_ind; [reflexivity|].
  intros n Hn IH. rewrite Z.pow_succ_r, IH by lia. exists n. ring.
Qed.

Lemma eqm_1_pow n k : 0 <= k -> [mod n] 1 ^ k == 1.
Proof. intros. rewrite Z.pow_1_l by lia. reflexivity. Qed.

(** A unit congruent to one modulo [p] has its [p]-th power congruent to one
    modulo [p^2]. *)
Lemma lift_square p a : 0 <= p -> [mod p] a == 1 -> [mod p * p] a ^ p == 1.
Proof.
  intros Hp [k Hk]. replace a with (1 + k * p) by lia.
  assert (H : [mod (k * p) * (k * p)] (1 + k * p) ^ p == 1 + p * (k * p))
    by now apply one_plus_pow.
  apply eqm_weaken with (m := p * p) in H; [|exists (k * k); ring].
  rewrite H. exists k. ring.
Qed.

Lemma fermat_square p a :
  Z.prime p -> a mod p <> 0 -> [mod p * p] a ^ ((p - 1) * p) == 1.
Proof.
  intros Hp Ha. pose proof (prime_pos p Hp). rewrite Z.pow_mul_r by lia.
  apply lift_square; [lia|]. now apply fermat.
Qed.

Lemma crt m n a b :
  Z.coprime m n -> [mod m] a == b -> [mod n] a == b -> [mod m * n] a == b.
Proof.
  unfold eqm. intros Hc [k Hk] Hn. rewrite Hk in Hn |- *.
  rewrite Z.mul_comm in Hn. apply Z.gauss in Hn; [|now rewrite Z.gcd_comm].
  destruct Hn as [j ->]. exists j. ring.
Qed.

Lemma eqm_pow_1 n a k : 0 <= k -> [mod n] a == 1 -> [mod n] a ^ k == 1.
Proof. intros Hk H. rewrite H. now apply eqm_1_pow. Qed.

(** Every unit modulo [N = p q] has order dividing [N (p-1)(q-1)] modulo [N^2]. *)
Lemma unit_order_N2 p q r :
  Z.prime p -> Z.prime q -> p <> q -> Z.coprime r (p * q) ->
  [mod (p * q) * (p * q)] r ^ ((p * q) * ((p - 1) * (q - 1))) == 1.
Proof.
  intros Hp Hq Hpq Hr. pose proof (prime_pos p Hp). pose proof (prime_pos q Hq).
  assert (Hpc : r mod p <> 0).
  { apply coprime_mod_ne0; [lia|]. apply coprime_divide_r with (p * q); [exists q; ring|easy]. }
  assert (Hqc : r mod q <> 0).
  { apply coprime_mod_ne0; [lia|]. apply coprime_divide_r with (p * q); [exists p; ring|easy]. }
  replace (p * q * (p * q)) with ((p * p) * (q * q)) by ring. apply crt.
  - assert (Z.coprime p q).
    { apply Z.coprime_prime_l; [assumption|]. intros Hd.
      apply Z.divide_prime_prime in Hd; auto. }
    auto using Z.coprime_mul_l, Z.coprime_mul_r.
  - replace (p * q * ((p - 1) * (q - 1))) with (((p - 1) * p) * (q * (q - 1))) by ring.
    rewrite Z.pow_mul_r by nia. apply eqm_pow_1; [nia|]. now apply fermat_square.
  - replace (p * q * ((p - 1) * (q - 1))) with (((q - 1) * q) * (p * (p - 1))) by ring.
    rewrite Z.pow_mul_r by nia. apply eqm_pow_1; [nia|]. now apply fermat_square.
Qed.

(** [N]-th powers modulo [N^2] only depend on the base modulo [N]. *)
Lemma pow_N_eqm N a b : 2 <= N -> [mod N] a == b -> [mod N * N] a ^ N == b ^ N.
Proof.
  intros HN [k Hk]. replace a with (b + k * N) by lia.
  assert (H : forall n, 0 <= n ->
    [mod N * N] (b + k * N) ^ Z.succ n == b ^ Z.succ n + Z.succ n * b ^ n * k * N).
  { apply natlike_ind.
    - exists 0. rewrite !Z.pow_1_r. cbn. ring.
    - intros n Hn IH. rewrite (Z.pow_succ_r _ (Z.succ n)), IH by lia.
      rewrite (Z.pow_succ_r b (Z.succ n)), (Z.pow_succ_r b n) by lia.
      exists (Z.succ n * b ^ n * k * k). ring. }
  specialize (H (N - 1) ltac:(lia)). replace (Z.succ (N - 1)) with N in H by lia. rewrite H.
  exists (b ^ (N - 1) * k). ring.
Qed.
