(* ===== verification/Primality.v ===== *)
(** Primality of the secp256k1 constants: a Pocklington criterion over [Z] and
    the certificates for the field prime and for the group order.  The curve
    parameters themselves are in [Secp256k1]. *)

From Stdlib Require Import ZArith Lia Zpow_facts Zdivisibility.
From S2P Require Import Prelude NumTheory.

(** * Small primes by trial division *)

Fixpoint no_divisor (fuel : nat) (d n : Z) : bool :=
  match fuel with
  | O => false
  | S f => if n <? d * d then true
           else if n mod d =? 0 then false else no_divisor f (d + 1) n
  end.

Definition is_prime_small (n : Z) : bool :=
  (1 <? n) && no_divisor (Z.to_nat (Z.sqrt n)) 2 n.

Lemma no_divisor_sound fuel d n :
  2 <= d -> no_divisor fuel d n = true ->
  forall e, d <= e -> e * e <= n -> ~ (e | n).
Proof.
  revert d. induction fuel as [|f IH]; intros d Hd H e He Hen; cbn in H; [discriminate|].
  destruct (Z.ltb_spec n (d * d)); [nia|].
  destruct (Z.eqb_spec (n mod d) 0); [discriminate|].
  destruct (Z.eq_dec e d) as [->|Hne].
  - intros Hdiv. apply Z.mod0_divide in Hdiv. lia.
  - apply (IH (d + 1)); auto; lia.
Qed.

(** A number with no divisor up to its square root is prime. *)
Lemma prime_sqrt n :
  1 < n -> (forall e, 1 < e -> e * e <= n -> ~ (e | n)) -> Z.prime n.
Proof.
  intros Hn H. split; [assumption|]. intros d Hd [k Hk].
  destruct (Z_le_gt_dec (d * d) n).
  - apply (H d); [lia|assumption|]. exists k. lia.
  - apply (H k); [nia|nia|]. exists d. lia.
Qed.

Lemma is_prime_small_sound n : is_prime_small n = true -> Z.prime n.
Proof.
  unfold is_prime_small. intros [H1%Z.ltb_lt H2]%andb_true_iff.
  apply prime_sqrt; [assumption|]. intros e He. eapply no_divisor_sound; eauto; lia.
Qed.

Lemma prime_factor n : 1 < n -> exists p, Z.prime p /\ (p | n).
Proof.
  intros Hn. assert (H : 0 <= n) by lia. revert n H Hn.
  apply (Z_lt_induction (fun n => 1 < n -> exists p, Z.prime p /\ (p | n))).
  intros n IH Hn. destruct (Znumtheory.prime_dec n) as [Hp|Hp].
  - exists n. split; [now apply Znumtheory.prime_alt|reflexivity].
  - apply Znumtheory.not_prime_divide in Hp as (d & Hd & Hdiv); [|lia].
    destruct (IH d) as (p & Hp & Hpd); [lia..|]. exists p. split; [assumption|].
    now transitivity d.
Qed.

(** * Pocklington's criterion *)

(** If [b^q = 1] and [b^m = 1] modulo [p] with [q], [m] coprime then [b = 1]. *)
Lemma coprime_exponents p b q m :
  0 < q -> 0 < m -> Z.coprime q m ->
  [mod p] b ^ q == 1 -> [mod p] b ^ m == 1 -> [mod p] b == 1.
Proof.
  intros Hq Hm Hc Hbq Hbm. apply Z.Bezout_coprime_iff in Hc as (u & v & H).
  (* shift the Bezout coefficients so that [u q = 1 + w m] with both sides nonnegative *)
  set (k := Z.abs u + Z.abs v).
  assert (Hsh : (u + k * m) * q = 1 + (k * q - v) * m) by lia.
  assert (E : [mod p] b ^ ((u + k * m) * q) == 1).
  { rewrite Z.mul_comm, Z.pow_mul_r by nia. apply eqm_pow_1; [nia|assumption]. }
  rewrite Hsh, Z.pow_add_r, Z.pow_1_r, (Z.mul_comm _ m), Z.pow_mul_r in E by nia.
  rewrite Hbm, eqm_1_pow, Z.mul_1_r in E by nia. exact E.
Qed.

(** ** Powers modulo [n]

    The products are reduced by a function [red] that only keeps the residue: a division,
    or the folding of the upper bits when [n] is near a power of two. *)

Fixpoint powm (red : Z -> Z) (a : Z) (e : positive) : Z :=
  match e with
  | xH => a
  | xO e => red (Z.square (powm red a e))
  | xI e => red (a * red (Z.square (powm red a e)))
  end.

Lemma powm_eqm n red a e : (forall x, [mod n] red x == x) -> [mod n] powm red a e == a ^ Zpos e.
Proof.
  intros Hr. induction e as [e IH|e IH|]; cbn [powm]; rewrite ?Hr, ?Z.square_spec, ?IH.
  - rewrite <- Z.pow_2_r, <- Z.pow_mul_r by lia. replace (Zpos e~1) with (1 + Zpos e * 2) by lia.
    now rewrite Z.pow_add_r, Z.pow_1_r by lia.
  - rewrite <- Z.pow_2_r, <- Z.pow_mul_r by lia. now replace (Zpos e~0) with (Zpos e * 2) by lia.
  - now rewrite Z.pow_1_r.
Qed.

(** [2^k] is [c] modulo [2^k - c]. *)
Definition foldm (k c x : Z) : Z := Z.land x (Z.ones k) + c * (x ≫ k).

Lemma foldm_eqm k c x : 0 <= k -> [mod 2 ^ k - c] foldm k c x == x.
Proof.
  intros Hk. unfold foldm. rewrite Z.land_ones, Z.shiftr_div_pow2 by lia.
  pose proof (Z.div_mod x (2 ^ k) ltac:(pose proof (Z.pow_pos_nonneg 2 k); lia)). exists (- (x / 2 ^ k)). lia.
Qed.

Definition fold3 (k c x : Z) : Z := foldm k c (foldm k c (foldm k c x)).

Lemma fold3_eqm k c n x : 0 <= k -> n = 2 ^ k - c -> [mod n] fold3 k c x == x.
Proof. intros Hk ->. unfold fold3. now rewrite !foldm_eqm by exact Hk. Qed.

(** ** The certificate *)

Definition power (red : Z -> Z) (a e : Z) : Z := powm red a (Z.to_pos e).

(** One prime factor [q] of [n - 1] divides [p - 1] for every prime divisor [p] of [n]. *)
Definition pock_ok (red : Z -> Z) (n a q : Z) : bool :=
  (0 <? (n - 1) / q) && ((n - 1) mod q =? 0) && (Z.gcd (power red a ((n - 1) / q) - 1) n =? 1).

Lemma pock_divides red n p q a :
  (forall x, [mod n] red x == x) -> 1 < n -> Z.prime q -> Z.prime p -> (p | n) ->
  [mod n] a ^ (n - 1) == 1 -> pock_ok red n a q = true -> (q | p - 1).
Proof.
  intros Hr Hn Hq Hp Hpn Ha. unfold pock_ok. rewrite !andb_true_iff, !Z.eqb_eq, Z.ltb_lt.
  intros [[Hm0 Hdiv] Hg]. pose proof (prime_pos q Hq). pose proof (prime_pos p Hp).
  apply Z.mod_divide in Hdiv as [m Hm]; [|lia]. rewrite Hm, Z.div_mul in Hm0, Hg by lia.
  assert (Hpow : [mod n] power red a m == a ^ m).
  { unfold power. rewrite powm_eqm by exact Hr. now rewrite Z2Pos.id by lia. }
  apply eqm_weaken with (m := p) in Ha; [|assumption].
  rewrite Hm, Z.pow_mul_r in Ha by lia.
  destruct (Znumtheory.Zdivide_dec q (p - 1)) as [Hd|Hnd]; [assumption|exfalso].
  assert (Hne : a ^ m mod p <> 0).
  { intros Hz%eqm_0_mod. rewrite Hz, Z.pow_0_l in Ha by lia.
    apply eqm_iff in Ha. rewrite !Z.mod_small in Ha; lia. }
  assert (H1 : [mod p] a ^ m == 1).
  { apply coprime_exponents with (q := q) (m := p - 1); [lia|lia| |assumption|].
    - now apply Z.coprime_prime_l.
    - now apply fermat. }
  assert (Hpd : (p | Z.gcd (power red a m - 1) n)).
  { apply Z.gcd_greatest; [|assumption]. change ([mod p] power red a m == 1). rewrite <- H1.
    now apply eqm_weaken with n. }
  rewrite Hg in Hpd. apply Z.divide_1_r in Hpd. lia.
Qed.

(** A certificate: a witness [a] and distinct primes [qs] dividing [n - 1] whose product
    exceeds the square root of [n]. *)
Definition pock_check (red : Z -> Z) (n a : Z) (qs : list Z) : bool :=
  (1 <? n) && ((power red a (n - 1) - 1) mod n =? 0) && forallb (pock_ok red n a) qs
  && (n <? (foldr Z.mul 1 qs) ^ 2).

Lemma product_divides p (qs : list Z) :
  NoDup qs -> Forall Z.prime qs -> Forall (fun q => (q | p)) qs -> (foldr Z.mul 1 qs | p).
Proof.
  induction qs as [|q qs IH]; cbn; intros Hnd Hpr Hdv; [apply Z.divide_1_l|].
  inversion_clear Hnd as [|? ? Hni Hnd']. inversion_clear Hpr as [|? ? Hq Hpr'].
  inversion_clear Hdv as [|? ? Hqp Hdv'].
  destruct (IH Hnd' Hpr' Hdv') as [k Hk].
  rewrite Hk in Hqp |- *. rewrite Z.mul_comm in Hqp.
  apply Z.gauss in Hqp as [j ->]; [exists j; ring|].
  clear IH Hnd' Hdv' Hk Hqp. induction qs as [|q' qs IH]; cbn; [apply Z.coprime_1_r|].
  apply not_elem_of_cons in Hni as [Hne Hni]. inversion_clear Hpr' as [|? ? Hq' Hpr].
  apply Z.coprime_mul_r; [|now apply IH].
  apply Z.coprime_prime_l; [assumption|]. intros Hd.
  apply Hne. now apply Z.divide_prime_prime in Hd.
Qed.

Theorem pocklington red n a qs :
  (forall x, [mod n] red x == x) -> pock_check red n a qs = true -> NoDup qs -> Forall Z.prime qs -> Z.prime n.
Proof.
  intros Hr. unfold pock_check. rewrite !andb_true_iff, !Z.ltb_lt, Z.eqb_eq.
  intros [[[Hn Hone] Hall] Hbig] Hnd Hpr. apply prime_sqrt; [assumption|].
  assert (Ha : [mod n] a ^ (n - 1) == 1).
  { apply Z.mod_divide in Hone; [|lia]. change ([mod n] power red a (n - 1) == 1) in Hone.
    unfold power in Hone. rewrite powm_eqm in Hone by exact Hr. now rewrite Z2Pos.id in Hone by lia. }
  intros e He Hee Hdiv. destruct (prime_factor e He) as (p & Hp & Hpe).
  pose proof (prime_pos p Hp) as Hp2.
  assert (Hpn : (p | n)) by now transitivity e.
  assert (HF : (foldr Z.mul 1 qs | p - 1)).
  { apply product_divides; [assumption..|]. rewrite Forall_forall in *.
    intros q Hin. apply (pock_divides red n p q a); auto.
    apply (proj1 (forallb_forall _ _) Hall). now apply list_elem_of_In. }
  apply Z.divide_pos_le in HF; [|lia]. apply Z.divide_pos_le in Hpe; [|lia].
  assert (0 <= foldr Z.mul 1 qs).
  { clear - Hpr. induction Hpr as [|q l Hq Hl IH]; cbn in *; [lia|].
    pose proof (prime_pos q Hq). nia. }
  nia.
Qed.

(** * Certificates *)

Ltac small_prime := apply is_prime_small_sound; vm_compute; reflexivity.

(** Check the certificate with the given reduction by computation; its primes are
    closed by the hint database, by trial division or by an earlier certificate. *)
Ltac pock_with red Hred qs :=
  apply (pocklington red _ 2 qs);
  [ exact Hred
  | vm_compute; reflexivity
  | apply (bool_decide_unpack (NoDup qs)); vm_compute; exact I
  | repeat (constructor; [first [assumption | solve [auto with primes] | small_prime]|]);
    constructor ].

Ltac pock qs :=
  lazymatch goal with |- Z.prime ?n => pock_with (fun x => x mod n) (eqm_mod n) qs end.

(** For [n = 2^k - c]. *)
Ltac pock_fold k c qs :=
  lazymatch goal with |- Z.prime ?n =>
    pock_with (fold3 k c) (fun x => fold3_eqm k c n x ltac:(discriminate) eq_refl) qs end.

Create HintDb primes.

Lemma prime_1627771 :
  Z.prime 1627771.
Proof. pock [1871]. Qed.
#[export] Hint Resolve prime_1627771 : primes.

Lemma prime_297159362677 :
  Z.prime 297159362677.
Proof. pock [1627771]. Qed.
#[export] Hint Resolve prime_297159362677 : primes.

Lemma prime_545358713 :
  Z.prime 545358713.
Proof. pock [28181]. Qed.
#[export] Hint Resolve prime_545358713 : primes.

Lemma prime_290476_758179 :
  Z.prime 29047611873442575647497758179.
Proof. pock [297159362677; 545358713]. Qed.
#[export] Hint Resolve prime_290476_758179 : primes.

Lemma prime_341948_283189 :
  Z.prime 341948486974166000522343609283189.
Proof. pock [29047611873442575647497758179]. Qed.
#[export] Hint Resolve prime_341948_283189 : primes.

Lemma prime_44706919 :
  Z.prime 44706919.
Proof. pock [9349]. Qed.
#[export] Hint Resolve prime_44706919 : primes.

Lemma prime_174723_371449 :
  Z.prime 174723607534414371449.
Proof. pock [44706919; 120233]. Qed.
#[export] Hint Resolve prime_174723_371449 : primes.

Lemma prime_secp256k1_N :
  Z.prime 115792089237316195423570985008687907852837564279074904382605163141518161494337.
Proof. pock_fold 256 432420386565659656852420866394968145599 [341948486974166000522343609283189; 174723607534414371449]. Qed.
#[export] Hint Resolve prime_secp256k1_N : primes.

Lemma prime_107590001 :
  Z.prime 107590001.
Proof. pock [53; 29; 7]. Qed.
#[export] Hint Resolve prime_107590001 : primes.

Lemma prime_1206781 :
  Z.prime 1206781.
Proof. pock [20113]. Qed.
#[export] Hint Resolve prime_1206781 : primes.

Lemma prime_7240687 :
  Z.prime 7240687.
Proof. pock [1206781]. Qed.
#[export] Hint Resolve prime_7240687 : primes.

Lemma prime_255515_175977 :
  Z.prime 255515944373312847190720520512484175977.
Proof. pock [107590001; 7240687; 96557]. Qed.
#[export] Hint Resolve prime_255515_175977 : primes.

Lemma prime_205115_397371 :
  Z.prime 205115282021455665897114700593932402728804164701536103180137503955397371.
Proof. pock [255515944373312847190720520512484175977]. Qed.
#[export] Hint Resolve prime_205115_397371 : primes.

Lemma prime_secp256k1_P :
  Z.prime 115792089237316195423570985008687907853269984665640564039457584007908834671663.
Proof. pock_fold 256 4294968273 [205115282021455665897114700593932402728804164701536103180137503955397371]. Qed.
#[export] Hint Resolve prime_secp256k1_P : primes.

