(* ===== verification/GoBig.v ===== *)
(** The parts of Go's [math/big] and [crypto/rand] the repository uses, on
    arbitrary-precision [Z].  These are the language's library, not code of the
    repository; each definition states the documented behaviour, nil results
    and panics included. *)

From Stdlib Require Import ZArith Lia Zcong Zdivisibility Zpow_facts.
From S2P Require Import Prelude NumTheory.

(** * Arithmetic *)

(** [z.Mod(x, y)]: Euclidean modulus, panics on zero. *)
Definition Mod (x m : Z) : res Z := if m =? 0 then Panic else Ok (x mod Z.abs m).

(** [z.Div(x, y)]: Euclidean quotient, panics on zero. *)
Definition Div (x y : Z) : res Z :=
  if y =? 0 then Panic else Ok (Z.sgn y * (x / Z.abs y)).

(** [z.Exp(x, y, m)] with a non-nil modulus: [x^y mod |m|]; for [m = 0] the
    plain power, [1] when the exponent is not positive; for a negative exponent
    the inverse is raised, nil when there is none. *)
Definition Exp (x y m : Z) : bigint :=
  if m =? 0 then Some (if y <=? 0 then 1 else x ^ y)
  else if y <? 0 then
    if Z.gcd x m =? 1 then Some (Zpow_mod (Z.invmod x (Z.abs m)) (- y) (Z.abs m)) else None
  else Some (Zpow_mod x y (Z.abs m)).

(** [z.ModInverse(g, n)]: nil when [g] and [n] are not relatively prime. *)
Definition ModInverse (g n : Z) : bigint :=
  if Z.gcd g n =? 1 then Some (Z.invmod g (Z.abs n)) else None.

(** [x.BitLen()]. *)
Definition BitLen (x : Z) : Z := if x =? 0 then 0 else Z.log2 (Z.abs x) + 1.

(** [x.Bit(i)] for a nonnegative [x]. *)
Definition Bit (x : Z) (i : nat) : Z := if Z.testbit x (Z.of_nat i) then 1 else 0.

Lemma Mod_pos x m : 0 < m -> Mod x m = Ok (x mod m).
Proof. intros H. unfold Mod. bdestr. now rewrite Z.abs_eq by lia. Qed.

Lemma Exp_pos x y m : 0 < m -> 0 <= y -> Exp x y m = Some (x ^ y mod m).
Proof.
  intros Hm Hy. unfold Exp. bdestr.
  rewrite Z.abs_eq by lia. now rewrite Zpow_mod_correct by lia.
Qed.

Lemma Exp_neg x y m : 0 < m -> y < 0 -> Z.coprime x m ->
  Exp x y m = Some (Z.invmod x m ^ (- y) mod m).
Proof.
  intros Hm Hy Hc. unfold Z.coprime in Hc. unfold Exp. bdestr.
  rewrite Z.abs_eq by lia. now rewrite Zpow_mod_correct by lia.
Qed.

Lemma ModInverse_Some g n b : 0 < n ->
  ModInverse g n = Some b -> Z.coprime g n /\ 0 <= b < n /\ [mod n] g * b == 1.
Proof.
  intros Hn. unfold ModInverse. bdestr; [|discriminate]. intros [= <-].
  rewrite Z.abs_eq by lia. split; [assumption|]. split; [now apply invmod_range|].
  now apply invmod_mul.
Qed.

Lemma ModInverse_coprime g n : 0 < n -> Z.coprime g n -> ModInverse g n = Some (Z.invmod g n).
Proof.
  intros Hn Hc. unfold Z.coprime in Hc. unfold ModInverse. bdestr.
  now rewrite Z.abs_eq by lia.
Qed.

Lemma ModInverse_None g n : ModInverse g n = None <-> ~ Z.coprime g n.
Proof. unfold ModInverse, Z.coprime. bdestr; split; congruence. Qed.

(** * Powers of units, with any exponent *)

Section units.
Context (n h : Z) (Hn : 2 <= n) (Hh : Z.coprime h n).

(** The value of [Exp(h, a, n)]. *)
Definition zpow (a : Z) : Z :=
  if a <? 0 then Z.invmod h n ^ (- a) mod n else h ^ a mod n.

Lemma Exp_zpow a : Exp h a n = Some (zpow a).
Proof.
  unfold zpow. destruct (Z.ltb_spec a 0); [apply Exp_neg; auto; lia|apply Exp_pos; lia].
Qed.

Lemma zpow_range a : 0 <= zpow a < n.
Proof. unfold zpow. destruct (a <? 0); apply Z.mod_pos_bound; lia. Qed.

Lemma unit_pow_cancel k : 0 <= k -> [mod n] h ^ k * Z.invmod h n ^ k == 1.
Proof. intros Hk. rewrite <- Z.pow_mul_l, invmod_mul by assumption. now apply eqm_1_pow. Qed.

(** The power as a quotient of natural powers. *)
Lemma zpow_shift a k : 0 <= k -> 0 <= a + k -> [mod n] zpow a == h ^ (a + k) * Z.invmod h n ^ k.
Proof.
  intros Hk Hak. unfold zpow. destruct (Z.ltb_spec a 0); rewrite eqm_mod.
  - replace k with ((a + k) + - a) at 2 by ring. rewrite (Z.pow_add_r (Z.invmod h n)) by lia.
    rewrite Z.mul_assoc, unit_pow_cancel by lia. now rewrite Z.mul_1_l.
  - rewrite (Z.pow_add_r h) by lia. rewrite <- Z.mul_assoc, unit_pow_cancel by lia. now rewrite Z.mul_1_r.
Qed.

Lemma zpow_add a b : [mod n] zpow (a + b) == zpow a * zpow b.
Proof.
  set (k := Z.abs a + Z.abs b).
  rewrite (zpow_shift (a + b) (k + k)), (zpow_shift a k), (zpow_shift b k) by lia.
  replace (a + b + (k + k)) with ((a + k) + (b + k)) by ring.
  rewrite (Z.pow_add_r h (a + k)), (Z.pow_add_r (Z.invmod h n) k) by lia. match goal with |- eqm _ ?x ?y => replace x with y by ring end. done.
Qed.

Lemma zpow_coprime a : Z.coprime (zpow a) n.
Proof.
  apply (eqm_1_coprime n _ (zpow (- a))). rewrite <- zpow_add, Z.add_opp_diag_r. unfold zpow. cbn. now rewrite eqm_mod.
Qed.

Lemma zpow_mul a e : 0 <= e -> [mod n] zpow (a * e) == zpow a ^ e.
Proof.
  intros He. set (k := Z.abs a).
  rewrite (zpow_shift (a * e) (k * e)), (zpow_shift a k) by nia.
  rewrite Z.pow_mul_l, <- !Z.pow_mul_r by lia. now replace (a * e + k * e) with ((a + k) * e) by ring.
Qed.
End units.

(** * Bytes *)

Fixpoint le_bytes (fuel : nat) (x : Z) : list Z :=
  match fuel with
  | O => []
  | S f => if x <=? 0 then [] else x mod 256 :: le_bytes f (x / 256)
  end.

(** [x.Bytes()]: the absolute value, big endian, without leading zeros. *)
Definition Bytes (x : Z) : list Z :=
  reverse (le_bytes (S (Z.to_nat (Z.log2 (Z.abs x)))) (Z.abs x)).

(** [new(big.Int).SetBytes(l)]. *)
Definition SetBytes (l : list Z) : Z := foldl (fun acc b => acc * 256 + b) 0 l.

Definition le_value (l : list Z) : Z := foldr (fun b acc => b + 256 * acc) 0 l.

Lemma SetBytes_reverse l : SetBytes (reverse l) = le_value l.
Proof.
  unfold SetBytes, le_value. induction l as [|b l IH]; [done|].
  rewrite reverse_cons, foldl_app, IH. cbn. lia.
Qed.

Lemma le_bytes_value fuel x :
  0 <= x -> (x <> 0 -> Z.log2 x < Z.of_nat fuel) -> le_value (le_bytes fuel x) = x.
Proof.
  revert x. induction fuel as [|f IH]; intros x Hx Hf; cbn.
  - destruct (Z.eq_dec x 0); [done|]. pose proof (Z.log2_nonneg x). lia.
  - bdestr; [cbn; lia|]. cbn. change (x mod 256 + 256 * le_value (le_bytes f (x / 256)) = x). rewrite IH.
    + pose proof (Z.div_mod x 256). lia.
    + apply Z.div_pos; lia.
    + intros Hne. assert (256 <= x) by (apply Z.nlt_ge; intros ?; apply Hne, Z.div_small; lia).
      assert (H2 : x / 256 = Z.shiftr x 8) by (now rewrite Z.shiftr_div_pow2 by lia).
      rewrite H2, Z.log2_shiftr by lia.
      assert (8 <= Z.log2 x) by (apply Z.log2_le_pow2; lia). lia.
Qed.

Lemma SetBytes_Bytes x : SetBytes (Bytes x) = Z.abs x.
Proof.
  unfold Bytes. rewrite SetBytes_reverse. apply le_bytes_value; [lia|].
  intros. pose proof (Z.log2_nonneg (Z.abs x)). lia.
Qed.

Lemma Bytes_inj x y : 0 <= x -> 0 <= y -> Bytes x = Bytes y -> x = y.
Proof.
  intros Hx Hy H. apply (f_equal SetBytes) in H. rewrite !SetBytes_Bytes in H. lia.
Qed.

Lemma le_bytes_length fuel x k :
  0 <= x < 256 ^ Z.of_nat k -> (length (le_bytes fuel x) <= k)%nat.
Proof.
  revert x k. induction fuel as [|f IH]; intros x k Hx; cbn; [lia|].
  destruct (Z.leb_spec x 0); [cbn; lia|]. destruct k as [|k].
  - cbn in Hx. lia.
  - cbn. apply le_n_S, IH. rewrite Nat2Z.inj_succ, Z.pow_succ_r in Hx by lia.
    split; [apply Z.div_pos; lia|apply Z.div_lt_upper_bound; lia].
Qed.

Lemma Bytes_length x k : Z.abs x < 256 ^ Z.of_nat k -> (length (Bytes x) <= k)%nat.
Proof. intros. unfold Bytes. rewrite length_reverse. apply le_bytes_length. lia. Qed.

Lemma SetBytes_app l1 l2 :
  SetBytes (l1 ++ l2) = SetBytes l1 * 256 ^ Z.of_nat (length l2) + SetBytes l2.
Proof.
  unfold SetBytes at 1. rewrite foldl_app. fold (SetBytes l1).
  generalize (SetBytes l1). induction l2 as [|b l2 IH] using rev_ind; intros a.
  - cbn. lia.
  - rewrite !foldl_app. cbn. rewrite IH. rewrite length_app. cbn.
    rewrite Nat2Z.inj_add, Z.pow_add_r by lia. unfold SetBytes. rewrite foldl_app. cbn.
    change (256 ^ Z.of_nat 1) with 256. lia.
Qed.

Lemma SetBytes_zeros n l : SetBytes (replicate n 0 ++ l) = SetBytes l.
Proof.
  rewrite SetBytes_app. replace (SetBytes (replicate n 0)) with 0; [lia|].
  unfold SetBytes. induction n as [|n IH]; [done|]. cbn. exact IH.
Qed.

Lemma SetBytes_cons b l : SetBytes (b :: l) = b * 256 ^ Z.of_nat (length l) + SetBytes l.
Proof. apply (SetBytes_app [b] l). Qed.

Lemma SetBytes_bound m : Forall (fun b => 0 <= b < 256) m ->
  0 <= SetBytes m < 256 ^ Z.of_nat (length m).
Proof.
  induction 1 as [|b m Hb Hm IH]; [cbn; lia|]. rewrite SetBytes_cons. cbn [length].
  rewrite Nat2Z.inj_succ, Z.pow_succ_r by lia. nia.
Qed.

Lemma bytes_unique l l' :
  length l = length l' -> Forall (fun b => 0 <= b < 256) l -> Forall (fun b => 0 <= b < 256) l' ->
  SetBytes l = SetBytes l' -> l = l'.
Proof.
  pose proof SetBytes_bound as Hb.
  revert l'. induction l as [|b l IH]; intros [|b' l'] Hlen Hl Hl' H; try done.
  apply Forall_cons in Hl as [Hb1 Hl]. apply Forall_cons in Hl' as [Hb2 Hl'].
  rewrite !SetBytes_cons in H. injection Hlen as Hlen. rewrite Hlen in H.
  pose proof (Hb l Hl). pose proof (Hb l' Hl'). rewrite Hlen in *.
  assert (b = b') by nia. subst. f_equal. apply IH; auto. lia.
Qed.

Lemma le_bytes_range fuel x : Forall (fun b => 0 <= b < 256) (le_bytes fuel x).
Proof.
  revert x. induction fuel as [|f IH]; intros x; cbn; [constructor|].
  destruct (x <=? 0); constructor; auto. apply Z.mod_pos_bound; lia.
Qed.

Lemma Bytes_range x : Forall (fun b => 0 <= b < 256) (Bytes x).
Proof. unfold Bytes. apply Forall_reverse, le_bytes_range. Qed.

(** Bytes without a leading zero are the encoding of their value. *)
Lemma Bytes_SetBytes b l : 0 < b -> Forall (fun b => 0 <= b < 256) (b :: l) ->
  Bytes (SetBytes (b :: l)) = b :: l.
Proof.
  intros Hb Hl. pose proof (SetBytes_bound _ Hl) as Hu.
  assert (Hlow : 256 ^ Z.of_nat (length l) <= SetBytes (b :: l)).
  { rewrite SetBytes_cons. apply Forall_cons in Hl as [_ Hl].
    pose proof (SetBytes_bound l Hl). nia. }
  pose proof (Bytes_range (SetBytes (b :: l))) as Hr.
  pose proof (SetBytes_Bytes (SetBytes (b :: l))) as E. rewrite Z.abs_eq in E by lia.
  apply bytes_unique; [|assumption..]. apply Nat.le_antisymm.
  - apply Bytes_length. rewrite Z.abs_eq; lia.
  - destruct (Nat.le_gt_cases (length (b :: l)) (length (Bytes (SetBytes (b :: l))))) as [|Hlt];
      [assumption|]. exfalso.
    pose proof (SetBytes_bound _ Hr) as Hr'. rewrite E in Hr'.
    assert (256 ^ Z.of_nat (length (Bytes (SetBytes (b :: l)))) <= 256 ^ Z.of_nat (length l)).
    { apply Z.pow_le_mono_r; [lia|]. cbn [length] in *. lia. }
    lia.
Qed.

(** [binary.LittleEndian.PutUint64] for [n = 8]. *)
Fixpoint PutUint (n : nat) (x : Z) : list Z :=
  match n with O => [] | S n' => x mod 256 :: PutUint n' (x / 256) end.

Lemma PutUint_length n x : length (PutUint n x) = n.
Proof. revert x. induction n as [|n IH]; intros x; cbn; [done|]. now rewrite IH. Qed.

(** * The Jacobi symbol *)

(** [trailingZeroBits] of a positive number. *)
Fixpoint trailingZeros (p : positive) : Z :=
  match p with xO p' => trailingZeros p' + 1 | _ => 0 end.

(** The loop of [big.Jacobi]. *)
Fixpoint jacobiLoop (fuel : nat) (a b j : Z) : res Z :=
  match fuel with
  | O => Starve
  | S f =>
      if b =? 1 then Ok j else
      if a =? 0 then Ok 0 else
      match a mod b with
      | Z.pos a =>
          let s := trailingZeros a in
          let j := if Z.odd s && ((b mod 8 =? 3) || (b mod 8 =? 5)) then - j else j in
          let c := Z.shiftr (Z.pos a) s in
          let j := if (b mod 4 =? 3) && (c mod 4 =? 3) then - j else j in
          jacobiLoop f b c j
      | _ => Ok 0
      end
  end.

(** [big.Jacobi(x, y)] for positive [y]; an even [y] panics.  The denominator
    falls to less than half in two iterations. *)
Definition Jacobi (x y : Z) : res Z :=
  if Z.even y then Panic else jacobiLoop (2 * Z.to_nat (BitLen y)) x y 1.

(** * Randomness *)

(** [rand.Int(rand.Reader, max)]: a value in [[0, max)] or a read error; panics
    when [max <= 0]. *)
Definition rand_Int (max : Z) : rnd bigint := fun t =>
  if max <=? 0 then Panic else
  match t with
  | [] => Starve
  | o :: t' => Ok ((fun v => v mod max) <$> o, t')
  end.

Lemma rand_Int_range max t v t' : rand_Int max t = Ok (Some v, t') -> 0 <= v < max.
Proof.
  unfold rand_Int. bdestr; [discriminate|]. destruct t as [|[w|] t]; cbn; intros [= <- <-].
  apply Z.mod_pos_bound. lia.
Qed.
