(* ===== verification/Random.v ===== *)
(** Sampling: [internal/common/math/random/random.go] and the random-number
    helpers of [smpc-lib/crypto/ec2/int.go].  Every function draws from the
    entropy tape of [Prelude]; the theorems hold for every tape, that is for
    every outcome of [crypto/rand]. *)

From Stdlib Require Import ZArith Lia Zdivisibility.
From S2P Require Import Prelude NumTheory GoBig.

(** * random.go *)

(** [GetRandomInt]: a value below [2^length - 1], nil on a read error. *)
Definition GetRandomInt (length : Z) : rnd bigint :=
  let maxi := Z.shiftl 1 length in
  let maxi := maxi - 1 in
  rand_Int maxi.

Definition GetRandomIntFromZn (n : Z) : rnd Z :=
  loop (o ← GetRandomInt (BitLen n);
        mret (match o with
              | Some r => if (r <? n) && (0 <=? r) then Some r else None
              | None => None
              end)).

Definition GetRandomIntFromZnStar (n : Z) : rnd Z :=
  loop (o ← GetRandomInt (BitLen n);
        mret (match o with
              | Some r => if (r <? n) && (1 <=? r) && (Z.gcd r n =? 1) then Some r else None
              | None => None
              end)).

(** * int.go *)

Definition mustGetRandomIntMaxBits : Z := 5000.

Definition MustGetRandomInt (bits : Z) : rnd Z :=
  if (bits <=? 0) || (mustGetRandomIntMaxBits <? bits) then lift Panic else
  let max := 2 ^ bits - 1 in
  o ← rand_Int max;
  lift (deref o).

Definition IsNumberInMultiplicativeGroup (n v : bigint) : bool :=
  match n, v with
  | Some n, Some v =>
      if negb (0 <? n) then false
      else (v <? n) && (1 <=? v) && (Z.gcd v n =? 1)
  | _, _ => false
  end.

Definition GetRandomPositiveRelativelyPrimeInt (n : bigint) : rnd bigint :=
  match n with
  | None => mret None
  | Some n0 =>
      if negb (0 <? n0) then mret None else
      try ← loop (try ← MustGetRandomInt (BitLen n0);
                  mret (if IsNumberInMultiplicativeGroup n (Some try) then Some try else None));
      mret (Some try)
  end.

Definition GetRandomPositiveInt (upper : bigint) : rnd bigint :=
  match upper with
  | None => mret None
  | Some u =>
      if negb (0 <? u) then mret None else
      try ← loop (try ← MustGetRandomInt (BitLen u);
                  mret (if (try <? u) && (0 <=? try) then Some try else None));
      mret (Some try)
  end.

(** * Ranges *)

Lemma GetRandomIntFromZn_range n t v t' :
  GetRandomIntFromZn n t = Ok (v, t') -> 0 <= v < n.
Proof.
  apply (loop_post (fun v => 0 <= v < n)). intros t1 a t1' H. inv_ok.
  destruct x as [r|]; [|discriminate].
  destruct (Z.ltb_spec r n), (Z.leb_spec 0 r); cbn in *; inv_ok; simplify_eq; lia.
Qed.

Lemma GetRandomIntFromZnStar_range n t v t' :
  GetRandomIntFromZnStar n t = Ok (v, t') -> 1 <= v < n /\ Z.coprime v n.
Proof.
  apply (loop_post (fun v => 1 <= v < n /\ Z.coprime v n)). intros t1 a t1' H. inv_ok.
  destruct x as [r|]; [|discriminate].
  destruct (Z.ltb_spec r n), (Z.leb_spec 1 r), (Z.eqb_spec (Z.gcd r n) 1);
    cbn in *; inv_ok; simplify_eq; auto.
Qed.

Lemma IsNumberInMultiplicativeGroup_true n v :
  IsNumberInMultiplicativeGroup (Some n) (Some v) = true <-> 1 <= v < n /\ Z.coprime v n.
Proof.
  unfold IsNumberInMultiplicativeGroup, Z.coprime.
  destruct (Z.ltb_spec 0 n), (Z.ltb_spec v n), (Z.leb_spec 1 v), (Z.eqb_spec (Z.gcd v n) 1);
    cbn; naive_solver lia.
Qed.

Lemma MustGetRandomInt_range bits t v t' :
  MustGetRandomInt bits t = Ok (v, t') -> 0 < bits /\ 0 <= v < 2 ^ bits - 1.
Proof.
  unfold MustGetRandomInt.
  destruct (Z.leb_spec bits 0), (Z.ltb_spec mustGetRandomIntMaxBits bits); cbn; try discriminate.
  intros Hr. inv_ok. simplify_eq. split; [lia|]. eapply rand_Int_range; eauto.
Qed.

Lemma GetRandomPositiveRelativelyPrimeInt_range n t v t' :
  GetRandomPositiveRelativelyPrimeInt (Some n) t = Ok (Some v, t') ->
  1 <= v < n /\ Z.coprime v n.
Proof.
  unfold GetRandomPositiveRelativelyPrimeInt. destruct (negb (0 <? n)); [inversion 1|].
  intros H. inv_ok. simplify_eq. revert H. apply (loop_post (fun v => 1 <= v < n /\ Z.coprime v n)). intros t1 a t1' H. inv_ok.
  destruct (IsNumberInMultiplicativeGroup _ _) eqn:E; inv_ok; simplify_eq.
  now apply IsNumberInMultiplicativeGroup_true.
Qed.

Lemma GetRandomPositiveInt_range u t v t' :
  GetRandomPositiveInt (Some u) t = Ok (Some v, t') -> 0 <= v < u.
Proof.
  unfold GetRandomPositiveInt. destruct (negb (0 <? u)); [inversion 1|].
  intros H. inv_ok. simplify_eq. revert H. apply (loop_post (fun v => 0 <= v < u)).
  intros t1 a t1' H. inv_ok.
  destruct (Z.ltb_spec x1 u), (Z.leb_spec 0 x1); cbn in *; simplify_eq; lia.
Qed.

#[export] Hint Resolve GetRandomIntFromZn_range GetRandomIntFromZnStar_range : mpc.

(** * Progress *)

Lemma BitLen_pos n : 0 < n -> 1 <= BitLen n /\ n < 2 ^ BitLen n.
Proof.
  intros Hn. unfold BitLen. bdestr. rewrite Z.abs_eq by lia.
  pose proof (Z.log2_nonneg n). pose proof (Z.log2_spec n Hn) as [_ Hs].
  rewrite <- Z.add_1_r in Hs. lia.
Qed.

(** Rejection sampling from [Z_n] returns as soon as the tape offers a value
    below [n] (and below the sampler's bound [2^BitLen(n) - 1]). *)
Lemma GetRandomIntFromZn_returns n t v :
  0 < n -> Some v ∈ t -> 0 <= v < n -> v < 2 ^ BitLen n - 1 ->
  exists r t', GetRandomIntFromZn n t = Ok (r, t').
Proof.
  intros Hn Hin Hv Hb. unfold GetRandomIntFromZn.
  pose proof (BitLen_pos n Hn) as [Hb1 Hb2].
  eapply loop_returns with (f := fun o =>
    r ← (fun v => v mod (Z.shiftl 1 (BitLen n) - 1)) <$> o;
    if (r <? n) && (0 <=? r) then Some r else None).
  - intros o t1. unfold GetRandomInt, rand_Int. rewrite Z.shiftl_1_l. cbn.
    destruct (Z.leb_spec (2 ^ BitLen n - 1) 0); [lia|]. cbn.
    now destruct o.
  - exists (Some v). split; [assumption|]. cbn.
    rewrite Z.shiftl_1_l, Z.mod_small by lia.
    destruct (Z.ltb_spec v n), (Z.leb_spec 0 v); try lia. cbn. eauto.
Qed.

(** A draw that is in range is returned at once. *)
Lemma loop_hit {A} (body : rnd (option A)) t a t' :
  body t = Ok (Some a, t') -> loop body t = Ok (a, t').
Proof. intros H. unfold loop. cbn [retry]. now rewrite H. Qed.

Lemma GetRandomInt_hit n v t :
  0 <= v < n -> v < 2 ^ BitLen n - 1 -> GetRandomInt (BitLen n) (Some v :: t) = Ok (Some v, t).
Proof.
  intros Hv Hb. unfold GetRandomInt, rand_Int. rewrite Z.shiftl_1_l.
  destruct (Z.leb_spec (2 ^ BitLen n - 1) 0); [lia|]. cbn. now rewrite Z.mod_small by lia.
Qed.

Lemma GetRandomIntFromZn_hit n v t :
  0 <= v < n -> v < 2 ^ BitLen n - 1 -> GetRandomIntFromZn n (Some v :: t) = Ok (v, t).
Proof.
  intros Hv Hb. apply loop_hit. unfold mbind, rnd_bind. rewrite GetRandomInt_hit by assumption.
  cbn. destruct (Z.ltb_spec v n), (Z.leb_spec 0 v); try lia. done.
Qed.

Lemma GetRandomIntFromZnStar_hit n v t :
  1 <= v < n -> Z.coprime v n -> v < 2 ^ BitLen n - 1 ->
  GetRandomIntFromZnStar n (Some v :: t) = Ok (v, t).
Proof.
  intros Hv Hc Hb. apply loop_hit. unfold mbind, rnd_bind. rewrite GetRandomInt_hit by lia.
  cbn. unfold Z.coprime in Hc. rewrite Hc.
  destruct (Z.ltb_spec v n), (Z.leb_spec 1 v); try lia. done.
Qed.

Lemma GetRandomPositiveInt_hit u v t :
  0 <= v < u -> v < 2 ^ BitLen u - 1 -> BitLen u <= mustGetRandomIntMaxBits ->
  GetRandomPositiveInt (Some u) (Some v :: t) = Ok (Some v, t).
Proof.
  intros Hv Hb Hm. pose proof (BitLen_pos u ltac:(lia)) as [Hb1 _]. unfold GetRandomPositiveInt.
  destruct (Z.ltb_spec 0 u); [|lia]. cbn [negb].
  erewrite rnd_bind_run; [reflexivity|]. apply loop_hit. unfold MustGetRandomInt.
  destruct (Z.leb_spec (BitLen u) 0), (Z.ltb_spec mustGetRandomIntMaxBits (BitLen u));
    try lia. cbn [orb].
  assert (Er : rand_Int (2 ^ BitLen u - 1) (Some v :: t) = Ok (Some v, t)).
  { unfold rand_Int. destruct (Z.leb_spec (2 ^ BitLen u - 1) 0); [lia|].
    cbn [fmap option_fmap option_map]. now rewrite Z.mod_small by lia. }
  erewrite rnd_bind_run by (erewrite rnd_bind_run by exact Er; reflexivity).
  destruct (Z.ltb_spec v u), (Z.leb_spec 0 v); try lia. done.
Qed.
