(* ===== verification/Secp256k1.v ===== *)
(** The curve package [crypto/secp256k1/curve.go]: the [BitCurve] structure, its
    Jacobian addition and doubling, point encoding, and the Go wrapper around
    the C scalar multiplication.  The C routine
    [smpc_secp256k1_ext_scalar_mul] is a parameter (field [ext_scalar_mul] of
    the class [Curve]). *)

From Stdlib Require Import ZArith Lia Zcong Zdivisibility.
From S2P Require Import Prelude NumTheory Primality GoBig.

(** * Data *)

Record BitCurve := mkBitCurve {
  cP : Z;        (* the order of the underlying field *)
  cN : Z;        (* the order of the base point *)
  cB : Z;        (* the constant of the curve equation *)
  cGx : Z; cGy : Z;
  cBitSize : Z
}.

(** [theCurve], as [init] sets it. *)
Definition theCurve : BitCurve := {|
  cP := 0xFFFFFFFFFFFFFFFFFFFFFFFFFFFFFFFFFFFFFFFFFFFFFFFFFFFFFFFEFFFFFC2F;
  cN := 0xFFFFFFFFFFFFFFFFFFFFFFFFFFFFFFFEBAAEDCE6AF48A03BBFD25E8CD0364141;
  cB := 0x0000000000000000000000000000000000000000000000000000000000000007;
  cGx := 0x79BE667EF9DCBBAC55A06295CE870B07029BFCDB2DCE28D959F2815B16F81798;
  cGy := 0x483ADA7726A3C4655DA4FBFC0E1108A8FD17B448A68554199C47D08FFB10D4B8;
  cBitSize := 256
|}.

(** A pair of coordinates as the Go code passes them: both may be nil. *)
Abbreviation gpoint := (option Z * option Z)%type.

Definition nilpt : gpoint := (None, None).
Definition mkpt (p : Z * Z) : gpoint := (Some p.1, Some p.2).

(** * readBits: big-endian bytes of the absolute value *)

Definition wordBytes : nat := 8.

Fixpoint le_words (fuel : nat) (x : Z) : list Z :=
  match fuel with
  | O => []
  | S f => if x <=? 0 then [] else x mod 2 ^ 64 :: le_words f (x / 2 ^ 64)
  end.

(** [x.Bits()]: the words of the absolute value, little endian. *)
Definition Bits (x : Z) : list Z :=
  le_words (S (Z.to_nat (Z.log2 (Z.abs x)))) (Z.abs x).

(** The inner loop: at most [wordBytes] bytes of one word, going left. *)
Fixpoint readWord (j : nat) (d : Z) (i : nat) (buf : list Z) : nat * list Z :=
  match j with
  | O => (i, buf)
  | S j' =>
      match i with
      | O => (O, buf)
      | S i' => readWord j' (Z.shiftr d 8) i' (<[i' := d mod 256]> buf)
      end
  end.

Definition readBits (x : Z) (buf : list Z) : list Z :=
  snd (foldl (fun '(i, b) d => readWord wordBytes d i b) (length buf, buf) (Bits x)).

Section curve.
Variable C : BitCurve.

(** * Group operations *)

Definition IsOnCurve (x y : Z) : bool :=
  let y2 := y * y in
  let y2 := y2 mod cP C in
  let x3 := x * x in
  let x3 := x3 * x in
  let x3 := x3 + cB C in
  let x3 := x3 mod cP C in
  x3 =? y2.

Definition affineFromJacobian (x y z : Z) : gpoint :=
  match ModInverse z (cP C) with
  | None => nilpt
  | Some zinv =>
      let zinvsq := zinv * zinv in
      let xOut := x * zinvsq in
      let xOut := xOut mod cP C in
      let zinvsq := zinvsq * zinv in
      let yOut := y * zinvsq in
      let yOut := yOut mod cP C in
      (Some xOut, Some yOut)
  end.

Definition addJacobian (x1 y1 z1 x2 y2 z2 : Z) : Z * Z * Z :=
  let p := cP C in
  let z1z1 := (z1 * z1) mod p in
  let z2z2 := (z2 * z2) mod p in
  let u1 := (x1 * z2z2) mod p in
  let u2 := (x2 * z1z1) mod p in
  let h := u2 - u1 in
  let h := if h <? 0 then h + p else h in
  let i := Z.shiftl h 1 in
  let i := i * i in
  let j := h * i in
  let s1 := y1 * z2 in
  let s1 := (s1 * z2z2) mod p in
  let s2 := y2 * z1 in
  let s2 := (s2 * z1z1) mod p in
  let r := s2 - s1 in
  let r := if r <? 0 then r + p else r in
  let r := Z.shiftl r 1 in
  let v := u1 * i in
  let x3 := r * r in
  let x3 := x3 - j in
  let x3 := x3 - v in
  let x3 := x3 - v in
  let x3 := x3 mod p in
  let v := v - x3 in
  let y3 := r * v in
  let s1 := s1 * j in
  let s1 := Z.shiftl s1 1 in
  let y3 := y3 - s1 in
  let y3 := y3 mod p in
  let z3 := z1 + z2 in
  let z3 := z3 * z3 in
  let z3 := z3 - z1z1 in
  let z3 := if z3 <? 0 then z3 + p else z3 in
  let z3 := z3 - z2z2 in
  let z3 := if z3 <? 0 then z3 + p else z3 in
  let z3 := z3 * h in
  let z3 := z3 mod p in
  (x3, y3, z3).

(** [Add] on non-nil coordinates. *)
Definition addZ (x1 y1 x2 y2 : Z) : gpoint :=
  let z := 1 in
  let '(x3, y3, z3) := addJacobian x1 y1 z x2 y2 z in
  affineFromJacobian x3 y3 z3.

(** [Add] panics on a nil coordinate. *)
Definition Add (p q : gpoint) : res gpoint :=
  x1 ← deref p.1; y1 ← deref p.2; x2 ← deref q.1; y2 ← deref q.2;
  Ok (addZ x1 y1 x2 y2).

Definition doubleJacobian (x y z : Z) : Z * Z * Z :=
  let a := x * x in
  let b := y * y in
  let c := b * b in
  let d := x + b in
  let d := d * d in
  let d := d - a in
  let d := d - c in
  let d := d * 2 in
  let e := 3 * a in
  let f := e * e in
  let x3 := 2 * d in
  let x3 := f - x3 in
  let x3 := x3 mod cP C in
  let y3 := d - x3 in
  let y3 := e * y3 in
  let y3 := y3 - 8 * c in
  let y3 := y3 mod cP C in
  let z3 := y * z in
  let z3 := 2 * z3 in
  let z3 := z3 mod cP C in
  (x3, y3, z3).

Definition Double (p : gpoint) : res gpoint :=
  x1 ← deref p.1; y1 ← deref p.2;
  let z1 := 1 in
  let '(x3, y3, z3) := doubleJacobian x1 y1 z1 in
  Ok (affineFromJacobian x3 y3 z3).

Definition N3 : Z :=
  let N3 := cN C * cN C in
  let N3 := N3 * cN C in
  N3.

(** * Encoding *)

Definition byteLen : nat := Z.to_nat (Z.shiftr (cBitSize C + 7) 3).

Definition Marshal (x y : Z) : list Z :=
  4 :: readBits x (replicate byteLen 0) ++ readBits y (replicate byteLen 0).

Definition Unmarshal (data : list Z) : gpoint :=
  if negb (Nat.eqb (length data) (1 + 2 * byteLen)) then nilpt else
  match data with
  | b :: rest =>
      if negb (b =? 4) then nilpt
      else (Some (SetBytes (take byteLen rest)), Some (SetBytes (drop byteLen rest)))
  | [] => nilpt
  end.
End curve.

(** * Scalar multiplication *)

(** The package's state: the curve [S256()] returns and the C library's
    multiplication, from the 64 bytes of a point and the 32 bytes of a scalar
    to the 64 bytes of the product, or failure. *)
Class Curve := {
  S256 : BitCurve;
  ext_scalar_mul : list Z -> list Z -> option (list Z)
}.

Section scalar.
Context `{E : Curve}.

Definition ScalarMult (b : gpoint) (scalar : list Z) : res gpoint :=
  if (32 <? Z.of_nat (length scalar)) then Panic else
  let padded := replicate (32 - length scalar) 0 ++ scalar in
  Bx ← deref b.1; By ← deref b.2;
  let point := readBits Bx (replicate 32 0) ++ readBits By (replicate 32 0) in
  match ext_scalar_mul point padded with
  | Some point' => Ok (Some (SetBytes (take 32 point')), Some (SetBytes (drop 32 point')))
  | None => Ok nilpt
  end.

Definition ScalarBaseMult (k : list Z) : res gpoint :=
  ScalarMult (Some (cGx S256), Some (cGy S256)) k.

Definition KMulG (k : list Z) : res gpoint := ScalarBaseMult k.
End scalar.
