(* ===== verification/CurveFacts.v ===== *)
(** Correctness of the Jacobian arithmetic of [Secp256k1]: addition and doubling
    agree with the textbook affine formulas, stay on the curve, and return nil
    exactly when the formulas divide by zero; encodings round-trip. *)

From Stdlib Require Import ZArith Lia Zcong Zdivisibility.
From S2P Require Import Prelude NumTheory Primality GoBig Secp256k1.

(** * The textbook affine formulas *)

Section textbook.
Variable C : BitCurve.

(** Sum of two points with different abscissas. *)
Definition chord (a b : Z * Z) : Z * Z :=
  let '(x1, y1) := a in
  let '(x2, y2) := b in
  let lam := (y2 - y1) * Z.invmod (x2 - x1) (cP C) in
  let x3 := (lam * lam - x1 - x2) mod cP C in
  (x3, (lam * (x1 - x3) - y1) mod cP C).

(** Double of a point with nonzero ordinate. *)
Definition tangent (a : Z * Z) : Z * Z :=
  let '(x, y) := a in
  let lam := 3 * x * x * Z.invmod (2 * y) (cP C) in
  let x3 := (lam * lam - 2 * x) mod cP C in
  (x3, (lam * (x - x3) - y) mod cP C).

Definition on_curve (a : Z * Z) : Prop :=
  [mod cP C] a.2 * a.2 == a.1 * a.1 * a.1 + cB C.

Lemma IsOnCurve_iff x y : IsOnCurve C x y = true <-> on_curve (x, y).
Proof.
  unfold IsOnCurve, on_curve. rewrite Z.eqb_eq, eqm_iff. cbn. intuition congruence.
Qed.

Context (HP : 2 < cP C).

Lemma addJacobian_affine x1 y1 x2 y2 :
  let h := x2 - x1 in let r := 2 * (y2 - y1) in
  exists x3 y3 z3, addJacobian C x1 y1 1 x2 y2 1 = (x3, y3, z3) /\
    [mod cP C] x3 == r * r - 4 * h * h * h - 8 * x1 * h * h /\
    [mod cP C] y3 == r * (4 * x1 * h * h - x3) - 8 * y1 * h * h * h /\
    [mod cP C] z3 == 2 * h.
Proof.
  intros h r. eexists _, _, _. split; [reflexivity|].
  assert (H1 : (1 * 1) mod cP C = 1) by (apply Z.mod_small; lia).
  rewrite !H1. cbn zeta.
  assert (Hn : forall a, [mod cP C] (if a <? 0 then a + cP C else a) == a).
  { intros a. bdestr; [|reflexivity]. rewrite <- (Z.mul_1_l (cP C)) at 2. apply eqm_add_mul. }
  assert (Hm : forall a, [mod cP C] a mod cP C == a) by (intros; apply eqm_mod).
  rewrite !Z.shiftl_mul_pow2 by lia.
  split_and!.
  - rewrite !Hm, !Hn, !Hm. subst h r. apply eqm_iff. f_equal. ring.
  - rewrite Hm. set (x3 := (_ - _ - _ - _) mod _). rewrite !Hn, !Hm.
    subst h r. apply eqm_iff. f_equal. ring.
  - change ((1 + 1) * (1 + 1) - 1) with 3. cbn [Z.ltb Z.compare].
    change (3 - 1) with 2. cbn [Z.ltb Z.compare].
    rewrite Hm, Hn, !Hm. subst h. apply eqm_iff. f_equal. ring.
Qed.

(** Reversing the Jacobian transform, for an invertible [z]. *)
Lemma affine_Some x y z :
  Z.coprime z (cP C) -> exists zinv, [mod cP C] z * zinv == 1 /\
  affineFromJacobian C x y z =
    mkpt ((x * (zinv * zinv)) mod cP C, (y * (zinv * zinv * zinv)) mod cP C).
Proof.
  intros Hz. exists (Z.invmod z (cP C)). split; [now apply invmod_mul|].
  unfold affineFromJacobian. now rewrite ModInverse_coprime by (lia || assumption).
Qed.

Context (HPp : Z.prime (cP C)).

Lemma two_ne0 : 2 mod cP C <> 0.
Proof. rewrite Z.mod_small; lia. Qed.

(** Jacobian addition is chord addition, or nil for equal abscissas. *)
Lemma addZ_spec x1 y1 x2 y2 :
  addZ C x1 y1 x2 y2 =
  if (x2 - x1) mod cP C =? 0 then nilpt else mkpt (chord (x1, y1) (x2, y2)).
Proof.
  unfold addZ. destruct (addJacobian_affine x1 y1 x2 y2) as (x3 & y3 & z3 & -> & Hx & Hy & Hz).
  destruct (Z.eqb_spec ((x2 - x1) mod cP C) 0) as [H0|Hh].
  - unfold affineFromJacobian. replace (ModInverse z3 (cP C)) with (@None Z); [done|].
    symmetry. apply ModInverse_None. intros Hc. apply coprime_mod_ne0 in Hc; [|lia].
    apply Hc. apply eqm_0_mod in H0. apply eqm_0_mod. now rewrite Hz, H0.
  - assert (Hz0 : z3 mod cP C <> 0).
    { apply (eqm_ne0 _ (2 * (x2 - x1))); [now symmetry|].
      apply prime_mul_ne0; auto using two_ne0. }
    destruct (affine_Some x3 y3 z3) as (zi & Hzi & ->); [now apply prime_coprime|].
    rewrite Hz in Hzi. cbn [chord].
    set (h := x2 - x1) in *. set (k := Z.invmod h (cP C)).
    assert (Hk : [mod cP C] k == 2 * zi).
    { symmetry. apply invmod_unique; [now apply prime_coprime|].
      rewrite <- Hzi. apply eqm_iff. f_equal. ring. }
    assert (Ex : [mod cP C] x3 * (zi * zi) ==
                 (y2 - y1) * k * ((y2 - y1) * k) - x1 - x2).
    { rewrite Hx, Hk.
      transitivity ((y2 - y1) * (2 * zi) * ((y2 - y1) * (2 * zi))
                    - (2 * h * zi) * (2 * h * zi) * (h + 2 * x1)).
      - apply eqm_iff. f_equal. ring.
      - rewrite Hzi. apply eqm_iff. f_equal. unfold h. ring. }
    unfold mkpt. cbn [fst snd]. f_equal; f_equal; apply eqm_mod_eq; [exact Ex|].
    rewrite eqm_mod, <- Ex, Hy, Hk.
    transitivity ((y2 - y1) * (2 * zi) * (x1 * ((2 * h * zi) * (2 * h * zi)) - x3 * (zi * zi))
                  - y1 * ((2 * h * zi) * (2 * h * zi) * (2 * h * zi))).
    + apply eqm_iff. f_equal. ring.
    + rewrite Hzi. apply eqm_iff. f_equal. ring.
Qed.

(** The chord through two points of the curve meets it again at the result. *)
Lemma chord_on_curve x1 y1 x2 y2 :
  (x2 - x1) mod cP C <> 0 -> on_curve (x1, y1) -> on_curve (x2, y2) ->
  on_curve (chord (x1, y1) (x2, y2)).
Proof.
  unfold on_curve. cbn [chord fst snd]. intros Hh H1 H2.
  set (k := Z.invmod (x2 - x1) (cP C)).
  assert (Hk : [mod cP C] (x2 - x1) * k == 1) by now apply invmod_mul, prime_coprime.
  set (lam := (y2 - y1) * k). set (x3 := lam * lam - x1 - x2).
  assert (Hl : [mod cP C] lam * (x2 - x1) == y2 - y1).
  { unfold lam. transitivity ((y2 - y1) * ((x2 - x1) * k)).
    - apply eqm_iff. f_equal. ring.
    - rewrite Hk. apply eqm_iff. f_equal. ring. }
  rewrite !eqm_mod.
  (* the quadratic factor of the cubic at x1 vanishes at x2, hence at x3 *)
  set (g := fun x => x * x + x * x1 + x1 * x1 - lam * lam * (x - x1) - 2 * lam * y1).
  assert (Hg2 : [mod cP C] g x2 == 0).
  { apply (eqm_prime_cancel _ (x2 - x1)); auto. rewrite Z.mul_0_r.
    transitivity ((x2 * x2 * x2 + cB C) - (x1 * x1 * x1 + cB C)
                  - (lam * (x2 - x1)) * (lam * (x2 - x1)) - 2 * y1 * (lam * (x2 - x1))).
    - apply eqm_iff. f_equal. unfold g. ring.
    - rewrite <- H1, <- H2, Hl. apply eqm_iff. f_equal. ring. }
  assert (Hg3 : [mod cP C] g x3 == 0).
  { rewrite <- Hg2. apply eqm_iff. f_equal. unfold g, x3. ring. }
  transitivity (x3 * x3 * x3 + cB C - (x3 - x1) * g x3 + (y1 * y1 - (x1 * x1 * x1 + cB C))).
  - apply eqm_iff. f_equal. unfold g. ring.
  - rewrite Hg3, H1. apply eqm_iff. f_equal. ring.
Qed.

(** Jacobian doubling is the tangent rule, or nil for a zero ordinate. *)
Lemma double_spec x y :
  Double C (mkpt (x, y)) = Ok (if y mod cP C =? 0 then nilpt else mkpt (tangent (x, y))).
Proof.
  unfold Double. cbn [mkpt deref fst snd]. cbn [mbind res_bind doubleJacobian]. f_equal.
  set (x3 := (_ - 2 * _) mod _). set (y3 := (_ - 8 * _) mod _). set (z3 := (2 * _) mod _).
  assert (Hx : [mod cP C] x3 == 9 * x * x * x * x - 8 * x * (y * y)).
  { unfold x3. rewrite eqm_mod. apply eqm_iff. f_equal. ring. }
  assert (Hy : [mod cP C] y3 == 3 * x * x * (4 * x * (y * y) - x3) - 8 * (y * y * y * y)).
  { unfold y3. rewrite eqm_mod. apply eqm_iff. f_equal. ring. }
  assert (Hz : [mod cP C] z3 == 2 * y).
  { unfold z3. rewrite eqm_mod. apply eqm_iff. f_equal. ring. }
  clearbody x3 y3 z3. destruct (Z.eqb_spec (y mod cP C) 0) as [H0|Hh].
  - unfold affineFromJacobian. replace (ModInverse z3 (cP C)) with (@None Z); [done|].
    symmetry. apply ModInverse_None. intros Hc. apply coprime_mod_ne0 in Hc; [|lia].
    apply Hc. apply eqm_0_mod in H0. apply eqm_0_mod. now rewrite Hz, H0.
  - assert (H2y : (2 * y) mod cP C <> 0) by (apply prime_mul_ne0; auto using two_ne0).
    destruct (affine_Some x3 y3 z3) as (zi & Hzi & ->).
    { apply prime_coprime; [assumption|]. apply (eqm_ne0 _ (2 * y)); [now symmetry|assumption]. }
    rewrite Hz in Hzi. cbn [tangent]. set (k := Z.invmod (2 * y) (cP C)).
    assert (Hk : [mod cP C] k == zi).
    { symmetry. apply invmod_unique; [now apply prime_coprime|assumption]. }
    assert (Ex : [mod cP C] x3 * (zi * zi) ==
                 3 * x * x * k * (3 * x * x * k) - 2 * x).
    { rewrite Hx, Hk.
      transitivity (3 * x * x * zi * (3 * x * x * zi) - 2 * x * ((2 * y * zi) * (2 * y * zi))).
      - apply eqm_iff. f_equal. ring.
      - rewrite Hzi. apply eqm_iff. f_equal. ring. }
    unfold mkpt. cbn [fst snd]. f_equal; f_equal; apply eqm_mod_eq; [exact Ex|].
    rewrite eqm_mod, <- Ex, Hy, Hk.
    transitivity (3 * x * x * zi * (x * ((2 * y * zi) * (2 * y * zi)) - x3 * (zi * zi))
                  - y * ((2 * y * zi) * (2 * y * zi) * (2 * y * zi))).
    + apply eqm_iff. f_equal. ring.
    + rewrite Hzi. apply eqm_iff. f_equal. ring.
Qed.

Lemma tangent_on_curve x y :
  y mod cP C <> 0 -> on_curve (x, y) -> on_curve (tangent (x, y)).
Proof.
  unfold on_curve. cbn [tangent fst snd]. intros Hy H1.
  set (k := Z.invmod (2 * y) (cP C)).
  assert (Hk : [mod cP C] 2 * y * k == 1).
  { apply invmod_mul, prime_coprime; auto. apply prime_mul_ne0; auto using two_ne0. }
  set (lam := 3 * x * x * k). set (x3 := lam * lam - 2 * x).
  assert (Hl : [mod cP C] 2 * y * lam == 3 * x * x).
  { unfold lam. transitivity (3 * x * x * (2 * y * k)).
    - apply eqm_iff. f_equal. ring.
    - rewrite Hk. apply eqm_iff. f_equal. ring. }
  rewrite !eqm_mod.
  set (g := fun u => u * u + u * x + x * x - lam * lam * (u - x) - 2 * y * lam).
  assert (Hg3 : [mod cP C] g x3 == 0).
  { transitivity (3 * x * x - 2 * y * lam).
    - apply eqm_iff. f_equal. unfold g, x3. ring.
    - rewrite Hl. apply eqm_iff. f_equal. ring. }
  transitivity (x3 * x3 * x3 + cB C - (x3 - x) * g x3 + (y * y - (x * x * x + cB C))).
  - apply eqm_iff. f_equal. unfold g. ring.
  - rewrite Hg3, H1. apply eqm_iff. f_equal. ring.
Qed.
End textbook.

(** * The curve constants *)

Lemma theCurve_P_prime : Z.prime (cP theCurve).
Proof. exact prime_secp256k1_P. Qed.

Lemma theCurve_N_prime : Z.prime (cN theCurve).
Proof. exact prime_secp256k1_N. Qed.

Lemma theCurve_G_on_curve : IsOnCurve theCurve (cGx theCurve) (cGy theCurve) = true.
Proof. vm_compute. reflexivity. Qed.

(** * readBits *)

Lemma insert_replicate_app i b l :
  <[i := b]> (replicate (S i) 0 ++ l) = replicate i 0 ++ b :: l.
Proof.
  rewrite replicate_S_end, <- app_assoc. cbn.
  rewrite insert_app_r_alt by (rewrite length_replicate; lia).
  rewrite length_replicate, Nat.sub_diag. done.
Qed.

Lemma readWord_spec j d i l :
  0 <= d -> exists l', readWord j d i (replicate i 0 ++ l) =
    ((i - j)%nat, replicate (i - j) 0 ++ l') /\
    length l' = (length l + Nat.min j i)%nat /\
    SetBytes l' = SetBytes l
      + 256 ^ Z.of_nat (length l) * (d mod 256 ^ Z.of_nat (Nat.min j i)).
Proof.
  revert d i l. induction j as [|j IH]; intros d i l Hd.
  - exists l. rewrite Nat.sub_0_r, Nat.min_0_l, Z.mod_1_r. cbn. split_and!; [done|lia|lia].
  - destruct i as [|i].
    + exists l. cbn. rewrite Z.mod_1_r. split_and!; [done|lia|lia].
    + cbn [readWord]. rewrite insert_replicate_app.
      destruct (IH (Z.shiftr d 8) i (d mod 256 :: l)) as (l' & -> & Hlen & Hval).
      { now apply Z.shiftr_nonneg. }
      exists l'. rewrite Nat.sub_succ. split_and!; [done|cbn in *; lia|].
      rewrite Hval, SetBytes_cons. cbn [length]. rewrite <- Nat.succ_min_distr.
      rewrite !Nat2Z.inj_succ, !Z.pow_succ_r by lia.
      rewrite Z.shiftr_div_pow2 by lia. change (2 ^ 8) with 256.
      rewrite (Z.rem_mul_r d 256) by lia. ring.
Qed.

Definition words_value (ws : list Z) : Z := foldr (fun d acc => d + 2 ^ 64 * acc) 0 ws.

Lemma readWords_spec ws i l :
  Forall (fun d => 0 <= d < 2 ^ 64) ws ->
  exists l', foldl (fun '(i, b) d => readWord wordBytes d i b) (i, replicate i 0 ++ l) ws =
    ((i - 8 * length ws)%nat, replicate (i - 8 * length ws) 0 ++ l') /\
    length l' = (length l + Nat.min (8 * length ws) i)%nat /\
    SetBytes l' = SetBytes l + 256 ^ Z.of_nat (length l) *
      (words_value ws mod 256 ^ Z.of_nat (Nat.min (8 * length ws) i)).
Proof.
  revert i l. induction ws as [|w ws IH]; intros i l Hws.
  - exists l. cbn. rewrite Nat.sub_0_r, Z.mod_1_r. split_and!; [done|lia|lia].
  - apply Forall_cons in Hws as [Hw Hws]. cbn [foldl].
    destruct (readWord_spec wordBytes w i l) as (l1 & -> & Hl1 & Hv1); [lia|].
    destruct (IH (i - wordBytes)%nat l1 Hws) as (l' & -> & Hl' & Hv').
    exists l'. unfold wordBytes in *. cbn [length].
    replace (i - 8 - 8 * length ws)%nat with (i - 8 * S (length ws))%nat by lia.
    split_and!; [done|lia|]. rewrite Hv', Hv1, Hl1.
    change (words_value (w :: ws)) with (w + 2 ^ 64 * words_value ws).
    rewrite <- Z.add_assoc. f_equal. rewrite Nat2Z.inj_add, Z.pow_add_r by lia.
    rewrite <- Z.mul_assoc, <- Z.mul_add_distr_l. f_equal.
    destruct (le_lt_dec 8 i) as [Hi|Hi].
    + rewrite (Nat.min_l 8 i) by lia. change (256 ^ Z.of_nat 8) with (2 ^ 64).
      replace (Nat.min (8 * S (length ws)) i) with (8 + Nat.min (8 * length ws) (i - 8))%nat by lia.
      rewrite Nat2Z.inj_add, Z.pow_add_r by lia. change (256 ^ Z.of_nat 8) with (2 ^ 64).
      rewrite Z.rem_mul_r by lia.
      rewrite (Z.mul_comm (2 ^ 64) (words_value ws)), Z.mod_add, Z.div_add, Z.div_small, Z.add_0_l by lia.
      rewrite (Z.mod_small w) by lia. lia.
    + replace (Nat.min (8 * length ws) (i - 8)) with 0%nat by lia.
      rewrite !Nat.min_r by lia. rewrite Z.mod_1_r, Z.mul_0_r, Z.add_0_r.
      replace (2 ^ 64) with (2 ^ 64 / 256 ^ Z.of_nat i * 256 ^ Z.of_nat i).
      * rewrite <- Z.mul_assoc, (Z.mul_comm (256 ^ _)), Z.mul_assoc, Z.mod_add by lia. done.
      * change (2 ^ 64) with (256 ^ 8). replace 8 with (8 - Z.of_nat i + Z.of_nat i) at 1 2 by lia.
        rewrite Z.pow_add_r, Z.div_mul by lia. rewrite <- Z.pow_add_r by lia. f_equal; lia.
Qed.

Lemma le_words_spec fuel x :
  0 <= x -> (x <> 0 -> Z.log2 x < Z.of_nat fuel) ->
  words_value (le_words fuel x) = x /\ Forall (fun d => 0 <= d < 2 ^ 64) (le_words fuel x).
Proof.
  revert x. induction fuel as [|f IH]; intros x Hx Hf; cbn [le_words].
  - destruct (Z.eq_dec x 0); [by subst|]. pose proof (Z.log2_nonneg x). lia.
  - bdestr; [split; [cbn; lia|constructor]|].
    destruct (IH (x / 2 ^ 64)) as [IH1 IH2].
    + apply Z.div_pos; lia.
    + intros Hne. assert (2 ^ 64 <= x) by (apply Z.nlt_ge; intros ?; apply Hne, Z.div_small; lia).
      assert (H2 : x / 2 ^ 64 = Z.shiftr x 64) by (now rewrite Z.shiftr_div_pow2 by lia).
      rewrite H2, Z.log2_shiftr by lia.
      assert (64 <= Z.log2 x) by (apply Z.log2_le_pow2; lia). lia.
    + split.
      * change (x mod 2 ^ 64 + 2 ^ 64 * words_value (le_words f (x / 2 ^ 64)) = x).
        rewrite IH1. pose proof (Z.div_mod x (2 ^ 64)). lia.
      * constructor; [apply Z.mod_pos_bound; lia|assumption].
Qed.

Lemma words_value_bound ws :
  Forall (fun d => 0 <= d < 2 ^ 64) ws -> 0 <= words_value ws < 256 ^ Z.of_nat (8 * length ws).
Proof.
  induction 1 as [|w ws Hw Hws IH]; [cbn; lia|].
  change (words_value (w :: ws)) with (w + 2 ^ 64 * words_value ws).
  replace (8 * length (w :: ws))%nat with (8 + 8 * length ws)%nat by (cbn; lia).
  rewrite Nat2Z.inj_add, Z.pow_add_r by lia. change (256 ^ Z.of_nat 8) with (2 ^ 64). nia.
Qed.

(** [readBits] into a zeroed buffer of [n] bytes: the absolute value modulo
    [256^n], big endian. *)
Lemma readBits_spec x n :
  length (readBits x (replicate n 0)) = n /\
  SetBytes (readBits x (replicate n 0)) = Z.abs x mod 256 ^ Z.of_nat n.
Proof.
  unfold readBits, Bits. set (ws := le_words _ _).
  destruct (le_words_spec (S (Z.to_nat (Z.log2 (Z.abs x)))) (Z.abs x)) as [Hv Hw]; [lia| |].
  { intros. pose proof (Z.log2_nonneg (Z.abs x)). lia. }
  fold ws in Hv, Hw. rewrite length_replicate.
  pose proof (readWords_spec ws n [] Hw) as (l & El & Hl & Hs).
  rewrite app_nil_r in El. rewrite El. cbn [snd].
  rewrite length_app, length_replicate, SetBytes_zeros. split; [change (length (@nil Z)) with 0%nat in Hl; lia|].
  rewrite Hs, Hv. cbn [length]. change (SetBytes []) with 0. rewrite Z.pow_0_r, Z.mul_1_l, Z.add_0_l.
  destruct (le_lt_dec n (8 * length ws)) as [Hn|Hn]; [now rewrite Nat.min_r by lia|].
  rewrite Nat.min_l by lia. pose proof (words_value_bound ws Hw) as Hb. rewrite Hv in Hb.
  rewrite !Z.mod_small; [done| |lia]. split; [lia|].
  eapply Z.lt_le_trans; [apply Hb|]. apply Z.pow_le_mono_r; lia.
Qed.

(** * Encoding round trip *)

Lemma Unmarshal_Marshal C x y :
  0 <= x < 256 ^ Z.of_nat (byteLen C) -> 0 <= y < 256 ^ Z.of_nat (byteLen C) ->
  Unmarshal C (Marshal C x y) = mkpt (x, y).
Proof.
  intros Hx Hy. unfold Unmarshal, Marshal.
  destruct (readBits_spec x (byteLen C)) as [Lx Vx].
  destruct (readBits_spec y (byteLen C)) as [Ly Vy].
  replace (Nat.eqb _ _) with true by (symmetry; apply Nat.eqb_eq; cbn; rewrite length_app; lia).
  cbn [negb Z.eqb Pos.eqb]. rewrite take_app_length', drop_app_length' by done.
  rewrite Vx, Vy, !Z.abs_eq, !Z.mod_small by lia. done.
Qed.

Lemma Unmarshal_length C data :
  length data <> (1 + 2 * byteLen C)%nat -> Unmarshal C data = nilpt.
Proof. intros H. unfold Unmarshal. now rewrite (proj2 (Nat.eqb_neq _ _) H). Qed.
