(* ===== verification/CurveLaws.v ===== *)
(** The interface the protocol components use of the curve: what the C scalar
    multiplication promises, and the group structure of the curve's points.
    [pt a] are the affine coordinates of [a*G].  Client theorems are proved for
    every [Curve] with these laws; [ToyCurve] discharges them for a small curve
    of the same family by computation. *)

From Stdlib Require Import ZArith Lia Zcong Zdivisibility.
From S2P Require Import Prelude NumTheory GoBig Secp256k1 CurveFacts.

(** The 32-byte big-endian encoding the C interface uses. *)
Definition be32 (x : Z) : list Z := readBits x (replicate 32 0).

Definition encode (p : Z * Z) : list Z := be32 p.1 ++ be32 p.2.

Class CurveLaws (E : Curve) := {
  P_prime : Z.prime (cP S256);
  P_gt2 : 2 < cP S256;
  P_256 : cP S256 < 2 ^ 256;
  N_prime : Z.prime (cN S256);
  N_256 : cN S256 < 2 ^ 256;
  (** the multiples of the base point *)
  pt : Z -> Z * Z;
  pt_G : pt 1 = (cGx S256, cGy S256);
  pt_mod a : pt (a mod cN S256) = pt a;
  pt_range a : a mod cN S256 <> 0 ->
    (0 <= (pt a).1 < cP S256) /\ (0 <= (pt a).2 < cP S256);
  pt_curve a : a mod cN S256 <> 0 -> on_curve S256 (pt a);
  pt_surj x y : 0 <= x < cP S256 -> 0 <= y < cP S256 -> on_curve S256 (x, y) ->
    exists a, a mod cN S256 <> 0 /\ pt a = (x, y);
  pt_inj a b : a mod cN S256 <> 0 -> b mod cN S256 <> 0 -> pt a = pt b ->
    [mod cN S256] a == b;
  pt_x a b : a mod cN S256 <> 0 -> b mod cN S256 <> 0 ->
    (pt a).1 = (pt b).1 <-> [mod cN S256] a == b \/ [mod cN S256] a == - b;
  (** the chord rule adds discrete logarithms *)
  pt_add a b : a mod cN S256 <> 0 -> b mod cN S256 <> 0 ->
    (a - b) mod cN S256 <> 0 -> (a + b) mod cN S256 <> 0 ->
    chord S256 (pt a) (pt b) = pt (a + b);
  (** the C routine multiplies, and rejects the scalar zero and scalars that
      are not reduced modulo the order *)
  ext_mul a k : a mod cN S256 <> 0 -> 0 < k < cN S256 ->
    ext_scalar_mul (encode (pt a)) (be32 k) = Some (encode (pt (a * k)));
  ext_invalid p k : k = 0 \/ cN S256 <= k < 2 ^ 256 -> ext_scalar_mul p (be32 k) = None
}.

Section laws.
Context `{L : CurveLaws}.

Abbreviation q := (cN S256).

Lemma N_ge2 : 2 <= q.
Proof. apply prime_pos, N_prime. Qed.

(** The coordinates the code holds for [a*G]: nil for the neutral element. *)
Definition gp (a : Z) : gpoint := if a mod q =? 0 then nilpt else mkpt (pt a).

Lemma gp_ne0 a : a mod q <> 0 -> gp a = mkpt (pt a).
Proof. intros. unfold gp. bdestr. done. Qed.

Lemma gp_0 a : a mod q = 0 -> gp a = nilpt.
Proof. intros. unfold gp. bdestr. done. Qed.

Lemma pt_eqm a b : [mod q] a == b -> pt a = pt b.
Proof. intros H%eqm_iff. rewrite <- (pt_mod a), <- (pt_mod b). now rewrite H. Qed.

#[global] Instance gp_proper : Proper (eqm q ==> eq) gp.
Proof.
  intros a b H. unfold gp. rewrite (pt_eqm a b H). apply eqm_iff in H. now rewrite H.
Qed.

Lemma gp_inj a b : gp a = gp b -> [mod q] a == b.
Proof.
  unfold gp. destruct (Z.eqb_spec (a mod q) 0), (Z.eqb_spec (b mod q) 0); try discriminate.
  - intros _. apply eqm_iff. congruence.
  - intros [= H1 H2]. apply pt_inj; auto. destruct (pt a), (pt b); cbn in *; congruence.
Qed.

Lemma be32_value x : 0 <= x < 2 ^ 256 -> SetBytes (be32 x) = x.
Proof.
  intros H. unfold be32. rewrite (proj2 (readBits_spec x 32)), Z.abs_eq by lia.
  now rewrite Z.mod_small by lia.
Qed.

Lemma be32_length x : length (be32 x) = 32%nat.
Proof. apply readBits_spec. Qed.

Lemma readWord_range j d i buf :
  Forall (fun b => 0 <= b < 256) buf -> Forall (fun b => 0 <= b < 256) (readWord j d i buf).2.
Proof.
  revert d i buf. induction j as [|j IH]; intros d i buf H; [done|]. destruct i; [done|].
  cbn. apply IH. apply Forall_insert; [done|]. apply Z.mod_pos_bound; lia.
Qed.

Lemma readWords_range ws i buf :
  Forall (fun b => 0 <= b < 256) buf ->
  Forall (fun b => 0 <= b < 256)
    (foldl (fun '(i, b) d => readWord wordBytes d i b) (i, buf) ws).2.
Proof.
  revert i buf. induction ws as [|d ws IH]; intros i buf H; [done|].
  cbn [foldl]. pose proof (readWord_range wordBytes d i buf H) as Hw.
  destruct (readWord wordBytes d i buf) as [i' buf']. now apply IH.
Qed.

Lemma be32_range x : Forall (fun b => 0 <= b < 256) (be32 x).
Proof. apply readWords_range. apply Forall_replicate; lia. Qed.

(** The padded scalar of [ScalarMult] is the 32-byte encoding. *)
Lemma pad_be32 k : 0 <= k < 2 ^ 256 ->
  (length (Bytes k) <= 32)%nat /\ replicate (32 - length (Bytes k)) 0 ++ Bytes k = be32 k.
Proof.
  intros Hk. assert (Hl : (length (Bytes k) <= 32)%nat) by (apply Bytes_length; cbn; lia).
  split; [assumption|]. apply bytes_unique.
  - rewrite length_app, length_replicate, be32_length. lia.
  - apply Forall_app. split; [apply Forall_replicate; lia|apply Bytes_range].
  - apply be32_range.
  - rewrite SetBytes_zeros, SetBytes_Bytes, be32_value; lia.
Qed.

(** * The operations on multiples of the base point *)

Lemma IsOnCurve_pt u : u mod q <> 0 -> IsOnCurve S256 (pt u).1 (pt u).2 = true.
Proof.
  intros Hu. apply IsOnCurve_iff. rewrite <- surjective_pairing. now apply pt_curve.
Qed.

Lemma ScalarMult_raw x y k : 0 <= k < 2 ^ 256 ->
  ScalarMult (Some x, Some y) (Bytes k) =
  match ext_scalar_mul (encode (x, y)) (be32 k) with
  | Some p => Ok (Some (SetBytes (take 32 p)), Some (SetBytes (drop 32 p)))
  | None => Ok nilpt
  end.
Proof.
  intros Hk. unfold ScalarMult. destruct (pad_be32 k Hk) as [Hl Hp].
  bdestr. cbn [deref fst snd mbind res_bind]. now rewrite Hp.
Qed.

Lemma ScalarMult_pt a k : a mod q <> 0 -> 0 <= k < q ->
  ScalarMult (mkpt (pt a)) (Bytes k) = Ok (gp (a * k)).
Proof.
  intros Ha Hk. pose proof N_256. unfold mkpt.
  rewrite ScalarMult_raw by lia. rewrite <- surjective_pairing.
  destruct (Z.eq_dec k 0) as [->|Hk0].
  - rewrite ext_invalid by lia. rewrite Z.mul_0_r. now rewrite gp_0 by apply Zmod_0_l.
  - rewrite ext_mul by lia.
    assert (Hak : (a * k) mod q <> 0).
    { apply prime_mul_ne0; [apply N_prime|assumption|]. rewrite Z.mod_small; lia. }
    rewrite gp_ne0 by assumption. unfold encode.
    rewrite take_app_length', drop_app_length' by (now rewrite be32_length).
    pose proof P_256. destruct (pt_range _ Hak). now rewrite !be32_value by lia.
Qed.

Lemma ScalarBaseMult_pt k : 0 <= k < q -> ScalarBaseMult (Bytes k) = Ok (gp k).
Proof.
  intros Hk. unfold ScalarBaseMult. pose proof N_ge2.
  replace (Some (cGx S256), Some (cGy S256)) with (mkpt (pt 1)) by now rewrite pt_G.
  rewrite ScalarMult_pt; [now rewrite Z.mul_1_l| |assumption]. rewrite Z.mod_small; lia.
Qed.

Lemma ScalarMult_unreduced p k : q <= k < 2 ^ 256 ->
  is_Some p.1 -> is_Some p.2 -> ScalarMult p (Bytes k) = Ok nilpt.
Proof.
  intros Hk [x Hx] [y Hy]. destruct p as [px py]; cbn in Hx, Hy; subst. pose proof N_ge2.
  rewrite ScalarMult_raw by lia. now rewrite ext_invalid by lia.
Qed.

(** The sum of two multiples, nil when they are equal or opposite: the code has
    no doubling case in [Add]. *)
Lemma Add_pt a b : a mod q <> 0 -> b mod q <> 0 ->
  Add S256 (mkpt (pt a)) (mkpt (pt b)) =
  Ok (if ((a - b) mod q =? 0) then nilpt else gp (a + b)).
Proof.
  intros Ha Hb. unfold Add. cbn [mkpt deref fst snd mbind res_bind]. f_equal.
  pose proof P_gt2. rewrite addZ_spec by (lia || apply P_prime).
  assert (Hx : (pt b).1 = (pt a).1 <-> ((pt b).1 - (pt a).1) mod cP S256 = 0).
  { destruct (pt_range a Ha), (pt_range b Hb). rewrite <- eqm_0_mod. split.
    - intros ->. now rewrite Z.sub_diag.
    - intros Hz. apply (eqm_small (cP S256)); [assumption..|].
      rewrite <- (Z.sub_add (pt a).1 (pt b).1), Hz. now rewrite Z.add_0_l. }
  destruct (Z.eqb_spec (((pt b).1 - (pt a).1) mod cP S256) 0) as [H0|H0].
  - apply Hx in H0. apply pt_x in H0 as [H0|H0]; [| |assumption..].
    + bdestr; [done|]. exfalso. apply n, eqm_0_mod. now rewrite H0, Z.sub_diag.
    + bdestr; [done|]. rewrite gp_0; [done|]. apply eqm_0_mod. now rewrite H0, Z.add_opp_diag_r.
  - assert (Hne : ~ ([mod q] b == a \/ [mod q] b == - a)).
    { intros H1. apply H0, Hx. now apply pt_x. }
    assert (Hd : (a - b) mod q <> 0).
    { intros Hd%eqm_0_mod. apply Hne. left. symmetry.
      rewrite <- (Z.sub_add b a), Hd. now rewrite Z.add_0_l. }
    assert (Hs : (a + b) mod q <> 0).
    { intros Hs%eqm_0_mod. apply Hne. right. rewrite <- Z.sub_0_l, <- Hs. now rewrite Z.add_simpl_l. }
    bdestr. rewrite gp_ne0 by assumption. rewrite <- pt_add by assumption.
    now rewrite <- !surjective_pairing.
Qed.

(** The sum of two multiples the code holds; a nil operand panics. *)
Lemma Add_gp a b : b mod q <> 0 ->
  Add S256 (gp a) (gp b) =
  if a mod q =? 0 then Panic else Ok (if (a - b) mod q =? 0 then nilpt else gp (a + b)).
Proof.
  intros Hb. rewrite (gp_ne0 b) by assumption. destruct (Z.eqb_spec (a mod q) 0) as [Ha|Ha].
  - now rewrite gp_0.
  - rewrite gp_ne0 by assumption. now apply Add_pt.
Qed.

(** A 32-byte buffer needs no padding. *)
Lemma ScalarMult_be32 p k : 0 <= k < 2 ^ 256 -> ScalarMult p (be32 k) = ScalarMult p (Bytes k).
Proof.
  intros Hk. destruct (pad_be32 k Hk) as [Hl E']. unfold ScalarMult.
  rewrite be32_length, E'. bdestr. done.
Qed.
End laws.
