(* ===== verification/ToyCurve.v ===== *)
(** A small instance of the curve interface: [y^2 = x^3 + 7] over the field of
    163 elements, whose group has the prime order 139.  It runs the same
    [Secp256k1] code with other parameters; all laws of [CurveLaws] are checked
    by computation, so every theorem proved against the interface applies to it
    and can be evaluated on it. *)

From Stdlib Require Import ZArith Lia Zcong Zdivisibility.
From S2P Require Import Prelude NumTheory Primality GoBig Secp256k1 CurveFacts CurveLaws.

Definition toyCurve : BitCurve := {|
  cP := 163; cN := 139; cB := 7; cGx := 2; cGy := 34; cBitSize := 256 |}.

(** The multiples [1*G .. 138*G], by the chord rule (the tangent rule for [2G]). *)
Fixpoint multiples (n : nat) (p : Z * Z) : list (Z * Z) :=
  match n with
  | O => []
  | S n' => p :: multiples n' (chord toyCurve p (2, 34))
  end.

Definition toy_table : list (Z * Z) :=
  Eval vm_compute in (2, 34) :: multiples 137 (tangent toyCurve (2, 34)).

Definition toy_pt (a : Z) : Z * Z := nth (Z.to_nat (a mod 139 - 1)) toy_table (0, 0).

Fixpoint find_index (p : Z * Z) (l : list (Z * Z)) (i : Z) : Z :=
  match l with
  | [] => 0
  | p' :: l' => if (p.1 =? p'.1) && (p.2 =? p'.2) then i else find_index p l' (i + 1)
  end.

(** The discrete logarithm, by search. *)
Definition toy_log (p : Z * Z) : Z := find_index p toy_table 1.

Definition toy_ext_mul (point scalar : list Z) : option (list Z) :=
  let p := (SetBytes (take 32 point), SetBytes (drop 32 point)) in
  let k := SetBytes scalar in
  if (k =? 0) || (139 <=? k) then None
  else Some (encode (toy_pt (toy_log p * k))).

#[export] Instance toy : Curve := {| S256 := toyCurve; ext_scalar_mul := toy_ext_mul |}.

(** * Checking a law on every residue *)

Definition upto (n : Z) : list Z := Z.of_nat <$> seq 0 (Z.to_nat n).

Lemma upto_forall n (f : Z -> bool) a :
  0 <= a < n -> forallb f (upto n) = true -> f a = true.
Proof.
  intros Ha H. rewrite forallb_forall in H. apply H. apply list_elem_of_In.
  apply list_elem_of_fmap. exists (Z.to_nat a). split; [lia|]. apply elem_of_seq. lia.
Qed.

Lemma toy_pt_mod a : toy_pt (a mod 139) = toy_pt a.
Proof. unfold toy_pt. now rewrite Zmod_mod. Qed.

Lemma toy_pt_mod_r a b : toy_pt (a + b) = toy_pt (a mod 139 + b mod 139).
Proof. rewrite <- toy_pt_mod, Zplus_mod, toy_pt_mod. done. Qed.

Definition on_curveb (p : Z * Z) : bool :=
  (p.2 * p.2) mod 163 =? (p.1 * p.1 * p.1 + 7) mod 163.

Lemma on_curveb_ok p : on_curveb p = true <-> on_curve toyCurve p.
Proof. unfold on_curveb, on_curve. rewrite Z.eqb_eq, eqm_iff. done. Qed.

Definition check_single (a : Z) : bool :=
  (a =? 0) || ((0 <=? (toy_pt a).1) && ((toy_pt a).1 <? 163) && (0 <=? (toy_pt a).2)
               && ((toy_pt a).2 <? 163) && on_curveb (toy_pt a) && (toy_log (toy_pt a) =? a)).

Lemma toy_single a : a mod 139 <> 0 ->
  (0 <= (toy_pt a).1 < 163) /\ (0 <= (toy_pt a).2 < 163) /\
  on_curve toyCurve (toy_pt a) /\ toy_log (toy_pt a) = a mod 139.
Proof.
  intros Ha. rewrite <- toy_pt_mod.
  assert (H : check_single (a mod 139) = true).
  { apply (upto_forall 139); [apply Z.mod_pos_bound; lia|]. vm_compute. reflexivity. }
  unfold check_single in H. apply orb_true_iff in H as [H|H]; [lia|].
  rewrite !andb_true_iff, !Z.leb_le, !Z.ltb_lt, on_curveb_ok, Z.eqb_eq in H. tauto.
Qed.

Definition check_add (a b : Z) : bool :=
  (a =? 0) || (b =? 0) ||
  (let same := (toy_pt a).1 =? (toy_pt b).1 in
   Bool.eqb same ((a =? b) || ((a + b) mod 139 =? 0)) &&
   (same || (((chord toyCurve (toy_pt a) (toy_pt b)).1 =? (toy_pt (a + b)).1) &&
             ((chord toyCurve (toy_pt a) (toy_pt b)).2 =? (toy_pt (a + b)).2)))).

Lemma toy_pair a b : a mod 139 <> 0 -> b mod 139 <> 0 ->
  check_add (a mod 139) (b mod 139) = true.
Proof.
  intros Ha Hb.
  assert (H : forallb (fun a => forallb (check_add a) (upto 139)) (upto 139) = true)
    by (vm_compute; reflexivity).
  eapply (upto_forall 139 (check_add (a mod 139))); [apply Z.mod_pos_bound; lia|].
  eapply (upto_forall 139 (fun a => forallb (check_add a) (upto 139)));
    [apply Z.mod_pos_bound; lia|exact H].
Qed.

Definition check_surj (x y : Z) : bool :=
  negb (on_curveb (x, y)) ||
  (let a := toy_log (x, y) in
   negb (a mod 139 =? 0) && ((toy_pt a).1 =? x) && ((toy_pt a).2 =? y)).

Lemma toy_x a b : a mod 139 <> 0 -> b mod 139 <> 0 ->
  (toy_pt a).1 = (toy_pt b).1 <-> [mod 139] a == b \/ [mod 139] a == - b.
Proof.
  intros Ha Hb. pose proof (toy_pair a b Ha Hb) as H. unfold check_add in H.
  apply orb_true_iff in H as [H|H].
  { apply orb_true_iff in H as [H|H]; lia. }
  apply andb_true_iff in H as [H _]. apply eqb_prop in H. rewrite !toy_pt_mod in H.
  assert (E : [mod 139] a == - b <-> (a mod 139 + b mod 139) mod 139 = 0).
  { rewrite <- Zplus_mod, <- eqm_0_mod. unfold eqm. rewrite Z.sub_0_r.
    now replace (a - - b) with (a + b) by ring. }
  rewrite E, eqm_iff, <- !Z.eqb_eq, <- orb_true_iff, H. done.
Qed.

Lemma toy_add a b : a mod 139 <> 0 -> b mod 139 <> 0 -> (a - b) mod 139 <> 0 ->
  (a + b) mod 139 <> 0 -> chord toyCurve (toy_pt a) (toy_pt b) = toy_pt (a + b).
Proof.
  intros Ha Hb Hd Hs. pose proof (toy_pair a b Ha Hb) as H. unfold check_add in H.
  apply orb_true_iff in H as [H|H].
  { apply orb_true_iff in H as [H|H]; lia. }
  apply andb_true_iff in H as [_ H]. rewrite <- toy_pt_mod_r, !toy_pt_mod in H.
  apply orb_true_iff in H as [H|H].
  - apply Z.eqb_eq in H. apply toy_x in H as [H|H]; [| |assumption..]; exfalso.
    + apply Hd, eqm_0_mod. now rewrite H, Z.sub_diag.
    + apply Hs, eqm_0_mod. rewrite H. now rewrite Z.add_opp_diag_l.
  - apply andb_true_iff in H as [H1%Z.eqb_eq H2%Z.eqb_eq].
    destruct (chord _ _ _), (toy_pt (a + b)); cbn in *; congruence.
Qed.

Lemma toy_P_prime : Z.prime 163.
Proof. small_prime. Qed.

Lemma toy_N_prime : Z.prime 139.
Proof. small_prime. Qed.

Lemma toy_range a : a mod 139 <> 0 ->
  (0 <= (toy_pt a).1 < 163) /\ (0 <= (toy_pt a).2 < 163).
Proof. intros Ha. pose proof (toy_single a Ha). tauto. Qed.

Lemma toy_curve a : a mod 139 <> 0 -> on_curve toyCurve (toy_pt a).
Proof. intros Ha. now apply toy_single. Qed.

Lemma toy_surj x y : 0 <= x < 163 -> 0 <= y < 163 -> on_curve toyCurve (x, y) ->
  exists a, a mod 139 <> 0 /\ toy_pt a = (x, y).
Proof.
  intros Hx Hy H.
  assert (Hc : forallb (fun x => forallb (check_surj x) (upto 163)) (upto 163) = true)
    by (vm_compute; reflexivity).
  apply (upto_forall 163 _ x Hx) in Hc. apply (upto_forall 163 _ y Hy) in Hc.
  unfold check_surj in Hc. rewrite (proj2 (on_curveb_ok (x, y)) H) in Hc.
  cbn [negb orb] in Hc. rewrite !andb_true_iff, negb_true_iff, Z.eqb_neq, !Z.eqb_eq in Hc.
  exists (toy_log (x, y)). destruct (toy_pt (toy_log (x, y))); cbn [fst snd] in *.
  destruct Hc as [[? ->] ->]. done.
Qed.

Lemma toy_inj a b : a mod 139 <> 0 -> b mod 139 <> 0 -> toy_pt a = toy_pt b -> [mod 139] a == b.
Proof.
  intros Ha Hb H. apply eqm_iff.
  destruct (toy_single a Ha) as (_ & _ & _ & <-), (toy_single b Hb) as (_ & _ & _ & <-).
  now rewrite H.
Qed.

Lemma toy_mul a k : a mod 139 <> 0 -> 0 < k < 139 ->
  toy_ext_mul (encode (toy_pt a)) (be32 k) = Some (encode (toy_pt (a * k))).
Proof.
  intros Ha Hk. unfold toy_ext_mul, encode.
  rewrite take_app_length', drop_app_length' by (now rewrite be32_length).
  destruct (toy_single a Ha) as (? & ? & _ & Hl). rewrite !be32_value by lia.
  rewrite <- surjective_pairing, Hl.
  destruct (Z.eqb_spec k 0), (Z.leb_spec 139 k); try lia. cbn [orb].
  rewrite <- (toy_pt_mod (a * k)), <- (toy_pt_mod (a mod 139 * k)).
  rewrite Zmult_mod_idemp_l. done.
Qed.

Lemma toy_invalid p k : k = 0 \/ 139 <= k < 2 ^ 256 -> toy_ext_mul p (be32 k) = None.
Proof.
  intros Hk. unfold toy_ext_mul. rewrite be32_value by lia.
  destruct (Z.eqb_spec k 0), (Z.leb_spec 139 k); cbn; try done. lia.
Qed.

Lemma toy_lt_256 n : n < 1000 -> n < 2 ^ 256.
Proof. lia. Qed.

Lemma toy_gt2 : 2 < 163.
Proof. lia. Qed.

#[export] Instance toy_laws : CurveLaws toy := {|
  P_prime := toy_P_prime;
  P_gt2 := toy_gt2;
  P_256 := toy_lt_256 163 eq_refl;
  N_prime := toy_N_prime;
  N_256 := toy_lt_256 139 eq_refl;
  pt := toy_pt;
  pt_G := eq_refl;
  pt_mod := toy_pt_mod;
  pt_range := toy_range;
  pt_curve := toy_curve;
  pt_surj := toy_surj;
  pt_inj := toy_inj;
  pt_x := toy_x;
  pt_add := toy_add;
  ext_mul := toy_mul;
  ext_invalid := toy_invalid
|}.
