(* ===== verification/Text.v ===== *)
(** Text of big integers: [fmt.Sprintf("%v", x)], [big.Int.SetString(s, 10)],
    [SetString(s, 16)] and [strings.ToLower], which the JSON codecs, the
    duplicate check and the message layer use. *)

From Stdlib Require Import ZArith Lia Ascii.
From stdpp Require Export pretty.
From S2P Require Import Prelude.

#[local] Open Scope Z_scope.

(** [fmt.Sprintf("%v", x)] of a [*big.Int]. *)
Definition Sprintf_v (x : bigint) : string :=
  match x with Some z => pretty z | None => "<nil>" end.

(** The value of a digit in base 10 or 16. *)
Definition digit (base : Z) (c : ascii) : option Z :=
  let n := Z.of_N (N_of_ascii c) in
  let d := if (48 <=? n) && (n <=? 57) then n - 48
           else if (97 <=? n) && (n <=? 102) then n - 87
           else if (65 <=? n) && (n <=? 70) then n - 55
           else base in
  if d <? base then Some d else None.

Fixpoint digits (base : Z) (s : string) (acc : Z) : option Z :=
  match s with
  | EmptyString => Some acc
  | String c s' => d ← digit base c; digits base s' (acc * base + d)
  end.

Definition unsigned (base : Z) (s : string) : option Z :=
  match s with EmptyString => None | _ => digits base s 0 end.

(** [new(big.Int).SetString(s, base)]: an optional sign and at least one digit;
    nil on anything else. *)
Definition SetString (base : Z) (s : string) : bigint :=
  match s with
  | String c s' =>
      if Ascii.eqb c "-"%char then Z.opp <$> unsigned base s'
      else if Ascii.eqb c "+"%char then unsigned base s'
      else unsigned base s
  | EmptyString => None
  end.

Definition lower (c : ascii) : ascii :=
  let n := N_of_ascii c in
  if ((65 <=? n) && (n <=? 90))%N then ascii_of_N (n + 32) else c.

(** [strings.ToLower] on ASCII text. *)
Fixpoint ToLower (s : string) : string :=
  match s with EmptyString => EmptyString | String c s' => String (lower c) (ToLower s') end.

(** [[]byte(s)]. *)
Fixpoint bytes (s : string) : list Z :=
  match s with
  | EmptyString => []
  | String c s' => Z.of_N (N_of_ascii c) :: bytes s'
  end.

(** * Printing and parsing are inverse *)

Lemma pretty_char_digit n : (n < 10)%N -> digit 10 (pretty_N_char n) = Some (Z.of_N n).
Proof.
  intros H. destruct n as [|p]; [done|].
  do 4 (destruct p as [p|p|]; try (exfalso; lia); try done).
Qed.

Lemma digits_go n s acc :
  exists k, digits 10 (pretty_N_go n s) acc = digits 10 s (acc * 10 ^ k + Z.of_N n) /\ 0 <= k.
Proof.
  revert s acc. induction (N.lt_wf_0 n) as [n _ IH]; intros s acc.
  destruct (N.eq_dec n 0%N) as [->|Hn].
  - exists 0. rewrite pretty_N_go_0. split; [f_equal; lia|lia].
  - rewrite pretty_N_go_step by lia.
    destruct (IH (n / 10)%N ltac:(apply N.div_lt; lia)
                 (String (pretty_N_char (n mod 10)) s) acc) as (k & -> & Hk).
    exists (Z.succ k). cbn. rewrite pretty_char_digit by (apply N.mod_lt; lia). cbn.
    split; [f_equal|lia]. rewrite Z.pow_succ_r by lia.
    rewrite N2Z.inj_div, N2Z.inj_mod. pose proof (Z.div_mod (Z.of_N n) 10). cbn in *. lia.
Qed.

Lemma pretty_N_go_head n s : (0 < n)%N ->
  exists c s', pretty_N_go n s = String c s' /\ c <> "-"%char /\ c <> "+"%char.
Proof.
  revert s. induction (N.lt_wf_0 n) as [n _ IH]; intros s Hn.
  rewrite pretty_N_go_step by lia.
  destruct (decide (n / 10 = 0)%N) as [->|H0].
  - rewrite pretty_N_go_0. do 2 eexists. split; [reflexivity|].
    unfold pretty_N_char. repeat case_match; done.
  - apply IH; [apply N.div_lt; lia|]. now apply N.neq_0_lt_0.
Qed.

Lemma unsigned_pretty p : unsigned 10 (pretty (N.pos p)) = Some (Z.pos p).
Proof.
  unfold pretty, pretty_N. destruct (decide _); [lia|].
  destruct (pretty_N_go_head (N.pos p) "" ltac:(lia)) as (c & s' & E & _).
  unfold unsigned. rewrite E, <- E. destruct (digits_go (N.pos p) "" 0) as (k & -> & _). done.
Qed.

(** [SetString(Sprintf("%v", z), 10)] returns [z]. *)
Lemma SetString_Sprintf z : SetString 10 (Sprintf_v (Some z)) = Some z.
Proof.
  destruct z as [|p|p]; [done| |].
  - cbn [Sprintf_v]. pose proof (unsigned_pretty p) as Hu.
    change (pretty (Z.pos p)) with (pretty (N.pos p)).
    unfold pretty, pretty_N in *. destruct (decide _); [lia|].
    destruct (pretty_N_go_head (N.pos p) "" ltac:(lia)) as (c & s' & E & Hc1 & Hc2).
    rewrite E in *. cbn [SetString].
    apply Ascii.eqb_neq in Hc1, Hc2. rewrite Hc1, Hc2. exact Hu.
  - cbn [Sprintf_v]. change (pretty (Z.neg p)) with ("-" +:+ pretty (N.pos p)).
    change ("-" +:+ pretty (N.pos p)) with (String "-" (pretty (N.pos p))).
    cbn [SetString]. rewrite Ascii.eqb_refl, unsigned_pretty. done.
Qed.

Lemma SetString_nil : SetString 10 (Sprintf_v None) = None.
Proof. done. Qed.

(** * Lower case *)

Lemma ToLower_go n s : ToLower s = s -> ToLower (pretty_N_go n s) = pretty_N_go n s.
Proof.
  revert s. induction (N.lt_wf_0 n) as [n _ IH]; intros s Hs.
  destruct (N.eq_dec n 0%N) as [->|Hn]; [now rewrite pretty_N_go_0|].
  rewrite pretty_N_go_step by lia. apply IH; [apply N.div_lt; lia|].
  cbn. rewrite Hs. f_equal. unfold pretty_N_char. repeat case_match; done.
Qed.

Lemma ToLower_Sprintf x : ToLower (Sprintf_v x) = Sprintf_v x.
Proof.
  destruct x as [[|p|p]|]; [done| | |done]; cbn [Sprintf_v].
  - change (pretty (Z.pos p)) with (pretty (N.pos p)). unfold pretty, pretty_N.
    destruct (decide _); [done|]. now apply ToLower_go.
  - change (pretty (Z.neg p)) with (String "-" (pretty (N.pos p))). cbn [ToLower]. f_equal.
    unfold pretty, pretty_N. destruct (decide _); [done|]. now apply ToLower_go.
Qed.

#[export] Instance Sprintf_v_inj : Inj (=) (=) Sprintf_v.
Proof.
  intros x y H. apply (f_equal (SetString 10)) in H.
  destruct x, y; rewrite ?SetString_Sprintf, ?SetString_nil in H; congruence.
Qed.

(** * Plain text *)

Fixpoint isAscii (s : string) : bool :=
  match s with
  | EmptyString => true
  | String c s' => (N_of_ascii c <? 128)%N && isAscii s'
  end.

Lemma isAscii_go n s : isAscii s = true -> isAscii (pretty_N_go n s) = true.
Proof.
  revert s. induction (N.lt_wf_0 n) as [n _ IH]; intros s Hs.
  destruct (N.eq_dec n 0%N) as [->|Hn]; [now rewrite pretty_N_go_0|].
  rewrite pretty_N_go_step by lia. apply IH; [apply N.div_lt; lia|].
  cbn [isAscii]. rewrite Hs, andb_true_r. unfold pretty_N_char. repeat case_match; done.
Qed.

Lemma isAscii_Sprintf x : isAscii (Sprintf_v x) = true.
Proof.
  destruct x as [[|p|p]|]; [done| | |done]; cbn [Sprintf_v].
  - change (pretty (Z.pos p)) with (pretty (N.pos p)). unfold pretty, pretty_N.
    destruct (decide _); [done|]. now apply isAscii_go.
  - change (pretty (Z.neg p)) with (String "-" (pretty (N.pos p))). cbn [isAscii].
    unfold pretty, pretty_N. destruct (decide _); [done|]. now apply isAscii_go.
Qed.

(** * Lists joined with a separator *)

Definition bar : ascii := "|"%char.
Definition colon : ascii := ":"%char.

Section separator.
Context (sep : ascii).

(** [strings.Split(s, sep)]; [cur] is the piece being read. *)
Fixpoint splitOn (s cur : string) : list string :=
  match s with
  | EmptyString => [cur]
  | String c s' => if Ascii.eqb c sep then cur :: splitOn s' "" else splitOn s' (cur +:+ String c "")
  end.

Definition Split (s : string) : list string := splitOn s "".

(** [strings.Join(l, sep)]. *)
Fixpoint Join (l : list string) : string :=
  match l with
  | [] => ""
  | [s] => s
  | s :: l' => s +:+ String sep (Join l')
  end.

Fixpoint noSep (s : string) : bool :=
  match s with EmptyString => true | String c s' => negb (Ascii.eqb c sep) && noSep s' end.
End separator.

Lemma string_app_assoc (a b c : string) : (a +:+ b) +:+ c = a +:+ (b +:+ c).
Proof. induction a as [|x a IH]; [done|]. exact (f_equal (String x) IH). Qed.

Lemma string_app_nil_r (a : string) : a +:+ "" = a.
Proof. induction a as [|x a IH]; [done|]. exact (f_equal (String x) IH). Qed.

Lemma isAscii_app a b : isAscii (a +:+ b) = isAscii a && isAscii b.
Proof.
  induction a as [|c a IH]; [done|]. change (String c a +:+ b) with (String c (a +:+ b)).
  cbn [isAscii]. now rewrite IH, andb_assoc.
Qed.

Section separatorFacts.
Context (sep : ascii).

Lemma noSep_app a b : noSep sep (a +:+ b) = noSep sep a && noSep sep b.
Proof.
  induction a as [|c a IH]; [done|]. change (String c a +:+ b) with (String c (a +:+ b)).
  cbn [noSep]. now rewrite IH, andb_assoc.
Qed.

Lemma splitOn_app s : forall rest cur, noSep sep s = true ->
  splitOn sep (s +:+ rest) cur = splitOn sep rest (cur +:+ s).
Proof.
  induction s as [|c s IH]; intros rest cur H.
  - cbn. now rewrite string_app_nil_r.
  - cbn [noSep] in H. apply andb_true_iff in H as [Hc H]. apply negb_true_iff in Hc.
    change (String c s +:+ rest) with (String c (s +:+ rest)). cbn [splitOn]. rewrite Hc, IH by assumption.
    now rewrite string_app_assoc.
Qed.

Lemma Split_Join l : l <> [] -> forallb (noSep sep) l = true -> Split sep (Join sep l) = l.
Proof.
  unfold Split. intros Hne H. induction l as [|s [|s' l] IH]; [done| |].
  - cbn [forallb] in H. apply andb_true_iff in H as [Hs _]. cbn [Join].
    rewrite <- (string_app_nil_r s) at 1. now rewrite splitOn_app.
  - cbn [forallb] in H. apply andb_true_iff in H as [Hs H].
    change (Join sep (s :: s' :: l)) with (s +:+ String sep (Join sep (s' :: l))).
    rewrite splitOn_app by assumption. cbn [splitOn]. rewrite Ascii.eqb_refl.
    cbn [String.append]. f_equal. apply IH; [done|exact H].
Qed.

(** No printed integer contains the separator. *)
Definition plainSep : bool := noSep sep "0123456789-<nil>".

Hypothesis plain : plainSep = true.

Lemma plain_digit n : Ascii.eqb (pretty_N_char n) sep = false.
Proof.
  revert plain. unfold plainSep. cbn [noSep].
  rewrite !andb_true_iff, !negb_true_iff. intros. unfold pretty_N_char.
  repeat case_match; tauto.
Qed.

Lemma noSep_go n s : noSep sep s = true -> noSep sep (pretty_N_go n s) = true.
Proof.
  revert s. induction (N.lt_wf_0 n) as [n _ IH]; intros s Hs.
  destruct (N.eq_dec n 0%N) as [->|Hn]; [now rewrite pretty_N_go_0|].
  rewrite pretty_N_go_step by lia. apply IH; [apply N.div_lt; lia|].
  cbn [noSep]. now rewrite Hs, andb_true_r, plain_digit.
Qed.

Lemma noSep_Sprintf x : noSep sep (Sprintf_v x) = true.
Proof.
  assert (H0 : noSep sep "0" = true /\ noSep sep "-" = true /\ noSep sep "<nil>" = true).
  { revert plain. unfold plainSep. change "0123456789-<nil>" with ("0" +:+ "123456789" +:+ "-" +:+ "<nil>").
    rewrite !noSep_app, !andb_true_iff. tauto. }
  destruct H0 as (H0 & Hm & Hnil).
  destruct x as [[|p|p]|]; [exact H0| | |exact Hnil]; cbn [Sprintf_v].
  - change (pretty (Z.pos p)) with (pretty (N.pos p)). unfold pretty, pretty_N.
    destruct (decide _); [exact H0|]. now apply noSep_go.
  - change (pretty (Z.neg p)) with ("-" +:+ pretty (N.pos p)). rewrite noSep_app, Hm.
    unfold pretty, pretty_N. destruct (decide _); [exact H0|]. now apply noSep_go.
Qed.

(** A list of integers written between separators reads back. *)
Lemma Split_strings l : l <> [] ->
  Split sep (Join sep ((fun z => Sprintf_v (Some z)) <$> l)) = (fun z => Sprintf_v (Some z)) <$> l.
Proof.
  intros Hne. apply Split_Join; [now intros ?%fmap_nil_inv|].
  apply forallb_forall. intros s Hs. apply list_elem_of_In, list_elem_of_fmap in Hs as (z & -> & _).
  apply noSep_Sprintf.
Qed.
End separatorFacts.

Lemma Split_ints sep l : plainSep sep = true -> l <> [] ->
  SetString 10 <$> Split sep (Join sep ((fun z => Sprintf_v (Some z)) <$> l)) = Some <$> l.
Proof.
  intros Hp Hne. rewrite Split_strings by assumption.
  rewrite <- list_fmap_compose. apply list_fmap_ext. intros i z _. apply SetString_Sprintf.
Qed.

Lemma isAscii_Join sep l : isAscii (String sep "") = true -> forallb isAscii l = true ->
  isAscii (Join sep l) = true.
Proof.
  intros Hc. induction l as [|s [|s' l] IH]; intros H; [done| |].
  - cbn in *. now rewrite andb_true_r in H.
  - cbn [forallb] in H. apply andb_true_iff in H as [Hs H].
    change (Join sep (s :: s' :: l)) with (s +:+ String sep (Join sep (s' :: l))).
    cbn [isAscii] in Hc. rewrite andb_true_r in Hc.
    rewrite isAscii_app, Hs. cbn [isAscii]. now rewrite IH, Hc.
Qed.

Lemma noSep_Join sep sep' l : Ascii.eqb sep' sep = false -> forallb (noSep sep) l = true ->
  noSep sep (Join sep' l) = true.
Proof.
  intros Hc. induction l as [|s [|s' l] IH]; intros H; [done| |].
  - cbn in *. now rewrite andb_true_r in H.
  - cbn [forallb] in H. apply andb_true_iff in H as [Hs H].
    change (Join sep' (s :: s' :: l)) with (s +:+ String sep' (Join sep' (s' :: l))).
    rewrite noSep_app, Hs. cbn [noSep]. now rewrite Hc, IH.
Qed.

Lemma isAscii_Join_ints sep l : isAscii (String sep "") = true ->
  isAscii (Join sep (Sprintf_v <$> l)) = true.
Proof.
  intros Hc. apply isAscii_Join; [assumption|]. apply forallb_forall.
  intros s Hs. apply list_elem_of_In, list_elem_of_fmap in Hs as (z & -> & _). apply isAscii_Sprintf.
Qed.
