(* ===== verification/Json.v ===== *)
(** [encoding/json] on the flat structures of strings the repository marshals:
    an object is its list of named string fields. *)

From Stdlib Require Import ZArith Lia.
From stdpp Require Import countable.
From S2P Require Import Prelude Text.

#[local] Open Scope Z_scope.

(** An object of string fields, in order. *)
Abbreviation object := (list (string * string)).

Class JsonLib := {
  json_Marshal : object -> string;
  json_Unmarshal : string -> option object
}.

Definition asciiObject (fs : object) : bool :=
  forallb (fun f => isAscii f.1 && isAscii f.2) fs.

(** Documented behaviour: decoding an encoded structure of (ASCII) strings
    restores its fields, and its encoding is a non-empty ASCII text that contains
    no bar when the fields contain none. *)
Class JsonLaws (J : JsonLib) := {
  json_roundtrip fs : asciiObject fs = true -> json_Unmarshal (json_Marshal fs) = Some fs;
  json_ascii fs : asciiObject fs = true -> isAscii (json_Marshal fs) = true;
  json_nonempty fs : json_Marshal fs <> "";
  json_noBar fs : forallb (fun f => noSep bar f.1 && noSep bar f.2) fs = true ->
    noSep bar (json_Marshal fs) = true
}.

(** A field of a decoded object; a missing field is the empty string. *)
Fixpoint field (name : string) (fs : object) : string :=
  match fs with
  | [] => ""
  | (n, v) :: fs' => if String.eqb n name then v else field name fs'
  end.

(** [SetString(field, 10)]. *)
Definition fieldInt (name : string) (fs : object) : bigint := SetString 10 (field name fs).

(** [strconv.Atoi] on 64-bit integers, [strconv.Itoa]. *)
Definition Atoi (s : string) : res Z :=
  match SetString 10 s with
  | Some v => if (- 2 ^ 63 <=? v) && (v <? 2 ^ 63) then Ok v else Err "strconv.Atoi: value out of range"
  | None => Err "strconv.Atoi: invalid syntax"
  end.

Definition Itoa (n : Z) : string := pretty n.

Lemma Atoi_Itoa n : - 2 ^ 63 <= n < 2 ^ 63 -> Atoi (Itoa n) = Ok n.
Proof.
  intros H. unfold Atoi, Itoa. pose proof (SetString_Sprintf n) as E. cbn [Sprintf_v] in E. rewrite E.
  destruct (Z.leb_spec (- 2 ^ 63) n), (Z.ltb_spec n (2 ^ 63)); try lia. done.
Qed.

(** An implementation of the interface: objects as one decimal numeral. *)
#[export] Instance numeralJson : JsonLib := {|
  json_Marshal fs := pretty (Z.pos (encode fs));
  json_Unmarshal s := match SetString 10 s with Some (Z.pos p) => decode p | _ => None end
|}.

#[export] Instance numeralJson_laws : JsonLaws numeralJson.
Proof.
  split; intros fs; cbn [json_Unmarshal json_Marshal numeralJson];
    pose proof (SetString_Sprintf (Z.pos (encode fs))) as E; cbn [Sprintf_v] in E.
  - intros _. rewrite E. apply decode_encode.
  - intros _. apply (isAscii_Sprintf (Some (Z.pos (encode fs)))).
  - intros Hn. now rewrite Hn in E.
  - intros _. now apply (noSep_Sprintf bar eq_refl (Some (Z.pos (encode fs)))).
Defined.

(** Read back an integer field. *)
Lemma fieldInt_here name z fs : fieldInt name ((name, Sprintf_v (Some z)) :: fs) = Some z.
Proof. unfold fieldInt. cbn [field]. rewrite String.eqb_refl. apply SetString_Sprintf. Qed.

Lemma fieldInt_skip name n v fs : String.eqb n name = false ->
  fieldInt name ((n, v) :: fs) = fieldInt name fs.
Proof. intros H. unfold fieldInt. cbn [field]. now rewrite H. Qed.

(** Decode the integer fields of an object. *)
Ltac json_fields := rewrite ?fieldInt_here; repeat (rewrite fieldInt_skip by reflexivity; rewrite ?fieldInt_here).

(** Objects of printed integers are ASCII. *)
Ltac json_is_ascii :=
  unfold asciiObject; cbn [forallb fst snd]; rewrite ?isAscii_Sprintf; reflexivity.

(** * Structures of integers

    Most codecs print every field with [Sprintf("%v")] and read each back with
    [SetString(_, 10)], refusing the object when one of them is nil. *)

Section ints.
Context `{J : JsonLib}.

Definition intsObject (names : list string) (vals : list bigint) : object :=
  zip names (Sprintf_v <$> vals).

Definition marshalInts (names : list string) (vals : list bigint) : string :=
  json_Marshal (intsObject names vals).

(** All the named fields, or nothing when one of them is nil. *)
Fixpoint readInts (names : list string) (fs : object) : option (list Z) :=
  match names with
  | [] => Some []
  | n :: names' => v ← fieldInt n fs; l ← readInts names' fs; Some (v :: l)
  end.

Definition unmarshalInts (names : list string) (raw : string) : res (list Z) :=
  match json_Unmarshal raw with
  | None => Err "json"
  | Some fs =>
      match readInts names fs with
      | Some l => Ok l
      | None => Err "unmarshal json error"
      end
  end.
End ints.

Lemma intsObject_ascii names vals : forallb isAscii names = true ->
  asciiObject (intsObject names vals) = true.
Proof.
  revert vals. induction names as [|n names IH]; intros [|v vals] H; try done.
  cbn [forallb] in H. apply andb_true_iff in H as [Hn H].
  change (intsObject (n :: names) (v :: vals)) with ((n, Sprintf_v v) :: intsObject names vals).
  unfold asciiObject in *. cbn [forallb fst snd]. rewrite Hn, isAscii_Sprintf, IH by assumption. done.
Qed.

Lemma readInts_skip names n v fs : n ∉ names ->
  readInts names ((n, v) :: fs) = readInts names fs.
Proof.
  induction names as [|m names IH]; intros H; [done|]. apply not_elem_of_cons in H as [Hm H].
  cbn [readInts]. rewrite fieldInt_skip by now apply String.eqb_neq. now rewrite IH.
Qed.

Lemma readInts_object names : NoDup names -> forall vals : list Z, length vals = length names ->
  readInts names (intsObject names (Some <$> vals)) = Some vals.
Proof.
  induction 1 as [|n names Hn _ IH]; intros [|v vals] Hl; try discriminate; [done|].
  change (intsObject (n :: names) (Some <$> v :: vals))
    with ((n, Sprintf_v (Some v)) :: intsObject names (Some <$> vals)).
  cbn [readInts]. rewrite fieldInt_here, readInts_skip, IH by (assumption || (cbn in Hl; lia)). done.
Qed.

(** Encoding and decoding a structure of non-nil integers. *)
Lemma ints_roundtrip `{JsonLaws} names vals :
  forallb isAscii names = true -> NoDup names -> length vals = length names ->
  unmarshalInts names (marshalInts names (Some <$> vals)) = Ok vals.
Proof.
  intros Ha Hn Hl. unfold unmarshalInts, marshalInts.
  rewrite json_roundtrip by now apply intsObject_ascii. now rewrite readInts_object.
Qed.
