(* ===== verification/IntGo.v ===== *)
(** Integer helpers of [smpc-lib/crypto/ec2/int.go]: arithmetic with modular
    reduction, the domain-separated hash, the extended Euclidean algorithm, the
    square roots modulo a product of two primes, the modulus checks, the
    duplicate check and [joinInt].  (The sampling helpers are in [Random].) *)

From Stdlib Require Import ZArith Lia Zcong Zdivisibility.
From stdpp Require Import gmap.
From S2P Require Import Prelude NumTheory Primality GoBig Text.

#[local] Open Scope Z_scope.

(** * Library routines

    What the code uses of [math/big]'s primality test and modular square root
    and of [crypto.SHA512_256], with the documented behaviour. *)
Class GoLib := {
  ProbablyPrime : Z -> bool;
  ModSqrt : Z -> Z -> bigint;
  sha512_256 : list Z -> list Z
}.

Class GoLibLaws (L : GoLib) := {
  (** a prime is always reported prime; the answer is exact below 2^64 *)
  ProbablyPrime_prime x : Z.prime x -> ProbablyPrime x = true;
  ProbablyPrime_small x : x < 2 ^ 64 -> ProbablyPrime x = true -> Z.prime x;
  (** a square root modulo an odd prime when there is one, nil otherwise *)
  ModSqrt_Some x p r : Z.prime p -> 2 < p -> ModSqrt x p = Some r ->
    0 <= r < p /\ [mod p] r * r == x;
  ModSqrt_None x p : Z.prime p -> 2 < p -> ModSqrt x p = None ->
    forall r, ~ [mod p] r * r == x
}.

(** * Arithmetic with reduction: the methods of [modInt] *)

Definition modInt_Add (mi x y : Z) : res Z := Mod (x + y) mi.
Definition modInt_Sub (mi x y : Z) : res Z := Mod (x - y) mi.
Definition modInt_Div (mi x y : Z) : res Z := i ← Div x y; Mod i mi.
Definition modInt_Mul (mi x y : Z) : res Z := Mod (x * y) mi.
Definition modInt_Exp (mi x y : Z) : bigint := Exp x y mi.
Definition modInt_Neg (mi x : Z) : res Z := Mod (- x) mi.
Definition modInt_Inverse (mi g : Z) : bigint := ModInverse g mi.

(** * Hashing with a block count and delimiters *)

Definition hashInputDelimiter : Z := 36.  (* '$' *)

(** The bytes written to the hash. *)
Definition Sha512_256_data (l : list Z) : list Z :=
  PutUint 8 (Z.of_nat (length l) mod 2 ^ 64) ++
  (l ≫= fun n => Bytes n ++ [hashInputDelimiter]).

Definition Sha512_256 `{GoLib} (l : list bigint) : res bigint :=
  match l with
  | [] => Ok None
  | _ => l' ← foldRange l (fun _ n acc => n ← deref n; Ok (acc ++ [n])) 0 [];
         Ok (Some (SetBytes (sha512_256 (Sha512_256_data l'))))
  end.

(** * Extended Euclid *)

(** The loop [for { if b <= 0 { break } ... }]; [Starve] when the fuel is out. *)
Fixpoint euclid (fuel : nat) (a b x2 x1 y2 y1 : Z) : res (Z * Z * Z) :=
  if b <=? 0 then Ok (a, x2, y2) else
  match fuel with
  | O => Starve
  | S f =>
      q ← Div a b;
      let qb := q * b in
      let r := a - qb in
      let qx1 := q * x1 in
      let x := x2 - qx1 in
      let qy1 := q * y1 in
      let y := y2 - qy1 in
      euclid f b r x1 x y1 y
  end.

(** Each pair of iterations halves [b]. *)
Definition euclid_fuel (b : Z) : nat := 2 * Z.to_nat (BitLen b).

Definition EuclideanAlgorithm (a b : bigint) : res (option (Z * Z * Z)) :=
  match a, b with
  | Some a, Some b =>
      if a <? b then Ok None
      else if b =? 0 then Ok (Some (a, 1, 0))
      else r ← euclid (euclid_fuel b) a b 1 0 0 1; Ok (Some r)
  | _, _ => Ok None
  end.

(** * Square roots modulo N = p*q *)

Definition GetTheQuadraticResidueInt `{GoLib} (roh N p q : bigint)
  : res (option (Z * Z * Z * Z)) :=
  match roh, N, p, q with
  | Some roh, Some N, Some p, Some q =>
      if p <? q then Ok None else
      match ModSqrt roh p with
      | None => Ok None
      | Some r =>
      match ModSqrt roh q with
      | None => Ok None
      | Some s =>
          e ← EuclideanAlgorithm (Some p) (Some q);
          '(g, c, d) ← deref e;
          if negb (g =? 1) then Ok None else
          let tmp1 := q * d in
          let tmp1 := tmp1 * r in
          let tmp2 := p * c in
          let tmp2 := tmp2 * s in
          x ← Mod (tmp1 + tmp2) N;
          negx ← Mod (x * -1) N;
          y ← Mod (tmp1 - tmp2) N;
          negy ← Mod (y * -1) N;
          Ok (Some (x, negx, y, negy))
      end end
  | _, _, _, _ => Ok None
  end.

(** * Checks on a modulus *)

(** The binary search for [mid] with [(2^mid)^b = Ntilde]; the search interval
    shrinks in every round. *)
Fixpoint power_search (fuel : nat) (Ntilde b low high : Z) : option Z :=
  match fuel with
  | O => None
  | S f =>
      let ho := high - 1 in
      if ho <=? low then None else
      let sum := low + high in
      let mid := sum / 2 in
      let ab := 2 ^ mid in
      let ab := ab ^ b in
      if Ntilde <? ab then power_search f Ntilde b low mid
      else if ab <? Ntilde then power_search f Ntilde b mid high
      else Some (2 ^ mid)
  end.

(** [for b := 2; b <= log2n; b++], [k] rounds of it left. *)
Fixpoint power_exponents (k : nat) (Ntilde b log2n : Z) : option Z :=
  match k with
  | O => None
  | S k' =>
      if log2n <? b then None else
      match power_search (S (Z.to_nat (log2n / b))) Ntilde b 1 (log2n / b) with
      | Some a => Some a
      | None => power_exponents k' Ntilde (b + 1) log2n
      end
  end.

Definition IsPerfectPower (Ntilde : bigint) : bigint :=
  match Ntilde with
  | None => None
  | Some Ntilde =>
      let log2n := BitLen Ntilde in
      power_exponents (Z.to_nat log2n) Ntilde 2 log2n
  end.

Fixpoint IsPerfectPowerOfPrime_fuel `{GoLib} (fuel : nat) (Ntilde : bigint) : res bool :=
  match IsPerfectPower Ntilde with
  | None => Ok false
  | Some a =>
      if ProbablyPrime a then Ok true else
      match fuel with O => Starve | S f => IsPerfectPowerOfPrime_fuel f (Some a) end
  end.

(** The base found is smaller than its power, so the recursion is at most as
    deep as the number is long. *)
Definition IsPerfectPowerOfPrime `{GoLib} (Ntilde : bigint) : res bool :=
  IsPerfectPowerOfPrime_fuel
    (match Ntilde with Some n => Z.to_nat (BitLen n) | None => O end) Ntilde.

Definition CheckPrime `{GoLib} (Ntilde : bigint) : res bool :=
  match Ntilde with
  | None => Ok false
  | Some n =>
      if n <=? 0 then Ok false
      else if n mod 2 =? 0 then Ok false
      else if ProbablyPrime n then Ok false
      else negb <$> IsPerfectPowerOfPrime Ntilde
  end.

(** * Lists of integers *)

(** [numMap] is a Go map keyed by the lower-cased decimal text. *)
Definition ContainsDuplicate (ids : list bigint) : res bool :=
  match ids with
  | [] => Err "input param error"
  | _ =>
      let numMap : gset string :=
        foldl (fun m v => {[ToLower (Sprintf_v v)]} ∪ m) ∅ ids in
      if negb (Nat.eqb (size numMap) (length ids)) then Ok true else Ok false
  end.

(** [diff] only sizes the buffer; a negative capacity panics. *)
Definition joinInt (l : list bigint) (diff : Z) : res bigint :=
  match l with
  | [] => Ok None
  | _ => data ← foldRange l (fun _ n acc => n ← deref n; Ok (acc ++ Bytes n)) 0 [];
         if Z.of_nat (length data) + diff <? 0 then Panic else
         Ok (Some (SetBytes data))
  end.

(** * Extended Euclid computes a Bezout identity *)

Lemma BitLen_lt b k : 0 <= b -> Z.of_nat k = BitLen b -> b < 2 ^ Z.of_nat k.
Proof.
  intros Hb Hk. rewrite Hk. unfold BitLen. bdestr; [lia|].
  rewrite Z.abs_eq by lia. apply Z.log2_lt_pow2; lia.
Qed.

Lemma Div_pos a b : 0 < b -> Div a b = Ok (a / b).
Proof. intros. unfold Div. bdestr. rewrite Z.abs_eq, Z.sgn_pos by lia. f_equal. lia. Qed.

(** Two remainders in a row at least halve the divisor. *)
Lemma mod_halves b r : 0 < r < b -> 2 * (b mod r) <= b - 1.
Proof.
  intros Hr. pose proof (Z.mod_pos_bound b r). pose proof (Z.div_mod b r).
  assert (1 <= b / r) by (apply Z.div_le_lower_bound; lia). nia.
Qed.

Lemma euclid_step fuel a b x2 x1 y2 y1 : 0 < b ->
  euclid (S fuel) a b x2 x1 y2 y1 =
  euclid fuel b (a mod b) x1 (x2 - a / b * x1) y1 (y2 - a / b * y1).
Proof.
  intros Hb. cbn [euclid]. bdestr. rewrite Div_pos by lia. cbn [mbind res_bind].
  f_equal. rewrite Z.mod_eq by lia. lia.
Qed.

Lemma euclid_0 fuel a b x2 x1 y2 y1 : b = 0 -> euclid fuel a b x2 x1 y2 y1 = Ok (a, x2, y2).
Proof. intros ->. now destruct fuel. Qed.

(** What the loop computes, whenever it returns. *)
Lemma euclid_sound A B fuel a b x2 x1 y2 y1 g x y :
  0 <= a -> 0 <= b -> a = A * x2 + B * y2 -> b = A * x1 + B * y1 ->
  Z.gcd a b = Z.gcd A B ->
  euclid fuel a b x2 x1 y2 y1 = Ok (g, x, y) -> g = Z.gcd A B /\ A * x + B * y = g.
Proof.
  revert a b x2 x1 y2 y1. induction fuel as [|f IH]; intros a b x2 x1 y2 y1 Ha Hb Ea Eb Hg H.
  - cbn in H. bdestr; [|discriminate]. injection H as <- <- <-. rewrite <- Hg.
    assert (E0 : b = 0) by lia. rewrite E0, Z.gcd_0_r, Z.abs_eq; lia.
  - destruct (Z.eq_dec b 0) as [E0|Hb0].
    + rewrite euclid_0 in H by assumption. injection H as <- <- <-.
      rewrite <- Hg, E0, Z.gcd_0_r, Z.abs_eq; lia.
    + rewrite euclid_step in H by lia. eapply IH in H; [exact H|lia| |exact Eb| |].
      * apply Z.mod_pos_bound. lia.
      * rewrite Z.mod_eq by lia. lia.
      * rewrite Z.gcd_comm, Z.gcd_mod by lia. rewrite Z.gcd_comm. exact Hg.
Qed.

(** It does return within two iterations per bit of [b]. *)
Lemma euclid_total k : forall a b x2 x1 y2 y1,
  0 <= b < 2 ^ Z.of_nat k -> exists r, euclid (2 * k) a b x2 x1 y2 y1 = Ok r.
Proof.
  induction k as [|k IH]; intros a b x2 x1 y2 y1 Hb.
  - rewrite euclid_0 by (cbn in Hb; lia). eauto.
  - replace (2 * S k)%nat with (S (S (2 * k))) by lia.
    destruct (Z.eq_dec b 0); [rewrite euclid_0 by lia; eauto|].
    rewrite euclid_step by lia. pose proof (Z.mod_pos_bound a b ltac:(lia)).
    destruct (Z.eq_dec (a mod b) 0); [rewrite euclid_0 by lia; eauto|].
    rewrite euclid_step by lia. apply IH.
    pose proof (mod_halves b (a mod b)). pose proof (Z.mod_pos_bound b (a mod b)).
    rewrite Nat2Z.inj_succ, Z.pow_succ_r in Hb by lia. lia.
Qed.

Lemma EuclideanAlgorithm_spec a b : 0 <= b <= a ->
  exists x y, EuclideanAlgorithm (Some a) (Some b) = Ok (Some (Z.gcd a b, x, y)) /\
              a * x + b * y = Z.gcd a b.
Proof.
  intros H. unfold EuclideanAlgorithm. bdestr.
  - exists 1, 0. subst. rewrite Z.gcd_0_r, Z.abs_eq by lia. split; [done|lia].
  - destruct (euclid_total (Z.to_nat (BitLen b)) a b 1 0 0 1) as [[[g x] y] E].
    { split; [lia|]. apply BitLen_lt; [lia|]. rewrite Z2Nat.id; [done|].
      unfold BitLen. bdestr. pose proof (Z.log2_nonneg (Z.abs b)). lia. }
    unfold euclid_fuel. rewrite E. cbn.
    apply (euclid_sound a b) in E as [-> E]; [|lia..]. eauto.
Qed.

(** * The loop of the Jacobi symbol ends *)

Lemma shiftr_pos_bounds a : 1 <= Z.shiftr (Z.pos a) (trailingZeros a) <= Z.pos a.
Proof.
  assert (Hs : 0 <= trailingZeros a) by (induction a; cbn [trailingZeros]; lia).
  assert (Hd : 2 ^ trailingZeros a <= Z.pos a).
  { clear Hs. induction a as [a IH|a IH|]; cbn [trailingZeros]; [lia| |lia].
    assert (0 <= trailingZeros a) by (clear IH; induction a; cbn [trailingZeros]; lia).
    rewrite Z.pow_add_r by lia. lia. }
  rewrite Z.shiftr_div_pow2 by assumption. pose proof (Z.pow_pos_nonneg 2 (trailingZeros a)).
  split; [apply Z.div_le_lower_bound; lia|apply Z.div_le_upper_bound; nia].
Qed.

Lemma jacobiLoop_total k : forall a b j, 0 < b < 2 ^ Z.of_nat k ->
  exists v, jacobiLoop (2 * k) a b j = Ok v.
Proof.
  induction k as [|k IH]; intros a b j Hb; [cbn in Hb; lia|].
  replace (2 * S k)%nat with (S (S (2 * k))) by lia.
  cbn [jacobiLoop]. destruct (b =? 1); [eauto|]. destruct (a =? 0); [eauto|].
  pose proof (Z.mod_pos_bound a b ltac:(lia)) as R1. destruct (a mod b) as [|a1|a1]; [eauto| |lia].
  cbv zeta. pose proof (shiftr_pos_bounds a1) as B1. set (c := Z.shiftr (Z.pos a1) _) in *.
  set (j1 := if _ && _ then _ else _). destruct (c =? 1); [eauto|].
  destruct (Z.eqb_spec b 0); [eauto|].
  pose proof (Z.mod_pos_bound b c ltac:(lia)) as R2.
  pose proof (mod_halves b c ltac:(lia)) as Hh. destruct (b mod c) as [|a2|a2]; [eauto| |lia].
  pose proof (shiftr_pos_bounds a2) as B2. set (c2 := Z.shiftr (Z.pos a2) _) in *. apply IH.
  rewrite Nat2Z.inj_succ, Z.pow_succ_r in Hb by lia. lia.
Qed.

Lemma Jacobi_total x y : 0 < y -> Z.odd y = true -> exists v, Jacobi x y = Ok v.
Proof.
  intros Hy Ho. unfold Jacobi. rewrite <- Z.negb_odd, Ho. cbn [negb]. apply jacobiLoop_total.
  split; [assumption|]. apply BitLen_lt; [lia|]. rewrite Z2Nat.id; [done|].
  unfold BitLen. bdestr. pose proof (Z.log2_nonneg (Z.abs y)). lia.
Qed.

(** * The four square roots *)

(** The Chinese-remainder combination of two roots. *)
Lemma crt_root p q c d r s roh :
  p * c + q * d = 1 -> [mod p] r * r == roh -> [mod q] s * s == roh -> Z.coprime p q ->
  [mod p * q] (q * d * r + p * c * s) * (q * d * r + p * c * s) == roh /\
  [mod p * q] (q * d * r - p * c * s) * (q * d * r - p * c * s) == roh.
Proof.
  intros Hb Hr Hs Hc.
  assert (Hp : [mod p] q * d == 1) by (exists (- c); lia).
  assert (Hq : [mod q] p * c == 1) by (exists (- d); lia).
  assert (Hp0 : [mod p] p * c == 0) by (exists c; lia).
  assert (Hq0 : [mod q] q * d == 0) by (exists d; lia).
  split; (apply crt; [assumption|rewrite Hp, Hp0|rewrite Hq, Hq0]).
  - rewrite <- Hr. now replace ((1 * r + 0 * s) * (1 * r + 0 * s)) with (r * r) by ring.
  - rewrite <- Hs. now replace ((0 * r + 1 * s) * (0 * r + 1 * s)) with (s * s) by ring.
  - rewrite <- Hr. now replace ((1 * r - 0 * s) * (1 * r - 0 * s)) with (r * r) by ring.
  - rewrite <- Hs. now replace ((0 * r - 1 * s) * (0 * r - 1 * s)) with (s * s) by ring.
Qed.

Lemma eqm_square_mod N x roh :
  [mod N] x * x == roh -> [mod N] (x mod N) * (x mod N) == roh.
Proof. intros H. now rewrite eqm_mod. Qed.

Lemma eqm_square_neg N x roh :
  [mod N] x * x == roh -> [mod N] (x * -1) * (x * -1) == roh.
Proof. intros H. rewrite <- H. now replace (x * -1 * (x * -1)) with (x * x) by ring. Qed.

Lemma prime_ne_coprime p q : Z.prime p -> Z.prime q -> p <> q -> Z.coprime p q.
Proof.
  intros Hp Hq Hne. apply prime_coprime; [assumption|]. intros H0.
  assert (Hd : (q | p)).
  { now apply eqm_0_divide, eqm_0_mod. }
  destruct Hp as [Hp1 Hp2]. pose proof (prime_pos q Hq).
  assert (q <= p) by (apply Z.divide_pos_le; [lia|assumption]).
  apply (Hp2 q); [lia|assumption].
Qed.

(** * The modulus checks only know powers of two *)

Lemma power_search_sound fuel N b low high a :
  0 < low -> power_search fuel N b low high = Some a ->
  exists m, 0 < m /\ a = 2 ^ m /\ N = a ^ b.
Proof.
  revert low high. induction fuel as [|f IH]; intros low high Hlow H; cbn in H; [discriminate|].
  destruct (Z.leb_spec (high - 1) low); [discriminate|].
  assert (0 < (low + high) / 2) by (apply Z.div_str_pos; lia).
  destruct (Z.ltb_spec N ((2 ^ ((low + high) / 2)) ^ b)); [eauto|].
  destruct (Z.ltb_spec ((2 ^ ((low + high) / 2)) ^ b) N); [eauto|].
  injection H as <-. exists ((low + high) / 2). repeat split; lia.
Qed.

Lemma power_exponents_sound k N b log2n a :
  2 <= b -> power_exponents k N b log2n = Some a ->
  exists m e, 0 < m /\ 2 <= e /\ a = 2 ^ m /\ N = a ^ e.
Proof.
  revert b. induction k as [|k IH]; intros b Hb H; cbn [power_exponents] in H; [discriminate|].
  destruct (log2n <? b); [discriminate|].
  destruct (power_search _ _ _ _ _) as [a0|] eqn:E.
  - injection H as ->. apply power_search_sound in E as (m & ? & ? & ?); [|lia].
    exists m, b. auto.
  - eapply IH; [|exact H]. lia.
Qed.

Lemma IsPerfectPower_pow2 N a : IsPerfectPower (Some N) = Some a ->
  exists m e, 0 < m /\ 2 <= e /\ a = 2 ^ m /\ N = a ^ e.
Proof. apply power_exponents_sound. lia. Qed.

Lemma IsPerfectPower_odd N : N mod 2 <> 0 -> IsPerfectPower (Some N) = None.
Proof.
  intros Ho. destruct (IsPerfectPower (Some N)) as [a|] eqn:E; [|done].
  apply IsPerfectPower_pow2 in E as (m & e & Hm & He & -> & ->). exfalso. apply Ho.
  rewrite <- Z.pow_mul_r by lia. apply eqm_0_mod, eqm_0_divide.
  exists (2 ^ (m * e - 1)). rewrite (Z.mul_comm (2 ^ _) 2), <- Z.pow_succ_r by nia.
  f_equal. lia.
Qed.

(** The base is at most half as long, so the recursion ends in time. *)
Lemma IsPerfectPowerOfPrime_total `{GoLib} fuel N :
  BitLen N <= Z.of_nat fuel -> exists b, IsPerfectPowerOfPrime_fuel fuel (Some N) = Ok b.
Proof.
  revert N. induction fuel as [|f IH]; intros N HN; cbn -[IsPerfectPower].
  - unfold BitLen in HN. destruct (Z.eqb_spec N 0) as [E|].
    + rewrite E. cbn. eauto.
    + pose proof (Z.log2_nonneg (Z.abs N)). lia.
  - destruct (IsPerfectPower (Some N)) as [a|] eqn:E; [|eauto].
    destruct (ProbablyPrime a); [eauto|]. apply IH.
    apply IsPerfectPower_pow2 in E as (m & e & Hm & He & -> & ->).
    pose proof (Z.pow_pos_nonneg 2 m ltac:(lia) ltac:(lia)).
    rewrite <- Z.pow_mul_r in HN by lia.
    pose proof (Z.pow_pos_nonneg 2 (m * e) ltac:(lia) ltac:(nia)).
    unfold BitLen in *. destruct (Z.eqb_spec (2 ^ (m * e)) 0); [lia|].
    destruct (Z.eqb_spec (2 ^ m) 0); [lia|].
    rewrite Z.abs_eq, Z.log2_pow2 in * by nia. nia.
Qed.

(** * Duplicates *)

Lemma numMap_size (m : gset string) (ids : list bigint) :
  size (foldl (fun m v => {[ToLower (Sprintf_v v)]} ∪ m) m ids) =
  size (m ∪ list_to_set (Sprintf_v <$> ids)).
Proof.
  f_equal. revert m. induction ids as [|v ids IH]; intros m; cbn.
  - set_solver.
  - rewrite IH, ToLower_Sprintf. set_solver.
Qed.

Lemma size_union_le (X Y : gset string) : (size (X ∪ Y) <= size X + size Y)%nat.
Proof.
  rewrite size_union_alt. pose proof (subseteq_size (Y ∖ X) Y ltac:(set_solver)). lia.
Qed.

Lemma size_list_to_set_NoDup (l : list string) :
  size (list_to_set (C := gset string) l) = length l <-> NoDup l.
Proof.
  split; [|intros; by apply size_list_to_set].
  assert (Hle : forall l' : list string, (size (list_to_set (C := gset string) l') <= length l')%nat).
  { induction l' as [|x l' IH]; cbn; [done|].
    etrans; [apply size_union_le|]. rewrite size_singleton. lia. }
  induction l as [|x l IH]; cbn; intros H; constructor.
  - intros Hin. assert (E : {[x]} ∪ list_to_set (C := gset string) l = list_to_set l) by set_solver.
    rewrite E in H. specialize (Hle l). lia.
  - apply IH. pose proof (Hle l).
    pose proof (size_union_le {[x]} (list_to_set (C := gset string) l)) as Hu.
    rewrite size_singleton in Hu. lia.
Qed.

Lemma ContainsDuplicate_spec ids : ids <> [] ->
  ContainsDuplicate ids = Ok (negb (bool_decide (NoDup ids))).
Proof.
  intros Hne. unfold ContainsDuplicate. destruct ids as [|v ids]; [done|].
  rewrite numMap_size, union_empty_l_L. set (l := v :: ids).
  assert (E : size (list_to_set (C := gset string) (Sprintf_v <$> l)) = length l <-> NoDup l).
  { rewrite <- (length_fmap Sprintf_v l), size_list_to_set_NoDup. split.
    - apply NoDup_fmap_1.
    - apply NoDup_fmap_2, _. }
  destruct (Nat.eqb_spec (size (list_to_set (C := gset string) (Sprintf_v <$> l))) (length l)).
  - rewrite bool_decide_eq_true_2 by tauto. done.
  - rewrite bool_decide_eq_false_2 by tauto. done.
Qed.

(** Odd numbers that do not test prime pass. *)
Lemma CheckPrime_odd `{GoLib} n : 0 < n -> n mod 2 <> 0 -> ProbablyPrime n = false ->
  CheckPrime (Some n) = Ok true.
Proof.
  intros Hpos Hodd E. unfold CheckPrime. destruct (Z.leb_spec n 0); [lia|].
  destruct (Z.eqb_spec (n mod 2) 0); [contradiction|]. rewrite E.
  unfold IsPerfectPowerOfPrime. pose proof (IsPerfectPower_odd _ Hodd) as E'.
  destruct (Z.to_nat (BitLen n)); cbn -[IsPerfectPower]; now rewrite E'.
Qed.

(** Both square roots exist: four roots; otherwise nil. *)
Lemma GetTheQuadraticResidueInt_spec `{GoLibLaws} roh p q :
  Z.prime p -> Z.prime q -> 2 < q -> q < p ->
  match ModSqrt roh p, ModSqrt roh q with
  | Some _, Some _ =>
      exists x negx y negy,
        GetTheQuadraticResidueInt (Some roh) (Some (p * q)) (Some p) (Some q)
        = Ok (Some (x, negx, y, negy)) /\
        Forall (fun v => 0 <= v < p * q /\ [mod p * q] v * v == roh) [x; negx; y; negy] /\
        [mod p * q] x + negx == 0 /\ [mod p * q] y + negy == 0
  | _, _ => GetTheQuadraticResidueInt (Some roh) (Some (p * q)) (Some p) (Some q) = Ok None
  end.
Proof.
  intros Hp Hq Hq2 Hqp. unfold GetTheQuadraticResidueInt. bdestr.
  destruct (ModSqrt roh p) as [r|] eqn:Er; [|done].
  destruct (ModSqrt roh q) as [s|] eqn:Es; [|done].
  apply ModSqrt_Some in Er as [_ Hr]; [|assumption|lia].
  apply ModSqrt_Some in Es as [_ Hs]; [|assumption|lia].
  assert (Hc : Z.coprime p q) by (apply prime_ne_coprime; auto; lia).
  destruct (EuclideanAlgorithm_spec p q) as (c & d & E & Hb); [lia|]. rewrite E.
  unfold Z.coprime in Hc. rewrite Hc in *. cbn [mbind res_bind deref negb Z.eqb Pos.eqb].
  assert (Hpq : 0 < p * q) by nia. repeat (rewrite Mod_pos by assumption; cbn [mbind res_bind]).
  do 4 eexists. split; [reflexivity|].
  destruct (crt_root p q c d r s roh Hb Hr Hs Hc) as [Hx Hy].
  assert (Hroot : forall v, [mod p * q] v * v == roh ->
            0 <= v mod (p * q) < p * q /\ [mod p * q] v mod (p * q) * (v mod (p * q)) == roh).
  { intros v Hv. split; [now apply Z.mod_pos_bound|now apply eqm_square_mod]. }
  split; [|split; unmod].
  - repeat apply Forall_cons_2; [..|apply Forall_nil_2];
      apply Hroot; try (apply eqm_square_neg, eqm_square_mod); assumption.
  - now replace (q * d * r + p * c * s + (q * d * r + p * c * s) * -1) with 0 by ring.
  - now replace (q * d * r - p * c * s + (q * d * r - p * c * s) * -1) with 0 by ring.
Qed.

(** * A small implementation of the library routines *)

(** Primality by trial division, square roots by search, and a checksum in the
    place of the hash. *)
Definition sqrt_search (x p : Z) : bigint :=
  head (filter (fun r => (r * r - x) mod p = 0) (Z.of_nat <$> seq 0 (Z.to_nat p))).

#[export] Instance smallLib : GoLib := {|
  ProbablyPrime := is_prime_small;
  ModSqrt := sqrt_search;
  sha512_256 l := [SetBytes l mod 251]
|}.

Lemma no_divisor_complete n : Z.prime n -> forall fuel d,
  2 <= d -> Z.sqrt n + 2 <= d + Z.of_nat fuel -> d <= Z.sqrt n + 1 -> no_divisor fuel d n = true.
Proof.
  intros Hp. pose proof (prime_pos n Hp). pose proof (Z.sqrt_spec n ltac:(lia)) as [Hs1 Hs2].
  induction fuel as [|f IH]; intros d Hd Hf Hd2; [lia|]. cbn.
  destruct (Z.ltb_spec n (d * d)); [done|].
  assert (d <= Z.sqrt n) by (apply Z.sqrt_le_square; lia).
  destruct (Z.eqb_spec (n mod d) 0) as [Hz|]; [|apply IH; lia].
  destruct Hp as [Hn Hp]. exfalso. apply (Hp d); [nia|].
  now apply eqm_0_divide, eqm_0_mod.
Qed.

Lemma is_prime_small_complete n : Z.prime n -> is_prime_small n = true.
Proof.
  intros Hp. pose proof (prime_pos n Hp). unfold is_prime_small.
  rewrite (proj2 (Z.ltb_lt 1 n)) by lia. cbn [andb].
  pose proof (Z.sqrt_spec n ltac:(lia)) as [Hs1 Hs2].
  apply no_divisor_complete; auto; nia.
Qed.

Lemma sqrt_search_elem x p r : 0 < p ->
  r ∈ filter (fun r => (r * r - x) mod p = 0) (Z.of_nat <$> seq 0 (Z.to_nat p)) <->
  0 <= r < p /\ [mod p] r * r == x.
Proof.
  intros Hp. rewrite list_elem_of_filter, list_elem_of_fmap.
  rewrite <- (eqm_0_mod p), eqm_0_divide. fold (eqm p (r * r) x).
  split.
  - intros (H & n & -> & Hn%elem_of_seq). split; [lia|exact H].
  - intros [Hr H]. split; [exact H|]. exists (Z.to_nat r). rewrite elem_of_seq. lia.
Qed.

#[export] Instance smallLib_laws : GoLibLaws smallLib.
Proof.
  split; cbn.
  - apply is_prime_small_complete.
  - intros x _. apply is_prime_small_sound.
  - intros x p r Hp H2 H. apply sqrt_search_elem; [lia|]. unfold sqrt_search in H.
    destruct (filter _ _); simplify_eq/=. left.
  - intros x p Hp H2 H r Hr. unfold sqrt_search in H.
    assert (Hin : r mod p ∈ filter (fun r => (r * r - x) mod p = 0)
                              (Z.of_nat <$> seq 0 (Z.to_nat p))).
    { apply sqrt_search_elem; [lia|]. split; [apply Z.mod_pos_bound; lia|].
      now rewrite eqm_mod. }
    destruct (filter _ _); [now apply not_elem_of_nil in Hin|discriminate].
Defined.

(** * Claims *)

(** [EuclideanAlgorithm] terminates on every [a >= b >= 0] and returns
    [gcd(a, b)] with Bezout coefficients. *)
Theorem EuclideanAlgorithm_bezout a b : 0 <= b <= a ->
  exists x y, EuclideanAlgorithm (Some a) (Some b) = Ok (Some (Z.gcd a b, x, y)) /\
              a * x + b * y = Z.gcd a b.
Proof. apply EuclideanAlgorithm_spec. Qed.

Lemma EuclideanAlgorithm_bezout_witness :
  exists x y, EuclideanAlgorithm (Some 240) (Some 46) = Ok (Some (2, x, y)) /\ 240 * x + 46 * y = 2.
Proof. apply (EuclideanAlgorithm_bezout 240 46). lia. Defined.

(** For odd primes [p > q] and [N = p*q], [GetTheQuadraticResidueInt]
    returns four square roots of [roh] modulo [N], two pairs of opposites, when
    [roh] is a square modulo [p] and modulo [q], and nil otherwise; it never
    panics and its Euclid loop always ends. *)
Theorem GetTheQuadraticResidueInt_roots `{GoLibLaws} roh p q :
  Z.prime p -> Z.prime q -> 2 < q -> q < p ->
  match GetTheQuadraticResidueInt (Some roh) (Some (p * q)) (Some p) (Some q) with
  | Ok (Some (x, negx, y, negy)) =>
      Forall (fun v => 0 <= v < p * q /\ [mod p * q] v * v == roh) [x; negx; y; negy] /\
      [mod p * q] x + negx == 0 /\ [mod p * q] y + negy == 0
  | Ok None => (forall r, ~ [mod p] r * r == roh) \/ (forall s, ~ [mod q] s * s == roh)
  | _ => False
  end.
Proof.
  intros Hp Hq Hq2 Hqp. pose proof (GetTheQuadraticResidueInt_spec roh p q Hp Hq Hq2 Hqp) as HS.
  destruct (ModSqrt roh p) as [r|] eqn:Er.
  - destruct (ModSqrt roh q) as [s|] eqn:Es.
    + destruct HS as (x & nx & y & ny & -> & HS). exact HS.
    + rewrite HS. right. now eapply ModSqrt_None.
  - rewrite HS. left. eapply ModSqrt_None; eauto. lia.
Qed.

Lemma GetTheQuadraticResidueInt_roots_witness :
  GetTheQuadraticResidueInt (Some 4) (Some (11 * 7)) (Some 11) (Some 7) = Ok (Some (2, 75, 68, 9))
  /\ [mod 11 * 7] 68 * 68 == 4.
Proof.
  assert (E : GetTheQuadraticResidueInt (Some 4) (Some (11 * 7)) (Some 11) (Some 7)
              = Ok (Some (2, 75, 68, 9))) by (vm_compute; reflexivity).
  split; [exact E|].
  pose proof (GetTheQuadraticResidueInt_roots 4 11 7 ltac:(small_prime) ltac:(small_prime)
                ltac:(lia) ltac:(lia)) as H.
  rewrite E in H. destruct H as [H _]. rewrite !Forall_cons in H. apply H.
Defined.

(** [CheckPrime] is documented to reject prime perfect powers, but its
    search only tries powers of two: every power of an odd prime passes (here
    below 2^64, where the primality test is exact). *)
Theorem CheckPrime_accepts_prime_powers `{GoLibLaws} p k :
  Z.prime p -> 2 < p -> 2 <= k -> p ^ k < 2 ^ 64 -> CheckPrime (Some (p ^ k)) = Ok true.
Proof.
  intros Hp H2 Hk Hb.
  assert (Hpos : 0 < p ^ k) by (apply Z.pow_pos_nonneg; lia).
  assert (Hodd : (p ^ k) mod 2 <> 0).
  { intros E%eqm_0_mod. rewrite eqm_0_divide in E. apply Z.divide_prime_pp in E; [lia|small_prime|assumption|lia]. }
  apply CheckPrime_odd; [assumption..|]. apply not_true_iff_false. intros E.
  apply ProbablyPrime_small in E; [|assumption]. destruct E as [_ E].
  apply (E p); [|exists (p ^ (k - 1))].
  - split; [lia|]. rewrite <- (Z.pow_1_r p) at 1. apply Z.pow_lt_mono_r; lia.
  - rewrite Z.mul_comm, <- Z.pow_succ_r by lia. f_equal. lia.
Qed.

Lemma CheckPrime_accepts_prime_powers_witness : CheckPrime (Some 9) = Ok true.
Proof. apply (CheckPrime_accepts_prime_powers 3 2); [small_prime|lia..]. Defined.

(** The hash encoding of [Sha512_256] is ambiguous: moving the delimiter
    byte from one item into its neighbour leaves the hashed bytes, and so the
    digest under any hash function, unchanged, although the items differ. *)
Theorem Sha512_256_shuffle `{GoLib} a la b lb c lc :
  0 < a -> 0 < b -> 0 < c ->
  Forall (fun v => 0 <= v < 256) ((a :: la) ++ (b :: lb) ++ (c :: lc)) ->
  Sha512_256 [Some (SetBytes (a :: la)); Some (SetBytes (b :: lb ++ hashInputDelimiter :: c :: lc))]
  = Sha512_256 [Some (SetBytes (a :: la ++ hashInputDelimiter :: b :: lb)); Some (SetBytes (c :: lc))]
  /\ SetBytes (a :: la) <> SetBytes (a :: la ++ hashInputDelimiter :: b :: lb).
Proof.
  intros Ha Hb Hc HF. apply Forall_app in HF as [Fa HF]. apply Forall_app in HF as [Fb Fc].
  assert (Hd : 0 <= hashInputDelimiter < 256) by (unfold hashInputDelimiter; lia).
  assert (Fab : Forall (fun v => 0 <= v < 256) (a :: la ++ hashInputDelimiter :: b :: lb)).
  { apply (Forall_app_2 _ (a :: la)); [assumption|]. now constructor. }
  assert (Fbc : Forall (fun v => 0 <= v < 256) (b :: lb ++ hashInputDelimiter :: c :: lc)).
  { apply (Forall_app_2 _ (b :: lb)); [assumption|]. now constructor. }
  split.
  - cbn [Sha512_256 foldRange deref mbind res_bind app]. do 4 f_equal. unfold Sha512_256_data.
    cbn [length]. f_equal. cbn [mbind list_bind]. rewrite !Bytes_SetBytes by assumption.
    cbn. rewrite <- !app_assoc. done.
  - intros E. apply (f_equal Bytes) in E. rewrite !Bytes_SetBytes in E by assumption.
    apply (f_equal length) in E. cbn in E. rewrite length_app in E. cbn in E. lia.
Qed.

Lemma Sha512_256_shuffle_witness :
  Sha512_256 [Some 0x61; Some 0x622463] = Sha512_256 [Some 0x612462; Some 0x63].
Proof.
  refine (proj1 (Sha512_256_shuffle 0x61 [] 0x62 [] 0x63 [] _ _ _ _)); try lia.
  repeat constructor; lia.
Defined.

(** [ContainsDuplicate] reports exactly whether two of the identifiers are
    equal (as pointers to integers, nil included); it errs only on no input. *)
Theorem ContainsDuplicate_NoDup ids :
  ContainsDuplicate ids =
  if decide (ids = []) then Err "input param error" else Ok (negb (bool_decide (NoDup ids))).
Proof.
  destruct (decide (ids = [])) as [->|Hne]; [done|]. now apply ContainsDuplicate_spec.
Qed.
