(* ===== verification/Lagrange.v ===== *)
(** Interpolation at zero modulo a prime: the mathematics behind [Combine2] and
    the additive key shares of the signing and reshare protocols. *)

From Stdlib Require Import ZArith Lia Zcong Zdivisibility.
From stdpp Require Import sets.
From S2P Require Import Prelude NumTheory.

(** Coefficients, lowest first. *)
Definition peval (cs : list Z) (x : Z) : Z := foldr (fun c acc => c + x * acc) 0 cs.

Lemma peval_cons c cs x : peval (c :: cs) x = c + x * peval cs x.
Proof. done. Qed.

Definition zsum {A} (f : A -> Z) (l : list A) : Z := foldr (fun x acc => f x + acc) 0 l.

Lemma zsum_cons {A} (f : A -> Z) x l : zsum f (x :: l) = f x + zsum f l.
Proof. done. Qed.

Lemma zsum_app {A} (f : A -> Z) l1 l2 : zsum f (l1 ++ l2) = zsum f l1 + zsum f l2.
Proof. induction l1 as [|x l1 IH]; [done|]. cbn [app]. rewrite !zsum_cons. lia. Qed.

Lemma zsum_add {A} (f g : A -> Z) l : zsum (fun x => f x + g x) l = zsum f l + zsum g l.
Proof. induction l as [|x l IH]; [done|]. rewrite !zsum_cons. lia. Qed.

Lemma zsum_mul {A} (f : A -> Z) c l : zsum (fun x => c * f x) l = c * zsum f l.
Proof. induction l as [|x l IH]; rewrite ?zsum_cons; [cbn|]; lia. Qed.

Lemma zsum_perm {A} (f : A -> Z) l l' : l ≡ₚ l' -> zsum f l = zsum f l'.
Proof. induction 1; rewrite ?zsum_cons; lia. Qed.

Lemma zsum_ext {A} (f g : A -> Z) l : (forall x, x ∈ l -> f x = g x) -> zsum f l = zsum g l.
Proof.
  induction l as [|x l IH]; intros H; [done|]. rewrite !zsum_cons, IH, (H x); auto; set_solver.
Qed.

Lemma zsum_eqm {A} n (f g : A -> Z) l :
  (forall x, x ∈ l -> [mod n] f x == g x) -> [mod n] zsum f l == zsum g l.
Proof.
  induction l as [|x l IH]; intros H; [done|].
  rewrite !zsum_cons, IH, (H x) by set_solver. done.
Qed.

Lemma zsum_swap {A B} (f : A -> B -> Z) (l : list A) (l' : list B) :
  zsum (fun x => zsum (f x) l') l = zsum (fun y => zsum (fun x => f x y) l) l'.
Proof.
  induction l as [|x l IH].
  - induction l' as [|y l' IH]; [done|]. rewrite zsum_cons, <- IH. done.
  - rewrite zsum_cons, IH, <- zsum_add. done.
Qed.

#[local] Open Scope Z_scope.

Section lagrange.
Context (N : Z) (HN : Z.prime N).

(** No two of the points agree modulo [N]. *)
Definition distinct (xs : list Z) : Prop := NoDup ((fun x => x mod N) <$> xs).

#[global] Instance distinct_dec xs : Decision (distinct xs).
Proof. unfold distinct. apply _. Defined.

(** The coefficient of the point [x] at zero. *)
Definition lam (xs : list Z) (x : Z) : Z :=
  foldr (fun y acc => (if y =? x then 1 else y * Z.invmod (y - x) N) * acc) 1 xs.

Lemma lam_same xs x : lam (x :: xs) x = lam xs x.
Proof. cbn. rewrite Z.eqb_refl. apply Z.mul_1_l. Qed.

Lemma lam_other xs y x : y <> x -> lam (y :: xs) x = y * Z.invmod (y - x) N * lam xs x.
Proof. intros H. cbn. bdestr. done. Qed.

Lemma lam_perm xs xs' x : xs ≡ₚ xs' -> lam xs x = lam xs' x.
Proof.
  unfold lam. induction 1 as [|y l l' _ IH|y z l|l l' l'' _ IH1 _ IH2]; cbn [foldr].
  - done.
  - now rewrite IH.
  - ring.
  - congruence.
Qed.

Lemma distinct_cons x xs : distinct (x :: xs) <->
  (forall y, y ∈ xs -> (y - x) mod N <> 0) /\ distinct xs.
Proof.
  unfold distinct. rewrite fmap_cons, NoDup_cons. f_equiv.
  rewrite list_elem_of_fmap. split.
  - intros H y Hy Hd. apply H. exists y. split; [|assumption]. symmetry.
    apply eqm_mod_eq, eqm_0_divide, eqm_0_mod. assumption.
  - intros H (y & E & Hy). apply (H y Hy), eqm_0_mod. apply eqm_iff in E.
    rewrite E. now rewrite Z.sub_diag.
Qed.

Lemma distinct_perm xs xs' : xs ≡ₚ xs' -> distinct xs -> distinct xs'.
Proof. unfold distinct. intros H. now rewrite H. Qed.

Lemma inv_cancel a : a mod N <> 0 -> [mod N] a * Z.invmod a N == 1.
Proof. intros H. apply invmod_mul, prime_coprime; assumption. Qed.

(** Multiplying by [w - x] takes the point [x] out. *)
Lemma drop_point g x ys : (forall y, y ∈ ys -> (y - x) mod N <> 0) ->
  [mod N] zsum (fun w => (w - x) * g w * lam (x :: ys) w) (x :: ys)
          == - x * zsum (fun w => g w * lam ys w) ys.
Proof.
  intros Hd. rewrite zsum_cons, Z.sub_diag, <- zsum_mul, !Z.mul_0_l, Z.add_0_l.
  apply zsum_eqm. intros w Hw. specialize (Hd w Hw).
  assert (Hne : x <> w) by (intros ->; apply Hd; now rewrite Z.sub_diag, Zmod_0_l).
  rewrite lam_other by assumption.
  assert (Hi : [mod N] (x - w) * Z.invmod (x - w) N == 1).
  { apply inv_cancel. intros H0. apply Hd, eqm_0_mod.
    apply eqm_0_mod in H0. replace (w - x) with (- (x - w)) by ring. now rewrite H0. }
  transitivity (- x * (g w * lam ys w) * ((x - w) * Z.invmod (x - w) N)).
  - apply eq_subrelation; [apply _|]. ring.
  - rewrite Hi. apply eq_subrelation; [apply _|]. ring.
Qed.

Lemma unity_split xs x z :
  zsum (fun w => (w - x) * 1 * lam xs w) xs - zsum (fun w => (w - z) * 1 * lam xs w) xs
  = (z - x) * zsum (lam xs) xs.
Proof.
  rewrite <- zsum_mul.
  replace (zsum (fun w => (w - x) * 1 * lam xs w) xs)
    with (zsum (fun w => (w - z) * 1 * lam xs w + (z - x) * lam xs w) xs);
    [rewrite zsum_add; ring|]. apply zsum_ext. intros. ring.
Qed.

Lemma zsum_one f (l : list Z) : zsum (fun w => 1 * f w) l = zsum f l.
Proof. apply zsum_ext. intros. ring. Qed.

(** The coefficients sum to one. *)
Lemma lam_unity n : forall xs, length xs = S n -> distinct xs ->
  [mod N] zsum (lam xs) xs == 1.
Proof.
  induction n as [|n IH]; intros xs Hlen Hd.
  - destruct xs as [|x [|]]; try discriminate. cbn. now rewrite Z.eqb_refl.
  - destruct xs as [|x [|z ys]]; try discriminate. cbn in Hlen.
    assert (Hp : x :: z :: ys ≡ₚ z :: x :: ys) by constructor.
    pose proof (distinct_perm _ _ Hp Hd) as Hd'.
    apply distinct_cons in Hd as [Hx Hd1]. apply distinct_cons in Hd' as [Hz Hd2].
    apply (eqm_prime_cancel N (z - x)); [assumption|apply Hx; set_solver|].
    rewrite <- unity_split.
    rewrite (drop_point (fun _ => 1) x (z :: ys) Hx).
    rewrite (zsum_perm _ _ _ Hp).
    rewrite (zsum_ext _ (fun w => (w - z) * 1 * lam (z :: x :: ys) w) (z :: x :: ys));
      [|intros; now rewrite (lam_perm _ _ _ Hp)].
    rewrite (drop_point (fun _ => 1) z (x :: ys) Hz), !zsum_one.
    rewrite (IH (z :: ys)), (IH (x :: ys)) by (cbn; auto || lia).
    apply eq_subrelation; [apply _|]. ring.
Qed.

(** Division by [X - x]. *)
Fixpoint quot (cs : list Z) (x : Z) : list Z :=
  match cs with
  | [] => []
  | _ :: cs' => match cs' with [] => [] | _ => peval cs' x :: quot cs' x end
  end.

Lemma quot_length cs x : length (quot cs x) = pred (length cs).
Proof. induction cs as [|c [|d cs] IH]; [done..|]. cbn in *. now rewrite IH. Qed.

Lemma quot_spec cs x X : peval cs X = peval cs x + (X - x) * peval (quot cs x) X.
Proof.
  induction cs as [|c cs IH]; [cbn; ring|]. destruct cs as [|d cs]; [cbn; ring|].
  change (quot (c :: d :: cs) x) with (peval (d :: cs) x :: quot (d :: cs) x).
  rewrite (peval_cons c _ X), (peval_cons c _ x), (peval_cons (peval _ x)), IH. ring.
Qed.

(** The value at zero of a polynomial with at most as many coefficients as
    there are points. *)
Theorem lagrange_at_0 xs : forall cs, xs <> [] -> distinct xs -> (length cs <= length xs)%nat ->
  [mod N] zsum (fun x => peval cs x * lam xs x) xs == peval cs 0.
Proof.
  induction xs as [|x ys IH]; intros cs Hne Hd Hlen; [done|].
  pose proof Hd as [Hx Hd']%distinct_cons.
  assert (E : zsum (fun w => peval cs w * lam (x :: ys) w) (x :: ys)
    = peval cs x * zsum (lam (x :: ys)) (x :: ys)
      + zsum (fun w => (w - x) * peval (quot cs x) w * lam (x :: ys) w) (x :: ys)).
  { rewrite <- zsum_mul, <- zsum_add. apply zsum_ext. intros w _.
    rewrite (quot_spec cs x w). ring. }
  rewrite E, (lam_unity (length ys)), drop_point by done.
  rewrite (quot_spec cs x 0). destruct ys as [|y ys].
  - destruct cs as [|c [|]]; cbn in *; try lia; apply eq_subrelation; try apply _; ring.
  - rewrite IH; [|done|assumption|rewrite quot_length; cbn in *; lia].
    apply eq_subrelation; [apply _|]. ring.
Qed.
End lagrange.
