(* ===== verification/Vss2.v ===== *)
(** Feldman verifiable secret sharing, [smpc-lib/crypto/ec2/vss2.go]:
    polynomial setup, share computation, share verification against the
    committed coefficients, and recombination. *)

From Stdlib Require Import ZArith Lia Zcong Zdivisibility.
From stdpp Require Import sets.
From S2P Require Import Prelude NumTheory Primality GoBig Random Text IntGo Secp256k1 CurveFacts.
From S2P Require Import CurveLaws ToyCurve Lagrange.

#[local] Open Scope Z_scope.

(** * Data *)

(** [PolyGStruct2]: one slice [x, y] per coefficient. *)
Record PolyGStruct2 := { PolyG : list (list bigint) }.

(** [PolyStruct2]: the coefficients, constant term first.  The empty list is the
    nil slice; [Vss2Init] never builds an empty one. *)
Record PolyStruct2 := { Poly : list bigint }.

Record ShareStruct2 := mkShare { ID : bigint; Share : bigint }.

Definition GetSharesID (ss : option ShareStruct2) : bigint :=
  match ss with Some ss => ID ss | None => None end.

(** [x.Cmp(y) == 0]: identical pointers are equal, otherwise both are read. *)
Definition CmpEq (x y : bigint) : res bool :=
  match x, y with
  | None, None => Ok true
  | Some x, Some y => Ok (x =? y)
  | _, _ => Panic
  end.

Section vss.
Context `{E : Curve}.

(** * Vss2Init *)

(** [for i := 0; i < t-1; i++]. *)
Fixpoint vssCoefficients (n : nat) (poly : list bigint) (polyG : list (list bigint))
  : rnd (list bigint * list (list bigint)) :=
  match n with
  | O => mret (poly, polyG)
  | S n' =>
      rndInt ← GetRandomIntFromZn (cN S256);
      p ← lift (ScalarBaseMult (Bytes rndInt));
      vssCoefficients n' (poly ++ [Some rndInt]) (polyG ++ [[p.1; p.2]])
  end.

Definition Vss2Init (secret : bigint) (t : Z) : rnd (PolyStruct2 * PolyGStruct2) :=
  match secret with
  | None => lift (Err "param error")
  | Some s =>
      if t <=? 1 then lift (Err "param error") else
      p ← lift (ScalarBaseMult (Bytes s));
      '(poly, polyG) ← vssCoefficients (Z.to_nat (t - 1)) [secret] [[p.1; p.2]];
      mret ({| Poly := poly |}, {| PolyG := polyG |})
  end.

(** * Vss2 *)

Definition calculatePolynomial2 (poly : list bigint) (id : bigint) : res bigint :=
  match rev poly, id with
  | [], _ | _, None => Err "param error"
  | last :: rest, Some x =>
      idnum ← Mod x (cN S256);
      if (idnum =? 0) || (x =? 0)
      then Err "id can not be equal to 0 or 0 modulo the order of the curve"
      else
        foldRange rest (fun _ c result =>
          result ← deref result;
          let result := result * x in
          c ← deref c;
          let result := result + c in
          Some <$> Mod result (cN S256)) 0 last
  end.

Definition Vss2 (polyStruct : PolyStruct2) (ids : list bigint) : res (list ShareStruct2) :=
  match ids with
  | [] => Err "param error"
  | _ =>
      match ContainsDuplicate ids with
      | Err _ | Ok true => Err "param error"
      | Panic => Panic
      | Starve => Starve
      | Ok false =>
          foldRange ids (fun _ id shares =>
            shareVal ← calculatePolynomial2 (Poly polyStruct) id;
            Ok (shares ++ [mkShare id shareVal])) 0 []
      end
  end.

(** * Verify2 *)

(** [for i := 1; i < len(polyG.PolyG); i++]: the running point and power. *)
Fixpoint verifyLoop (id : bigint) (rest : list (list bigint)) (idVal : bigint) (compute : gpoint)
  : res gpoint :=
  match rest with
  | [] => Ok compute
  | g :: rest' =>
      x ← index g 0; y ← index g 1;
      k ← deref idVal;
      point ← ScalarMult (x, y) (Bytes k);
      compute' ← Add S256 compute point;
      i ← deref id;
      idVal' ← Mod (k * i) (cN S256);
      verifyLoop id rest' (Some idVal') compute'
  end.

Definition Verify2 (share : ShareStruct2) (polyG : PolyGStruct2) : res bool :=
  let idVal := ID share in
  g0 ← index (PolyG polyG) 0;
  x0 ← index g0 0; y0 ← index g0 1;
  compute ← verifyLoop (ID share) (drop 1 (PolyG polyG)) idVal (x0, y0);
  s ← deref (Share share);
  original ← ScalarBaseMult (Bytes s);
  bx ← CmpEq compute.1 original.1;
  if negb bx then Ok false else CmpEq compute.2 original.2.

(** * Combine2 *)

(** One round of [for j := 0; j < len(xSet); j++ { if j != i ... }]. *)
Definition combineStep (i : nat) (id : bigint) (j : nat) (xj : bigint) (times : Z) : res Z :=
  if Nat.eqb j i then Ok times else
  xj ← deref xj; x ← deref id;
  let sub := xj - x in
  match ModInverse sub (cN S256) with
  | None => Err "calc times fail"
  | Some subInverse =>
      let div := xj * subInverse in
      Mod (times * div) (cN S256)
  end.

(** The factor of share [i]. *)
Definition combineTimes (xSet : list bigint) (i : nat) (id : bigint) : res Z :=
  foldRange xSet (combineStep i id) 0 1.

Definition Combine2 (shares : list ShareStruct2) : res bigint :=
  match shares with
  | [] => Err "param error"
  | _ =>
      let xSet := ID <$> shares in
      secret ← foldRange shares (fun i share secret =>
        times ← combineTimes xSet i (ID share);
        s ← deref (Share share);
        let fTimes := s * times in
        Mod (secret + fTimes) (cN S256)) 0 0;
      Ok (Some secret)
  end.
End vss.

(** * Share computation is polynomial evaluation *)

Section combine.
Context `{E : Curve} (HN : Z.prime (cN S256)).
Let N := cN S256.

Local Lemma N_pos : 2 <= N.
Proof. now apply prime_pos. Qed.
Local Hint Resolve N_pos : core.

Lemma modN x : Mod x N = Ok (x mod N).
Proof. apply Mod_pos. pose proof N_pos. lia. Qed.

Definition hornerN (x v : Z) (rest : list Z) : Z :=
  foldl (fun r c => (r * x + c) mod N) v rest.

Lemma hornerN_peval x v rest :
  [mod N] hornerN x v rest == peval (rev rest ++ [v]) x.
Proof.
  revert v. induction rest as [|c rest IH]; intros v.
  - cbn. replace (v + x * 0) with v by ring. done.
  - change (hornerN x v (c :: rest)) with (hornerN x ((v * x + c) mod N) rest).
    cbn [rev]. rewrite IH, <- app_assoc. generalize (rev rest). intros l.
    induction l as [|d l IHl]; cbn [app].
    + rewrite !peval_cons. unmod.
      now replace (c + x * (v + x * peval [] x)) with (v * x + c + x * peval [] x) by (cbn; ring).
    + now rewrite !peval_cons, IHl.
Qed.

Lemma hornerN_range x v rest : rest <> [] -> 0 <= hornerN x v rest < N.
Proof.
  destruct rest as [|c rest _] using rev_ind; [done|]. intros _. unfold hornerN.
  rewrite foldl_app. cbn. apply Z.mod_pos_bound. pose proof N_pos. lia.
Qed.

Lemma calculatePolynomial2_spec cs x : (2 <= length cs)%nat -> x mod N <> 0 ->
  calculatePolynomial2 (Some <$> cs) (Some x) = Ok (Some (peval cs x mod N)).
Proof.
  intros Hlen Hx. unfold calculatePolynomial2.
  assert (Hx0 : x <> 0) by (intros ->; now rewrite Zmod_0_l in Hx).
  replace (rev (Some <$> cs)) with (Some <$> rev cs) by apply map_rev.
  rewrite <- (rev_involutive cs) at 2.
  assert (Hrl : (2 <= length (rev cs))%nat) by now rewrite length_rev.
  destruct (rev cs) as [|v [|c rest]]; cbn in Hrl; try lia.
  rewrite fmap_cons. rewrite modN. cbn [mbind res_bind].
  destruct (Z.eqb_spec (x mod N) 0), (Z.eqb_spec x 0); try done. cbn [orb].
  set (l := c :: rest).
  assert (Hf : forall l v k,
    foldRange (Some <$> l) (fun _ c result =>
      result ← deref result; c ← deref c; Some <$> Mod (result * x + c) N) k (Some v)
    = Ok (Some (hornerN x v l))).
  { clear -HN. induction l as [|c l IH]; intros v k; [done|].
    cbn -[Mod N]. rewrite modN. cbn -[N]. now rewrite IH. }
  rewrite Hf. f_equal. f_equal.
  rewrite <- (Z.mod_small (hornerN x v l) N) by now apply hornerN_range.
  apply eqm_mod_eq. rewrite hornerN_peval. done.
Qed.

Lemma calculatePolynomial2_zero poly x : poly <> [] -> x mod N = 0 ->
  calculatePolynomial2 poly (Some x) =
  Err "id can not be equal to 0 or 0 modulo the order of the curve".
Proof.
  intros Hp Hx. unfold calculatePolynomial2. destruct (rev poly) eqn:Er.
  - apply (f_equal (@rev _)) in Er. rewrite rev_involutive in Er. done.
  - rewrite modN. cbn [mbind res_bind]. now rewrite Hx.
Qed.

Lemma shares_loop cs ids acc k : (2 <= length cs)%nat -> Forall (fun x => x mod N <> 0) ids ->
  foldRange (Some <$> ids) (fun _ id shares =>
    shareVal ← calculatePolynomial2 (Some <$> cs) id; Ok (shares ++ [mkShare id shareVal])) k acc
  = Ok (acc ++ ((fun x => mkShare (Some x) (Some (peval cs x mod N))) <$> ids)).
Proof.
  intros Hlen HF. revert acc k. induction HF as [|x ids Hx HF IH]; intros acc k.
  - cbn. now rewrite app_nil_r.
  - rewrite fmap_cons. cbn [foldRange]. rewrite calculatePolynomial2_spec by assumption.
    cbn [mbind res_bind]. rewrite IH, <- app_assoc. done.
Qed.

Lemma shares_loop_zero cs ids acc k : (2 <= length cs)%nat -> Exists (fun x => x mod N = 0) ids ->
  foldRange (Some <$> ids) (fun _ id shares =>
    shareVal ← calculatePolynomial2 (Some <$> cs) id; Ok (shares ++ [mkShare id shareVal])) k acc
  = Err "id can not be equal to 0 or 0 modulo the order of the curve".
Proof.
  intros Hlen Hz. revert acc k.
  induction ids as [|x ids IH]; [inversion Hz|]. intros acc k. rewrite fmap_cons. cbn [foldRange].
  destruct (Z.eq_dec (x mod N) 0) as [H0|H0].
  - rewrite calculatePolynomial2_zero; [done| |assumption]. destruct cs; cbn in *; [lia|done].
  - rewrite calculatePolynomial2_spec by assumption. cbn [mbind res_bind]. apply IH.
    now apply Exists_cons in Hz as [|].
Qed.

(** * Recombination is interpolation at zero *)

Lemma combineStep_skip i x xi times : combineStep i x i xi times = Ok times.
Proof. unfold combineStep. now rewrite Nat.eqb_refl. Qed.

Lemma combineStep_ok i x j y times : j <> i -> (y - x) mod N <> 0 ->
  combineStep i (Some x) j (Some y) times = Ok ((times * (y * Z.invmod (y - x) N)) mod N).
Proof.
  intros Hji Hd. pose proof N_pos. unfold combineStep. apply Nat.eqb_neq in Hji. rewrite Hji.
  cbn [deref mbind res_bind]. rewrite ModInverse_coprime; [|lia|now apply prime_coprime].
  apply modN.
Qed.

Lemma combineStep_err i x j y times : j <> i -> (y - x) mod N = 0 ->
  combineStep i (Some x) j (Some y) times = Err "calc times fail".
Proof.
  intros Hji Hd. pose proof N_pos. unfold combineStep. apply Nat.eqb_neq in Hji. rewrite Hji.
  cbn [deref mbind res_bind]. fold N.
  rewrite (proj2 (ModInverse_None (y - x) N)); [done|].
  intros Hc. now apply (coprime_mod_ne0 N) in Hc.
Qed.

Lemma combineTimes_ok xs : forall k i x times,
  (forall j y, xs !! j = Some y -> (k + j)%nat <> i -> (y - x) mod N <> 0) ->
  (forall j y, xs !! j = Some y -> (k + j)%nat = i -> y = x) ->
  exists t, foldRange (Some <$> xs) (combineStep i (Some x)) k times = Ok t /\
            [mod N] t == times * lam N xs x.
Proof.
  induction xs as [|y xs IH]; intros k i x times Hd Hs.
  - exists times. split; [done|]. cbn. now rewrite Z.mul_1_r.
  - assert (Hd' : forall j z, xs !! j = Some z -> (S k + j)%nat <> i -> (z - x) mod N <> 0)
      by (intros j z Hj Hne; apply (Hd (S j)); [assumption|lia]).
    assert (Hs' : forall j z, xs !! j = Some z -> (S k + j)%nat = i -> z = x)
      by (intros j z Hj He; apply (Hs (S j)); [assumption|lia]).
    specialize (Hd 0%nat y eq_refl). specialize (Hs 0%nat y eq_refl).
    rewrite Nat.add_0_r in *. rewrite fmap_cons. cbn [foldRange].
    destruct (Nat.eq_dec k i) as [->|Hne].
    + rewrite combineStep_skip, Hs by done. cbn [mbind res_bind].
      destruct (IH (S i) i x times Hd' Hs') as (t & -> & Ht).
      exists t. split; [done|]. now rewrite lam_same.
    + specialize (Hd Hne). rewrite combineStep_ok by assumption. cbn [mbind res_bind].
      destruct (IH (S k) i x ((times * (y * Z.invmod (y - x) N)) mod N) Hd' Hs') as (t & -> & Ht).
      exists t. split; [done|]. rewrite Ht, eqm_mod, lam_other.
      * now replace (times * (y * Z.invmod (y - x) N) * lam N xs x)
          with (times * (y * Z.invmod (y - x) N * lam N xs x)) by ring.
      * intros ->. apply Hd. now rewrite Z.sub_diag, Zmod_0_l.
Qed.

(** One identifier congruent to that of share [i] makes the factor fail. *)
Lemma combineTimes_err xs i x j y : forall k times,
  xs !! j = Some y -> (k + j)%nat <> i -> (y - x) mod N = 0 ->
  foldRange (Some <$> xs) (combineStep i (Some x)) k times = Err "calc times fail".
Proof.
  revert j. induction xs as [|z xs IH]; intros j k times Hj Hne Hd; [done|].
  rewrite fmap_cons. cbn [foldRange].
  assert (Hz : combineStep i (Some x) k (Some z) times = Err "calc times fail" \/
               exists t, combineStep i (Some x) k (Some z) times = Ok t).
  { destruct (Nat.eq_dec k i) as [->|]; [right; eauto using combineStep_skip|].
    destruct (Z.eq_dec ((z - x) mod N) 0);
      [left; now apply combineStep_err|right; eauto using combineStep_ok]. }
  destruct Hz as [->|[t Ht]]; [done|]. destruct j as [|j]; cbn in Hj.
  - injection Hj as ->. rewrite combineStep_err by (assumption || lia). done.
  - rewrite Ht. cbn [mbind res_bind]. apply (IH j); auto; lia.
Qed.

Lemma combineTimes_outcome xs i x : forall k times,
  (exists t, foldRange (Some <$> xs) (combineStep i (Some x)) k times = Ok t) \/
  foldRange (Some <$> xs) (combineStep i (Some x)) k times = Err "calc times fail".
Proof.
  induction xs as [|y xs IH]; intros k times; [left; eexists; reflexivity|].
  rewrite fmap_cons. cbn [foldRange].
  destruct (Nat.eq_dec k i) as [->|]; [rewrite combineStep_skip; apply IH|].
  destruct (Z.eq_dec ((y - x) mod N) 0); [rewrite combineStep_err by assumption; now right|].
  rewrite combineStep_ok by assumption. apply IH.
Qed.

Lemma distinct_alt xs : distinct N xs <->
  forall i j x y, xs !! i = Some x -> xs !! j = Some y -> i <> j -> (y - x) mod N <> 0.
Proof.
  unfold distinct. rewrite NoDup_alt. setoid_rewrite list_lookup_fmap. split.
  - intros H i j x y Hi Hj Hij Hd. apply Hij, (H i j (x mod N)); [now rewrite Hi|].
    rewrite Hj. cbn. f_equal. apply eqm_mod_eq, eqm_0_divide, eqm_0_mod. assumption.
  - intros H i j v Hi Hj. apply fmap_Some in Hi as (x & Hi & ->). apply fmap_Some in Hj as (y & Hj & E').
    destruct (Nat.eq_dec i j); [assumption|]. exfalso. apply (H i j x y Hi Hj n).
    apply eqm_0_mod. symmetry in E'. apply eqm_iff in E'. rewrite E'. now rewrite Z.sub_diag.
Qed.

(** Shares with their coordinates present. *)
Definition shareOf (p : Z * Z) : ShareStruct2 := mkShare (Some p.1) (Some p.2).

(** One round of the outer loop. *)
Definition combineAdd (xSet : list bigint) (i : nat) (share : ShareStruct2) (secret : Z) : res Z :=
  times ← combineTimes xSet i (ID share);
  s ← deref (Share share);
  Mod (secret + s * times) N.

Lemma combine_loop_ok xs : distinct N xs -> forall ps k secret,
  (forall j, (fst <$> ps) !! j = xs !! (k + j)%nat) ->
  exists v, foldRange (shareOf <$> ps) (combineAdd (Some <$> xs)) k secret = Ok v /\
            [mod N] v == secret + zsum (fun p => p.2 * lam N xs p.1) ps /\
            (0 <= secret < N -> 0 <= v < N).
Proof.
  intros Hd. induction ps as [|[x s] ps IH]; intros k secret Hps.
  { exists secret. split; [done|]. split; [|done]. cbn. now rewrite Z.add_0_r. }
  pose proof (Hps 0%nat) as Hk. rewrite Nat.add_0_r in Hk. cbn in Hk. symmetry in Hk.
  destruct (combineTimes_ok xs 0 k x 1) as (t & Et & Ht).
  { intros j y Hj Hne. eapply distinct_alt in Hd; [exact Hd|exact Hk|exact Hj|]. cbn in Hne. lia. }
  { intros j y Hj He. cbn in He. subst. congruence. }
  rewrite fmap_cons. cbn [foldRange]. unfold combineAdd at 2, combineTimes. cbn [ID Share shareOf fst snd].
  rewrite Et. cbn [mbind res_bind deref]. rewrite modN. cbn [mbind res_bind].
  destruct (IH (S k) ((secret + s * t) mod N)) as (v & -> & Hv & Hr).
  { intros j. rewrite Nat.add_succ_comm. apply (Hps (S j)). }
  exists v. split; [done|]. split.
  - rewrite Hv, zsum_cons, eqm_mod, Ht. cbn [fst snd]. rewrite Z.mul_1_l, Z.add_assoc. done.
  - intros _. apply Hr, Z.mod_pos_bound. pose proof N_pos. lia.
Qed.

Lemma combine_loop_outcome xs : forall ps k secret,
  (exists v, foldRange (shareOf <$> ps) (combineAdd (Some <$> xs)) k secret = Ok v /\
     forall j p, ps !! j = Some p ->
       exists t, combineTimes (Some <$> xs) (k + j) (Some p.1) = Ok t) \/
  foldRange (shareOf <$> ps) (combineAdd (Some <$> xs)) k secret = Err "calc times fail".
Proof.
  induction ps as [|[x s] ps IH]; intros k secret.
  { left. exists secret. split; [done|]. intros j p Hj. now rewrite lookup_nil in Hj. }
  rewrite fmap_cons. cbn [foldRange]. unfold combineAdd at 2 4. cbn [ID Share shareOf fst snd].
  destruct (combineTimes_outcome xs k x 0 1) as [[t Ht]|Ht]; unfold combineTimes; rewrite Ht;
    [|now right]. cbn [mbind res_bind deref]. rewrite modN. cbn [mbind res_bind].
  destruct (IH (S k) ((secret + s * t) mod N)) as [(v & Ev & Hv)|Ev]; [left|now right].
  exists v. split; [assumption|]. intros [|j] p Hj; cbn in Hj.
  - injection Hj as <-. rewrite Nat.add_0_r. exists t. exact Ht.
  - rewrite <- Nat.add_succ_comm. now apply Hv.
Qed.

(** What [Combine2] computes: the interpolation at zero when the identifiers
    differ modulo the order, the error otherwise. *)
Lemma Combine2_spec ps : ps <> [] ->
  Combine2 (shareOf <$> ps) =
  if decide (distinct N (fst <$> ps))
  then Ok (Some (zsum (fun p => p.2 * lam N (fst <$> ps) p.1) ps mod N))
  else Err "calc times fail".
Proof.
  intros Hne. unfold Combine2. destruct (shareOf <$> ps) as [|sh shs] eqn:Es.
  { now apply fmap_nil_inv in Es. } rewrite <- Es. clear sh shs Es.
  assert (Ex : ID <$> (shareOf <$> ps) = Some <$> (fst <$> ps)) by now rewrite <- !list_fmap_compose.
  rewrite Ex. change (foldRange (shareOf <$> ps) _ 0 0) with
    (foldRange (shareOf <$> ps) (combineAdd (Some <$> (fst <$> ps))) 0 0).
  destruct (decide _) as [Hd|Hd].
  - destruct (combine_loop_ok (fst <$> ps) Hd ps 0 0) as (v & -> & Hv & Hr); [done|].
    pose proof N_pos. cbn [mbind res_bind]. rewrite <- (Z.mod_small v N) by (apply Hr; lia).
    do 2 f_equal. now apply eqm_mod_eq.
  - destruct (combine_loop_outcome (fst <$> ps) ps 0 0) as [(v & _ & Hv)| ->]; [|done].
    exfalso. apply Hd, distinct_alt. intros i j x y Hi Hj Hij H0.
    rewrite list_lookup_fmap in Hi. apply fmap_Some in Hi as (p & Hi & ->).
    apply Hv in Hi as [t Ht]. unfold combineTimes in Ht.
    rewrite (combineTimes_err _ _ _ j y) in Ht; [discriminate|assumption|cbn; lia|assumption].
Qed.
End combine.

(** * Setup and verification on the curve *)

Section verify.
Context `{L : CurveLaws}.
Abbreviation q := (cN S256).

(** The committed coefficients, as the code holds them. *)
Definition points (cs : list Z) : list (list bigint) := (fun c => [(gp c).1; (gp c).2]) <$> cs.

Lemma vssCoefficients_spec n : forall s poly t r t',
  vssCoefficients n (Some <$> poly) (points poly) t = Ok (r, t') ->
  0 <= s < q ->
  exists cs, length cs = n /\ Forall (fun c => 0 <= c < q) cs /\
             r = (Some <$> (poly ++ cs), points (poly ++ cs)).
Proof.
  induction n as [|n IH]; intros s poly t r t' H Hs; cbn [vssCoefficients] in H.
  - inv_ok. exists []. now rewrite app_nil_r.
  - apply rnd_bind_Ok in H as (c & t1 & Hc%GetRandomIntFromZn_range & H).
    apply rnd_bind_Ok in H as (p & t2 & Hp & H). apply lift_Ok in Hp as [Hp ->].
    rewrite ScalarBaseMult_pt in Hp by assumption. injection Hp as <-.
    change [Some c] with (Some <$> [c]) in H.
    change [[(gp c).1; (gp c).2]] with (points [c]) in H.
    rewrite <- fmap_app in H. unfold points in H. rewrite <- fmap_app in H. fold (points (poly ++ [c])) in H.
    apply (IH s) in H as (cs & Hlen & HF & ->); [|assumption].
    exists (c :: cs). rewrite <- app_assoc. cbn. auto.
Qed.

Lemma Vss2Init_post s t tp r tp' : 0 <= s < q ->
  Vss2Init (Some s) t tp = Ok (r, tp') ->
  exists cs, length cs = Z.to_nat (t - 1) /\ 2 <= t /\ Forall (fun c => 0 <= c < q) cs /\
             r = ({| Poly := Some <$> (s :: cs) |}, {| PolyG := points (s :: cs) |}).
Proof.
  intros Hs H. unfold Vss2Init in H. destruct (Z.leb_spec t 1); [discriminate|].
  apply rnd_bind_Ok in H as (p & t1 & Hp & H). apply lift_Ok in Hp as [Hp ->].
  rewrite ScalarBaseMult_pt in Hp by assumption. injection Hp as <-.
  apply rnd_bind_Ok in H as ([poly polyG] & t2 & Hc & H).
  apply (vssCoefficients_spec _ s [s]) in Hc as (cs & Hlen & HF & E'); [|assumption].
  injection E' as -> ->. inv_ok. exists cs. repeat split; auto. lia.
Qed.

(** Draws in range are the coefficients, in order. *)
Definition drawable (c : Z) : Prop := 0 <= c < q /\ c < 2 ^ BitLen q - 1.

Lemma vssCoefficients_run cs : forall poly polyG t, Forall drawable cs ->
  vssCoefficients (length cs) poly polyG ((Some <$> cs) ++ t) =
  Ok ((poly ++ (Some <$> cs), polyG ++ points cs), t).
Proof.
  induction cs as [|c cs IH]; intros poly polyG t HF.
  - cbn. now rewrite !app_nil_r.
  - apply Forall_cons in HF as [[Hc Hb] HF]. cbn [length vssCoefficients fmap list_fmap app].
    erewrite rnd_bind_run by now apply GetRandomIntFromZn_hit.
    erewrite rnd_bind_run by now apply lift_run, ScalarBaseMult_pt.
    change (list_fmap _ _ Some cs) with (Some <$> cs).
    rewrite IH by assumption. rewrite <- !app_assoc. done.
Qed.

(** No partial sum meets its next summand or its opposite. *)
Fixpoint nondegenerate (id acc pow : Z) (rest : list Z) : Prop :=
  match rest with
  | [] => acc mod q <> 0
  | c :: rest' =>
      acc mod q <> 0 /\ c mod q <> 0 /\ (acc - c * pow) mod q <> 0 /\
      nondegenerate id (acc + c * pow) ((pow * id) mod q) rest'
  end.

Lemma verifyLoop_spec id rest : forall acc pow,
  0 < pow < q -> id mod q <> 0 -> nondegenerate id acc pow rest ->
  verifyLoop (Some id) (points rest) (Some pow) (mkpt (pt acc)) =
  Ok (mkpt (pt (acc + pow * peval rest id))).
Proof.
  pose proof N_ge2. pose proof N_prime.
  induction rest as [|c rest IH]; intros acc pow Hpow Hid Hnd.
  - cbn. now rewrite Z.mul_0_r, Z.add_0_r.
  - destruct Hnd as (Ha & Hc & Hd & Hnd).
    assert (Hcp : (c * pow) mod q <> 0).
    { apply prime_mul_ne0; [assumption..|]. rewrite Z.mod_small; lia. }
    assert (Hsum : (acc + c * pow) mod q <> 0) by (destruct rest; cbn in Hnd; tauto).
    cbn [points fmap list_fmap verifyLoop]. rewrite gp_ne0 by assumption.
    cbn [index deref lookup list_lookup mkpt fst snd mbind res_bind].
    change (Some (pt c).1, Some (pt c).2) with (mkpt (pt c)).
    rewrite ScalarMult_pt by (assumption || lia). rewrite gp_ne0 by assumption.
    cbn [mbind res_bind]. rewrite Add_pt by assumption.
    destruct (Z.eqb_spec ((acc - c * pow) mod q) 0); [contradiction|].
    cbn [mbind res_bind]. rewrite gp_ne0 by assumption. rewrite Mod_pos by lia.
    cbn [mbind res_bind]. change (list_fmap _ _ _ rest) with (points rest). rewrite IH; auto.
    + do 2 f_equal. apply pt_eqm. rewrite peval_cons. unmod.
      now replace (acc + c * pow + pow * id * peval rest id)
        with (acc + pow * (c + id * peval rest id)) by ring.
    + assert ((pow * id) mod q <> 0).
      { apply prime_mul_ne0; [assumption| |assumption]. rewrite Z.mod_small; lia. }
      pose proof (Z.mod_pos_bound (pow * id) q). lia.
Qed.

Lemma verifyPoint c0 cs id : 0 < id < q -> nondegenerate id c0 id cs ->
  (peval (c0 :: cs) id) mod q <> 0 /\
  verifyLoop (Some id) (points cs) (Some id) ((gp c0).1, (gp c0).2)
  = Ok (mkpt (pt (peval (c0 :: cs) id))).
Proof.
  intros Hid Hnd.
  assert (Hc0 : c0 mod q <> 0) by (destruct cs; cbn in Hnd; tauto).
  assert (Hlast : forall rest acc pow, nondegenerate id acc pow rest ->
            (acc + pow * peval rest id) mod q <> 0).
  { induction rest as [|c rest IH]; intros acc pow H; cbn in H.
    - cbn. now rewrite Z.mul_0_r, Z.add_0_r.
    - destruct H as (_ & _ & _ & H). apply IH in H. revert H. apply eqm_ne0.
      rewrite peval_cons. unmod.
      now replace (acc + c * pow + pow * id * peval rest id)
        with (acc + pow * (c + id * peval rest id)) by ring. }
  split; [rewrite peval_cons; now apply Hlast|].
  rewrite gp_ne0 by assumption. change ((mkpt (pt c0)).1, (mkpt (pt c0)).2) with (mkpt (pt c0)).
  rewrite verifyLoop_spec; [now rewrite peval_cons|assumption| |assumption].
  rewrite Z.mod_small; lia.
Qed.

Lemma Verify2_unfold c0 cs id s : 0 < id < q -> nondegenerate id c0 id cs ->
  Verify2 (mkShare (Some id) (Some s)) {| PolyG := points (c0 :: cs) |} =
  (original ← ScalarBaseMult (Bytes s);
   bx ← CmpEq (Some (pt (peval (c0 :: cs) id)).1) original.1;
   if negb bx then Ok false else CmpEq (Some (pt (peval (c0 :: cs) id)).2) original.2).
Proof.
  intros Hid Hnd. unfold Verify2, points. rewrite fmap_cons.
  cbn [PolyG index deref lookup list_lookup mbind res_bind ID Share drop]. fold (points cs).
  rewrite drop_0. now rewrite (proj2 (verifyPoint c0 cs id Hid Hnd)).
Qed.
End verify.

(** * Subsets of shares *)

Definition shareAt (N : Z) (cs : list Z) (x : Z) : Z * Z := (x, peval cs x mod N).

Lemma sub_shares {A} (f : A -> ShareStruct2) l sub : sub ⊆+ f <$> l ->
  exists l' k, sub = f <$> l' /\ l ≡ₚ l' ++ k.
Proof.
  intros [k Hk]%submseteq_Permutation.
  symmetry in Hk. apply Permutation_map_inv in Hk as (l3 & E & Hp).
  symmetry in E. apply map_eq_app in E as (l' & k' & -> & <- & _). eauto.
Qed.

Lemma Combine2_shares `{E : Curve} s cs ids : Z.prime (cN S256) -> distinct (cN S256) ids ->
  ids <> [] -> (length (s :: cs) <= length ids)%nat ->
  Combine2 (shareOf <$> (shareAt (cN S256) (s :: cs) <$> ids)) = Ok (Some (s mod cN S256)).
Proof.
  intros HN Hd Hne Hlen.
  assert (Ex : fst <$> (shareAt (cN S256) (s :: cs) <$> ids) = ids).
  { rewrite <- list_fmap_compose. apply list_fmap_id. }
  rewrite Combine2_spec by (assumption || (now intros ?%fmap_nil_inv)).
  rewrite Ex, decide_True by assumption. do 2 f_equal. apply eqm_mod_eq.
  rewrite <- (Z.add_0_r s) at 2. rewrite <- (Z.mul_0_l (peval cs 0)), <- peval_cons.
  rewrite <- (lagrange_at_0 _ HN ids) by assumption. clear.
  generalize ids at 1 3 as xs. induction ids as [|x ids IH]; intros xs; [done|].
  rewrite fmap_cons, !zsum_cons, IH. cbn [shareAt fst snd]. now rewrite eqm_mod.
Qed.

(** * Shares on the committed polynomial *)

Lemma Verify2_spec `{L : CurveLaws} c0 cs id s :
  0 < id < cN S256 -> nondegenerate id c0 id cs -> 0 < s < cN S256 ->
  Verify2 (mkShare (Some id) (Some s)) {| PolyG := points (c0 :: cs) |} =
  Ok (s =? peval (c0 :: cs) id mod cN S256).
Proof.
  intros Hid Hnd Hs. rewrite Verify2_unfold by assumption.
  destruct (verifyPoint c0 cs id Hid Hnd) as [Hv _]. set (v := peval (c0 :: cs) id) in *. clearbody v.
  assert (Hsm : s mod cN S256 = s) by (apply Z.mod_small; lia).
  rewrite ScalarBaseMult_pt by lia. rewrite gp_ne0 by lia.
  cbn [mbind res_bind mkpt fst snd CmpEq].
  destruct (Z.eqb_spec s (v mod cN S256)) as [Es|Es].
  - rewrite Es, pt_mod, Z.eqb_refl. cbn. now rewrite Z.eqb_refl.
  - destruct (Z.eqb_spec (pt v).1 (pt s).1) as [E1|]; [cbn|done].
    destruct (Z.eqb_spec (pt v).2 (pt s).2) as [E2|]; [|done].
    exfalso. apply Es. rewrite <- Hsm. apply eqm_mod_eq.
    apply pt_inj; [lia|assumption|]. destruct (pt v), (pt s); cbn in *; congruence.
Qed.

(** * Claims *)

(** C28: for every prime group order, [Vss2] gives shares from which [Combine2]
    recovers the shared secret out of any subset, in any order, that has at least
    as many shares as the polynomial has coefficients. *)
Theorem Vss2_Combine2 `{E : Curve} s cs ids :
  Z.prime (cN S256) -> cs <> [] -> ids <> [] ->
  Forall (fun x => x mod cN S256 <> 0) ids -> distinct (cN S256) ids ->
  exists shares, Vss2 {| Poly := Some <$> (s :: cs) |} (Some <$> ids) = Ok shares /\
    ID <$> shares = Some <$> ids /\
    forall sub, sub ⊆+ shares -> (length (s :: cs) <= length sub)%nat ->
      Combine2 sub = Ok (Some (s mod cN S256)).
Proof.
  intros HN Hcs Hids Hnz Hd.
  assert (Hlen : (2 <= length (s :: cs))%nat) by (destruct cs; cbn; [done|lia]).
  exists (shareOf <$> (shareAt (cN S256) (s :: cs) <$> ids)). split; [|split].
  - unfold Vss2. destruct (Some <$> ids) eqn:Ei; [now apply fmap_nil_inv in Ei|]. rewrite <- Ei.
    rewrite ContainsDuplicate_spec by (rewrite Ei; done).
    rewrite bool_decide_eq_true_2
      by (apply NoDup_fmap_2; [apply _|]; now apply NoDup_fmap_1 in Hd). cbn [negb Poly].
    rewrite shares_loop by assumption. cbn [app]. f_equal. now rewrite <- list_fmap_compose.
  - now rewrite <- !list_fmap_compose.
  - intros sub Hsub Hl. rewrite <- list_fmap_compose in Hsub.
    apply sub_shares in Hsub as (ids' & k & -> & Hp). rewrite length_fmap in Hl.
    rewrite list_fmap_compose. apply Combine2_shares; auto.
    + apply (distinct_perm _ _ _ Hp) in Hd. unfold distinct in *.
      rewrite fmap_app in Hd. now apply NoDup_app in Hd.
    + destruct ids'; cbn in Hl; [lia|done].
Qed.

Lemma Vss2_Combine2_witness :
  exists shares, Vss2 {| Poly := Some <$> [100; 7; 33] |} (Some <$> [5; 9; 138; 20]) = Ok shares /\
    Combine2 (drop 1 shares) = Ok (Some 100).
Proof.
  destruct (Vss2_Combine2 100 [7; 33] [5; 9; 138; 20]) as (shares & E & HI & H).
  - apply (N_prime (E := toy)).
  - done.
  - done.
  - repeat constructor; vm_compute; discriminate.
  - refine (bool_decide_eq_true_1 _ _). vm_compute. reflexivity.
  - exists shares. split; [exact E|]. apply H; [apply submseteq_drop|].
    apply (f_equal length) in HI. rewrite !length_fmap in HI. rewrite length_drop, HI. cbn. lia.
Defined.

(** [Combine2] interpolates at zero exactly when the share identifiers
    differ modulo the group order; with two congruent identifiers it returns the
    error, and never a wrong secret. *)
Theorem Combine2_total `{E : Curve} ps : Z.prime (cN S256) -> ps <> [] ->
  Combine2 (shareOf <$> ps) =
  if decide (distinct (cN S256) (fst <$> ps))
  then Ok (Some (zsum (fun p => p.2 * lam (cN S256) (fst <$> ps) p.1) ps mod cN S256))
  else Err "calc times fail".
Proof. intros HN. now apply Combine2_spec. Qed.

Lemma Combine2_total_witness :
  Combine2 [mkShare (Some 5) (Some 1); mkShare (Some 144) (Some 2)] = Err "calc times fail".
Proof.
  refine (eq_trans (Combine2_total [(5, 1); (144, 2)] _ _) _); [apply (N_prime (E := toy))|done|].
  vm_compute. reflexivity.
Defined.

(** [Vss2] refuses an empty list, repeated identifiers, and an identifier
    that is zero modulo the group order (whose share would be the secret). *)
Theorem Vss2_guards `{E : Curve} s cs ids : Z.prime (cN S256) ->
  (ids = [] \/ ~ NoDup ids -> Vss2 {| Poly := Some <$> (s :: cs) |} (Some <$> ids) = Err "param error") /\
  (NoDup ids -> Exists (fun x => x mod cN S256 = 0) ids -> cs <> [] ->
   Vss2 {| Poly := Some <$> (s :: cs) |} (Some <$> ids) =
   Err "id can not be equal to 0 or 0 modulo the order of the curve").
Proof.
  intros HN. split.
  - intros [->|Hd]; [done|]. unfold Vss2. destruct (Some <$> ids) eqn:Ei; [done|]. rewrite <- Ei.
    rewrite ContainsDuplicate_spec by (rewrite Ei; done).
    rewrite bool_decide_eq_false_2; [done|]. now intros Hn%NoDup_fmap_1.
  - intros Hd Hz Hcs. unfold Vss2. destruct (Some <$> ids) eqn:Ei.
    { apply fmap_nil_inv in Ei as ->. inversion Hz. } rewrite <- Ei.
    rewrite ContainsDuplicate_spec by (rewrite Ei; done).
    rewrite bool_decide_eq_true_2 by (now apply NoDup_fmap_2; [apply _|]). cbn [negb Poly].
    apply shares_loop_zero; auto. destruct cs; cbn; [done|lia].
Qed.

Lemma Vss2_guards_witness :
  Vss2 {| Poly := Some <$> [3; 4] |} (Some <$> [5; 139]) =
  Err "id can not be equal to 0 or 0 modulo the order of the curve".
Proof.
  apply (Vss2_guards 3 [4] [5; 139] (N_prime (E := toy))); [|right; left; reflexivity|done].
  refine (bool_decide_eq_true_1 _ _). vm_compute. reflexivity.
Defined.

(** [Vss2Init] on any entropy: a polynomial with [t] coefficients in
    [[0, N)] whose constant term is the secret, and the commitment [c*G] to each;
    it errs for [t <= 1], and with in-range draws it returns exactly them. *)
Theorem Vss2Init_correct `{L : CurveLaws} s t : 0 <= s < cN S256 ->
  (t <= 1 -> forall tp, Vss2Init (Some s) t tp = Err "param error") /\
  (forall tp r tp', Vss2Init (Some s) t tp = Ok (r, tp') ->
     exists cs, length cs = Z.to_nat (t - 1) /\ Forall (fun c => 0 <= c < cN S256) cs /\
       r = ({| Poly := Some <$> (s :: cs) |}, {| PolyG := points (s :: cs) |})) /\
  (forall cs tp, Forall drawable cs -> t = Z.of_nat (S (length cs)) -> cs <> [] ->
     Vss2Init (Some s) t ((Some <$> cs) ++ tp) =
     Ok (({| Poly := Some <$> (s :: cs) |}, {| PolyG := points (s :: cs) |}), tp)).
Proof.
  intros Hs. split; [|split].
  - intros Ht tp. unfold Vss2Init. destruct (Z.leb_spec t 1); [done|lia].
  - intros tp r tp' H. apply Vss2Init_post in H as (cs & ? & ? & ? & ?); eauto.
  - intros cs tp HF -> Hcs. unfold Vss2Init.
    destruct (Z.leb_spec (Z.of_nat (S (length cs))) 1); [destruct cs; cbn in *; [done|lia]|].
    erewrite rnd_bind_run by now apply lift_run, ScalarBaseMult_pt.
    replace (Z.to_nat (Z.of_nat (S (length cs)) - 1)) with (length cs) by lia.
    erewrite rnd_bind_run by now apply vssCoefficients_run. done.
Qed.

Lemma Vss2Init_correct_witness :
  Vss2Init (Some 100) 3 [Some 7; Some 33] =
  Ok (({| Poly := [Some 100; Some 7; Some 33] |}, {| PolyG := points [100; 7; 33] |}), []).
Proof.
  refine (proj2 (proj2 (Vss2Init_correct (L := toy_laws) 100 3 _)) [7; 33] [] _ _ _); try done.
  repeat (apply Forall_cons_2; [done|]). apply Forall_nil_2.
Defined.

(** C29: against the commitments of a polynomial, [Verify2] accepts exactly the
    polynomial's value at the identifier, for every non-zero reduced share, when
    no partial sum of the verification meets the exceptional cases of the point
    addition. *)
Theorem Verify2_decides `{L : CurveLaws} c0 cs id s :
  0 < id < cN S256 -> nondegenerate id c0 id cs -> 0 < s < cN S256 ->
  Verify2 (mkShare (Some id) (Some s)) {| PolyG := points (c0 :: cs) |} =
  Ok (s =? peval (c0 :: cs) id mod cN S256).
Proof. apply Verify2_spec. Qed.

Lemma Verify2_decides_witness :
  Verify2 (mkShare (Some 5) (Some 126)) {| PolyG := points [100; 7; 33] |} = Ok true /\
  Verify2 (mkShare (Some 5) (Some 125)) {| PolyG := points [100; 7; 33] |} = Ok false.
Proof.
  split.
  - refine (eq_trans (Verify2_decides (L := toy_laws) 100 [7; 33] 5 126 _ _ _) _); try done.
  - refine (eq_trans (Verify2_decides (L := toy_laws) 100 [7; 33] 5 125 _ _ _) _); try done.
Defined.

(** A share that is zero or not reduced modulo the group order is not
    rejected but panics [Verify2]: the base-point multiple is nil and its
    comparison dereferences it. *)
Theorem Verify2_panics_on_unreduced `{L : CurveLaws} c0 cs id s :
  0 < id < cN S256 -> nondegenerate id c0 id cs -> s = 0 \/ cN S256 <= s < 2 ^ 256 ->
  Verify2 (mkShare (Some id) (Some s)) {| PolyG := points (c0 :: cs) |} = Panic.
Proof.
  intros Hid Hnd Hs. rewrite Verify2_unfold by assumption.
  replace (ScalarBaseMult (Bytes s)) with (@Ok gpoint nilpt); [done|].
  pose proof N_ge2. destruct Hs as [->|Hs].
  - rewrite ScalarBaseMult_pt by lia. rewrite gp_0; [done|]. apply Zmod_0_l.
  - unfold ScalarBaseMult. now rewrite ScalarMult_unreduced.
Qed.

Lemma Verify2_panics_on_unreduced_witness :
  Verify2 (mkShare (Some 5) (Some 0)) {| PolyG := points [100; 7; 33] |} = Panic.
Proof.
  refine (Verify2_panics_on_unreduced (L := toy_laws) 100 [7; 33] 5 0 _ _ _); try done. now left.
Defined.
