(* ===== verification/Keccak.v ===== *)
(** The Keccak-f[1600] permutation, [crypto/sha3/keccakf.go]: the four-round
    unrolled, in-place code, and its equivalence with the step mappings of the
    standard.  Lanes are 64-bit words, as [Z] below 2^64. *)

From Stdlib Require Import ZArith Lia Btauto.
From S2P Require Import Prelude.

#[local] Open Scope Z_scope.

(** * Operations on uint64 *)

Definition mask64 : Z := 2 ^ 64 - 1.
Definition shl64 (x n : Z) : Z := Z.land (Z.shiftl x n) mask64.

Declare Scope u64_scope.
Notation "x ^. y" := (Z.lxor x y) (at level 50, left associativity) : u64_scope.
Notation "x |. y" := (Z.lor x y) (at level 50, left associativity) : u64_scope.
Notation "x &^. y" := (Z.ldiff x y) (at level 40, left associativity) : u64_scope.
Notation "x <<< n" := (shl64 x n) (at level 40, left associativity) : u64_scope.
Notation "x >>> n" := (Z.shiftr x n) (at level 40, left associativity) : u64_scope.
Open Scope u64_scope.

(** * The code *)

(** The table of round constants. *)
Definition rc : list Z :=
  [0x0000000000000001; 0x0000000000008082; 0x800000000000808A;
   0x8000000080008000; 0x000000000000808B; 0x0000000080000001;
   0x8000000080008081; 0x8000000000008009; 0x000000000000008A;
   0x0000000000000088; 0x0000000080008009; 0x000000008000000A;
   0x000000008000808B; 0x800000000000008B; 0x8000000000008089;
   0x8000000000008003; 0x8000000000008002; 0x8000000000000080;
   0x000000000000800A; 0x800000008000000A; 0x8000000080008081;
   0x8000000000008080; 0x0000000080000001; 0x8000000080008008].

(** Round 1 of the unrolled loop body; [rci] is its round constant. *)
Definition round1 (rci : Z) (a : list Z) : list Z :=
  match a with
  | [a0; a1; a2; a3; a4; a5; a6; a7; a8; a9; a10; a11; a12; a13; a14; a15; a16; a17;
     a18; a19; a20; a21; a22; a23; a24] =>
      let bc0 := a0 ^. a5 ^. a10 ^. a15 ^. a20 in
      let bc1 := a1 ^. a6 ^. a11 ^. a16 ^. a21 in
      let bc2 := a2 ^. a7 ^. a12 ^. a17 ^. a22 in
      let bc3 := a3 ^. a8 ^. a13 ^. a18 ^. a23 in
      let bc4 := a4 ^. a9 ^. a14 ^. a19 ^. a24 in
      let d0 := bc4 ^. ((bc1 <<< 1) |. (bc1 >>> 63)) in
      let d1 := bc0 ^. ((bc2 <<< 1) |. (bc2 >>> 63)) in
      let d2 := bc1 ^. ((bc3 <<< 1) |. (bc3 >>> 63)) in
      let d3 := bc2 ^. ((bc4 <<< 1) |. (bc4 >>> 63)) in
      let d4 := bc3 ^. ((bc0 <<< 1) |. (bc0 >>> 63)) in
      let bc0 := a0 ^. d0 in
      let t := a6 ^. d1 in
      let bc1 := (t <<< 44) |. (t >>> (64 - 44)) in
      let t := a12 ^. d2 in
      let bc2 := (t <<< 43) |. (t >>> (64 - 43)) in
      let t := a18 ^. d3 in
      let bc3 := (t <<< 21) |. (t >>> (64 - 21)) in
      let t := a24 ^. d4 in
      let bc4 := (t <<< 14) |. (t >>> (64 - 14)) in
      let a0 := bc0 ^. (bc2 &^. bc1) ^. rci in
      let a6 := bc1 ^. (bc3 &^. bc2) in
      let a12 := bc2 ^. (bc4 &^. bc3) in
      let a18 := bc3 ^. (bc0 &^. bc4) in
      let a24 := bc4 ^. (bc1 &^. bc0) in
      let t := a10 ^. d0 in
      let bc2 := (t <<< 3) |. (t >>> (64 - 3)) in
      let t := a16 ^. d1 in
      let bc3 := (t <<< 45) |. (t >>> (64 - 45)) in
      let t := a22 ^. d2 in
      let bc4 := (t <<< 61) |. (t >>> (64 - 61)) in
      let t := a3 ^. d3 in
      let bc0 := (t <<< 28) |. (t >>> (64 - 28)) in
      let t := a9 ^. d4 in
      let bc1 := (t <<< 20) |. (t >>> (64 - 20)) in
      let a10 := bc0 ^. (bc2 &^. bc1) in
      let a16 := bc1 ^. (bc3 &^. bc2) in
      let a22 := bc2 ^. (bc4 &^. bc3) in
      let a3 := bc3 ^. (bc0 &^. bc4) in
      let a9 := bc4 ^. (bc1 &^. bc0) in
      let t := a20 ^. d0 in
      let bc4 := (t <<< 18) |. (t >>> (64 - 18)) in
      let t := a1 ^. d1 in
      let bc0 := (t <<< 1) |. (t >>> (64 - 1)) in
      let t := a7 ^. d2 in
      let bc1 := (t <<< 6) |. (t >>> (64 - 6)) in
      let t := a13 ^. d3 in
      let bc2 := (t <<< 25) |. (t >>> (64 - 25)) in
      let t := a19 ^. d4 in
      let bc3 := (t <<< 8) |. (t >>> (64 - 8)) in
      let a20 := bc0 ^. (bc2 &^. bc1) in
      let a1 := bc1 ^. (bc3 &^. bc2) in
      let a7 := bc2 ^. (bc4 &^. bc3) in
      let a13 := bc3 ^. (bc0 &^. bc4) in
      let a19 := bc4 ^. (bc1 &^. bc0) in
      let t := a5 ^. d0 in
      let bc1 := (t <<< 36) |. (t >>> (64 - 36)) in
      let t := a11 ^. d1 in
      let bc2 := (t <<< 10) |. (t >>> (64 - 10)) in
      let t := a17 ^. d2 in
      let bc3 := (t <<< 15) |. (t >>> (64 - 15)) in
      let t := a23 ^. d3 in
      let bc4 := (t <<< 56) |. (t >>> (64 - 56)) in
      let t := a4 ^. d4 in
      let bc0 := (t <<< 27) |. (t >>> (64 - 27)) in
      let a5 := bc0 ^. (bc2 &^. bc1) in
      let a11 := bc1 ^. (bc3 &^. bc2) in
      let a17 := bc2 ^. (bc4 &^. bc3) in
      let a23 := bc3 ^. (bc0 &^. bc4) in
      let a4 := bc4 ^. (bc1 &^. bc0) in
      let t := a15 ^. d0 in
      let bc3 := (t <<< 41) |. (t >>> (64 - 41)) in
      let t := a21 ^. d1 in
      let bc4 := (t <<< 2) |. (t >>> (64 - 2)) in
      let t := a2 ^. d2 in
      let bc0 := (t <<< 62) |. (t >>> (64 - 62)) in
      let t := a8 ^. d3 in
      let bc1 := (t <<< 55) |. (t >>> (64 - 55)) in
      let t := a14 ^. d4 in
      let bc2 := (t <<< 39) |. (t >>> (64 - 39)) in
      let a15 := bc0 ^. (bc2 &^. bc1) in
      let a21 := bc1 ^. (bc3 &^. bc2) in
      let a2 := bc2 ^. (bc4 &^. bc3) in
      let a8 := bc3 ^. (bc0 &^. bc4) in
      let a14 := bc4 ^. (bc1 &^. bc0) in
      [a0; a1; a2; a3; a4; a5; a6; a7; a8; a9; a10; a11; a12; a13; a14; a15; a16; a17;
       a18; a19; a20; a21; a22; a23; a24]
  | _ => a
  end.

(** Round 2 of the unrolled loop body; [rci] is its round constant. *)
Definition round2 (rci : Z) (a : list Z) : list Z :=
  match a with
  | [a0; a1; a2; a3; a4; a5; a6; a7; a8; a9; a10; a11; a12; a13; a14; a15; a16; a17;
     a18; a19; a20; a21; a22; a23; a24] =>
      let bc0 := a0 ^. a5 ^. a10 ^. a15 ^. a20 in
      let bc1 := a1 ^. a6 ^. a11 ^. a16 ^. a21 in
      let bc2 := a2 ^. a7 ^. a12 ^. a17 ^. a22 in
      let bc3 := a3 ^. a8 ^. a13 ^. a18 ^. a23 in
      let bc4 := a4 ^. a9 ^. a14 ^. a19 ^. a24 in
      let d0 := bc4 ^. ((bc1 <<< 1) |. (bc1 >>> 63)) in
      let d1 := bc0 ^. ((bc2 <<< 1) |. (bc2 >>> 63)) in
      let d2 := bc1 ^. ((bc3 <<< 1) |. (bc3 >>> 63)) in
      let d3 := bc2 ^. ((bc4 <<< 1) |. (bc4 >>> 63)) in
      let d4 := bc3 ^. ((bc0 <<< 1) |. (bc0 >>> 63)) in
      let bc0 := a0 ^. d0 in
      let t := a16 ^. d1 in
      let bc1 := (t <<< 44) |. (t >>> (64 - 44)) in
      let t := a7 ^. d2 in
      let bc2 := (t <<< 43) |. (t >>> (64 - 43)) in
      let t := a23 ^. d3 in
      let bc3 := (t <<< 21) |. (t >>> (64 - 21)) in
      let t := a14 ^. d4 in
      let bc4 := (t <<< 14) |. (t >>> (64 - 14)) in
      let a0 := bc0 ^. (bc2 &^. bc1) ^. rci in
      let a16 := bc1 ^. (bc3 &^. bc2) in
      let a7 := bc2 ^. (bc4 &^. bc3) in
      let a23 := bc3 ^. (bc0 &^. bc4) in
      let a14 := bc4 ^. (bc1 &^. bc0) in
      let t := a20 ^. d0 in
      let bc2 := (t <<< 3) |. (t >>> (64 - 3)) in
      let t := a11 ^. d1 in
      let bc3 := (t <<< 45) |. (t >>> (64 - 45)) in
      let t := a2 ^. d2 in
      let bc4 := (t <<< 61) |. (t >>> (64 - 61)) in
      let t := a18 ^. d3 in
      let bc0 := (t <<< 28) |. (t >>> (64 - 28)) in
      let t := a9 ^. d4 in
      let bc1 := (t <<< 20) |. (t >>> (64 - 20)) in
      let a20 := bc0 ^. (bc2 &^. bc1) in
      let a11 := bc1 ^. (bc3 &^. bc2) in
      let a2 := bc2 ^. (bc4 &^. bc3) in
      let a18 := bc3 ^. (bc0 &^. bc4) in
      let a9 := bc4 ^. (bc1 &^. bc0) in
      let t := a15 ^. d0 in
      let bc4 := (t <<< 18) |. (t >>> (64 - 18)) in
      let t := a6 ^. d1 in
      let bc0 := (t <<< 1) |. (t >>> (64 - 1)) in
      let t := a22 ^. d2 in
      let bc1 := (t <<< 6) |. (t >>> (64 - 6)) in
      let t := a13 ^. d3 in
      let bc2 := (t <<< 25) |. (t >>> (64 - 25)) in
      let t := a4 ^. d4 in
      let bc3 := (t <<< 8) |. (t >>> (64 - 8)) in
      let a15 := bc0 ^. (bc2 &^. bc1) in
      let a6 := bc1 ^. (bc3 &^. bc2) in
      let a22 := bc2 ^. (bc4 &^. bc3) in
      let a13 := bc3 ^. (bc0 &^. bc4) in
      let a4 := bc4 ^. (bc1 &^. bc0) in
      let t := a10 ^. d0 in
      let bc1 := (t <<< 36) |. (t >>> (64 - 36)) in
      let t := a1 ^. d1 in
      let bc2 := (t <<< 10) |. (t >>> (64 - 10)) in
      let t := a17 ^. d2 in
      let bc3 := (t <<< 15) |. (t >>> (64 - 15)) in
      let t := a8 ^. d3 in
      let bc4 := (t <<< 56) |. (t >>> (64 - 56)) in
      let t := a24 ^. d4 in
      let bc0 := (t <<< 27) |. (t >>> (64 - 27)) in
      let a10 := bc0 ^. (bc2 &^. bc1) in
      let a1 := bc1 ^. (bc3 &^. bc2) in
      let a17 := bc2 ^. (bc4 &^. bc3) in
      let a8 := bc3 ^. (bc0 &^. bc4) in
      let a24 := bc4 ^. (bc1 &^. bc0) in
      let t := a5 ^. d0 in
      let bc3 := (t <<< 41) |. (t >>> (64 - 41)) in
      let t := a21 ^. d1 in
      let bc4 := (t <<< 2) |. (t >>> (64 - 2)) in
      let t := a12 ^. d2 in
      let bc0 := (t <<< 62) |. (t >>> (64 - 62)) in
      let t := a3 ^. d3 in
      let bc1 := (t <<< 55) |. (t >>> (64 - 55)) in
      let t := a19 ^. d4 in
      let bc2 := (t <<< 39) |. (t >>> (64 - 39)) in
      let a5 := bc0 ^. (bc2 &^. bc1) in
      let a21 := bc1 ^. (bc3 &^. bc2) in
      let a12 := bc2 ^. (bc4 &^. bc3) in
      let a3 := bc3 ^. (bc0 &^. bc4) in
      let a19 := bc4 ^. (bc1 &^. bc0) in
      [a0; a1; a2; a3; a4; a5; a6; a7; a8; a9; a10; a11; a12; a13; a14; a15; a16; a17;
       a18; a19; a20; a21; a22; a23; a24]
  | _ => a
  end.

(** Round 3 of the unrolled loop body; [rci] is its round constant. *)
Definition round3 (rci : Z) (a : list Z) : list Z :=
  match a with
  | [a0; a1; a2; a3; a4; a5; a6; a7; a8; a9; a10; a11; a12; a13; a14; a15; a16; a17;
     a18; a19; a20; a21; a22; a23; a24] =>
      let bc0 := a0 ^. a5 ^. a10 ^. a15 ^. a20 in
      let bc1 := a1 ^. a6 ^. a11 ^. a16 ^. a21 in
      let bc2 := a2 ^. a7 ^. a12 ^. a17 ^. a22 in
      let bc3 := a3 ^. a8 ^. a13 ^. a18 ^. a23 in
      let bc4 := a4 ^. a9 ^. a14 ^. a19 ^. a24 in
      let d0 := bc4 ^. ((bc1 <<< 1) |. (bc1 >>> 63)) in
      let d1 := bc0 ^. ((bc2 <<< 1) |. (bc2 >>> 63)) in
      let d2 := bc1 ^. ((bc3 <<< 1) |. (bc3 >>> 63)) in
      let d3 := bc2 ^. ((bc4 <<< 1) |. (bc4 >>> 63)) in
      let d4 := bc3 ^. ((bc0 <<< 1) |. (bc0 >>> 63)) in
      let bc0 := a0 ^. d0 in
      let t := a11 ^. d1 in
      let bc1 := (t <<< 44) |. (t >>> (64 - 44)) in
      let t := a22 ^. d2 in
      let bc2 := (t <<< 43) |. (t >>> (64 - 43)) in
      let t := a8 ^. d3 in
      let bc3 := (t <<< 21) |. (t >>> (64 - 21)) in
      let t := a19 ^. d4 in
      let bc4 := (t <<< 14) |. (t >>> (64 - 14)) in
      let a0 := bc0 ^. (bc2 &^. bc1) ^. rci in
      let a11 := bc1 ^. (bc3 &^. bc2) in
      let a22 := bc2 ^. (bc4 &^. bc3) in
      let a8 := bc3 ^. (bc0 &^. bc4) in
      let a19 := bc4 ^. (bc1 &^. bc0) in
      let t := a15 ^. d0 in
      let bc2 := (t <<< 3) |. (t >>> (64 - 3)) in
      let t := a1 ^. d1 in
      let bc3 := (t <<< 45) |. (t >>> (64 - 45)) in
      let t := a12 ^. d2 in
      let bc4 := (t <<< 61) |. (t >>> (64 - 61)) in
      let t := a23 ^. d3 in
      let bc0 := (t <<< 28) |. (t >>> (64 - 28)) in
      let t := a9 ^. d4 in
      let bc1 := (t <<< 20) |. (t >>> (64 - 20)) in
      let a15 := bc0 ^. (bc2 &^. bc1) in
      let a1 := bc1 ^. (bc3 &^. bc2) in
      let a12 := bc2 ^. (bc4 &^. bc3) in
      let a23 := bc3 ^. (bc0 &^. bc4) in
      let a9 := bc4 ^. (bc1 &^. bc0) in
      let t := a5 ^. d0 in
      let bc4 := (t <<< 18) |. (t >>> (64 - 18)) in
      let t := a16 ^. d1 in
      let bc0 := (t <<< 1) |. (t >>> (64 - 1)) in
      let t := a2 ^. d2 in
      let bc1 := (t <<< 6) |. (t >>> (64 - 6)) in
      let t := a13 ^. d3 in
      let bc2 := (t <<< 25) |. (t >>> (64 - 25)) in
      let t := a24 ^. d4 in
      let bc3 := (t <<< 8) |. (t >>> (64 - 8)) in
      let a5 := bc0 ^. (bc2 &^. bc1) in
      let a16 := bc1 ^. (bc3 &^. bc2) in
      let a2 := bc2 ^. (bc4 &^. bc3) in
      let a13 := bc3 ^. (bc0 &^. bc4) in
      let a24 := bc4 ^. (bc1 &^. bc0) in
      let t := a20 ^. d0 in
      let bc1 := (t <<< 36) |. (t >>> (64 - 36)) in
      let t := a6 ^. d1 in
      let bc2 := (t <<< 10) |. (t >>> (64 - 10)) in
      let t := a17 ^. d2 in
      let bc3 := (t <<< 15) |. (t >>> (64 - 15)) in
      let t := a3 ^. d3 in
      let bc4 := (t <<< 56) |. (t >>> (64 - 56)) in
      let t := a14 ^. d4 in
      let bc0 := (t <<< 27) |. (t >>> (64 - 27)) in
      let a20 := bc0 ^. (bc2 &^. bc1) in
      let a6 := bc1 ^. (bc3 &^. bc2) in
      let a17 := bc2 ^. (bc4 &^. bc3) in
      let a3 := bc3 ^. (bc0 &^. bc4) in
      let a14 := bc4 ^. (bc1 &^. bc0) in
      let t := a10 ^. d0 in
      let bc3 := (t <<< 41) |. (t >>> (64 - 41)) in
      let t := a21 ^. d1 in
      let bc4 := (t <<< 2) |. (t >>> (64 - 2)) in
      let t := a7 ^. d2 in
      let bc0 := (t <<< 62) |. (t >>> (64 - 62)) in
      let t := a18 ^. d3 in
      let bc1 := (t <<< 55) |. (t >>> (64 - 55)) in
      let t := a4 ^. d4 in
      let bc2 := (t <<< 39) |. (t >>> (64 - 39)) in
      let a10 := bc0 ^. (bc2 &^. bc1) in
      let a21 := bc1 ^. (bc3 &^. bc2) in
      let a7 := bc2 ^. (bc4 &^. bc3) in
      let a18 := bc3 ^. (bc0 &^. bc4) in
      let a4 := bc4 ^. (bc1 &^. bc0) in
      [a0; a1; a2; a3; a4; a5; a6; a7; a8; a9; a10; a11; a12; a13; a14; a15; a16; a17;
       a18; a19; a20; a21; a22; a23; a24]
  | _ => a
  end.

(** Round 4 of the unrolled loop body; [rci] is its round constant. *)
Definition round4 (rci : Z) (a : list Z) : list Z :=
  match a with
  | [a0; a1; a2; a3; a4; a5; a6; a7; a8; a9; a10; a11; a12; a13; a14; a15; a16; a17;
     a18; a19; a20; a21; a22; a23; a24] =>
      let bc0 := a0 ^. a5 ^. a10 ^. a15 ^. a20 in
      let bc1 := a1 ^. a6 ^. a11 ^. a16 ^. a21 in
      let bc2 := a2 ^. a7 ^. a12 ^. a17 ^. a22 in
      let bc3 := a3 ^. a8 ^. a13 ^. a18 ^. a23 in
      let bc4 := a4 ^. a9 ^. a14 ^. a19 ^. a24 in
      let d0 := bc4 ^. ((bc1 <<< 1) |. (bc1 >>> 63)) in
      let d1 := bc0 ^. ((bc2 <<< 1) |. (bc2 >>> 63)) in
      let d2 := bc1 ^. ((bc3 <<< 1) |. (bc3 >>> 63)) in
      let d3 := bc2 ^. ((bc4 <<< 1) |. (bc4 >>> 63)) in
      let d4 := bc3 ^. ((bc0 <<< 1) |. (bc0 >>> 63)) in
      let bc0 := a0 ^. d0 in
      let t := a1 ^. d1 in
      let bc1 := (t <<< 44) |. (t >>> (64 - 44)) in
      let t := a2 ^. d2 in
      let bc2 := (t <<< 43) |. (t >>> (64 - 43)) in
      let t := a3 ^. d3 in
      let bc3 := (t <<< 21) |. (t >>> (64 - 21)) in
      let t := a4 ^. d4 in
      let bc4 := (t <<< 14) |. (t >>> (64 - 14)) in
      let a0 := bc0 ^. (bc2 &^. bc1) ^. rci in
      let a1 := bc1 ^. (bc3 &^. bc2) in
      let a2 := bc2 ^. (bc4 &^. bc3) in
      let a3 := bc3 ^. (bc0 &^. bc4) in
      let a4 := bc4 ^. (bc1 &^. bc0) in
      let t := a5 ^. d0 in
      let bc2 := (t <<< 3) |. (t >>> (64 - 3)) in
      let t := a6 ^. d1 in
      let bc3 := (t <<< 45) |. (t >>> (64 - 45)) in
      let t := a7 ^. d2 in
      let bc4 := (t <<< 61) |. (t >>> (64 - 61)) in
      let t := a8 ^. d3 in
      let bc0 := (t <<< 28) |. (t >>> (64 - 28)) in
      let t := a9 ^. d4 in
      let bc1 := (t <<< 20) |. (t >>> (64 - 20)) in
      let a5 := bc0 ^. (bc2 &^. bc1) in
      let a6 := bc1 ^. (bc3 &^. bc2) in
      let a7 := bc2 ^. (bc4 &^. bc3) in
      let a8 := bc3 ^. (bc0 &^. bc4) in
      let a9 := bc4 ^. (bc1 &^. bc0) in
      let t := a10 ^. d0 in
      let bc4 := (t <<< 18) |. (t >>> (64 - 18)) in
      let t := a11 ^. d1 in
      let bc0 := (t <<< 1) |. (t >>> (64 - 1)) in
      let t := a12 ^. d2 in
      let bc1 := (t <<< 6) |. (t >>> (64 - 6)) in
      let t := a13 ^. d3 in
      let bc2 := (t <<< 25) |. (t >>> (64 - 25)) in
      let t := a14 ^. d4 in
      let bc3 := (t <<< 8) |. (t >>> (64 - 8)) in
      let a10 := bc0 ^. (bc2 &^. bc1) in
      let a11 := bc1 ^. (bc3 &^. bc2) in
      let a12 := bc2 ^. (bc4 &^. bc3) in
      let a13 := bc3 ^. (bc0 &^. bc4) in
      let a14 := bc4 ^. (bc1 &^. bc0) in
      let t := a15 ^. d0 in
      let bc1 := (t <<< 36) |. (t >>> (64 - 36)) in
      let t := a16 ^. d1 in
      let bc2 := (t <<< 10) |. (t >>> (64 - 10)) in
      let t := a17 ^. d2 in
      let bc3 := (t <<< 15) |. (t >>> (64 - 15)) in
      let t := a18 ^. d3 in
      let bc4 := (t <<< 56) |. (t >>> (64 - 56)) in
      let t := a19 ^. d4 in
      let bc0 := (t <<< 27) |. (t >>> (64 - 27)) in
      let a15 := bc0 ^. (bc2 &^. bc1) in
      let a16 := bc1 ^. (bc3 &^. bc2) in
      let a17 := bc2 ^. (bc4 &^. bc3) in
      let a18 := bc3 ^. (bc0 &^. bc4) in
      let a19 := bc4 ^. (bc1 &^. bc0) in
      let t := a20 ^. d0 in
      let bc3 := (t <<< 41) |. (t >>> (64 - 41)) in
      let t := a21 ^. d1 in
      let bc4 := (t <<< 2) |. (t >>> (64 - 2)) in
      let t := a22 ^. d2 in
      let bc0 := (t <<< 62) |. (t >>> (64 - 62)) in
      let t := a23 ^. d3 in
      let bc1 := (t <<< 55) |. (t >>> (64 - 55)) in
      let t := a24 ^. d4 in
      let bc2 := (t <<< 39) |. (t >>> (64 - 39)) in
      let a20 := bc0 ^. (bc2 &^. bc1) in
      let a21 := bc1 ^. (bc3 &^. bc2) in
      let a22 := bc2 ^. (bc4 &^. bc3) in
      let a23 := bc3 ^. (bc0 &^. bc4) in
      let a24 := bc4 ^. (bc1 &^. bc0) in
      [a0; a1; a2; a3; a4; a5; a6; a7; a8; a9; a10; a11; a12; a13; a14; a15; a16; a17;
       a18; a19; a20; a21; a22; a23; a24]
  | _ => a
  end.

(** One pass of [for i := 0; i < 24; i += 4]. *)
Definition rounds4 (i : nat) (a : list Z) : list Z :=
  round4 (nth (i + 3) rc 0) (round3 (nth (i + 2) rc 0)
    (round2 (nth (i + 1) rc 0) (round1 (nth i rc 0) a))).

Definition keccakF1600 (a : list Z) : list Z :=
  foldl (fun a i => rounds4 i a) a [0; 4; 8; 12; 16; 20]%nat.

(** * The standard's step mappings *)

(** Lane [x, y] of a state. *)
Definition lane (a : list Z) (x y : nat) : Z := nth (x mod 5 + 5 * (y mod 5)) a 0.

Definition state_of (f : nat -> nat -> Z) : list Z :=
  (fun i => f (i mod 5) (i / 5))%nat <$> seq 0 25.

Definition rotl (x n : Z) : Z := shl64 x n |. (x >>> (64 - n)).

Definition theta (a : list Z) : list Z :=
  let C x := lane a x 0 ^. lane a x 1 ^. lane a x 2 ^. lane a x 3 ^. lane a x 4 in
  let D x := C (x + 4)%nat ^. rotl (C (x + 1)%nat) 1 in
  state_of (fun x y => lane a x y ^. D x).

(** The rotation offset of lane [x, y]: [(t+1)(t+2)/2] for the [t]-th lane on
    the walk [(x, y) -> (y, 2x + 3y)] from [(1, 0)], zero for lane [0, 0]. *)
Fixpoint offset_walk (fuel t x y x' y' : nat) : Z :=
  match fuel with
  | O => 0
  | S f =>
      if Nat.eqb x x' && Nat.eqb y y' then Z.of_nat ((t + 1) * (t + 2) / 2) mod 64
      else offset_walk f (t + 1) y ((2 * x + 3 * y) mod 5) x' y'
  end.

Definition offset (x y : nat) : Z := offset_walk 24 0 1 0 x y.

Definition rho (a : list Z) : list Z :=
  state_of (fun x y => if Nat.eqb x 0 && Nat.eqb y 0 then lane a x y
                       else rotl (lane a x y) (offset x y)).

Definition pi (a : list Z) : list Z := state_of (fun x y => lane a (x + 3 * y) x).

Definition chi (a : list Z) : list Z :=
  state_of (fun x y => lane a x y ^. (lane a (x + 2) y &^. lane a (x + 1) y)).

Definition iota (rci : Z) (a : list Z) : list Z :=
  state_of (fun x y => if Nat.eqb x 0 && Nat.eqb y 0 then lane a x y ^. rci else lane a x y).

Definition keccak_round (rci : Z) (a : list Z) : list Z := iota rci (chi (pi (rho (theta a)))).

(** The round constants by the standard's linear feedback shift register. *)
Definition lfsr_step (r : Z) : Z :=
  let r' := 2 * r in
  if Z.testbit r' 8 then Z.lxor (r' - 256) 0x71 else r'.

Definition lfsr (t : nat) : bool := Z.testbit (Nat.iter t lfsr_step 1) 0.

Definition round_constant (ir : nat) : Z :=
  foldr Z.lor 0 ((fun j => if lfsr (j + 7 * ir) then 2 ^ (2 ^ Z.of_nat j - 1) else 0) <$> seq 0 7).

(** Keccak-f[1600]: 24 rounds. *)
Definition keccak_f (a : list Z) : list Z :=
  foldl (fun a ir => keccak_round (round_constant ir) a) a (seq 0 24).

(** * In-place positions *)

(** Where the code keeps the standard's lane [i] after one round. *)
Definition sigma : list nat :=
  [0; 6; 12; 18; 24; 10; 16; 22; 3; 9; 20; 1; 7; 13; 19; 5; 11; 17; 23; 4; 15; 21; 2; 8; 14]%nat.

Fixpoint position (j : nat) (p : list nat) : nat :=
  match p with [] => 0 | k :: p' => if Nat.eqb k j then 0 else S (position j p') end.

(** Lane [i] of [a] at position [p i]. *)
Definition place (p : list nat) (a : list Z) : list Z :=
  (fun j => nth (position j p) a 0) <$> seq 0 25.

Definition compose (p r : list nat) : list nat := (fun i => nth i p 0%nat) <$> r.
Definition sigma2 : list nat := compose sigma sigma.
Definition sigma3 : list nat := compose sigma sigma2.

(** * The unrolled rounds are the standard's rounds, up to position *)

Definition xor5 (a b c d e : Z) : Z := a ^. b ^. c ^. d ^. e.

Ltac xor5_ac :=
  unfold xor5; apply Z.bits_inj; intros ?; rewrite !Z.lxor_spec; btauto.

(** Compute both sides down to the word operations, name the column parities. *)
Ltac to_lanes :=
  cbv -[Z.lxor Z.lor Z.ldiff Z.shiftr shl64];
  repeat match goal with
  | |- context [Z.lxor (Z.lxor (Z.lxor (Z.lxor ?a ?b) ?c) ?d) ?e] =>
      is_var a; is_var b; is_var c; is_var d; is_var e;
      change (Z.lxor (Z.lxor (Z.lxor (Z.lxor a b) c) d) e) with (xor5 a b c d e)
  end.

(** A state of 25 lanes, lane by lane. *)
Lemma lanes25 (P : list Z -> Prop) :
  (forall b0 b1 b2 b3 b4 b5 b6 b7 b8 b9 b10 b11 b12 b13
           b14 b15 b16 b17 b18 b19 b20 b21 b22 b23 b24,
     P [b0; b1; b2; b3; b4; b5; b6; b7; b8; b9; b10; b11; b12; b13;
         b14; b15; b16; b17; b18; b19; b20; b21; b22; b23; b24]) ->
  forall a, length a = 25%nat -> P a.
Proof.
  intros H a Ha. do 25 (destruct a as [|? a]; [discriminate|]).
  destruct a; [apply H|discriminate].
Qed.

Lemma round1_spec rci a : length a = 25%nat ->
  round1 rci a = place sigma (keccak_round rci a).
Proof.
  revert a. apply lanes25. intros b0 b1 b2 b3 b4 b5 b6 b7 b8 b9 b10 b11 b12 b13
    b14 b15 b16 b17 b18 b19 b20 b21 b22 b23 b24.
  to_lanes.
  reflexivity.
Qed.

Lemma round2_spec rci a : length a = 25%nat ->
  round2 rci (place sigma a) = place sigma2 (keccak_round rci a).
Proof.
  revert a. apply lanes25. intros b0 b1 b2 b3 b4 b5 b6 b7 b8 b9 b10 b11 b12 b13
    b14 b15 b16 b17 b18 b19 b20 b21 b22 b23 b24.
  to_lanes.
  replace (xor5 b0 b15 b5 b20 b10) with (xor5 b0 b5 b10 b15 b20) by xor5_ac.
  replace (xor5 b11 b1 b16 b6 b21) with (xor5 b1 b6 b11 b16 b21) by xor5_ac.
  replace (xor5 b22 b12 b2 b17 b7) with (xor5 b2 b7 b12 b17 b22) by xor5_ac.
  replace (xor5 b8 b23 b13 b3 b18) with (xor5 b3 b8 b13 b18 b23) by xor5_ac.
  replace (xor5 b19 b9 b24 b14 b4) with (xor5 b4 b9 b14 b19 b24) by xor5_ac.
  reflexivity.
Qed.

Lemma round3_spec rci a : length a = 25%nat ->
  round3 rci (place sigma2 a) = place sigma3 (keccak_round rci a).
Proof.
  revert a. apply lanes25. intros b0 b1 b2 b3 b4 b5 b6 b7 b8 b9 b10 b11 b12 b13
    b14 b15 b16 b17 b18 b19 b20 b21 b22 b23 b24.
  to_lanes.
  replace (xor5 b0 b20 b15 b10 b5) with (xor5 b0 b5 b10 b15 b20) by xor5_ac.
  replace (xor5 b16 b11 b6 b1 b21) with (xor5 b1 b6 b11 b16 b21) by xor5_ac.
  replace (xor5 b7 b2 b22 b17 b12) with (xor5 b2 b7 b12 b17 b22) by xor5_ac.
  replace (xor5 b23 b18 b13 b8 b3) with (xor5 b3 b8 b13 b18 b23) by xor5_ac.
  replace (xor5 b14 b9 b4 b24 b19) with (xor5 b4 b9 b14 b19 b24) by xor5_ac.
  reflexivity.
Qed.

Lemma round4_spec rci a : length a = 25%nat ->
  round4 rci (place sigma3 a) = keccak_round rci a.
Proof.
  revert a. apply lanes25. intros b0 b1 b2 b3 b4 b5 b6 b7 b8 b9 b10 b11 b12 b13
    b14 b15 b16 b17 b18 b19 b20 b21 b22 b23 b24.
  to_lanes.
  replace (xor5 b0 b10 b20 b5 b15) with (xor5 b0 b5 b10 b15 b20) by xor5_ac.
  replace (xor5 b6 b16 b1 b11 b21) with (xor5 b1 b6 b11 b16 b21) by xor5_ac.
  replace (xor5 b12 b22 b7 b17 b2) with (xor5 b2 b7 b12 b17 b22) by xor5_ac.
  replace (xor5 b18 b3 b13 b23 b8) with (xor5 b3 b8 b13 b18 b23) by xor5_ac.
  replace (xor5 b24 b9 b19 b4 b14) with (xor5 b4 b9 b14 b19 b24) by xor5_ac.
  reflexivity.
Qed.

Lemma keccak_round_length rci a : length (keccak_round rci a) = 25%nat.
Proof. done. Qed.

Lemma rounds4_spec i a : length a = 25%nat ->
  rounds4 i a = keccak_round (nth (i + 3) rc 0) (keccak_round (nth (i + 2) rc 0)
                  (keccak_round (nth (i + 1) rc 0) (keccak_round (nth i rc 0) a))).
Proof.
  intros Ha. unfold rounds4.
  now rewrite round1_spec, round2_spec, round3_spec, round4_spec.
Qed.

Lemma rc_spec : rc = round_constant <$> seq 0 24.
Proof. vm_compute. reflexivity. Qed.

Lemma keccakF1600_spec a : length a = 25%nat -> keccakF1600 a = keccak_f a.
Proof.
  intros Ha. unfold keccakF1600, keccak_f. cbn [foldl].
  rewrite (rounds4_spec 0), (rounds4_spec 4), (rounds4_spec 8), (rounds4_spec 12),
    (rounds4_spec 16), (rounds4_spec 20) by (assumption || apply keccak_round_length).
  assert (E : forall i, (i < 24)%nat -> nth i rc 0 = round_constant i).
  { intros i Hi. rewrite rc_spec. do 24 (destruct i as [|i]; [reflexivity|]). lia. }
  rewrite !E by lia. reflexivity.
Qed.

(** * Lanes stay 64 bits wide *)

Definition u64 (x : Z) : Prop := 0 <= x < 2 ^ 64.

Lemma u64_bits x : u64 x <-> 0 <= x /\ forall n, 64 <= n -> Z.testbit x n = false.
Proof.
  unfold u64. split.
  - intros [H0 H]. split; [assumption|]. intros n Hn.
    destruct (Z.eq_dec x 0) as [->|]; [apply Z.testbit_0_l|].
    apply Z.bits_above_log2; [assumption|].
    assert (Z.log2 x < 64) by (apply Z.log2_lt_pow2; lia). lia.
  - intros [H0 H]. split; [assumption|]. destruct (Z.eq_dec x 0) as [->|]; [lia|].
    apply Z.log2_lt_pow2; [lia|]. apply Z.nle_gt. intros Hl.
    specialize (H (Z.log2 x) Hl). rewrite Z.bit_log2 in H by lia. discriminate.
Qed.

Lemma u64_lxor x y : u64 x -> u64 y -> u64 (x ^. y).
Proof.
  rewrite !u64_bits. intros [Hx Bx] [Hy By]. split; [apply Z.lxor_nonneg; tauto|].
  intros n Hn. now rewrite Z.lxor_spec, Bx, By by assumption.
Qed.

Lemma u64_ldiff x y : u64 x -> u64 y -> u64 (x &^. y).
Proof.
  rewrite !u64_bits. intros [Hx Bx] [Hy By]. split; [apply Z.ldiff_nonneg; tauto|].
  intros n Hn. now rewrite Z.ldiff_spec, Bx by assumption.
Qed.

Lemma u64_rotl x n : u64 x -> 0 <= n <= 64 -> u64 (rotl x n).
Proof.
  unfold rotl, shl64. rewrite !u64_bits. intros [Hx Bx] Hn.
  assert (0 <= Z.shiftr x (64 - n)) by now apply Z.shiftr_nonneg.
  assert (0 <= Z.shiftl x n) by now apply Z.shiftl_nonneg.
  split; [apply Z.lor_nonneg; split; [apply Z.land_nonneg; tauto|assumption]|].
  intros k Hk. rewrite Z.lor_spec, Z.land_spec, Z.shiftr_spec, Bx by lia.
  unfold mask64. replace (2 ^ 64 - 1) with (Z.ones 64) by reflexivity.
  rewrite Z.ones_spec_high by lia. now rewrite andb_false_r.
Qed.

Lemma u64_lane a x y : Forall u64 a -> u64 (lane a x y).
Proof.
  intros H. unfold lane. generalize (x mod 5 + 5 * (y mod 5))%nat. intros n.
  destruct (nth_in_or_default n a 0) as [Hin | ->]; [|done].
  rewrite Forall_forall in H. apply H. now apply list_elem_of_In.
Qed.

Lemma u64_state f : (forall x y, (x < 5)%nat -> (y < 5)%nat -> u64 (f x y)) -> Forall u64 (state_of f).
Proof.
  intros H. apply Forall_fmap, Forall_forall. intros i Hi%elem_of_seq. apply H.
  - apply Nat.mod_upper_bound. lia.
  - apply Nat.Div0.div_lt_upper_bound. lia.
Qed.

Lemma offset_walk_range fuel : forall t x y x' y', 0 <= offset_walk fuel t x y x' y' <= 64.
Proof.
  induction fuel as [|f IH]; intros t x y x' y'; cbn [offset_walk]; [lia|].
  destruct (_ && _); [|apply IH].
  pose proof (Z.mod_pos_bound (Z.of_nat ((t + 1) * (t + 2) / 2)) 64 ltac:(lia)). lia.
Qed.

Lemma offset_range x y : 0 <= offset x y <= 64.
Proof. apply offset_walk_range. Qed.

#[export] Hint Resolve u64_lxor u64_ldiff u64_rotl u64_lane u64_state offset_range : mpc.

Lemma keccak_round_u64 rci a : u64 rci -> Forall u64 a -> Forall u64 (keccak_round rci a).
Proof.
  intros Hrc Ha.
  assert (H1 : Forall u64 (theta a)).
  { apply u64_state. intros x y _ _. assert (0 <= 1 <= 64) by lia. auto 20 with mpc. }
  assert (H2 : Forall u64 (rho (theta a))).
  { apply u64_state. intros x y _ _. destruct (_ && _); auto with mpc. }
  assert (H3 : Forall u64 (pi (rho (theta a)))) by (apply u64_state; auto with mpc).
  assert (H4 : Forall u64 (chi (pi (rho (theta a))))) by (apply u64_state; auto with mpc).
  apply u64_state. intros x y _ _. destruct (_ && _); auto with mpc.
Qed.

Lemma round_constant_u64 ir : (ir < 24)%nat -> u64 (round_constant ir).
Proof.
  intros H. unfold u64. do 24 (destruct ir as [|ir]; [vm_compute; split; [discriminate|reflexivity]|]). lia.
Qed.

Lemma keccak_f_u64 a : Forall u64 a -> Forall u64 (keccak_f a).
Proof.
  unfold keccak_f. assert (H : Forall (fun ir => (ir < 24)%nat) (seq 0 24))
    by (apply Forall_forall; intros i Hi%elem_of_seq; lia).
  revert a. induction H as [|ir l Hir _ IH]; intros a Ha; [done|].
  cbn [foldl]. apply IH, keccak_round_u64; [now apply round_constant_u64|assumption].
Qed.

(** * Claims *)

(** C35: the four-round unrolled, in-place [keccakF1600] with its table of round
    constants computes the standard's permutation (24 rounds of theta, rho, pi,
    chi, iota with the LFSR constants) on every state, and keeps 64-bit lanes
    64 bits wide. *)
Theorem keccakF1600_correct a : length a = 25%nat ->
  keccakF1600 a = keccak_f a /\ (Forall u64 a -> Forall u64 (keccakF1600 a)).
Proof.
  intros Ha. rewrite keccakF1600_spec by assumption. split; [done|]. apply keccak_f_u64.
Qed.

Lemma keccakF1600_correct_witness :
  keccakF1600 (replicate 25 0) = keccak_f (replicate 25 0) /\
  nth 0 (keccakF1600 (replicate 25 0)) 0 = 0xF1258F7940E1DDE7.
Proof.
  split; [apply (keccakF1600_correct (replicate 25 0)); reflexivity|vm_compute; reflexivity].
Defined.
