(* ===== verification/Sha3.v ===== *)
(** The SHA-3 sponge, [crypto/sha3/sha3.go], [hashes.go] and the portable
    [xor_generic.go]: buffered absorption, padding, squeezing, and the proof that
    any sequence of writes followed by [Sum] is the standard's sponge of the
    concatenated input. *)

From Stdlib Require Import ZArith Lia.
From S2P Require Import Prelude NumTheory GoBig Keccak.

#[local] Open Scope Z_scope.

(** * State *)

Inductive spongeDirection := spongeAbsorbing | spongeSqueezing.

(** [buf] is the content of the slice that points into [storage]; a nil slice
    and an empty one behave alike. *)
Record state := mkState {
  sa : list Z;             (* a [25]uint64 *)
  sbuf : list Z;
  srate : nat;
  sdsbyte : Z;
  soutputLen : nat;
  sdir : spongeDirection
}.

Definition setSponge (d : state) (a buf : list Z) (dir : spongeDirection) : state :=
  mkState a buf (srate d) (sdsbyte d) (soutputLen d) dir.

Definition newState (rate : nat) (outputLen : nat) (dsbyte : Z) : state :=
  mkState (replicate 25 0) [] rate dsbyte outputLen spongeAbsorbing.

Definition NewKeccak256 : state := newState 136 32 0x01.
Definition NewKeccak512 : state := newState 72 64 0x01.
Definition New224 : state := newState 144 28 0x06.
Definition New256 : state := newState 136 32 0x06.
Definition New384 : state := newState 104 48 0x06.
Definition New512 : state := newState 72 64 0x06.

Definition BlockSize (d : state) : nat := srate d.
Definition Size (d : state) : nat := soutputLen d.

Definition Reset (d : state) : state := setSponge d (replicate 25 0) [] spongeAbsorbing.

(** * Words and bytes *)

(** [binary.LittleEndian.Uint64]. *)
Definition Uint64 (b : list Z) : Z := le_value (take 8 b).

(** [n] rounds of the loop from word [i] on. *)
Fixpoint xorWords (n i : nat) (a buf : list Z) : list Z :=
  match n with
  | O => a
  | S n' => xorWords n' (S i) (<[i := Z.lxor (nth i a 0) (Uint64 buf)]> a) (drop 8 buf)
  end.

Definition xorInGeneric (a buf : list Z) : list Z := xorWords (length buf / 8) 0 a buf.

(** The bytes written over a buffer of [n] bytes ([n] a multiple of 8). *)
Definition copyOutGeneric (a : list Z) (n : nat) : list Z :=
  seq 0 (n / 8) ≫= fun i => PutUint 8 (nth i a 0).

(** * Operations *)

Definition permute (d : state) : state :=
  match sdir d with
  | spongeAbsorbing =>
      let a := xorInGeneric (sa d) (sbuf d) in
      setSponge d (keccakF1600 a) [] spongeAbsorbing
  | spongeSqueezing =>
      let a := keccakF1600 (sa d) in
      setSponge d a (copyOutGeneric a (srate d)) spongeSqueezing
  end.

(** The last byte of the block, with the final padding bit. *)
Definition flipLast (buf : list Z) (i : nat) : list Z :=
  <[i := Z.lxor (nth i buf 0) 0x80]> buf.

Definition padAndPermute (d : state) (dsbyte : Z) : state :=
  let buf := sbuf d ++ [dsbyte] in
  let zerosStart := length buf in
  let buf := buf ++ replicate (srate d - zerosStart) 0 in
  let buf := flipLast buf (srate d - 1) in
  let d := permute (setSponge d (sa d) buf (sdir d)) in
  setSponge d (sa d) (copyOutGeneric (sa d) (srate d)) spongeSqueezing.

(** [for len(p) > 0]: every round consumes input while the buffer is not full. *)
Fixpoint writeLoop (fuel : nat) (d : state) (p : list Z) : res state :=
  match p with
  | [] => Ok d
  | _ =>
    match fuel with
    | O => Starve
    | S f =>
        if Nat.eqb (length (sbuf d)) 0 && (srate d <=? length p)%nat then
          let a := xorInGeneric (sa d) (take (srate d) p) in
          writeLoop f (setSponge d (keccakF1600 a) (sbuf d) (sdir d)) (drop (srate d) p)
        else
          let todo := (srate d - length (sbuf d))%nat in
          let todo := if (length p <? todo)%nat then length p else todo in
          let d := setSponge d (sa d) (sbuf d ++ take todo p) (sdir d) in
          let p := drop todo p in
          let d := if Nat.eqb (length (sbuf d)) (srate d) then permute d else d in
          writeLoop f d p
    end
  end.

Definition Write (d : state) (p : list Z) : res state :=
  match sdir d with
  | spongeSqueezing => Panic
  | spongeAbsorbing => writeLoop (length p) d p
  end.

(** [for len(out) > 0] with [n] bytes of output left. *)
Fixpoint readLoop (fuel : nat) (d : state) (n : nat) (out : list Z) : res (state * list Z) :=
  match n with
  | O => Ok (d, out)
  | _ =>
    match fuel with
    | O => Starve
    | S f =>
        let k := Nat.min n (length (sbuf d)) in
        let out := out ++ take k (sbuf d) in
        let d := setSponge d (sa d) (drop k (sbuf d)) (sdir d) in
        let d := if Nat.eqb (length (sbuf d)) 0 then permute d else d in
        readLoop f d (n - k) out
    end
  end.

Definition Read (d : state) (n : nat) : res (state * list Z) :=
  let d := match sdir d with
           | spongeAbsorbing => padAndPermute d (sdsbyte d)
           | spongeSqueezing => d
           end in
  readLoop n d n [].

(** [Sum] on an absorbing sponge: the clone is a copy of the value. *)
Definition Sum (d : state) (b : list Z) : res (list Z) :=
  '(_, hash) ← Read d (soutputLen d);
  Ok (b ++ hash).

Definition SumOf (h : state) (data : list Z) : res (list Z) := h ← Write h data; Sum h [].
Definition Sum224 (data : list Z) : res (list Z) := SumOf New224 data.
Definition Sum256 (data : list Z) : res (list Z) := SumOf New256 data.
Definition Sum384 (data : list Z) : res (list Z) := SumOf New384 data.
Definition Sum512 (data : list Z) : res (list Z) := SumOf New512 data.

(** Several writes in a row. *)
Fixpoint writeAll (d : state) (ps : list (list Z)) : res state :=
  match ps with [] => Ok d | p :: ps' => d ← Write d p; writeAll d ps' end.

(** The published digest of the empty message. *)
Example sha3_256_empty :
  SetBytes <$> Sum256 [] = Ok 0xa7ffc6f8bf1ed76651c14756a061d662f580ff4de43b49fa82d80a4b80f8434a.
Proof. vm_compute. reflexivity. Qed.

(** * The standard's sponge *)

Lemma keccak_f_length a : length (keccak_f a) = 25%nat.
Proof. apply (keccak_round_length (round_constant 23)). Qed.

#[local] Opaque keccak_f keccakF1600.

Section sponge.
Context (r : nat) (Hr : (0 < r)%nat).

(** Absorb the full blocks of [m]; what is left is shorter than a block. *)
Fixpoint absorb (fuel : nat) (a m : list Z) : list Z * list Z :=
  match fuel with
  | O => (a, m)
  | S f => if (length m <? r)%nat then (a, m)
           else absorb f (keccak_f (xorInGeneric a (take r m))) (drop r m)
  end.

Definition absorbed (a m : list Z) : list Z * list Z := absorb (length m) a m.

(** Domain bits, zeros and the final bit, up to the next multiple of the rate. *)
Definition padding (ds : Z) (n : nat) : list Z :=
  flipLast (ds :: replicate (r - 1 - n mod r) 0) (r - 1 - n mod r).

(** The sponge of a message: absorb the padded message, output one block. *)
Definition sponge (ds : Z) (outputLen : nat) (m : list Z) : list Z :=
  take outputLen
    (copyOutGeneric (fst (absorbed (replicate 25 0) (m ++ padding ds (length m)))) r).

Lemma absorb_fuel fuel a m : (length m <= fuel)%nat -> absorb fuel a m = absorbed a m.
Proof.
  unfold absorbed. revert fuel a m.
  assert (H : forall f g a m, (length m <= f)%nat -> (length m <= g)%nat ->
                absorb f a m = absorb g a m).
  { induction f as [|f IH]; intros g a m Hf Hg.
    - destruct m; [|cbn in Hf; lia]. destruct g; [done|]. cbn [absorb length].
      destruct (Nat.ltb_spec 0 r); [done|lia].
    - destruct g as [|g].
      + destruct m; [|cbn in Hg; lia]. cbn [absorb length]. destruct (Nat.ltb_spec 0 r); [done|lia].
      + cbn [absorb]. destruct (Nat.ltb_spec (length m) r); [done|].
        apply IH; rewrite length_drop; lia. }
  intros. apply H; lia.
Qed.

Lemma absorbed_short a m : (length m < r)%nat -> absorbed a m = (a, m).
Proof.
  intros H. unfold absorbed. destruct (length m) eqn:E; [done|]. cbn [absorb].
  destruct (Nat.ltb_spec (length m) r); [done|lia].
Qed.

Lemma absorbed_block a m : (r <= length m)%nat ->
  absorbed a m = absorbed (keccak_f (xorInGeneric a (take r m))) (drop r m).
Proof.
  intros H. unfold absorbed at 1. destruct (length m) eqn:E; [lia|]. cbn [absorb].
  destruct (Nat.ltb_spec (length m) r); [lia|]. apply absorb_fuel. rewrite length_drop. lia.
Qed.

Lemma absorbed_app a m p :
  absorbed a (m ++ p) = let '(a', rest) := absorbed a m in absorbed a' (rest ++ p).
Proof.
  remember (length m) as n eqn:Hn. revert a m Hn.
  induction n as [n IH] using lt_wf_ind. intros a m Hn.
  destruct (Nat.lt_ge_cases (length m) r) as [Hs|Hl].
  - now rewrite (absorbed_short a m).
  - rewrite (absorbed_block a m) by assumption.
    rewrite absorbed_block by (rewrite length_app; lia).
    rewrite take_app_le, drop_app_le by assumption.
    apply (IH (length (drop r m))); [rewrite length_drop; lia|done].
Qed.

Lemma absorbed_rest a m : length (absorbed a m).2 = (length m mod r)%nat.
Proof.
  remember (length m) as n eqn:Hn. revert a m Hn.
  induction n as [n IH] using lt_wf_ind. intros a m Hn.
  destruct (Nat.lt_ge_cases (length m) r) as [Hs|Hl].
  - rewrite absorbed_short by assumption. cbn. now rewrite <- Hn, Nat.mod_small by lia.
  - rewrite absorbed_block by assumption.
    rewrite (IH (length (drop r m)) ltac:(rewrite length_drop; lia) _ (drop r m) eq_refl).
    rewrite length_drop, <- Hn. replace n with (n - r + 1 * r)%nat at 2 by lia.
    now rewrite Nat.Div0.mod_add.
Qed.

(** * The buffered implementation follows it *)

(** The sponge has absorbed [m]. *)
Definition holds (d : state) (m : list Z) : Prop :=
  srate d = r /\ sdir d = spongeAbsorbing /\ length (sa d) = 25%nat /\
  (sa d, sbuf d) = absorbed (replicate 25 0) m.

Lemma xorWords_length n i a buf : length (xorWords n i a buf) = length a.
Proof.
  revert i a buf. induction n as [|n IH]; intros i a buf; cbn; [done|].
  now rewrite IH, length_insert.
Qed.

Lemma keccak_xor a b : length a = 25%nat ->
  keccakF1600 (xorInGeneric a b) = keccak_f (xorInGeneric a b).
Proof. intros. apply keccakF1600_spec. unfold xorInGeneric. now rewrite xorWords_length. Qed.

Lemma writeLoop_spec fuel : forall d p, (length p <= fuel)%nat ->
  srate d = r -> sdir d = spongeAbsorbing -> length (sa d) = 25%nat -> (length (sbuf d) < r)%nat ->
  exists d', writeLoop fuel d p = Ok d' /\
    (sa d', sbuf d') = absorbed (sa d) (sbuf d ++ p) /\ length (sa d') = 25%nat /\
    d' = setSponge d (sa d') (sbuf d') spongeAbsorbing.
Proof.
  induction fuel as [|f IH]; intros d p Hp Hrate Hdir Hlen Hbuf.
  { destruct p; [|cbn in Hp; lia]. exists d. rewrite app_nil_r, absorbed_short by assumption.
    destruct d; cbn in *; subst; auto. }
  destruct p as [|b p].
  { exists d. rewrite app_nil_r, absorbed_short by assumption. destruct d; cbn in *; subst; auto. }
  set (q := b :: p) in *. assert (Hq : (0 < length q)%nat) by (cbn; lia).
  cbn [writeLoop]. unfold q at 1. rewrite Hrate.
  destruct (Nat.eqb (length (sbuf d)) 0 && (r <=? length q)%nat) eqn:Eb.
  { apply andb_true_iff in Eb as [E0%Nat.eqb_eq El%Nat.leb_le].
    apply nil_length_inv in E0. rewrite E0 in *. cbn [app].
    destruct (IH (setSponge d (keccakF1600 (xorInGeneric (sa d) (take r q))) [] (sdir d))
                 (drop r q)) as (d' & -> & Ha & Hl & Hd');
      cbn [sa sbuf srate sdir setSponge length]; auto.
    { rewrite length_drop. lia. }
    { rewrite keccak_xor by assumption. apply keccak_f_length. }
    exists d'. split; [done|]. cbn [sa sbuf setSponge app] in Ha. rewrite Ha, keccak_xor by assumption.
    rewrite (absorbed_block _ q) by assumption. auto. }
  destruct (Nat.ltb_spec (length q) (r - length (sbuf d))) as [Hlt|Hge].
  - (* the input fits into the buffer *)
    rewrite take_ge, drop_ge by lia. cbn [sbuf setSponge srate]. rewrite Hrate, length_app.
    destruct (Nat.eqb_spec (length (sbuf d) + length q) r); [lia|].
    exists (setSponge d (sa d) (sbuf d ++ q) (sdir d)).
    rewrite absorbed_short by (rewrite length_app; lia). rewrite Hdir. destruct f; auto.
  - (* the input fills it *)
    cbn [sbuf setSponge srate]. rewrite Hrate, length_app, length_take.
    rewrite (Nat.min_l (r - length (sbuf d)) (length q)) by lia.
    destruct (Nat.eqb_spec (length (sbuf d) + (r - length (sbuf d))) r); [|lia].
    unfold permute. cbn [sdir setSponge sa sbuf]. rewrite Hdir.
    set (blk := sbuf d ++ take (r - length (sbuf d)) q).
    destruct (IH (setSponge (setSponge d (sa d) blk spongeAbsorbing)
                    (keccakF1600 (xorInGeneric (sa d) blk)) [] spongeAbsorbing)
                 (drop (r - length (sbuf d)) q)) as (d' & E & Ha & Hl & Hd');
      cbn [sa sbuf srate sdir setSponge length]; auto.
    { rewrite length_drop. lia. }
    { rewrite keccak_xor by assumption. apply keccak_f_length. }
    exists d'. split; [exact E|]. cbn [sa sbuf setSponge app] in Ha.
    rewrite Ha, keccak_xor by assumption.
    rewrite (absorbed_block _ (sbuf d ++ q)) by (rewrite length_app; lia).
    rewrite take_app_ge, drop_app_ge by lia. auto.
Qed.

Lemma Write_holds d m p : holds d m ->
  exists d', Write d p = Ok d' /\ holds d' (m ++ p) /\
    sdsbyte d' = sdsbyte d /\ soutputLen d' = soutputLen d.
Proof.
  intros (Hrate & Hdir & Hlen & Ha). unfold Write. rewrite Hdir.
  assert (Hb : (length (sbuf d) < r)%nat).
  { apply (f_equal snd) in Ha. cbn in Ha. rewrite Ha, absorbed_rest. apply Nat.mod_upper_bound. lia. }
  destruct (writeLoop_spec (length p) d p) as (d' & E & Ha' & Hl' & Hd'); auto.
  exists d'. split; [exact E|]. split; [|rewrite Hd'; done].
  split; [rewrite Hd'; exact Hrate|]. split; [rewrite Hd'; reflexivity|].
  split; [exact Hl'|]. rewrite Ha', (absorbed_app (replicate 25 0)), <- Ha. done.
Qed.

Lemma writeAll_holds ps : forall d m, holds d m ->
  exists d', writeAll d ps = Ok d' /\ holds d' (m ++ concat ps) /\
    sdsbyte d' = sdsbyte d /\ soutputLen d' = soutputLen d.
Proof.
  induction ps as [|p ps IH]; intros d m H.
  - exists d. cbn. now rewrite app_nil_r.
  - destruct (Write_holds d m p H) as (d1 & E1 & H1 & Ed1 & Eo1).
    destruct (IH d1 (m ++ p) H1) as (d2 & E2 & H2 & Ed2 & Eo2).
    exists d2. cbn [writeAll concat]. rewrite E1. cbn [mbind res_bind].
    rewrite app_assoc. split; [exact E2|]. split; [exact H2|]. split; congruence.
Qed.

(** * Padding and output *)

Lemma flipLast_app l b n : length l = n ->
  flipLast (l ++ b) (length b - 1 + n)%nat = l ++ flipLast b (length b - 1)%nat.
Proof.
  intros <-. unfold flipLast. rewrite app_nth2 by lia.
  replace (length b - 1 + length l - length l)%nat with (length b - 1)%nat by lia.
  rewrite insert_app_r_alt by lia. f_equal. f_equal. lia.
Qed.

Lemma copyOut_length a n : length (copyOutGeneric a n) = (8 * (n / 8))%nat.
Proof.
  unfold copyOutGeneric.
  assert (H : forall l : list nat, length (l ≫= fun i => PutUint 8 (nth i a 0)) = (8 * length l)%nat).
  { induction l as [|i l IH]; [done|].
    rewrite bind_cons, length_app, PutUint_length, IH. cbn [length]. lia. }
  now rewrite H, length_seq.
Qed.

Lemma padded_block a m ds : (length m < r)%nat -> length a = 25%nat ->
  absorbed a (m ++ padding ds (length m)) =
  (keccak_f (xorInGeneric a (flipLast ((m ++ [ds]) ++ replicate (r - length (m ++ [ds])) 0) (r - 1))), []).
Proof.
  intros Hm Ha. unfold padding. rewrite Nat.mod_small by assumption.
  set (z := (r - 1 - length m)%nat).
  assert (Ez : (r - length (m ++ [ds]))%nat = z) by (rewrite length_app; cbn; unfold z; lia).
  rewrite Ez, <- app_assoc. cbn [app].
  assert (Hl : length (ds :: replicate z 0) = S z) by (cbn; now rewrite length_replicate).
  assert (Ef : flipLast (m ++ ds :: replicate z 0) (r - 1) = m ++ flipLast (ds :: replicate z 0) z).
  { assert (Er : (r - 1 = length (ds :: replicate z 0%Z) - 1 + length m)%nat)
      by (rewrite Hl; unfold z; lia).
    rewrite Er, flipLast_app by done. rewrite Hl. do 2 f_equal. lia. }
  rewrite Ef.
  assert (Hfl : length (m ++ flipLast (ds :: replicate z 0) z) = r).
  { rewrite length_app. unfold flipLast. rewrite length_insert, Hl. unfold z. lia. }
  rewrite absorbed_block by lia. rewrite firstn_all2, skipn_all2 by lia.
  apply absorbed_short. cbn. lia.
Qed.

Lemma permute_rate d : srate (permute d) = srate d.
Proof. unfold permute. now destruct (sdir d). Qed.

(** [Sum] squeezes one block: the digest is shorter than the rate. *)
Lemma Sum_holds d m b : holds d m -> (soutputLen d <= 8 * (r / 8))%nat ->
  Sum d b = Ok (b ++ sponge (sdsbyte d) (soutputLen d) m).
Proof.
  intros (Hrate & Hdir & Hlen & Ha) Hout. unfold Sum, Read. rewrite Hdir.
  set (d1 := padAndPermute d (sdsbyte d)).
  assert (Hb : (length (sbuf d) < r)%nat).
  { apply (f_equal snd) in Ha. cbn in Ha. rewrite Ha, absorbed_rest. apply Nat.mod_upper_bound. lia. }
  assert (Hsp : take (soutputLen d) (sbuf d1) = sponge (sdsbyte d) (soutputLen d) m).
  { unfold sponge. f_equal. unfold d1, padAndPermute. cbn [sbuf setSponge srate]. rewrite Hrate.
    unfold permute at 1. cbn [sdir setSponge sa sbuf]. rewrite Hdir. cbn [sa setSponge srate].
    f_equal; [|now rewrite permute_rate]. rewrite absorbed_app, <- Ha.
    pose proof (absorbed_rest (replicate 25 0) m) as Hm. rewrite <- Ha in Hm. cbn [snd] in Hm.
    unfold padding. rewrite <- Hm.
    pose proof (padded_block (sa d) (sbuf d) (sdsbyte d) Hb Hlen) as Hp.
    unfold padding in Hp. rewrite Nat.mod_small in Hp by assumption. rewrite Hp.
    cbn [fst]. now rewrite keccak_xor by assumption. }
  assert (Hl1 : length (sbuf d1) = (8 * (r / 8))%nat).
  { unfold d1, padAndPermute. cbn [sbuf setSponge]. now rewrite copyOut_length, permute_rate, <- Hrate. }
  clearbody d1. rewrite <- Hsp. destruct (soutputLen d) as [|n] eqn:En.
  { done. }
  cbn [readLoop]. rewrite Nat.min_l by lia. rewrite Nat.sub_diag. cbn [app].
  destruct n; reflexivity.
Qed.
End sponge.

Lemma new_holds r outputLen ds : (0 < r)%nat -> holds r (newState r outputLen ds) [].
Proof. intros Hr. unfold holds. split; [done|]. split; [done|]. split; done. Qed.

(** The sponges of [hashes.go]. *)
Inductive standard_sponge : state -> Prop :=
| std_keccak256 : standard_sponge NewKeccak256
| std_keccak512 : standard_sponge NewKeccak512
| std_224 : standard_sponge New224
| std_256 : standard_sponge New256
| std_384 : standard_sponge New384
| std_512 : standard_sponge New512.

Lemma standard_sponge_spec h : standard_sponge h ->
  exists r out ds, h = newState r out ds /\ (0 < r)%nat /\ (out <= 8 * (r / 8))%nat.
Proof. destruct 1; do 3 eexists; (split; [reflexivity|]); cbn; lia. Qed.

(** What a sequence of writes and a final [Sum] return. *)
Lemma writeAll_Sum h ps b : standard_sponge h ->
  exists d, writeAll h ps = Ok d /\
    Sum d b = Ok (b ++ sponge (srate h) (sdsbyte h) (soutputLen h) (concat ps)).
Proof.
  intros (r & out & ds & -> & Hr & Ho)%standard_sponge_spec.
  destruct (writeAll_holds r Hr ps _ _ (new_holds r out ds Hr)) as (d & E & H & Eds & Eout).
  exists d. split; [exact E|]. rewrite (Sum_holds r Hr d (concat ps)); [|exact H|now rewrite Eout].
  now rewrite Eds, Eout.
Qed.

(** * Claims *)

(** C36: for each hash of [hashes.go], any sequence of [Write]s, of any lengths,
    followed by [Sum] returns the standard's sponge of the concatenated input (so
    chunking does not matter, the write loop terminates and nothing panics). *)
Theorem sha3_streaming h ps b : standard_sponge h ->
  (d ← writeAll h ps; Sum d b)
  = Ok (b ++ sponge (srate h) (sdsbyte h) (soutputLen h) (concat ps)).
Proof. intros H. destruct (writeAll_Sum h ps b H) as (d & -> & E). exact E. Qed.

Lemma sha3_streaming_witness :
  (d ← writeAll New256 [[1; 2]; []; [3]]; Sum d []) = Ok ([] ++ sponge 136 6 32 [1; 2; 3]).
Proof. apply (sha3_streaming New256 [[1; 2]; []; [3]] []). constructor. Defined.
