(* ===== verification/Commit.v ===== *)
(** Hash commitments to lists of curve coordinates,
    [smpc-lib/crypto/ec2/commit.go], on the SHA3-256 of [Sha3]. *)

From Stdlib Require Import ZArith Lia.
From S2P Require Import Prelude NumTheory GoBig Random Text Secp256k1 CurveFacts CurveLaws ToyCurve.
From S2P Require Import Keccak Sha3.

#[local] Open Scope Z_scope.

Record Commitment := mkCommitment { comC : bigint; comD : list bigint }.

Definition hello : list Z := bytes "hello multichain".

(** The writes for the secrets, each between two delimiters; a nil secret
    panics. *)
Fixpoint writeSecrets (d : state) (secrets : list bigint) : res state :=
  match secrets with
  | [] => Ok d
  | secret :: rest =>
      d ← Write d hello;
      s ← deref secret;
      d ← Write d (Bytes s);
      d ← Write d hello;
      writeSecrets d rest
  end.

(** The digest of both [Commit] and [Verify]: a first digest is written back
    into the same sponge before the second one is taken. *)
Definition commitDigest (rnd : bigint) (secrets : list bigint) : res Z :=
  r ← deref rnd;
  d ← Write New256 (Bytes r);
  d ← writeSecrets d secrets;
  digestKeccak256 ← Sum d [];
  d ← Write d digestKeccak256;
  d ← Write d hello;
  digest ← Sum d [];
  Ok (SetBytes digest).

(** [None] is the nil pointer the source returns on no secrets and on a failed
    read of entropy. *)
Definition Commit (secrets : list bigint) : rnd (option Commitment) :=
  match secrets with
  | [] => mret None
  | _ =>
      r ← GetRandomInt 256;
      match r with
      | None => mret None
      | Some _ =>
          digestBigInt ← lift (commitDigest r secrets);
          mret (Some (mkCommitment (Some digestBigInt) (r :: secrets)))
      end
  end.

Section check.
Context `{E : Curve}.

(** [for i := 0; i < l; i++] over the pairs. *)
Fixpoint checkPairs (secrets : list bigint) : bool :=
  match secrets with
  | x :: y :: rest =>
      match x, y with
      | Some x, Some y => if IsOnCurve S256 x y then checkPairs rest else false
      | _, _ => false
      end
  | _ => true
  end.

Definition checkPointOnCurve (secrets : list bigint) : bool :=
  if Nat.eqb (length secrets) 0 || negb (Nat.eqb (length secrets mod 2) 0) then false
  else checkPairs secrets.

Definition Verify (commitment : Commitment) : res bool :=
  match comC commitment, comD commitment with
  | None, _ => Ok false
  | _, [] => Ok false
  | Some C, r :: secrets =>
      computeDigest ← commitDigest r secrets;
      if negb (computeDigest =? C) then Ok false
      else if negb (checkPointOnCurve secrets) then Ok false
      else Ok true
  end.

Definition DeCommit (commitment : Commitment) : res (bool * list bigint) :=
  b ← Verify commitment;
  if b : bool then Ok (true, drop 1 (comD commitment)) else Ok (false, []).
End check.

(** * What is hashed *)

Definition sha3_256 (m : list Z) : list Z := sponge 136 0x06 32 m.

(** The message of a commitment. *)
Definition commitMessage (r : Z) (secrets : list Z) : list Z :=
  Bytes r ++ (secrets ≫= fun s => hello ++ Bytes s ++ hello).

(** The double digest. *)
Definition commitHash (m : list Z) : Z := SetBytes (sha3_256 (m ++ sha3_256 m ++ hello)).

Lemma New256_holds : holds 136 New256 [].
Proof. apply new_holds. lia. Qed.

(** Writes keep the rate, the domain byte and the digest size. *)
Definition holds256 (d : state) (m : list Z) : Prop :=
  holds 136 d m /\ sdsbyte d = 0x06 /\ soutputLen d = 32%nat.

Lemma holds256_write d m p : holds256 d m -> exists d', Write d p = Ok d' /\ holds256 d' (m ++ p).
Proof.
  intros (H & E1 & E2). destruct (Write_holds 136 ltac:(lia) d m p H) as (d' & E & H' & F1 & F2).
  exists d'. split; [exact E|]. split; [exact H'|]. split; congruence.
Qed.

Lemma holds256_sum d m b : holds256 d m -> Sum d b = Ok (b ++ sha3_256 m).
Proof.
  intros (H & E1 & E2).
  rewrite (Sum_holds 136 ltac:(lia) d m b H); [|rewrite E2; cbn; lia]. now rewrite E1, E2.
Qed.

Lemma writeSecrets_spec secrets : forall d m, holds256 d m ->
  exists d', writeSecrets d (Some <$> secrets) = Ok d' /\
    holds256 d' (m ++ (secrets ≫= fun s => hello ++ Bytes s ++ hello)).
Proof.
  induction secrets as [|s secrets IH]; intros d m H.
  - exists d. cbn. now rewrite app_nil_r.
  - rewrite fmap_cons, bind_cons. cbn [writeSecrets].
    destruct (holds256_write d m hello H) as (d1 & -> & H1). cbn [mbind res_bind deref].
    destruct (holds256_write d1 _ (Bytes s) H1) as (d2 & -> & H2). cbn [mbind res_bind].
    destruct (holds256_write d2 _ hello H2) as (d3 & -> & H3). cbn [mbind res_bind].
    destruct (IH d3 _ H3) as (d4 & -> & H4). exists d4. split; [done|].
    rewrite <- !app_assoc in H4. rewrite <- !app_assoc. exact H4.
Qed.

Lemma commitDigest_spec r secrets :
  commitDigest (Some r) (Some <$> secrets) = Ok (commitHash (commitMessage r secrets)).
Proof.
  unfold commitDigest. cbn [deref mbind res_bind].
  destruct (holds256_write New256 [] (Bytes r)) as (d1 & -> & H1);
    [split; [apply New256_holds|done]|]. cbn [mbind res_bind].
  destruct (writeSecrets_spec secrets d1 _ H1) as (d2 & -> & H2). cbn [mbind res_bind].
  rewrite (holds256_sum _ _ [] H2). cbn [mbind res_bind app] in *.
  fold (commitMessage r secrets) in *. set (m := commitMessage r secrets) in *.
  destruct (holds256_write d2 m (sha3_256 m) H2) as (d3 & -> & H3). cbn [mbind res_bind].
  destruct (holds256_write d3 _ hello H3) as (d4 & -> & H4). cbn [mbind res_bind].
  rewrite (holds256_sum _ _ [] H4). cbn [mbind res_bind app]. unfold commitHash.
  now rewrite <- app_assoc.
Qed.

(** * Claims *)

Section claims.
Context `{E : Curve}.

Lemma checkPairs_spec ps :
  checkPairs (ps ≫= fun p => [Some p.1; Some p.2]) = forallb (fun p => IsOnCurve S256 p.1 p.2) ps.
Proof.
  induction ps as [|[x y] ps IH]; [done|]. rewrite bind_cons. cbn [app fst snd checkPairs forallb].
  rewrite IH. now destruct (IsOnCurve S256 x y).
Qed.

Lemma pairs_length (ps : list (Z * Z)) : length (ps ≫= fun p => [p.1; p.2]) = (2 * length ps)%nat.
Proof. induction ps as [|p ps IH]; [done|]. rewrite bind_cons. cbn in *. lia. Qed.

Lemma pairs_Some (ps : list (Z * Z)) :
  Some <$> (ps ≫= fun p => [p.1; p.2]) = ps ≫= fun p => [Some p.1; Some p.2].
Proof. induction ps as [|p ps IH]; [done|]. rewrite !bind_cons, fmap_app, IH. done. Qed.

(** An opening of a list of points. *)
Lemma DeCommit_spec C r ps :
  let secrets := ps ≫= fun p => [p.1; p.2] in
  DeCommit (mkCommitment (Some C) (Some <$> (r :: secrets))) =
  Ok (if (commitHash (commitMessage r secrets) =? C)
         && negb (Nat.eqb (length ps) 0) && forallb (fun p => IsOnCurve S256 p.1 p.2) ps
      then (true, Some <$> secrets) else (false, [])).
Proof.
  cbn zeta. set (secrets := ps ≫= fun p => [p.1; p.2]). unfold DeCommit, Verify.
  rewrite fmap_cons. cbn [comC comD]. rewrite commitDigest_spec. cbn [mbind res_bind].
  destruct (commitHash (commitMessage r secrets) =? C); [cbn [negb andb]|done].
  assert (Ec : checkPointOnCurve (Some <$> secrets) =
               negb (Nat.eqb (length ps) 0) && forallb (fun p => IsOnCurve S256 p.1 p.2) ps).
  { unfold checkPointOnCurve. rewrite length_fmap. unfold secrets. rewrite pairs_length.
    rewrite (Nat.mul_comm 2), Nat.Div0.mod_mul. rewrite pairs_Some, checkPairs_spec.
    destruct ps; [done|]. cbn [length]. rewrite Nat.mul_comm. cbn. done. }
  rewrite Ec. destruct (_ && _); cbn [negb mbind res_bind drop]; done.
Qed.

(** [DeCommit] decides a commitment to a list of points: it opens exactly
    when the double SHA3-256 digest of the encoded list is the committed one, the
    list is not empty and every pair is on the curve. *)
Theorem DeCommit_decides C r ps :
  let secrets := ps ≫= fun p => [p.1; p.2] in
  DeCommit (mkCommitment (Some C) (Some <$> (r :: secrets))) =
  Ok (if (commitHash (commitMessage r secrets) =? C)
         && negb (Nat.eqb (length ps) 0) && forallb (fun p => IsOnCurve S256 p.1 p.2) ps
      then (true, Some <$> secrets) else (false, [])).
Proof. apply DeCommit_spec. Qed.

(** Committing to a non-empty list of curve points and opening it again
    returns the same coordinates, for every draw of the blinding number; a
    failed draw or an empty list gives the nil commitment. *)
Theorem Commit_DeCommit ps o t :
  Forall (fun p => IsOnCurve S256 p.1 p.2 = true) ps -> ps <> [] ->
  let secrets := Some <$> (ps ≫= fun p => [p.1; p.2]) in
  Commit [] t = Ok (None, t) /\
  match o with
  | None => Commit secrets (o :: t) = Ok (None, t)
  | Some v => exists com, Commit secrets (o :: t) = Ok (Some com, t) /\
                          DeCommit com = Ok (true, secrets)
  end.
Proof.
  intros HF Hne. cbn zeta. set (s := ps ≫= fun p => [p.1; p.2]).
  split; [done|].
  assert (Hs : exists a l, Some <$> s = a :: l).
  { destruct (Some <$> s) eqn:Es; [|eauto]. apply (f_equal length) in Es.
    rewrite length_fmap in Es. unfold s in Es. rewrite pairs_length in Es.
    destruct ps; cbn in Es; [done|lia]. }
  destruct Hs as (a & l & Es). unfold Commit. rewrite Es, <- Es.
  destruct o as [v|]; [|reflexivity].
  rewrite (rnd_bind_run _ _ _ (Some (v mod (Z.shiftl 1 256 - 1))) t) by reflexivity.
  set (r := v mod _). cbv beta iota.
  erewrite rnd_bind_run by (apply lift_run, commitDigest_spec).
  eexists. split; [reflexivity|].
  change (Some r :: (Some <$> s)) with (Some <$> (r :: s)). unfold s. rewrite DeCommit_spec.
  rewrite Z.eqb_refl. destruct ps as [|p ps]; [done|]. cbn [length Nat.eqb negb andb].
  replace (forallb _ (p :: ps)) with true; [done|]. symmetry. apply forallb_forall.
  intros x Hx. rewrite Forall_forall in HF. apply HF. now apply list_elem_of_In.
Qed.
End claims.

Lemma Commit_DeCommit_witness :
  exists com, Commit [Some 2; Some 34] [Some 99] = Ok (Some com, []) /\
              DeCommit com = Ok (true, [Some 2; Some 34]).
Proof.
  apply (Commit_DeCommit [(2, 34)] (Some 99) []); [|done].
  repeat constructor.
Defined.
