(* ===== verification/Paillier.v ===== *)
(** Safe primes and Paillier encryption, [smpc-lib/crypto/ec2/safeprime.go] and
    [paillier.go]: the channel of safe primes as a queue, key generation,
    encryption, decryption, the homomorphic operations and the JSON codecs. *)

From Stdlib Require Import ZArith Lia Zcong Zdivisibility.
From S2P Require Import Prelude NumTheory Primality GoBig Random Text IntGo Json.

#[local] Open Scope Z_scope.

(** * Safe primes *)

Record SafePrime := mkSafePrime { spq : bigint; spp : bigint }.

Definition GetP (q : Z) : Z :=
  let i := q * 2 in
  let i := i + 1 in
  i.

Definition probablyPrime `{GoLib} (prime : bigint) : bool :=
  match prime with Some p => ProbablyPrime p | None => false end.

Definition CheckValidate `{GoLib} (sp : SafePrime) : bool :=
  match spp sp, spq sp with
  | Some p, Some q =>
      let lhalf := 1024 in
      let m := 2 ^ lhalf in
      if p <? m then probablyPrime (Some q) && (GetP q =? p) && probablyPrime (Some p) else false
  | _, _ => false
  end.

(** [rand.Prime(rand.Reader, bits)] yields the next number of the tape, or an
    error. *)
Definition rand_Prime (bits : Z) : rnd bigint := fun t =>
  match t with [] => Starve | o :: t' => Ok (o, t') end.

(** [None] is the pair of nil pointers. *)
Definition GetSafeRandomPrimeInt `{GoLib} : rnd SafePrime :=
  let length := 1024 in
  loop (o ← rand_Prime (length - 1);
        mret (match o with
              | None => Some (mkSafePrime None None)
              | Some q =>
                  let p := q * 2 in
                  let p := p + 1 in
                  if ProbablyPrime p then Some (mkSafePrime (Some q) (Some p)) else None
              end)).

(** The channel [SafePrimeCh], capacity 4, first in first out. *)
Abbreviation primeQueue := (list SafePrime).

(** One round of [for { ... }]; [Some] is the break. *)
Definition genPrimeStep `{GoLib} (ch : primeQueue) : rnd primeQueue :=
  if (length ch <? 4)%nat then
    sp ← GetSafeRandomPrimeInt;
    mret (if CheckValidate sp then ch ++ [sp] else ch)
  else mret ch.

Fixpoint GenRandomSafePrime `{GoLib} (fuel : nat) (ch : primeQueue) : rnd primeQueue :=
  match fuel with
  | O => lift Starve
  | S f =>
      ch ← genPrimeStep ch;
      if Nat.eqb (length ch) 4 then mret ch else GenRandomSafePrime f ch
  end.

Definition GetRandomPrime `{GoLib} : rnd (option (Z * Z)) :=
  sp ← GetSafeRandomPrimeInt;
  mret (if CheckValidate sp then
          match spq sp, spp sp with Some q, Some p => Some (q, p) | _, _ => None end
        else None).

(** * Keys *)

Record PublicKey := mkPublicKey { pkLength : string; pkN : bigint; pkG : bigint; pkN2 : bigint }.

Record PrivateKey := mkPrivateKey {
  skLength : string; skPublicKey : PublicKey; skL : bigint; skU : bigint }.

(** The keys of a pair of primes; nil when the inverse does not exist. *)
Definition pairOfPrimes (length p q : Z) : option (PublicKey * PrivateKey) :=
  let n := p * q in
  let n2 := n * n in
  let g := n + 1 in
  let pMinus1 := p - 1 in
  let qMinus1 := q - 1 in
  let l := pMinus1 * qMinus1 in
  match ModInverse l n with
  | None => None
  | Some u =>
      let publicKey := mkPublicKey (Itoa length) (Some n) (Some g) (Some n2) in
      Some (publicKey, mkPrivateKey (Itoa length) publicKey (Some l) (Some u))
  end.

(** Receives two primes and sends them back; blocks ([Starve]) on fewer. *)
Definition GenerateKeyPair (length : Z) (ch : primeQueue)
  : res (option (PublicKey * PrivateKey * Z * Z) * primeQueue) :=
  if length <=? 0 then Ok (None, ch) else
  match ch with
  | sp1 :: sp2 :: ch' =>
      match spp sp1, spp sp2 with
      | Some p, Some q =>
          let ch := ch' ++ [sp1; sp2] in
          match pairOfPrimes length p q with
          | None => Ok (None, ch)
          | Some (pk, sk) => Ok (Some (pk, sk, p, q), ch)
          end
      | _, _ => Ok (None, ch')
      end
  | _ => Starve
  end.

Definition CreatPair `{GoLib} (length : Z) : rnd (option (PublicKey * PrivateKey)) :=
  if length <=? 0 then mret None else
  r1 ← GetRandomPrime;
  r2 ← GetRandomPrime;
  match r1, r2 with
  | Some (_, p), Some (_, q) => mret (pairOfPrimes length p q)
  | _, _ => mret None
  end.

(** * Encryption *)

Definition ErrMessageTooLong : string := "[ERROR]: message is too long".

Definition Encrypt (publicKey : PublicKey) (mBigInt : bigint) : rnd (Z * Z) :=
  match mBigInt with
  | None => lift (Err "param error")
  | Some m =>
      N ← lift (deref (pkN publicKey));
      if N <? m then lift (Err ErrMessageTooLong) else
      rndStar ← GetRandomIntFromZnStar N;
      G ← lift (deref (pkG publicKey));
      N2 ← lift (deref (pkN2 publicKey));
      Gm ← lift (deref (Exp G m N2));
      RN ← lift (deref (Exp rndStar N N2));
      let GmRN := Gm * RN in
      cipher ← lift (Mod GmRN N2);
      mret (cipher, rndStar)
  end.

Definition Decrypt (privateKey : option PrivateKey) (cipherBigInt : bigint) : res Z :=
  match privateKey, cipherBigInt with
  | Some sk, Some c =>
      N2 ← deref (pkN2 (skPublicKey sk));
      if N2 <? c then Err ErrMessageTooLong else
      L ← deref (skL sk);
      cL ← deref (Exp c L N2);
      let cLMinus1 := cL - 1 in
      N ← deref (pkN (skPublicKey sk));
      cLMinus1DivN ← Div cLMinus1 N;
      U ← deref (skU sk);
      let cLMinus1DivNMulU := cLMinus1DivN * U in
      Mod cLMinus1DivNMulU N
  | _, _ => Err "param error"
  end.

Definition HomoAdd (publicKey : option PublicKey) (c1 c2 : bigint) : res bigint :=
  match publicKey, c1, c2 with
  | Some pk, Some c1, Some c2 =>
      let c1c2 := c1 * c2 in
      N2 ← deref (pkN2 pk);
      Some <$> Mod c1c2 N2
  | _, _, _ => Ok None
  end.

Definition HomoMul (publicKey : option PublicKey) (cipher k : bigint) : res bigint :=
  match publicKey, cipher, k with
  | Some pk, Some c, Some k =>
      N2 ← deref (pkN2 pk);
      Ok (Exp c k N2)
  | _, _, _ => Ok None
  end.

(** * JSON *)

Section json.
Context `{J : JsonLib}.

Definition PublicKey_MarshalJSON (publicKey : PublicKey) : string :=
  json_Marshal [("Length", pkLength publicKey); ("N", Sprintf_v (pkN publicKey));
                ("G", Sprintf_v (pkG publicKey)); ("N2", Sprintf_v (pkN2 publicKey))].

Definition PublicKey_UnmarshalJSON (raw : string) : res PublicKey :=
  match json_Unmarshal raw with
  | None => Err "json"
  | Some pub =>
      let length := field "Length" pub in
      let n := fieldInt "N" pub in
      let g := fieldInt "G" pub in
      let n2 := fieldInt "N2" pub in
      l ← Atoi length;
      if l <=? 0 then Err "unmarshal length error" else
      match n, g, n2 with
      | Some _, Some _, Some _ => Ok (mkPublicKey length n g n2)
      | _, _, _ => Err "unmarshal json error"
      end
  end.

Definition PrivateKey_MarshalJSON (privateKey : PrivateKey) : string :=
  let pk := PublicKey_MarshalJSON (skPublicKey privateKey) in
  json_Marshal [("Length", skLength privateKey); ("PublicKey", pk);
                ("L", Sprintf_v (skL privateKey)); ("U", Sprintf_v (skU privateKey))].

Definition PrivateKey_UnmarshalJSON (raw : string) : res PrivateKey :=
  match json_Unmarshal raw with
  | None => Err "json"
  | Some pri =>
      let length := field "Length" pri in
      l ← Atoi length;
      if l <=? 0 then Err "unmarshal length error" else
      pub ← PublicKey_UnmarshalJSON (field "PublicKey" pri);
      let L := fieldInt "L" pri in
      let U := fieldInt "U" pri in
      match L, U with
      | Some _, Some _ => Ok (mkPrivateKey length pub L U)
      | _, _ => Err "unmarshal json error"
      end
  end.
End json.

(** * Ciphertexts *)

Section cipher.
Context (N : Z) (HN : 2 <= N).

(** [c] encrypts [m] modulo [N]. *)
Definition encrypts (c m : Z) : Prop :=
  exists r, Z.coprime r N /\ [mod N * N] c == (1 + m * N) * r ^ N.

Lemma one_plus_mul_pow x n : 0 <= n -> [mod N * N] (1 + x * N) ^ n == 1 + n * x * N.
Proof.
  revert n. apply natlike_ind; [reflexivity|].
  intros n Hn IH. rewrite Z.pow_succ_r, IH by lia. exists (n * x * x). ring.
Qed.

Lemma coprime_square r : Z.coprime r N -> Z.coprime r (N * N).
Proof. intros H. now apply Z.coprime_mul_r. Qed.

Lemma invmod_unit r : Z.coprime r N ->
  [mod N * N] r * Z.invmod r (N * N) == 1 /\ Z.coprime (Z.invmod r (N * N)) N.
Proof.
  intros H. assert (E : [mod N * N] r * Z.invmod r (N * N) == 1) by now apply invmod_mul, coprime_square.
  split; [assumption|]. apply (eqm_1_coprime N _ r). rewrite Z.mul_comm.
  apply (eqm_weaken (N * N)); [exists N; ring|assumption].
Qed.

Lemma pow_eqm_1 a b n : 0 <= n -> [mod N * N] a * b == 1 -> [mod N * N] a ^ n * b ^ n == 1.
Proof. intros Hn H. rewrite <- Z.pow_mul_l, H. now apply eqm_1_pow. Qed.

(** A unit is determined by its inverse. *)
Lemma inverse_unique c d ci : [mod N * N] c * ci == 1 -> [mod N * N] c * d == 1 -> [mod N * N] ci == d.
Proof.
  intros H1 H2. rewrite <- (Z.mul_1_l ci), <- H2.
  replace (c * d * ci) with (d * (c * ci)) by ring. rewrite H1. now rewrite Z.mul_1_r.
Qed.

Lemma encrypts_inverse c m : encrypts c m ->
  Z.coprime c (N * N) /\ encrypts (Z.invmod c (N * N)) (- m).
Proof.
  intros (r & Hr & Hc). destruct (invmod_unit r Hr) as [Hri Hrc].
  set (ri := Z.invmod r (N * N)) in *.
  assert (Hinv : [mod N * N] c * ((1 + - m * N) * ri ^ N) == 1).
  { rewrite Hc. replace ((1 + m * N) * r ^ N * ((1 + - m * N) * ri ^ N))
      with (((1 + m * N) * (1 + - m * N)) * (r ^ N * ri ^ N)) by ring.
    rewrite (pow_eqm_1 r ri N) by (lia || assumption).
    exists (- m * m). ring. }
  assert (Hcc : Z.coprime c (N * N)) by now apply eqm_1_coprime in Hinv.
  split; [assumption|]. exists ri. split; [assumption|].
  eapply inverse_unique; [|exact Hinv]. now apply invmod_mul.
Qed.

Lemma encrypts_pow c m n : 0 <= n -> encrypts c m -> encrypts (c ^ n) (m * n).
Proof.
  intros Hn (r & Hr & Hc). exists (r ^ n). split.
  - apply Z.coprime_pow_l; assumption.
  - rewrite Hc, Z.pow_mul_l, one_plus_mul_pow by lia.
    rewrite <- !Z.pow_mul_r, (Z.mul_comm n N), (Z.mul_comm n m) by lia. done.
Qed.

Lemma encrypts_mul c1 m1 c2 m2 : encrypts c1 m1 -> encrypts c2 m2 -> encrypts (c1 * c2) (m1 + m2).
Proof.
  intros (r1 & Hr1 & H1) (r2 & Hr2 & H2). exists (r1 * r2). split.
  - now apply Z.coprime_mul_l.
  - rewrite H1, H2, Z.pow_mul_l. exists (m1 * m2 * (r1 ^ N * r2 ^ N)). ring.
Qed.

Lemma encrypts_eqm c c' m : [mod N * N] c == c' -> encrypts c' m -> encrypts c m.
Proof. intros H (r & Hr & Hc). exists r. now rewrite H. Qed.

Lemma N2_pos : 0 < N * N.
Proof. nia. Qed.

(** [Exp] raises ciphertexts, negative exponents included. *)
Lemma Exp_encrypts c m k : encrypts c m ->
  exists v, Exp c k (N * N) = Some v /\ 0 <= v < N * N /\ encrypts v (m * k).
Proof.
  intros Hc. pose proof N2_pos as HN2. destruct (Z.le_gt_cases 0 k) as [Hk|Hk].
  - rewrite Exp_pos by assumption. eexists. split; [reflexivity|].
    split; [now apply Z.mod_pos_bound|]. eapply encrypts_eqm; [apply eqm_mod|].
    now apply encrypts_pow.
  - destruct (encrypts_inverse c m Hc) as [Hcc Hi].
    rewrite Exp_neg by assumption. eexists. split; [reflexivity|].
    split; [now apply Z.mod_pos_bound|]. eapply encrypts_eqm; [apply eqm_mod|].
    replace (m * k) with (- m * - k) by ring. apply encrypts_pow; [lia|assumption].
Qed.

Lemma encrypts_G : encrypts (N + 1) 1.
Proof. exists 1. split; [apply Z.gcd_1_l|]. rewrite Z.pow_1_l by lia. exists 0. ring. Qed.

Lemma Exp_G m : exists v, Exp (N + 1) m (N * N) = Some v /\ [mod N * N] v == 1 + m * N.
Proof.
  pose proof N2_pos as HN2. destruct (Z.le_gt_cases 0 m) as [Hm|Hm].
  - rewrite Exp_pos by assumption. eexists. split; [reflexivity|]. rewrite eqm_mod.
    replace (N + 1) with (1 + 1 * N) by ring. rewrite one_plus_mul_pow by assumption.
    now rewrite Z.mul_1_r.
  - destruct (encrypts_inverse (N + 1) 1 encrypts_G) as [Hc _].
    rewrite Exp_neg by assumption. eexists. split; [reflexivity|]. rewrite eqm_mod.
    assert (Hi : [mod N * N] Z.invmod (N + 1) (N * N) == 1 + -1 * N).
    { apply (inverse_unique (N + 1)); [now apply invmod_mul|]. exists (-1). ring. }
    rewrite Hi, one_plus_mul_pow by lia. now replace (- m * -1 * N) with (m * N) by ring.
Qed.

(** Raising to a multiple of the group exponent removes the mask. *)
Lemma encrypts_decrypt c m L : 0 <= L ->
  (forall r, Z.coprime r N -> [mod N * N] r ^ (N * L) == 1) -> encrypts c m ->
  (c ^ L) mod (N * N) = 1 + N * ((m * L) mod N).
Proof.
  intros HL Hord (r & Hr & Hc).
  assert (E : [mod N * N] c ^ L == 1 + N * ((m * L) mod N)).
  { rewrite Hc, Z.pow_mul_l, one_plus_mul_pow by assumption.
    rewrite <- Z.pow_mul_r, Hord, Z.mul_1_r by (lia || assumption).
    rewrite Z.mod_eq by lia. exists ((m * L) / N). ring. }
  rewrite <- (Z.mod_small (1 + N * ((m * L) mod N)) (N * N)); [now apply eqm_mod_eq|].
  pose proof (Z.mod_pos_bound (m * L) N). nia.
Qed.
End cipher.

(** * Keys of two distinct primes *)

(** The keys the generators make from two distinct primes. *)
Record keyPair (p q : Z) (pk : PublicKey) (sk : PrivateKey) : Prop := {
  kp_p : Z.prime p;
  kp_q : Z.prime q;
  kp_ne : p <> q;
  kp_pair : exists length, pairOfPrimes length p q = Some (pk, sk)
}.

Section key.
Context {p q : Z} {pk : PublicKey} {sk : PrivateKey} (HK : keyPair p q pk sk).
Let N := p * q.

Lemma keyPair_fields : exists length u,
  pk = mkPublicKey (Itoa length) (Some N) (Some (N + 1)) (Some (N * N)) /\
  sk = mkPrivateKey (Itoa length) pk (Some ((p - 1) * (q - 1))) (Some u) /\
  [mod N] (p - 1) * (q - 1) * u == 1.
Proof.
  destruct HK as [Hp Hq _ [length H]]. unfold pairOfPrimes in H. fold N in H.
  pose proof (prime_pos p Hp). pose proof (prime_pos q Hq).
  destruct (ModInverse _ N) as [u|] eqn:Eu; [|discriminate]. injection H as <- <-.
  apply ModInverse_Some in Eu as (_ & _ & Hu); [|unfold N; nia]. exists length, u. auto.
Qed.

Lemma keyPair_N : 4 <= N.
Proof.
  destruct HK as [Hp Hq _ _]. pose proof (prime_pos p Hp). pose proof (prime_pos q Hq). unfold N. nia.
Qed.

(** A successful encryption is a ciphertext of its message, under the mask it
    returns. *)
Lemma Encrypt_encrypts m t c r t' : Encrypt pk (Some m) t = Ok ((c, r), t') ->
  m <= N /\ 0 <= c < N * N /\ 1 <= r < N /\ Z.coprime r N /\
  [mod N * N] c == (1 + m * N) * r ^ N.
Proof.
  destruct keyPair_fields as (length & u & Hpk & _ & _). pose proof keyPair_N as HN.
  rewrite Hpk. unfold Encrypt. cbn [pkN pkG pkN2]. intros H.
  apply rnd_bind_Ok in H as (? & ? & [[= <-] ->]%lift_Ok & H).
  destruct (Z.ltb_spec N m); [discriminate|].
  apply rnd_bind_Ok in H as (rs & t1 & Hr%GetRandomIntFromZnStar_range & H).
  apply rnd_bind_Ok in H as (? & ? & [[= <-] ->]%lift_Ok & H).
  apply rnd_bind_Ok in H as (? & ? & [[= <-] ->]%lift_Ok & H).
  destruct (Exp_G N ltac:(lia) m) as (v & Ev & Hv).
  apply rnd_bind_Ok in H as (Gm & ? & [EG ->]%lift_Ok & H). rewrite Ev in EG. injection EG as ->.
  rewrite Exp_pos in H by nia. apply rnd_bind_Ok in H as (? & ? & [[= <-] ->]%lift_Ok & H).
  apply rnd_bind_Ok in H as (c' & ? & [EM ->]%lift_Ok & H). rewrite Mod_pos in EM by nia.
  injection EM as <-. apply rnd_ret_Ok in H as [[= -> ->] ->]. destruct Hr as [Hr Hrc].
  split; [assumption|]. split; [apply Z.mod_pos_bound; nia|].
  split; [assumption|]. split; [assumption|]. rewrite !eqm_mod, Hv. done.
Qed.

(** With a usable draw encryption does succeed. *)
Lemma Encrypt_run m r t : m <= N -> 1 <= r < N -> Z.coprime r N -> r < 2 ^ BitLen N - 1 ->
  exists c, Encrypt pk (Some m) (Some r :: t) = Ok ((c, r), t).
Proof.
  intros Hm Hr Hc Hb. destruct keyPair_fields as (length & u & Hpk & _ & _). pose proof keyPair_N as HN.
  rewrite Hpk. unfold Encrypt. cbn [pkN pkG pkN2].
  erewrite rnd_bind_run by now apply lift_run.
  destruct (Z.ltb_spec N m); [lia|].
  erewrite rnd_bind_run by now apply GetRandomIntFromZnStar_hit.
  do 2 erewrite rnd_bind_run by now apply lift_run.
  destruct (Exp_G N ltac:(lia) m) as (v & Ev & _).
  erewrite rnd_bind_run by (apply lift_run; now rewrite Ev).
  erewrite rnd_bind_run by (apply lift_run; rewrite Exp_pos by nia; reflexivity).
  erewrite rnd_bind_run by (apply lift_run, Mod_pos; nia). eexists. reflexivity.
Qed.

Lemma Decrypt_encrypts c m : 0 <= c <= N * N -> encrypts N c m ->
  Decrypt (Some sk) (Some c) = Ok (m mod N).
Proof.
  intros Hc He. destruct keyPair_fields as (length & u & Hpk & Hsk & Hu). pose proof keyPair_N as HN.
  destruct HK as [Hp Hq Hne _]. pose proof (prime_pos p Hp). pose proof (prime_pos q Hq).
  rewrite Hsk, Hpk. unfold Decrypt. cbn [pkN pkN2 skL skU skPublicKey deref mbind res_bind].
  destruct (Z.ltb_spec (N * N) c); [lia|].
  rewrite Exp_pos by nia. cbn [deref mbind res_bind].
  rewrite (encrypts_decrypt N ltac:(lia) c m) by (assumption || nia || (intros r Hr; now apply unit_order_N2)).
  rewrite Div_pos by lia. cbn [mbind res_bind].
  replace (1 + N * ((m * ((p - 1) * (q - 1))) mod N) - 1)
    with ((m * ((p - 1) * (q - 1))) mod N * N) by ring.
  rewrite Z.div_mul by lia. rewrite Mod_pos by lia. f_equal. apply eqm_mod_eq. unmod.
  replace (m * ((p - 1) * (q - 1)) * u) with (m * ((p - 1) * (q - 1) * u)) by ring.
  rewrite Hu. now rewrite Z.mul_1_r.
Qed.

Lemma HomoAdd_encrypts c1 c2 m1 m2 : encrypts N c1 m1 -> encrypts N c2 m2 ->
  exists c, HomoAdd (Some pk) (Some c1) (Some c2) = Ok (Some c) /\ 0 <= c < N * N /\
            encrypts N c (m1 + m2).
Proof.
  intros H1 H2. destruct keyPair_fields as (length & u & Hpk & _ & _). pose proof keyPair_N as HN.
  rewrite Hpk. unfold HomoAdd. cbn [pkN2 deref mbind res_bind]. rewrite Mod_pos by nia.
  eexists. split; [reflexivity|]. split; [apply Z.mod_pos_bound; nia|].
  eapply encrypts_eqm; [apply eqm_mod|]. now apply encrypts_mul.
Qed.

Lemma HomoMul_encrypts c m k : encrypts N c m ->
  exists c', HomoMul (Some pk) (Some c) (Some k) = Ok (Some c') /\ 0 <= c' < N * N /\
             encrypts N c' (m * k).
Proof.
  intros Hc. destruct keyPair_fields as (length & u & Hpk & _ & _). pose proof keyPair_N as HN.
  destruct (Exp_encrypts N ltac:(lia) c m k Hc) as (v & Ev & Hv & He).
  rewrite Hpk. unfold HomoMul. cbn [pkN2 deref mbind res_bind]. rewrite Ev. eauto.
Qed.
End key.

(** * The prime queue *)

(** Every safe prime of the queue passed the checks. *)
Definition validQueue `{GoLib} (ch : primeQueue) : Prop :=
  Forall (fun sp => CheckValidate sp = true) ch.

Lemma CheckValidate_spec `{GoLib} sp : CheckValidate sp = true ->
  exists q p, spq sp = Some q /\ spp sp = Some p /\ p = 2 * q + 1 /\ p < 2 ^ 1024 /\
    ProbablyPrime q = true /\ ProbablyPrime p = true.
Proof.
  unfold CheckValidate. destruct (spp sp) as [p|], (spq sp) as [q|]; try discriminate.
  destruct (Z.ltb_spec p (2 ^ 1024)); [|discriminate]. cbn [probablyPrime].
  intros [[H1 H2%Z.eqb_eq]%andb_true_iff H3]%andb_true_iff. unfold GetP in H2.
  exists q, p. repeat split; auto. lia.
Qed.

(** One round appends at most one checked prime, and never overfills the channel. *)
Lemma genPrimeStep_valid `{GoLib} ch t ch' t' : (length ch <= 4)%nat -> validQueue ch ->
  genPrimeStep ch t = Ok (ch', t') ->
  exists new, ch' = ch ++ new /\ validQueue ch' /\ (length ch' <= 4)%nat.
Proof.
  intros Hl Hv Hs. unfold genPrimeStep in Hs. destruct (Nat.ltb_spec (length ch) 4) as [Hlt|_].
  - apply rnd_bind_Ok in Hs as (sp & t2 & _ & Hs). apply rnd_ret_Ok in Hs as [-> ->].
    destruct (CheckValidate sp) eqn:Ec.
    + exists [sp]. split; [done|]. split; [|rewrite length_app; cbn; lia].
      apply Forall_app. split; [assumption|]. now constructor.
    + exists []. now rewrite app_nil_r.
  - apply rnd_ret_Ok in Hs as [-> ->]. exists []. now rewrite app_nil_r.
Qed.

Lemma GenerateKeyPair_valid `{GoLib} length ch r ch' :
  validQueue ch -> GenerateKeyPair length ch = Ok (r, ch') -> validQueue ch' /\ ch' ≡ₚ ch.
Proof.
  intros Hv. unfold GenerateKeyPair. destruct (length <=? 0); [now intros [= <- <-]|].
  destruct ch as [|sp1 [|sp2 ch]]; try discriminate.
  pose proof Hv as Hv'. apply Forall_cons in Hv as [H1 Hv]. apply Forall_cons in Hv as [H2 Hv].
  destruct (CheckValidate_spec sp1 H1) as (q1 & p1 & _ & -> & _).
  destruct (CheckValidate_spec sp2 H2) as (q2 & p2 & _ & -> & _).
  intros Hr. assert (ch' = ch ++ [sp1; sp2]) as ->.
  { destruct (pairOfPrimes length p1 p2) as [[pk sk]|]; congruence. }
  assert (Hp : ch ++ [sp1; sp2] ≡ₚ sp1 :: sp2 :: ch) by (now rewrite Permutation_app_comm).
  split; [|assumption]. unfold validQueue. now rewrite Hp.
Qed.

(** * Claims *)

(** C30: Paillier decryption inverts encryption for every message from minus
    infinity up to [N], every mask the sampler draws and every pair of distinct
    primes: the result is the message modulo [N].  ([m = N] passes the length
    check and decrypts to zero.)  Longer messages are refused. *)
Theorem Decrypt_Encrypt p q pk sk m : keyPair p q pk sk ->
  (forall t c r t', Encrypt pk (Some m) t = Ok ((c, r), t') ->
     Decrypt (Some sk) (Some c) = Ok (m mod (p * q))) /\
  (m <= p * q -> forall r t, 1 <= r < p * q -> Z.coprime r (p * q) -> r < 2 ^ BitLen (p * q) - 1 ->
     exists c, Encrypt pk (Some m) (Some r :: t) = Ok ((c, r), t)) /\
  (p * q < m -> forall t, Encrypt pk (Some m) t = Err ErrMessageTooLong).
Proof.
  intros HK. split; [|split].
  - intros t c r t' (Hm & Hc & _ & Hr & He)%(Encrypt_encrypts HK).
    apply (Decrypt_encrypts HK); [lia|]. now exists r.
  - intros Hm r t Hr Hc Hb. now apply (Encrypt_run HK).
  - intros Hm t. destruct (keyPair_fields HK) as (length & u & -> & _).
    unfold Encrypt. cbn [pkN]. erewrite rnd_bind_run by now apply lift_run.
    destruct (Z.ltb_spec (p * q) m); [done|lia].
Qed.

(** A key of the primes 11 and 17. *)
Definition smallKey : PublicKey * PrivateKey :=
  let pk := mkPublicKey (Itoa 8) (Some 187) (Some 188) (Some 34969) in
  (pk, mkPrivateKey (Itoa 8) pk (Some 160) (Some 90)).

Lemma smallKey_pair : keyPair 11 17 smallKey.1 smallKey.2.
Proof.
  split; [small_prime|small_prime|lia|]. exists 8. vm_compute. reflexivity.
Defined.

Lemma Decrypt_Encrypt_witness :
  exists c, Encrypt smallKey.1 (Some (-5)) [Some 9] = Ok ((c, 9), []) /\
            Decrypt (Some smallKey.2) (Some c) = Ok 182.
Proof.
  destruct (Decrypt_Encrypt 11 17 smallKey.1 smallKey.2 (-5) smallKey_pair) as (Hd & He & _).
  destruct (He ltac:(lia) 9 [] ltac:(lia) ltac:(reflexivity) ltac:(reflexivity)) as (c & E).
  exists c. split; [exact E|]. exact (Hd _ _ _ _ E).
Defined.

(** [HomoAdd] of two ciphertexts decrypts to the sum and [HomoMul] by any
    (also negative) scalar to the product, modulo [N]. *)
Theorem homomorphic p q pk sk c1 c2 m1 m2 k : keyPair p q pk sk ->
  encrypts (p * q) c1 m1 -> encrypts (p * q) c2 m2 ->
  (exists c, HomoAdd (Some pk) (Some c1) (Some c2) = Ok (Some c) /\
             Decrypt (Some sk) (Some c) = Ok ((m1 + m2) mod (p * q))) /\
  (exists c, HomoMul (Some pk) (Some c1) (Some k) = Ok (Some c) /\
             Decrypt (Some sk) (Some c) = Ok ((m1 * k) mod (p * q))).
Proof.
  intros HK H1 H2. split.
  - destruct (HomoAdd_encrypts HK c1 c2 m1 m2 H1 H2) as (c & E & Hc & He).
    exists c. split; [exact E|]. apply (Decrypt_encrypts HK); [lia|exact He].
  - destruct (HomoMul_encrypts HK c1 m1 k H1) as (c & E & Hc & He).
    exists c. split; [exact E|]. apply (Decrypt_encrypts HK); [lia|exact He].
Qed.

Lemma homomorphic_witness :
  exists c, HomoMul (Some smallKey.1) (Some ((1 + 7 * 187) * 5 ^ 187)) (Some (-3)) = Ok (Some c) /\
            Decrypt (Some smallKey.2) (Some c) = Ok 166.
Proof.
  assert (He : encrypts (11 * 17) ((1 + 7 * 187) * 5 ^ 187) 7).
  { exists 5. split; [reflexivity|]. exists 0. reflexivity. }
  destruct (homomorphic 11 17 smallKey.1 smallKey.2 _ _ 7 7 (-3) smallKey_pair He He)
    as [_ (c & E & D)].
  exists c. split; [exact E|exact D].
Defined.

(** The multiplicative-to-additive share conversion of the signing rounds:
    with [c = Enc(a)], the response [c^b * Enc(beta)] decrypts to [a*b + beta]
    modulo [N]; for [0 <= a, b < s] and [beta < N - s^2] there is no wrap-around. *)
Theorem MtA_correct p q pk sk a b beta t1 ca ra t1' t2 cb rb t2' : keyPair p q pk sk ->
  Encrypt pk (Some a) t1 = Ok ((ca, ra), t1') ->
  Encrypt pk (Some beta) t2 = Ok ((cb, rb), t2') ->
  0 <= a -> 0 <= b -> 0 <= beta -> a * b + beta < p * q ->
  exists cab c, HomoMul (Some pk) (Some ca) (Some b) = Ok (Some cab) /\
    HomoAdd (Some pk) (Some cab) (Some cb) = Ok (Some c) /\
    Decrypt (Some sk) (Some c) = Ok (a * b + beta).
Proof.
  intros HK Ha Hb Ha0 Hb0 Hbeta0 Hlt.
  apply (Encrypt_encrypts HK) in Ha as (_ & _ & _ & Hra & Ea).
  apply (Encrypt_encrypts HK) in Hb as (_ & _ & _ & Hrb & Eb).
  destruct (HomoMul_encrypts HK ca a b) as (cab & E1 & _ & He1); [now exists ra|].
  destruct (HomoAdd_encrypts HK cab cb (a * b) beta He1) as (c & E2 & Hc & He2); [now exists rb|].
  exists cab, c. split; [exact E1|]. split; [exact E2|].
  rewrite (Decrypt_encrypts HK c (a * b + beta)) by (lia || exact He2).
  f_equal. apply Z.mod_small. nia.
Qed.

Lemma MtA_correct_witness :
  exists cab c, HomoMul (Some smallKey.1) (Some 15723) (Some 6) = Ok (Some cab) /\
    HomoAdd (Some smallKey.1) (Some cab) (Some 24049) = Ok (Some c) /\
    Decrypt (Some smallKey.2) (Some c) = Ok (7 * 6 + 20).
Proof.
  refine (MtA_correct 11 17 smallKey.1 smallKey.2 7 6 20 [Some 9] _ 9 [] [Some 5] _ 5 []
            smallKey_pair _ _ _ _ _ _); try lia; vm_compute; reflexivity.
Defined.

Lemma PublicKey_json `{JsonLaws} l n g n2 : 0 < l < 2 ^ 63 ->
  let pk := mkPublicKey (Itoa l) (Some n) (Some g) (Some n2) in
  isAscii (PublicKey_MarshalJSON pk) = true /\
  PublicKey_UnmarshalJSON (PublicKey_MarshalJSON pk) = Ok pk.
Proof.
  intros Hl pk. unfold PublicKey_UnmarshalJSON, PublicKey_MarshalJSON. cbn [pk pkLength pkN pkG pkN2].
  change (Itoa l) with (Sprintf_v (Some l)). set (fs := [_; _; _; _]).
  assert (Ha : asciiObject fs = true) by (unfold fs; json_is_ascii).
  split; [now apply json_ascii|]. rewrite json_roundtrip by exact Ha. unfold fs.
  change (field "Length" _) with (Itoa l). json_fields. rewrite Atoi_Itoa by lia.
  cbn [mbind res_bind]. destruct (Z.leb_spec l 0); [lia|done].
Qed.

(** The JSON codecs of the Paillier keys are inverse to each other on every
    key with a positive length and non-nil fields, the public key nested in the
    private one included; a nil field is refused when decoding. *)
Theorem paillier_json_roundtrip `{JsonLaws} l n g n2 L U : 0 < l < 2 ^ 63 ->
  let pk := mkPublicKey (Itoa l) (Some n) (Some g) (Some n2) in
  let sk := mkPrivateKey (Itoa l) pk (Some L) (Some U) in
  PublicKey_UnmarshalJSON (PublicKey_MarshalJSON pk) = Ok pk /\
  PrivateKey_UnmarshalJSON (PrivateKey_MarshalJSON sk) = Ok sk /\
  PrivateKey_UnmarshalJSON (PrivateKey_MarshalJSON (mkPrivateKey (Itoa l) pk (Some L) None))
  = Err "unmarshal json error".
Proof.
  intros Hl pk sk. destruct (PublicKey_json l n g n2 Hl) as [Ha Hpk]. fold pk in Ha, Hpk.
  split; [assumption|]. unfold PrivateKey_UnmarshalJSON, PrivateKey_MarshalJSON.
  cbn [sk skLength skPublicKey skL skU].
  change (Itoa l) with (Sprintf_v (Some l)).
  assert (Hfs : forall x, json_Unmarshal (json_Marshal
    [("Length", Sprintf_v (Some l)); ("PublicKey", PublicKey_MarshalJSON pk);
     ("L", Sprintf_v (Some L)); ("U", Sprintf_v x)])
    = Some [("Length", Sprintf_v (Some l)); ("PublicKey", PublicKey_MarshalJSON pk);
     ("L", Sprintf_v (Some L)); ("U", Sprintf_v x)]).
  { intros x. apply json_roundtrip. unfold asciiObject. cbn [forallb fst snd].
    now rewrite !isAscii_Sprintf, Ha. }
  split; rewrite Hfs; change (field "Length" _) with (Itoa l); rewrite Atoi_Itoa by lia;
    cbn [mbind res_bind]; (destruct (Z.leb_spec l 0); [lia|]);
    change (field "PublicKey" _) with (PublicKey_MarshalJSON pk); rewrite Hpk;
    cbn [mbind res_bind]; json_fields; done.
Qed.

Lemma paillier_json_roundtrip_witness :
  PublicKey_UnmarshalJSON (PublicKey_MarshalJSON smallKey.1) = Ok smallKey.1.
Proof. apply (paillier_json_roundtrip 8 187 188 34969 160 90). lia. Defined.

