(* ===== verification/Schnorr.v ===== *)
(** Schnorr proofs of knowledge of a discrete logarithm,
    [smpc-lib/crypto/ec2/schnorrZK.go].  The file has the protocol twice, for
    the polynomial's constant term ([ZkU]) and for the key share ([ZkXi]), with
    the same code. *)

From Stdlib Require Import ZArith Lia Zcong Zdivisibility.
From S2P Require Import Prelude NumTheory Primality GoBig Random Text IntGo Json Secp256k1 CurveFacts.
From S2P Require Import CurveLaws ToyCurve Commit Vss2.

#[local] Open Scope Z_scope.

Record SchnorrProof := mkSchnorr { zkE : bigint; zkS : bigint }.

Section schnorr.
Context `{E : Curve} `{G : GoLib}.

(** The common body of [ZkUProve] and [ZkXiProve]. *)
Definition schnorrProve (u : bigint) : rnd SchnorrProof :=
  r ← GetRandomIntFromZn (cN S256);
  rG ← lift (ScalarBaseMult (Bytes r));
  u ← lift (deref u);
  uG ← lift (ScalarBaseMult (Bytes u));
  e ← lift (Sha512_256 [rG.1; rG.2; uG.1; uG.2]);
  e' ← lift (deref e);
  let s := e' * u in
  let s := r + s in
  s ← lift (Mod s (cN S256));
  mret (mkSchnorr e (Some s)).

(** The common body of [ZkUVerify] and [ZkXiVerify]. *)
Definition schnorrVerify (uG : list bigint) (proof : option SchnorrProof) : res bool :=
  match proof with
  | Some (mkSchnorr (Some pE) (Some pS)) =>
      if Nat.eqb (length uG) 0 then Ok false
      else if negb (checkPointOnCurve uG) then Ok false else
      sG ← ScalarBaseMult (Bytes pS);
      let minusE := -1 * pE in
      minusE ← Mod minusE (cN S256);
      ux ← index uG 0; uy ← index uG 1;
      eU ← ScalarMult (ux, uy) (Bytes minusE);
      rG ← Add S256 sG eU;
      e ← Sha512_256 [rG.1; rG.2; ux; uy];
      CmpEq e (Some pE)
  | _ => Ok false
  end.

Definition ZkUProof : Type := SchnorrProof.
Definition ZkUProve (u : bigint) : rnd ZkUProof := schnorrProve u.
Definition ZkUVerify (uG : list bigint) (zkUProof : option ZkUProof) : res bool :=
  schnorrVerify uG zkUProof.

Definition ZkXiProof : Type := SchnorrProof.
Definition ZkXiProve (sku1 : bigint) : rnd ZkXiProof := schnorrProve sku1.
Definition ZkXiVerify (xiG : list bigint) (zkXiProof : option ZkXiProof) : res bool :=
  schnorrVerify xiG zkXiProof.
End schnorr.

Section json.
Context `{J : JsonLib}.

Definition Schnorr_MarshalJSON (zk : SchnorrProof) : string :=
  json_Marshal [("E", Sprintf_v (zkE zk)); ("S", Sprintf_v (zkS zk))].

Definition Schnorr_UnmarshalJSON (raw : string) : res SchnorrProof :=
  match json_Unmarshal raw with
  | None => Err "json"
  | Some zk =>
      match fieldInt "E" zk, fieldInt "S" zk with
      | Some e, Some s => Ok (mkSchnorr (Some e) (Some s))
      | _, _ => Err "unmarshal json error"
      end
  end.
End json.

(** * The verification equation *)

Section proofs.
Context `{L : CurveLaws} `{G : GoLib}.
Abbreviation q := (cN S256).

(** The challenge of the commitment [R] and the statement [U]. *)
Definition challenge (R U : Z * Z) : Z :=
  SetBytes (sha512_256 (Sha512_256_data [R.1; R.2; U.1; U.2])).

Lemma Sha512_256_challenge R U :
  Sha512_256 [Some R.1; Some R.2; Some U.1; Some U.2] = Ok (Some (challenge R U)).
Proof. done. Qed.

(** [Verify] recomputes [R = s*G - e*U] and compares the challenge, when the
    two summands are neither nil nor equal nor opposite. *)
Lemma schnorrVerify_spec u pE pS : u mod q <> 0 -> 0 < pS < q -> pE mod q <> 0 ->
  (pS - pE * u) mod q <> 0 -> (pS + pE * u) mod q <> 0 ->
  schnorrVerify [Some (pt u).1; Some (pt u).2] (Some (mkSchnorr (Some pE) (Some pS))) =
  Ok (challenge (pt (pS - pE * u)) (pt u) =? pE).
Proof.
  intros Hu HS HE Hsum Hdiff. pose proof N_ge2. unfold schnorrVerify.
  assert (Hc : checkPointOnCurve [Some (pt u).1; Some (pt u).2] = true).
  { unfold checkPointOnCurve. cbn -[IsOnCurve]. now rewrite IsOnCurve_pt. }
  rewrite Hc. cbn [length Nat.eqb negb].
  rewrite ScalarBaseMult_pt by lia. cbn [mbind res_bind]. rewrite Mod_pos by lia.
  cbn [mbind res_bind index deref lookup list_lookup].
  change (Some (pt u).1, Some (pt u).2) with (mkpt (pt u)).
  set (me := (-1 * pE) mod q).
  assert (Hme : 0 <= me < q) by (apply Z.mod_pos_bound; lia).
  assert (Emu : [mod q] u * me == - (pE * u)).
  { unfold me. unmod. now replace (u * (-1 * pE)) with (- (pE * u)) by ring. }
  rewrite ScalarMult_pt by assumption. cbn [mbind res_bind].
  assert (Hb : (u * me) mod q <> 0).
  { apply (eqm_ne0 q (- (pE * u))); [now symmetry|]. intros H0. apply eqm_0_mod in H0.
    assert (H1 : (pE * u) mod q <> 0) by (apply prime_mul_ne0; [apply N_prime|assumption..]).
    apply H1, eqm_0_mod. rewrite <- (Z.opp_involutive (pE * u)), H0. done. }
  assert (Ha : pS mod q <> 0) by (rewrite Z.mod_small; lia).
  rewrite !gp_ne0 by assumption. rewrite Add_pt by assumption.
  destruct (Z.eqb_spec ((pS - u * me) mod q) 0) as [H0|H0].
  { exfalso. apply Hdiff, eqm_0_mod. apply eqm_0_mod in H0. rewrite <- H0, Emu.
    now replace (pS - - (pE * u)) with (pS + pE * u) by ring. }
  assert (Hs : [mod q] pS + u * me == pS - pE * u).
  { rewrite Emu. now replace (pS + - (pE * u)) with (pS - pE * u) by ring. }
  cbn [mbind res_bind]. rewrite Hs, gp_ne0 by assumption. cbn [mkpt fst snd].
  rewrite Sha512_256_challenge. done.
Qed.

(** What the prover returns for a draw [r]. *)
Lemma schnorrProve_run u r t : 0 < u < q -> 0 < r < q -> drawable r ->
  schnorrProve (Some u) (Some r :: t) =
  Ok (mkSchnorr (Some (challenge (pt r) (pt u)))
        (Some ((r + challenge (pt r) (pt u) * u) mod q)), t).
Proof.
  intros Hu Hr [_ Hd]. pose proof N_ge2. unfold schnorrProve.
  erewrite rnd_bind_run by (apply GetRandomIntFromZn_hit; [lia|assumption]).
  erewrite rnd_bind_run by (apply lift_run, ScalarBaseMult_pt; lia).
  erewrite rnd_bind_run by now apply lift_run.
  erewrite rnd_bind_run by (apply lift_run, ScalarBaseMult_pt; lia).
  rewrite !gp_ne0 by (rewrite Z.mod_small; lia). cbn [mkpt fst snd].
  erewrite rnd_bind_run by (apply lift_run, Sha512_256_challenge).
  erewrite rnd_bind_run by now apply lift_run. cbv zeta.
  erewrite rnd_bind_run by (apply lift_run, Mod_pos; lia). done.
Qed.
End proofs.

(** * Claims *)

(** An honest Schnorr proof verifies, for every secret and every draw that
    does not hit the exceptional cases of the point addition (challenge or
    response zero, or both summands equal). *)
Theorem ZkU_complete `{L : CurveLaws} `{G : GoLib} u r t :
  let e := challenge (pt r) (pt u) in
  0 < u < cN S256 -> 0 < r < cN S256 -> drawable r ->
  e mod cN S256 <> 0 -> (r + e * u) mod cN S256 <> 0 -> (r + 2 * e * u) mod cN S256 <> 0 ->
  exists proof, ZkUProve (Some u) (Some r :: t) = Ok (proof, t) /\
    ZkUVerify [Some (pt u).1; Some (pt u).2] (Some proof) = Ok true /\
    ZkXiVerify [Some (pt u).1; Some (pt u).2] (Some proof) = Ok true.
Proof.
  intros e Hu Hr Hd He Hs Hdd. pose proof N_ge2. set (s := (r + e * u) mod cN S256) in *.
  assert (Hsr : 0 < s < cN S256) by (pose proof (Z.mod_pos_bound (r + e * u) (cN S256)); lia).
  assert (Hu0 : u mod cN S256 <> 0) by (rewrite Z.mod_small; lia).
  assert (Er : [mod cN S256] s - e * u == r).
  { unfold s. unmod. now replace (r + e * u - e * u) with r by ring. }
  assert (Hv : schnorrVerify [Some (pt u).1; Some (pt u).2] (Some (mkSchnorr (Some e) (Some s)))
               = Ok true).
  { rewrite schnorrVerify_spec; auto.
    - rewrite (pt_eqm _ _ Er). fold e. now rewrite Z.eqb_refl.
    - apply (eqm_ne0 _ r); [now symmetry|]. rewrite Z.mod_small; lia.
    - revert Hdd. apply eqm_ne0. unfold s. unmod.
      now replace (r + e * u + e * u) with (r + 2 * e * u) by ring. }
  eexists. split; [now apply schnorrProve_run|]. split; exact Hv.
Qed.

Lemma ZkU_complete_witness :
  exists proof, ZkUProve (Some 7) [Some 20] = Ok (proof, []) /\
    ZkUVerify [Some (toy_pt 7).1; Some (toy_pt 7).2] (Some proof) = Ok true.
Proof.
  destruct (ZkU_complete (L := toy_laws) 7 20 []) as (proof & Ep & Ev & _).
  - split; reflexivity.
  - split; reflexivity.
  - split; [split; [discriminate|reflexivity]|reflexivity].
  - vm_compute. discriminate.
  - vm_compute. discriminate.
  - vm_compute. discriminate.
  - exists proof. split; [exact Ep|exact Ev].
Defined.

(** [ZkUVerify] (and [ZkXiVerify]) accepts exactly the proofs whose challenge
    is the hash of [R = s*G - e*U] and [U]; a response that is zero or not reduced
    modulo the group order is not rejected but panics the verifier. *)
Theorem ZkUVerify_decides `{L : CurveLaws} `{G : GoLib} u pE pS :
  let q := cN S256 in
  let U := [Some (pt u).1; Some (pt u).2] in
  u mod q <> 0 ->
  (0 < pS < q -> pE mod q <> 0 -> (pS - pE * u) mod q <> 0 -> (pS + pE * u) mod q <> 0 ->
   ZkUVerify U (Some (mkSchnorr (Some pE) (Some pS))) =
   Ok (challenge (pt (pS - pE * u)) (pt u) =? pE)) /\
  (pS = 0 \/ q <= pS < 2 ^ 256 ->
   ZkUVerify U (Some (mkSchnorr (Some pE) (Some pS))) = Panic).
Proof.
  intros q U Hu. split; [now apply schnorrVerify_spec|]. intros HS. pose proof N_ge2.
  unfold ZkUVerify, schnorrVerify, U.
  assert (Hc : checkPointOnCurve [Some (pt u).1; Some (pt u).2] = true).
  { unfold checkPointOnCurve. cbn -[IsOnCurve]. now rewrite IsOnCurve_pt. }
  rewrite Hc. cbn [length Nat.eqb negb].
  replace (ScalarBaseMult (Bytes pS)) with (@Ok gpoint nilpt).
  - cbn [mbind res_bind]. rewrite Mod_pos by lia.
    cbn [mbind res_bind index deref lookup list_lookup].
    change (Some (pt u).1, Some (pt u).2) with (mkpt (pt u)).
    rewrite ScalarMult_pt by (assumption || (apply Z.mod_pos_bound; lia)). done.
  - destruct HS as [->|HS].
    + rewrite ScalarBaseMult_pt by lia. now rewrite gp_0 by apply Zmod_0_l.
    + unfold ScalarBaseMult. now rewrite ScalarMult_unreduced.
Qed.

Lemma ZkUVerify_decides_witness :
  ZkUVerify [Some (toy_pt 7).1; Some (toy_pt 7).2] (Some (mkSchnorr (Some 3) (Some 20))) = Ok false /\
  ZkUVerify [Some (toy_pt 7).1; Some (toy_pt 7).2] (Some (mkSchnorr (Some 3) (Some 0))) = Panic.
Proof.
  split.
  - refine (eq_trans (proj1 (ZkUVerify_decides (L := toy_laws) 7 3 20 _) _ _ _ _) _);
      vm_compute; done.
  - refine (proj2 (ZkUVerify_decides (L := toy_laws) 7 3 0 _) _); [vm_compute; done|now left].
Defined.
