(* ===== verification/Ntilde.v ===== *)
(** The auxiliary RSA modulus and its proof,
    [smpc-lib/crypto/ec2/ntilde.go] and [ntildeZK.go]: generation of
    [Ntilde, h1, h2], the proof that [h2] is a power of [h1], its verification and
    the JSON codecs. *)

From Stdlib Require Import ZArith Lia Zcong Zdivisibility.
From stdpp Require Import relations.
From S2P Require Import Prelude NumTheory Primality GoBig Random Text IntGo Json Paillier.

#[local] Open Scope Z_scope.

(** * Generation *)

Record NtildeH1H2 := mkNtilde { ntNtilde : bigint; ntH1 : bigint; ntH2 : bigint }.
Record NtildePrivData := mkNtildePriv {
  npAlpha : bigint; npBeta : bigint; npQ1 : bigint; npQ2 : bigint }.

(** The parameters of two safe primes [P = 2p+1], [Q = 2q+1]; nil when [alpha]
    has no inverse. *)
Definition ntildeOf (p q P Q : Z) : rnd (option (NtildeH1H2 * Z * Z)) :=
  let NTildei := P * Q in
  let modPQ := p * q in
  f1 ← GetRandomPositiveRelativelyPrimeInt (Some NTildei);
  alpha ← GetRandomPositiveRelativelyPrimeInt (Some NTildei);
  alpha' ← lift (deref alpha);
  match modInt_Inverse modPQ alpha' with
  | None => mret None
  | Some beta =>
      f1 ← lift (deref f1);
      h1i ← lift (modInt_Mul NTildei f1 f1);
      let h2i := modInt_Exp NTildei h1i alpha' in
      mret (Some (mkNtilde (Some NTildei) (Some h1i) h2i, alpha', beta))
  end.

(** Returns the parameters, [alpha], [beta], the small and the large primes. *)
Definition GenerateNtildeH1H2 (length : Z) (ch : primeQueue)
  : rnd (option (NtildeH1H2 * Z * Z * (Z * Z) * (Z * Z)) * primeQueue) :=
  if length <=? 0 then mret (None, ch) else
  match ch with
  | sp1 :: sp2 :: ch' =>
      match spp sp1, spp sp2 with
      | Some P, Some Q =>
          let ch := ch' ++ [sp1; sp2] in
          p ← lift (deref (spq sp1));
          q ← lift (deref (spq sp2));
          o ← ntildeOf p q P Q;
          mret (match o with
                | None => (None, ch)
                | Some (nt, alpha, beta) => (Some (nt, alpha, beta, (p, q), (P, Q)), ch)
                end)
      | _, _ => mret (None, ch')
      end
  | _ => lift Starve
  end.

Definition CreateNt `{GoLib} (length : Z) : rnd (option (NtildeH1H2 * Z * Z * Z * Z)) :=
  if length <=? 0 then mret None else
  r1 ← GetRandomPrime;
  r2 ← GetRandomPrime;
  match r1, r2 with
  | Some (p, P), Some (q, Q) =>
      o ← ntildeOf p q P Q;
      mret (match o with
            | None => None
            | Some (nt, alpha, beta) => Some (nt, alpha, beta, p, q)
            end)
  | _, _ => mret None
  end.

Section json.
Context `{J : JsonLib}.

Definition NtildeH1H2_MarshalJSON (nt : NtildeH1H2) : string :=
  json_Marshal [("Ntilde", Sprintf_v (ntNtilde nt)); ("H1", Sprintf_v (ntH1 nt));
                ("H2", Sprintf_v (ntH2 nt))].

Definition NtildeH1H2_UnmarshalJSON (raw : string) : res NtildeH1H2 :=
  match json_Unmarshal raw with
  | None => Err "json"
  | Some nti =>
      match fieldInt "Ntilde" nti, fieldInt "H1" nti, fieldInt "H2" nti with
      | Some n, Some h1, Some h2 => Ok (mkNtilde (Some n) (Some h1) (Some h2))
      | _, _, _ => Err "unmarshal json error"
      end
  end.

Definition NtildePrivData_MarshalJSON (priv : NtildePrivData) : string :=
  json_Marshal [("Alpha", Sprintf_v (npAlpha priv)); ("Beta", Sprintf_v (npBeta priv));
                ("Q1", Sprintf_v (npQ1 priv)); ("Q2", Sprintf_v (npQ2 priv))].

Definition NtildePrivData_UnmarshalJSON (raw : string) : res NtildePrivData :=
  match json_Unmarshal raw with
  | None => Err "json"
  | Some pri =>
      match fieldInt "Alpha" pri, fieldInt "Beta" pri, fieldInt "Q1" pri, fieldInt "Q2" pri with
      | Some a, Some b, Some q1, Some q2 => Ok (mkNtildePriv (Some a) (Some b) (Some q1) (Some q2))
      | _, _, _, _ => Err "unmarshal json error"
      end
  end.
End json.

(** * The proof *)

Definition Iterations : nat := 128.

Record NtildeProof := mkNtildeProof { pfAlpha : list bigint; pfT : list bigint }.

Section proof.
Context `{G : GoLib}.

(** One round of the first loop: [a[i]] and [alpha[i]]. *)
Definition ntildeCommit (h1 pMulQ N : Z) : rnd (Z * bigint) :=
  a ← GetRandomPositiveInt (Some pMulQ);
  a ← lift (deref a);
  mret (a, modInt_Exp N h1 a).

(** One round of the second loop: [t[i]]. *)
Definition ntildeRespond (c x pMulQ : Z) (i : nat) (a : Z) : res Z :=
  let cI := Bit c i in
  let cIBI := cI in
  m ← modInt_Mul pMulQ cIBI x;
  modInt_Add pMulQ a m.

Definition NewNtildeProof (h1 h2 x p q N : Z) : rnd NtildeProof :=
  let pMulQ := p * q in
  l ← rndRepeat Iterations (ntildeCommit h1 pMulQ N);
  let alpha := snd <$> l in
  let msg := [Some h1; Some h2; Some N] ++ alpha in
  c ← lift (Sha512_256 msg);
  c ← lift (deref c);
  t ← lift (foldRange (fst <$> l) (fun i a acc =>
              ti ← ntildeRespond c x pMulQ i a; Ok (acc ++ [Some ti])) 0 []);
  mret (mkNtildeProof alpha t).

(** One round of the verification loop. *)
Definition ntildeCheck (h1 h2 N c : Z) (i : nat) (at_ : bigint * bigint) : res bool :=
  match at_ with
  | (Some alpha, Some t) =>
      let cI := Bit c i in
      let cIBI := cI in
      h1ExpTi ← deref (modInt_Exp N h1 t);
      h2ExpCi ← deref (modInt_Exp N h2 cIBI);
      alphaIMulH2ExpCi ← modInt_Mul N alpha h2ExpCi;
      Ok (h1ExpTi =? alphaIMulH2ExpCi)
  | _ => Ok false
  end.

(** The arrays have [Iterations] entries. *)
Definition NtildeProof_Verify (pf : option NtildeProof) (h1 h2 N : bigint) : res bool :=
  match pf, h1, h2, N with
  | Some pf, Some h1, Some h2, Some N =>
      h1modn ← Mod h1 N;
      h2modn ← Mod h2 N;
      if (h1modn =? 0) || (h2modn =? 0) then Ok false
      else if (h1modn =? 1) || (h2modn =? 1) then Ok false
      else if h1modn =? h2modn then Ok false else
      let msg := [Some h1; Some h2; Some N] ++ pfAlpha pf in
      c ← Sha512_256 msg;
      c ← deref c;
      checkAll (zip (pfAlpha pf) (pfT pf)) (ntildeCheck h1 h2 N c)
  | _, _, _, _ => Ok false
  end.
End proof.

(** * Powers and orders *)

Lemma pow_mod_order N h n k : 0 < n -> 0 <= k -> [mod N] h ^ n == 1 -> [mod N] h ^ (k mod n) == h ^ k.
Proof.
  intros Hn Hk Ho. rewrite (Z.div_mod k n) at 2 by lia.
  assert (0 <= k / n) by (apply Z.div_pos; lia). pose proof (Z.mod_pos_bound k n Hn).
  rewrite Z.pow_add_r, Z.pow_mul_r by nia. rewrite Ho, eqm_1_pow by assumption.
  now rewrite Z.mul_1_l.
Qed.

(** Squares have order dividing [p*q] modulo [(2p+1)(2q+1)]. *)
Lemma square_order p q f : 0 < p -> 0 < q ->
  Z.prime (2 * p + 1) -> Z.prime (2 * q + 1) -> 2 * p + 1 <> 2 * q + 1 ->
  Z.coprime f ((2 * p + 1) * (2 * q + 1)) ->
  [mod (2 * p + 1) * (2 * q + 1)] (f * f) ^ (p * q) == 1.
Proof.
  intros Hp Hq HP HQ Hne Hf. set (P := 2 * p + 1) in *. set (Q := 2 * q + 1) in *.
  pose proof (prime_pos P HP). pose proof (prime_pos Q HQ).
  assert (E : (f * f) ^ (p * q) = (f ^ (P - 1)) ^ q).
  { replace (f * f) with (f ^ 2) by ring. rewrite <- !Z.pow_mul_r by (unfold P; lia). f_equal. unfold P. ring. }
  assert (E' : (f * f) ^ (p * q) = (f ^ (Q - 1)) ^ p).
  { replace (f * f) with (f ^ 2) by ring. rewrite <- !Z.pow_mul_r by (unfold Q; lia). f_equal. unfold Q. ring. }
  apply crt; [now apply prime_ne_coprime|rewrite E|rewrite E']; (apply eqm_pow_1; [lia|]);
    apply fermat; try assumption; (apply coprime_mod_ne0; [lia|]);
    (eapply coprime_divide_r; [|exact Hf]); [exists Q|exists P]; ring.
Qed.

Section complete.
Context `{G : GoLib} (h1 h2 x p q N : Z).
Hypotheses (HN : 2 <= N) (Hpq : 0 < p * q) (Hx : 0 <= x).
Hypotheses (Ho : [mod N] h1 ^ (p * q) == 1) (Hh : [mod N] h2 == h1 ^ x).

Lemma ntildeCheck_pass c i a : 0 <= a ->
  exists t, ntildeRespond c x (p * q) i a = Ok t /\
    ntildeCheck h1 h2 N c i (modInt_Exp N h1 a, Some t) = Ok true.
Proof.
  intros Ha. unfold ntildeRespond, modInt_Mul, modInt_Add. rewrite Mod_pos by assumption.
  cbn [mbind res_bind]. rewrite Mod_pos by assumption. eexists. split; [reflexivity|].
  set (b := Bit c i). assert (Hb : b = 0 \/ b = 1) by (unfold b, Bit; destruct (Z.testbit _ _); auto).
  set (t := (a + (b * x) mod (p * q)) mod (p * q)).
  assert (Ht : 0 <= t) by (apply Z.mod_pos_bound; assumption).
  unfold modInt_Exp. rewrite Exp_pos by lia. cbn [ntildeCheck]. unfold modInt_Exp.
  rewrite !Exp_pos by (assumption || lia). cbn [deref mbind res_bind]. fold b.
  unfold modInt_Mul. rewrite Mod_pos by lia.
  cbn [mbind res_bind]. f_equal. apply Z.eqb_eq, eqm_mod_eq.
  assert (Hbx : 0 <= b * x) by nia.
  unfold t. rewrite Zplus_mod_idemp_r, pow_mod_order by (assumption || lia).
  rewrite !eqm_mod, Hh, <- Z.pow_mul_r by lia.
  rewrite Z.pow_add_r by lia. now rewrite (Z.mul_comm b x).
Qed.

Lemma responses c l : forall k acc, Forall (fun a => 0 <= a) l ->
  exists ts, foldRange l (fun i a acc => ti ← ntildeRespond c x (p * q) i a; Ok (acc ++ [Some ti])) k acc
             = Ok (acc ++ ts) /\ length ts = length l /\
    forall i a t, l !! i = Some a -> ts !! i = Some t ->
      ntildeCheck h1 h2 N c (k + i) (modInt_Exp N h1 a, t) = Ok true.
Proof.
  induction l as [|a l IH]; intros k acc HF.
  - exists []. rewrite app_nil_r. done.
  - apply Forall_cons in HF as [Ha HF]. cbn [foldRange].
    destruct (ntildeCheck_pass c k a Ha) as (t & -> & Hc). cbn [mbind res_bind].
    destruct (IH (S k) (acc ++ [Some t]) HF) as (ts & -> & Hlen & Hts).
    exists (Some t :: ts). rewrite <- app_assoc. split; [done|]. split; [cbn; lia|].
    intros [|i] a' t' Hi Ht; cbn in Hi, Ht; simplify_eq.
    + now rewrite Nat.add_0_r.
    + rewrite <- Nat.add_succ_comm. now apply (Hts i).
Qed.

(** A proof that was made is accepted. *)
Lemma NtildeProof_accepts t pf t' :
  h1 mod N <> 0 -> h2 mod N <> 0 -> h1 mod N <> 1 -> h2 mod N <> 1 -> h1 mod N <> h2 mod N ->
  NewNtildeProof h1 h2 x p q N t = Ok (pf, t') ->
  NtildeProof_Verify (Some pf) (Some h1) (Some h2) (Some N) = Ok true.
Proof.
  intros Hd1 Hd2 Hd3 Hd4 Hd5 H. unfold NewNtildeProof in H.
  apply rnd_bind_Ok in H as (l & t1 & Hl & H).
  apply (rndRepeat_post (fun aa => 0 <= aa.1 /\ aa.2 = modInt_Exp N h1 aa.1)) in Hl as [Hlen HF].
  2: { intros s aa s' Hs. unfold ntildeCommit in Hs. inv_ok. simplify_eq. cbn.
       split; [|done]. eapply GetRandomPositiveInt_range; eauto. }
  apply rnd_bind_Ok in H as (c & t2 & [Hc ->]%lift_Ok & H).
  apply rnd_bind_Ok in H as (c' & t3 & [Hc' ->]%lift_Ok & H).
  apply rnd_bind_Ok in H as (ts & t4 & [Hts ->]%lift_Ok & H). apply rnd_ret_Ok in H as [-> ->].
  destruct c as [c|]; [|discriminate]. injection Hc' as <-.
  destruct (responses c (fst <$> l) 0 []) as (ts' & E & Hlt & Hck).
  { apply Forall_fmap. eapply Forall_impl; [exact HF|]. now intros aa [? _]. }
  rewrite E in Hts. injection Hts as <-. unfold NtildeProof_Verify.
  rewrite !Mod_pos by lia. cbn [mbind res_bind].
  repeat match goal with |- context [?a =? ?b] => destruct (Z.eqb_spec a b); [contradiction|] end.
  cbn [orb pfAlpha pfT]. rewrite Hc. cbn [mbind res_bind deref].
  apply checkAll_pass. intros i [al ti] Hi. cbn [app] in *.
  apply lookup_zip_with_Some in Hi as (al' & ti' & [= -> ->] & Hal & Hti).
  rewrite list_lookup_fmap in Hal. apply fmap_Some in Hal as ([a al''] & Hl' & ->).
  pose proof (Forall_lookup_1 _ _ _ _ HF Hl') as [Ha Eal]. cbn [fst snd] in *. subst al''.
  apply (Hck i a ti'); [|assumption]. now rewrite list_lookup_fmap, Hl'.
Qed.
End complete.

(** * JSON of the proof *)

Section proofJson.
Context `{J : JsonLib}.

Definition NtildeProof_MarshalJSON (pf : NtildeProof) : string :=
  let alpha := Join bar (Sprintf_v <$> pfAlpha pf) in
  let t := Join bar (Sprintf_v <$> pfT pf) in
  json_Marshal [("Alpha", alpha); ("T", t)].

(** [alpha[k], _ = SetString(v, 10)] with the check for nil. *)
Definition parseInts (err : string) (l : list string) : res (list bigint) :=
  foldRange l (fun _ v acc =>
    match SetString 10 v with None => Err err | Some z => Ok (acc ++ [Some z]) end) 0 [].

Definition NtildeProof_UnmarshalJSON (raw : string) : res NtildeProof :=
  match json_Unmarshal raw with
  | None => Err "json"
  | Some pf =>
      let al := Split bar (field "Alpha" pf) in
      if negb (Nat.eqb (length al) Iterations)
      then Err "unmarshal ntilde zk proof alpha json data fail" else
      alpha ← parseInts "unmarshal alpha error" al;
      let tt := Split bar (field "T" pf) in
      if negb (Nat.eqb (length tt) Iterations)
      then Err "unmarshal ntilde zk proof t json data fail" else
      t ← parseInts "unmarshal t error" tt;
      Ok (mkNtildeProof alpha t)
  end.
End proofJson.

Lemma parseInts_ok err l : parseInts err ((fun z => Sprintf_v (Some z)) <$> l) = Ok (Some <$> l).
Proof.
  unfold parseInts. rewrite <- (app_nil_l (Some <$> l)). generalize (@nil bigint) at 2 3.
  generalize 0%nat. induction l as [|z l IH]; intros k acc; [now rewrite app_nil_r|].
  rewrite fmap_cons. cbn [foldRange]. rewrite SetString_Sprintf. cbn [mbind res_bind].
  rewrite IH, <- app_assoc. done.
Qed.

(** * The generated parameters *)

Lemma ntildeOf_spec p q t nt alpha beta t' : 0 < p -> 0 < q ->
  Z.prime (2 * p + 1) -> Z.prime (2 * q + 1) -> 2 * p + 1 <> 2 * q + 1 ->
  let N := (2 * p + 1) * (2 * q + 1) in
  ntildeOf p q (2 * p + 1) (2 * q + 1) t = Ok (Some (nt, alpha, beta), t') ->
  exists h1 h2, nt = mkNtilde (Some N) (Some h1) (Some h2) /\ 0 < alpha /\ 0 <= beta /\
    0 <= h1 < N /\ 0 <= h2 < N /\
    [mod N] h1 ^ (p * q) == 1 /\ [mod N] h2 ^ (p * q) == 1 /\
    [mod N] h2 == h1 ^ alpha /\ [mod N] h1 == h2 ^ beta.
Proof.
  intros Hp Hq HP HQ Hne N H. unfold ntildeOf in H. fold N in H.
  assert (HN : 9 <= N) by (unfold N; nia). assert (Hpq : 0 < p * q) by nia.
  apply rnd_bind_Ok in H as (f1 & t1 & Hf & H). apply rnd_bind_Ok in H as (al & t2 & Ha & H).
  apply rnd_bind_Ok in H as (a & t3 & [Hd ->]%lift_Ok & H). destruct al as [al|]; [|discriminate].
  injection Hd as ->. apply GetRandomPositiveRelativelyPrimeInt_range in Ha as [Ha _].
  destruct (modInt_Inverse (p * q) a) as [b|] eqn:Eb; [|discriminate].
  apply rnd_bind_Ok in H as (f & t4 & [Hd ->]%lift_Ok & H). destruct f1 as [f1|]; [|discriminate].
  injection Hd as ->. apply GetRandomPositiveRelativelyPrimeInt_range in Hf as [_ Hf].
  unfold modInt_Mul in H. rewrite Mod_pos in H by lia.
  apply rnd_bind_Ok in H as (h1 & t5 & [[= <-] ->]%lift_Ok & H). unfold modInt_Exp in H.
  rewrite Exp_pos in H by lia. apply rnd_ret_Ok in H as [[= -> -> ->] ->].
  apply ModInverse_Some in Eb as (_ & Hb & Hab); [|assumption].
  set (h1 := (f * f) mod N) in *. set (h2 := (h1 ^ a) mod N).
  assert (Ho1 : [mod N] h1 ^ (p * q) == 1).
  { unfold h1. rewrite eqm_mod. now apply square_order. }
  assert (Eh2 : [mod N] h2 == h1 ^ a) by apply eqm_mod.
  exists h1, h2. do 3 (split; [done || lia|]).
  split; [apply Z.mod_pos_bound; lia|]. split; [apply Z.mod_pos_bound; lia|].
  split; [assumption|]. split; [|split; [assumption|]].
  - rewrite Eh2, <- Z.pow_mul_r, (Z.mul_comm a), Z.pow_mul_r, Ho1 by lia. apply eqm_1_pow. lia.
  - rewrite Eh2, <- Z.pow_mul_r by lia.
    rewrite <- (pow_mod_order N h1 (p * q) (a * b)) by (assumption || nia).
    apply eqm_iff in Hab. rewrite Hab, pow_mod_order by (assumption || lia). now rewrite Z.pow_1_r.
Qed.

(** * Claims *)

(** For two distinct safe primes, whatever the entropy: the generated
    [h1, h2] generate the same group, and the two proofs a node sends (that [h2]
    is a power of [h1] and that [h1] is a power of [h2]) are accepted, unless a
    base degenerates to 0 or 1 or the two coincide. *)
Theorem ntilde_proofs_accepted `{G : GoLib} p q t nt alpha beta t1 :
  0 < p -> 0 < q -> Z.prime (2 * p + 1) -> Z.prime (2 * q + 1) -> 2 * p + 1 <> 2 * q + 1 ->
  let N := (2 * p + 1) * (2 * q + 1) in
  ntildeOf p q (2 * p + 1) (2 * q + 1) t = Ok (Some (nt, alpha, beta), t1) ->
  exists h1 h2, nt = mkNtilde (Some N) (Some h1) (Some h2) /\
    (h1 <> 0 -> h2 <> 0 -> h1 <> 1 -> h2 <> 1 -> h1 <> h2 ->
     (forall t pf t', NewNtildeProof h1 h2 alpha p q N t = Ok (pf, t') ->
        NtildeProof_Verify (Some pf) (Some h1) (Some h2) (Some N) = Ok true) /\
     (forall t pf t', NewNtildeProof h2 h1 beta p q N t = Ok (pf, t') ->
        NtildeProof_Verify (Some pf) (Some h2) (Some h1) (Some N) = Ok true)).
Proof.
  intros Hp Hq HP HQ Hne N H.
  apply ntildeOf_spec in H as (h1 & h2 & -> & Ha & Hb & R1 & R2 & Ho1 & Ho2 & E2 & E1); auto.
  fold N in R1, R2, Ho1, Ho2, E1, E2.
  assert (HN : 2 <= N) by (unfold N; nia). assert (Hpq : 0 < p * q) by nia.
  exists h1, h2. split; [done|]. intros D1 D2 D3 D4 D5.
  assert (M1 : h1 mod N = h1) by (apply Z.mod_small; lia).
  assert (M2 : h2 mod N = h2) by (apply Z.mod_small; lia).
  split; intros s pf s'; [apply (NtildeProof_accepts h1 h2 alpha)|apply (NtildeProof_accepts h2 h1 beta)];
    auto; rewrite ?M1, ?M2; auto; lia.
Qed.

Lemma ntilde_proofs_accepted_witness :
  exists pf, NewNtildeProof 4 192 7 5 11 253 (replicate 128 (Some 3)) = Ok (pf, []) /\
    NtildeProof_Verify (Some pf) (Some 4) (Some 192) (Some 253) = Ok true.
Proof.
  destruct (ntilde_proofs_accepted 5 11 [Some 2; Some 7] (mkNtilde (Some 253) (Some 4) (Some 192)) 7 8 [])
    as (h1 & h2 & E & H); try lia; try small_prime; [vm_compute; reflexivity|].
  injection E as <- <-.
  destruct H as [H _]; try lia.
  destruct (NewNtildeProof 4 192 7 5 11 253 (replicate 128 (Some 3))) as [[pf t']|e| |] eqn:Ep;
    [|vm_compute in Ep; discriminate..].
  pose proof (f_equal (fun r => match r with Ok (_, t) => t | _ => [] end) Ep) as Et.
  vm_compute in Et. subst t'. exists pf. split; [done|exact (H _ _ _ Ep)].
Defined.

(** * The channel of safe primes *)

(** What the program does with the channel: one round of the goroutine that fills
    it, a Paillier key generation, or a generation of the auxiliary parameters; the
    calls run one after the other. *)
Inductive channelStep `{GoLib} : primeQueue -> primeQueue -> Prop :=
  | stepFill ch t ch' t' : genPrimeStep ch t = Ok (ch', t') -> channelStep ch ch'
  | stepKeyPair length ch r ch' : GenerateKeyPair length ch = Ok (r, ch') -> channelStep ch ch'
  | stepNtilde length ch t r ch' t' : GenerateNtildeH1H2 length ch t = Ok ((r, ch'), t') -> channelStep ch ch'.

Lemma GenerateNtildeH1H2_valid `{GoLib} length ch t r ch' t' :
  validQueue ch -> GenerateNtildeH1H2 length ch t = Ok ((r, ch'), t') -> ch' ≡ₚ ch.
Proof.
  intros Hv. unfold GenerateNtildeH1H2. destruct (length <=? 0); [intros [HR _]%rnd_ret_Ok; now simplify_eq|].
  destruct ch as [|sp1 [|sp2 ch]]; try discriminate.
  apply Forall_cons in Hv as [H1 Hv]. apply Forall_cons in Hv as [H2 Hv].
  destruct (CheckValidate_spec sp1 H1) as (q1 & p1 & _ & -> & _).
  destruct (CheckValidate_spec sp2 H2) as (q2 & p2 & _ & -> & _).
  intros (p & t3 & _ & HR)%rnd_bind_Ok. apply rnd_bind_Ok in HR as (q & t4 & _ & HR).
  apply rnd_bind_Ok in HR as (o & t5 & _ & HR). apply rnd_ret_Ok in HR as [HR _].
  assert (ch' = ch ++ [sp1; sp2]) as -> by (destruct o as [[[nt a] b]|]; congruence).
  now rewrite Permutation_app_comm.
Qed.

(** A step keeps the primes of the channel and adds checked ones. *)
Lemma channelStep_valid `{GoLib} ch ch' : channelStep ch ch' -> validQueue ch -> (length ch <= 4)%nat ->
  validQueue ch' /\ (length ch' <= 4)%nat /\ exists new, ch' ≡ₚ ch ++ new.
Proof.
  intros Hs Hv Hl.
  assert (Hperm : ch' ≡ₚ ch -> validQueue ch' /\ (length ch' <= 4)%nat /\ exists new, ch' ≡ₚ ch ++ new).
  { intros E. unfold validQueue. rewrite E. split; [exact Hv|]. split; [exact Hl|]. exists []. now rewrite app_nil_r. }
  destruct Hs as [ch t ch' t' Hs|len ch r ch' Hs|len ch t r ch' t' Hs].
  - apply genPrimeStep_valid in Hs as (new & -> & Hv' & Hl'); [|assumption..]. eauto.
  - apply Hperm. eapply GenerateKeyPair_valid; eauto.
  - apply Hperm. eapply GenerateNtildeH1H2_valid; eauto.
Qed.

Lemma channel_valid `{GoLib} ch : rtc channelStep [] ch -> validQueue ch /\ (length ch <= 4)%nat.
Proof.
  assert (H0 : validQueue [] /\ (length ([] : primeQueue) <= 4)%nat) by (split; [constructor|cbn; lia]).
  revert H0. generalize ([] : primeQueue). intros ch0 H0 Hr.
  induction Hr as [|ch1 ch2 ch3 Hs _ IH]; [exact H0|]. apply IH.
  destruct H0 as [Hv Hl]. destruct (channelStep_valid ch1 ch2 Hs Hv Hl) as (? & ? & _). auto.
Qed.

(** The filling loop is a sequence of steps that ends with a full channel. *)
Lemma GenRandomSafePrime_steps `{GoLib} fuel : forall ch t ch' t',
  GenRandomSafePrime fuel ch t = Ok (ch', t') -> rtc channelStep ch ch' /\ length ch' = 4%nat.
Proof.
  induction fuel as [|f IH]; intros ch t ch' t' Hr; [discriminate|].
  cbn [GenRandomSafePrime] in Hr. apply rnd_bind_Ok in Hr as (ch1 & t1 & Hs & Hr).
  destruct (Nat.eqb_spec (length ch1) 4) as [E4|E4].
  - apply rnd_ret_Ok in Hr as [-> ->]. split; [|exact E4]. eapply rtc_once, stepFill, Hs.
  - apply IH in Hr as [Hr E]. split; [|exact E]. eapply rtc_l; [|exact Hr]. eapply stepFill, Hs.
Qed.

(** C38: the channel of safe primes only ever holds checked safe primes.  Whatever
    sequence of filling rounds, key generations and parameter generations led to it, it
    holds at most four numbers, each with [p = 2q + 1 < 2^1024] and [p] and [q] passing
    the primality test; a further step loses none of them, and a filling loop that ends
    leaves four. *)
Theorem safe_primes_invariant `{GoLib} ch : rtc channelStep [] ch ->
  (length ch <= 4)%nat /\
  Forall (fun sp => exists q p, spq sp = Some q /\ spp sp = Some p /\ p = 2 * q + 1 /\
    p < 2 ^ 1024 /\ ProbablyPrime q = true /\ ProbablyPrime p = true) ch /\
  (forall ch', channelStep ch ch' -> exists new, ch' ≡ₚ ch ++ new) /\
  (forall fuel t ch' t', GenRandomSafePrime fuel ch t = Ok (ch', t') ->
     rtc channelStep [] ch' /\ length ch' = 4%nat).
Proof.
  intros Hr. destruct (channel_valid ch Hr) as [Hv Hl]. split; [exact Hl|]. split; [|split].
  - eapply Forall_impl; [exact Hv|]. apply CheckValidate_spec.
  - intros ch' Hs. now apply channelStep_valid.
  - intros fuel t ch' t' [Hs E]%GenRandomSafePrime_steps. split; [now transitivity ch|exact E].
Qed.

Lemma safe_primes_invariant_witness : exists ch r,
  let full := [mkSafePrime (Some 5) (Some 11); mkSafePrime (Some 11) (Some 23);
               mkSafePrime (Some 23) (Some 47); mkSafePrime (Some 29) (Some 59)] in
  GenRandomSafePrime 5 [] [Some 5; Some 4; Some 11; Some 23; Some 29] = Ok (full, []) /\
  GenerateNtildeH1H2 8 full [Some 2; Some 7] = Ok ((r, ch), []) /\
  Forall (fun sp => exists q p, spq sp = Some q /\ spp sp = Some p /\ p = 2 * q + 1 /\
    p < 2 ^ 1024 /\ ProbablyPrime q = true /\ ProbablyPrime p = true) ch.
Proof.
  eexists. eexists. cbv zeta.
  match goal with |- ?A /\ ?B /\ _ => assert (HA : A); [vm_compute; reflexivity|];
    assert (HB : B); [vm_compute; reflexivity|] end.
  split; [exact HA|]. split; [exact HB|]. refine (proj1 (proj2 (safe_primes_invariant _ _))).
  eapply rtc_r; [exact (proj1 (GenRandomSafePrime_steps _ _ _ _ _ HA))|]. exact (stepNtilde _ _ _ _ _ _ HB).
Defined.

(** C37: the prime channel rotates: after one key generation and one modulus
    generation on a full channel, the next key generation returns the same
    Paillier key, although each call is documented to create a key. *)
Theorem GenerateKeyPair_repeats sp1 sp2 sp3 sp4 length t r1 ch1 r2 ch2 t2 r3 ch3 :
  GenerateKeyPair length [sp1; sp2; sp3; sp4] = Ok (Some r1, ch1) ->
  GenerateNtildeH1H2 length ch1 t = Ok ((Some r2, ch2), t2) ->
  GenerateKeyPair length ch2 = Ok (Some r3, ch3) ->
  ch2 = [sp1; sp2; sp3; sp4] /\ r3 = r1.
Proof.
  intros H1 H2 H3.
  assert (E1 : ch1 = [sp3; sp4; sp1; sp2] /\ (length <=? 0) = false).
  { unfold GenerateKeyPair in H1. destruct (length <=? 0); [discriminate|].
    destruct (spp sp1), (spp sp2); try discriminate.
    destruct (pairOfPrimes _ _ _) as [[pk sk]|]; simplify_eq. done. }
  destruct E1 as [-> El].
  assert (E2 : ch2 = [sp1; sp2; sp3; sp4]).
  { unfold GenerateNtildeH1H2 in H2. rewrite El in H2.
    destruct (spp sp3), (spp sp4); [|apply rnd_ret_Ok in H2; destruct H2; simplify_eq..].
    apply rnd_bind_Ok in H2 as (p & t3 & _ & H2). apply rnd_bind_Ok in H2 as (q & t4 & _ & H2).
    apply rnd_bind_Ok in H2 as (o & t5 & _ & H2). apply rnd_ret_Ok in H2 as [H2 _].
    destruct o as [[[nt a] b]|]; simplify_eq. done. }
  subst ch2. rewrite H1 in H3. simplify_eq. done.
Qed.

Lemma GenerateKeyPair_repeats_witness :
  let ch := [mkSafePrime (Some 5) (Some 11); mkSafePrime (Some 23) (Some 47);
             mkSafePrime (Some 11) (Some 23); mkSafePrime (Some 29) (Some 59)] in
  exists r1 ch1 r2, GenerateKeyPair 8 ch = Ok (Some r1, ch1) /\
    GenerateNtildeH1H2 8 ch1 [Some 2; Some 7] = Ok ((Some r2, ch), []) /\
    GenerateKeyPair 8 ch = Ok (Some r1, ch1).
Proof.
  intros ch. do 3 eexists. split; [vm_compute; reflexivity|]. split; [vm_compute; reflexivity|].
  match goal with |- _ = Ok (Some ?r, ?c) =>
    destruct (GenerateKeyPair_repeats (mkSafePrime (Some 5) (Some 11)) (mkSafePrime (Some 23) (Some 47))
      (mkSafePrime (Some 11) (Some 23)) (mkSafePrime (Some 29) (Some 59)) 8 [Some 2; Some 7]
      r c _ ch [] r c eq_refl eq_refl eq_refl) as [E _]
  end. vm_compute. reflexivity.
Defined.

(** The JSON codecs of the modulus parameters, of their private data and of
    the 128-round proof (two bar-separated lists of numbers) restore what was
    encoded. *)
Theorem ntilde_json_roundtrip `{JsonLaws} n h1 h2 al be q1 q2 alpha t :
  length alpha = Iterations -> length t = Iterations ->
  let nt := mkNtilde (Some n) (Some h1) (Some h2) in
  let priv := mkNtildePriv (Some al) (Some be) (Some q1) (Some q2) in
  let pf := mkNtildeProof (Some <$> alpha) (Some <$> t) in
  NtildeH1H2_UnmarshalJSON (NtildeH1H2_MarshalJSON nt) = Ok nt /\
  NtildePrivData_UnmarshalJSON (NtildePrivData_MarshalJSON priv) = Ok priv /\
  NtildeProof_UnmarshalJSON (NtildeProof_MarshalJSON pf) = Ok pf.
Proof.
  intros La Lt nt priv pf. split; [|split].
  - unfold NtildeH1H2_UnmarshalJSON, NtildeH1H2_MarshalJSON, nt. cbn [ntNtilde ntH1 ntH2].
    rewrite json_roundtrip by json_is_ascii. json_fields. done.
  - unfold NtildePrivData_UnmarshalJSON, NtildePrivData_MarshalJSON, priv.
    cbn [npAlpha npBeta npQ1 npQ2].
    rewrite json_roundtrip by json_is_ascii. json_fields. done.
  - unfold NtildeProof_UnmarshalJSON, NtildeProof_MarshalJSON, pf. cbn [pfAlpha pfT].
    rewrite <- !list_fmap_compose.
    assert (Hs : forall l, length l = Iterations ->
      isAscii (Join bar (Sprintf_v ∘ Some <$> l)) = true /\
      Split bar (Join bar (Sprintf_v ∘ Some <$> l)) = Sprintf_v ∘ Some <$> l).
    { intros l Hl. split.
      - rewrite list_fmap_compose. now apply isAscii_Join_ints.
      - apply Split_strings; [reflexivity|]. intros ->. discriminate. }
    destruct (Hs alpha La) as [Aa Sa], (Hs t Lt) as [At St].
    rewrite json_roundtrip by (unfold asciiObject; cbn [forallb fst snd]; now rewrite Aa, At).
    change (field "Alpha" _) with (Join bar (Sprintf_v ∘ Some <$> alpha)).
    change (field "T" _) with (Join bar (Sprintf_v ∘ Some <$> t)).
    rewrite Sa, St, !length_fmap, La, Lt. cbn [Nat.eqb Iterations negb].
    change (Sprintf_v ∘ Some) with (fun z : Z => Sprintf_v (Some z)).
    rewrite !parseInts_ok. done.
Qed.

Lemma ntilde_json_roundtrip_witness :
  NtildeProof_UnmarshalJSON (NtildeProof_MarshalJSON
    (mkNtildeProof (Some <$> replicate 128 64) (Some <$> replicate 128 3)))
  = Ok (mkNtildeProof (Some <$> replicate 128 64) (Some <$> replicate 128 3)).
Proof. apply (ntilde_json_roundtrip 1 2 3 4 5 6 7); reflexivity. Defined.
