(* ===== verification/MtA.v ===== *)
(** The zero-knowledge proofs of the multiplicative-to-additive conversion,
    [smpc-lib/crypto/ec2/MtARangeProof.go], [MtARespZKProof.go] and
    [MtAwcRespZKProof.go]: provers, verifiers and JSON codecs. *)

From Stdlib Require Import ZArith Lia Zcong Zdivisibility.
From S2P Require Import Prelude NumTheory Primality GoBig Random Text IntGo Json Secp256k1 CurveFacts.
From S2P Require Import CurveLaws ToyCurve Vss2 Commit Paillier Schnorr Ntilde.

#[local] Open Scope Z_scope.

(** The fields of a public key and of the modulus parameters. *)
Definition openPk (pk : PublicKey) : res (Z * Z * Z) :=
  N ← deref (pkN pk); G ← deref (pkG pk); N2 ← deref (pkN2 pk); Ok (N, G, N2).
Definition openNt (nt : NtildeH1H2) : res (Z * Z * Z) :=
  Nt ← deref (ntNtilde nt); h1 ← deref (ntH1 nt); h2 ← deref (ntH2 nt); Ok (Nt, h1, h2).

(** [z := Exp(h1, a, n); z = Mul(z, Exp(h2, b, n)); z = Mod(z, n)]. *)
Definition ExpMulExp (h1 a h2 b n : Z) : res Z :=
  x ← deref (Exp h1 a n);
  y ← deref (Exp h2 b n);
  Mod (x * y) n.

(** [z := Exp(a, e, n); z = Mul(z, b); z = Mod(z, n)]. *)
Definition ExpMul (a e b n : Z) : res Z :=
  x ← deref (Exp a e n);
  Mod (x * b) n.

(** The [x.Cmp(zero) == 0 || x.Cmp(one) == 0] of the verifiers. *)
Definition trivial (x : Z) : bool := (x =? 0) || (x =? 1).

(** * A.1: range proof *)

Record MtARangeProof := mkMtARange {
  rZ : bigint; rU : bigint; rW : bigint; rS : bigint; rS1 : bigint; rS2 : bigint }.

Section range.
Context `{E : Curve} `{L : GoLib}.

Definition MtARangeProofProve (c m r : Z) (publicKey : PublicKey) (nt : NtildeH1H2)
  : rnd MtARangeProof :=
  '(N, G, N2) ← lift (openPk publicKey);
  '(Ntilde, H1, H2) ← lift (openNt nt);
  let N3Ntilde := N3 S256 * Ntilde in
  let NNtilde := cN S256 * Ntilde in
  alpha ← GetRandomIntFromZn (N3 S256);
  beta ← GetRandomIntFromZnStar N;
  gamma ← GetRandomIntFromZn N3Ntilde;
  rho ← GetRandomIntFromZn NNtilde;
  z ← lift (ExpMulExp H1 m H2 rho Ntilde);
  u ← lift (ExpMulExp G alpha beta N N2);
  w ← lift (ExpMulExp H1 alpha H2 gamma Ntilde);
  e ← lift (Sha512_256 [Some z; Some u; Some w; Some c; Some N]);
  e ← lift (deref e);
  e ← lift (Mod e (cN S256));
  s ← lift (ExpMul r e beta N);
  let s1 := e * m in
  let s1 := s1 + alpha in
  let s2 := e * rho in
  let s2 := s2 + gamma in
  mret (mkMtARange (Some z) (Some u) (Some w) (Some s) (Some s1) (Some s2)).

Definition MtARangeProofVerify (pf : option MtARangeProof) (c : bigint)
    (publicKey : option PublicKey) (ntildeH1H2 : option NtildeH1H2) : res bool :=
  match c, publicKey, ntildeH1H2, pf with
  | Some c, Some pk, Some nt,
    Some (mkMtARange (Some Zp) (Some U) (Some W) (Some Sp) (Some S1) S2) =>
      N2 ← deref (pkN2 pk); N ← deref (pkN pk);
      if negb (N2 =? N * N) then Ok false else
      G ← deref (pkG pk);
      if negb (G =? N + 1) then Ok false else
      if N3 S256 <? S1 then Ok false else
      Ntilde ← deref (ntNtilde nt);
      if Ntilde <=? Zp then Ok false else
      if Ntilde <=? W then Ok false else
      if N2 <=? U then Ok false else
      if N2 <=? c then Ok false else
      if N <=? Sp then Ok false else
      zm ← Mod Zp Ntilde; wm ← Mod W Ntilde; um ← Mod U N2; cm ← Mod c N2; sm ← Mod Sp N;
      if trivial zm || trivial wm || trivial um || trivial cm || trivial sm then Ok false else
      if trivial S1 then Ok false else
      S2 ← deref S2;
      if trivial S2 then Ok false else
      let G := N + 1 in
      let N2 := N * N in
      e ← Sha512_256 [Some Zp; Some U; Some W; Some c; Some N];
      e ← deref e;
      e ← Mod e (cN S256);
      u2 ← ExpMulExp G S1 Sp N N2;
      ceU ← ExpMul c e U N2;
      if negb (ceU =? u2) then Ok false else
      H1 ← deref (ntH1 nt); H2 ← deref (ntH2 nt);
      w2 ← ExpMulExp H1 S1 H2 S2 Ntilde;
      zeW ← ExpMul Zp e W Ntilde;
      if negb (zeW =? w2) then Ok false else
      Ok true
  | _, _, _, _ => Ok false
  end.
End range.

(** * A.3: respondent's proof *)

Record MtARespZKProof := mkMtAResp {
  aZ : bigint; aZBar : bigint; aT : bigint; aV : bigint; aW : bigint; aS : bigint;
  aS1 : bigint; aS2 : bigint; aT1 : bigint; aT2 : bigint }.

(** * A.2: respondent's proof with check *)

Record MtAwcRespZKProof := mkMtAwc { wUx : bigint; wUy : bigint; wResp : MtARespZKProof }.

Section resp.
Context `{E : Curve} `{L : GoLib}.

(** The draws both provers make, in order. *)
Record respDraws := mkDraws {
  dAlpha : Z; dRho : Z; dRhoBar : Z; dSigma : Z; dBeta : Z; dGamma : Z; dDelta : Z }.

Definition drawResp (N Ntilde : Z) : rnd respDraws :=
  let q3Ntilde := N3 S256 * Ntilde in
  let qNtilde := cN S256 * Ntilde in
  alpha ← GetRandomIntFromZn (N3 S256);
  rho ← GetRandomIntFromZn qNtilde;
  rhoBar ← GetRandomIntFromZn q3Ntilde;
  sigma ← GetRandomIntFromZn qNtilde;
  beta ← GetRandomIntFromZnStar N;
  gamma ← GetRandomIntFromZnStar N;
  delta ← GetRandomIntFromZn qNtilde;
  mret (mkDraws alpha rho rhoBar sigma beta gamma delta).

(** The commitments [z, zBar, t, v, w] and, for the challenge prefixed with
    [pre], the responses; the code of both provers from [z := ...] on. *)
Definition respBody (pre : list bigint) (x y r c1 c2 : Z) (N G N2 Ntilde H1 H2 : Z) (d : respDraws)
  : res MtARespZKProof :=
  z ← ExpMulExp H1 x H2 (dRho d) Ntilde;
  zBar ← ExpMulExp H1 (dAlpha d) H2 (dRhoBar d) Ntilde;
  t ← ExpMulExp H1 y H2 (dSigma d) Ntilde;
  v ← ExpMulExp G (dGamma d) (dBeta d) N N2;
  c1a ← deref (Exp c1 (dAlpha d) N2);
  v ← Mod (v * c1a) N2;
  w ← ExpMulExp H1 (dGamma d) H2 (dDelta d) Ntilde;
  e ← Sha512_256 (pre ++ [Some z; Some zBar; Some t; Some v; Some w; Some c1; Some c2; Some N]);
  e ← deref e;
  e ← Mod e (cN S256);
  s ← ExpMul r e (dBeta d) N;
  let s1 := e * x + dAlpha d in
  let s2 := e * dRho d + dRhoBar d in
  let t1 := e * y + dGamma d in
  let t2 := e * dSigma d + dDelta d in
  Ok (mkMtAResp (Some z) (Some zBar) (Some t) (Some v) (Some w) (Some s)
        (Some s1) (Some s2) (Some t1) (Some t2)).

Definition MtARespZKProofProve (x y r c1 c2 : Z) (publicKey : PublicKey) (nt : NtildeH1H2)
  : rnd MtARespZKProof :=
  '(N, G, N2) ← lift (openPk publicKey);
  '(Ntilde, H1, H2) ← lift (openNt nt);
  d ← drawResp N Ntilde;
  lift (respBody [] x y r c1 c2 N G N2 Ntilde H1 H2 d).

Definition MtAwcRespZKProofProve (x y r c1 c2 : Z) (publicKey : PublicKey) (nt : NtildeH1H2)
  : rnd MtAwcRespZKProof :=
  '(N, G, N2) ← lift (openPk publicKey);
  '(Ntilde, H1, H2) ← lift (openNt nt);
  d ← drawResp N Ntilde;
  tmp ← lift (Mod (dAlpha d) (cN S256));
  u ← lift (ScalarBaseMult (Bytes tmp));
  xtmp ← lift (Mod x (cN S256));
  let xtmp := if xtmp <? 0 then cN S256 + xtmp else xtmp in
  X ← lift (ScalarBaseMult (Bytes xtmp));
  pf ← lift (respBody [u.1; u.2; X.1; X.2] x y r c1 c2 N G N2 Ntilde H1 H2 d);
  mret (mkMtAwc u.1 u.2 pf).

(** The range and triviality guards both verifiers share (up to the checks of
    [S1, S2, T1, T2]); [k] is the rest of the function. *)
Definition respGuards (c1 c2 : Z) (pk : PublicKey) (nt : NtildeH1H2)
    (Zp ZBar T V W Sp S1 : Z) (S2 T1 T2 : bigint)
    (k : Z -> Z -> Z -> Z -> Z -> res bool) : res bool :=
  N2 ← deref (pkN2 pk); N ← deref (pkN pk);
  if negb (N2 =? N * N) then Ok false else
  G ← deref (pkG pk);
  if negb (G =? N + 1) then Ok false else
  if N3 S256 <? S1 then Ok false else
  Ntilde ← deref (ntNtilde nt);
  if Ntilde <=? Zp then Ok false else
  if Ntilde <=? ZBar then Ok false else
  if Ntilde <=? T then Ok false else
  if Ntilde <=? W then Ok false else
  if N2 <=? V then Ok false else
  if N2 <=? c1 then Ok false else
  if N2 <=? c2 then Ok false else
  if N <=? Sp then Ok false else
  c1m ← Mod c1 N2; c2m ← Mod c2 N2; zm ← Mod Zp Ntilde; zbarm ← Mod ZBar Ntilde;
  tm ← Mod T Ntilde; vm ← Mod V N2; wm ← Mod W Ntilde; sm ← Mod Sp N;
  if trivial c1m || trivial c2m || trivial zm || trivial zbarm || trivial tm || trivial vm
     || trivial wm || trivial sm then Ok false else
  if trivial S1 then Ok false else
  S2 ← deref S2;
  if trivial S2 then Ok false else
  T1 ← deref T1;
  if trivial T1 then Ok false else
  T2 ← deref T2;
  if trivial T2 then Ok false else
  k N Ntilde S2 T1 T2.

(** The three equations both verifiers check last. *)
Definition respEquations (nt : NtildeH1H2) (c1 c2 e N Ntilde Zp ZBar T V W Sp S1 S2 T1 T2 : Z) : res bool :=
  let G := N + 1 in
  let N2 := N * N in
  H1 ← deref (ntH1 nt); H2 ← deref (ntH2 nt);
  s12 ← ExpMulExp H1 S1 H2 S2 Ntilde;
  zzbar ← ExpMul Zp e ZBar Ntilde;
  if negb (s12 =? zzbar) then Ok false else
  h12 ← ExpMulExp H1 T1 H2 T2 Ntilde;
  tw ← ExpMul T e W Ntilde;
  if negb (h12 =? tw) then Ok false else
  cs ← ExpMulExp G T1 Sp N N2;
  c1s ← deref (Exp c1 S1 N2);
  cs ← Mod (cs * c1s) N2;
  cv ← ExpMul c2 e V N2;
  if negb (cs =? cv) then Ok false else
  Ok true.

Definition MtARespZKProofVerify (pf : option MtARespZKProof) (c1 c2 : bigint)
    (publicKey : option PublicKey) (ntildeH1H2 : option NtildeH1H2) : res bool :=
  match c1, c2, publicKey, ntildeH1H2, pf with
  | Some c1, Some c2, Some pk, Some nt,
    Some (mkMtAResp (Some Zp) (Some ZBar) (Some T) (Some V) (Some W) (Some Sp) (Some S1) S2 T1 T2) =>
      respGuards c1 c2 pk nt Zp ZBar T V W Sp S1 S2 T1 T2 (fun N Ntilde S2 T1 T2 =>
        e ← Sha512_256 [Some Zp; Some ZBar; Some T; Some V; Some W; Some c1; Some c2; Some N];
        e ← deref e;
        e ← Mod e (cN S256);
        respEquations nt c1 c2 e N Ntilde Zp ZBar T V W Sp S1 S2 T1 T2)
  | _, _, _, _, _ => Ok false
  end.

(** [IsOnCurve] of possibly nil coordinates. *)
Definition IsOnCurvePt (p : gpoint) : res bool :=
  x ← deref p.1; y ← deref p.2; Ok (IsOnCurve S256 x y).

Definition MtAwcRespZKProofVefify (pf : option MtAwcRespZKProof) (xG : list bigint) (c1 c2 : bigint)
    (publicKey : option PublicKey) (ntildeH1H2 : option NtildeH1H2) : res bool :=
  match c1, c2, publicKey, ntildeH1H2, pf with
  | Some c1, Some c2, Some pk, Some nt,
    Some (mkMtAwc Ux Uy
      (mkMtAResp (Some Zp) (Some ZBar) (Some T) (Some V) (Some W) (Some Sp) (Some S1) S2 T1 T2)) =>
      if Nat.eqb (length xG) 0 then Ok false else
      respGuards c1 c2 pk nt Zp ZBar T V W Sp S1 S2 T1 T2 (fun N Ntilde S2 T1 T2 =>
        match xG with
        | [Some x; Some y] =>
            if negb (checkPointOnCurve xG) then Ok false else
            e ← Sha512_256 [Ux; Uy; Some x; Some y; Some Zp; Some ZBar; Some T; Some V; Some W;
                            Some c1; Some c2; Some N];
            e ← deref e;
            e ← Mod e (cN S256);
            tmp ← Mod S1 (cN S256);
            let tmp := if tmp <? 0 then cN S256 + tmp else tmp in
            s1G ← ScalarBaseMult (Bytes tmp);
            exG ← ScalarMult (Some x, Some y) (Bytes e);
            uexG ← Add S256 exG (Ux, Uy);
            on1 ← IsOnCurvePt s1G;
            if negb on1 then Ok false else
            on2 ← IsOnCurvePt uexG;
            if negb on2 then Ok false else
            bx ← CmpEq s1G.1 uexG.1;
            if negb bx then Ok false else
            by' ← CmpEq s1G.2 uexG.2;
            if negb by' then Ok false else
            respEquations nt c1 c2 e N Ntilde Zp ZBar T V W Sp S1 S2 T1 T2
        | _ => Ok false
        end)
  | _, _, _, _, _ => Ok false
  end.
End resp.

(** * JSON *)

Definition rangeNames : list string := ["Z"; "U"; "W"; "S"; "S1"; "S2"].
Definition respNames : list string := ["Z"; "ZBar"; "T"; "V"; "W"; "S"; "S1"; "S2"; "T1"; "T2"].
Definition awcNames : list string := ["Ux"; "Uy"] ++ respNames.

Section json.
Context `{J : JsonLib}.

Definition MtARangeProof_MarshalJSON (pf : MtARangeProof) : string :=
  marshalInts rangeNames [rZ pf; rU pf; rW pf; rS pf; rS1 pf; rS2 pf].

Definition MtARangeProof_UnmarshalJSON (raw : string) : res MtARangeProof :=
  l ← unmarshalInts rangeNames raw;
  match l with
  | [z; u; w; s; s1; s2] =>
      Ok (mkMtARange (Some z) (Some u) (Some w) (Some s) (Some s1) (Some s2))
  | _ => Panic
  end.

Definition respFields (pf : MtARespZKProof) : list bigint :=
  [aZ pf; aZBar pf; aT pf; aV pf; aW pf; aS pf; aS1 pf; aS2 pf; aT1 pf; aT2 pf].

Definition respOfList (l : list Z) : res MtARespZKProof :=
  match l with
  | [z; zbar; t; v; w; s; s1; s2; t1; t2] =>
      Ok (mkMtAResp (Some z) (Some zbar) (Some t) (Some v) (Some w) (Some s) (Some s1) (Some s2)
            (Some t1) (Some t2))
  | _ => Panic
  end.

Definition MtARespZKProof_MarshalJSON (pf : MtARespZKProof) : string :=
  marshalInts respNames (respFields pf).

Definition MtARespZKProof_UnmarshalJSON (raw : string) : res MtARespZKProof :=
  l ← unmarshalInts respNames raw; respOfList l.

Definition MtAwcRespZKProof_MarshalJSON (pf : MtAwcRespZKProof) : string :=
  marshalInts awcNames ([wUx pf; wUy pf] ++ respFields (wResp pf)).

Definition MtAwcRespZKProof_UnmarshalJSON (raw : string) : res MtAwcRespZKProof :=
  l ← unmarshalInts awcNames raw;
  match l with
  | ux :: uy :: rest => pf ← respOfList rest; Ok (mkMtAwc (Some ux) (Some uy) pf)
  | _ => Panic
  end.
End json.

(** * Algebra of the proofs *)

(** What the verifiers ask of the fields beyond the equations. *)
Definition nontrivialAll (l : list Z) : bool := forallb (fun v => negb (trivial v)) l.

Definition rangeFieldsOk `{Curve} (c : Z) (pf : MtARangeProof) : bool :=
  match pf with
  | mkMtARange (Some z) (Some u) (Some w) (Some s) (Some s1) (Some s2) =>
      (s1 <=? N3 S256) && nontrivialAll [z; w; u; c; s; s1; s2]
  | _ => false
  end.

Definition respFieldsOk `{Curve} (c1 c2 : Z) (pf : MtARespZKProof) : bool :=
  match pf with
  | mkMtAResp (Some z) (Some zBar) (Some t) (Some v) (Some w) (Some s) (Some s1) (Some s2)
      (Some t1) (Some t2) =>
      (s1 <=? N3 S256) && nontrivialAll [c1; c2; z; zBar; t; v; w; s; s1; s2; t1; t2]
  | _ => false
  end.

(** The values the verifiers refuse among the elements of a group: the neutral one. *)
Definition noOnes (l : list Z) : bool := forallb (fun v => negb (v =? 1)) l.

Lemma trivial_unit n v : 2 <= n -> Z.coprime v n -> trivial v = (v =? 1).
Proof.
  intros Hn Hv. unfold trivial. destruct (Z.eqb_spec v 0) as [->|]; [|done].
  unfold Z.coprime in Hv. rewrite Z.gcd_0_l in Hv. lia.
Qed.

Lemma trivial_outside v : v < 0 \/ 2 <= v -> trivial v = false.
Proof. intros Hv. unfold trivial. destruct (Z.eqb_spec v 0), (Z.eqb_spec v 1); (reflexivity || lia). Qed.

Lemma unit_plaintext N a : Z.coprime (1 + a * N) N.
Proof. apply Z.coprime_mod_l_iff. rewrite Z_mod_plus_full. apply Z.coprime_mod_l_iff, Z.coprime_1_l. Qed.

(** Ciphertexts with a unit for randomness are units. *)
Lemma cipher_coprime N a b v : 2 <= N -> Z.coprime b N -> [mod N * N] v == (1 + a * N) * b ^ N -> Z.coprime v (N * N).
Proof.
  intros HN Hb Hv%eqm_iff. apply Z.coprime_mod_l_iff. rewrite Hv. apply Z.coprime_mod_l_iff.
  apply Z.coprime_mul_r; (apply Z.coprime_mul_l; [apply unit_plaintext|apply Z.coprime_pow_l; [lia|assumption]]).
Qed.

Lemma nontrivialAll_spec l : nontrivialAll l = true <-> Forall (fun v => trivial v = false) l.
Proof.
  unfold nontrivialAll. rewrite Forall_forall, forallb_forall. setoid_rewrite <- list_elem_of_In.
  split; intros H x Hx; specialize (H x Hx); now destruct (trivial x).
Qed.

(** Draws the samplers return at once. *)
Definition drawZn (n v : Z) : Prop := 0 <= v < n /\ v < 2 ^ BitLen n - 1.
Definition drawZnStar (n v : Z) : Prop := 1 <= v < n /\ Z.coprime v n /\ v < 2 ^ BitLen n - 1.

Lemma nontrivialAll_range z w u c s s1 s2 : nontrivialAll [z; w; u; c; s; s1; s2] =
  negb (trivial z || trivial w || trivial u || trivial c || trivial s) && negb (trivial s1) && negb (trivial s2).
Proof.
  cbn [nontrivialAll forallb]. rewrite andb_true_r, !negb_orb, !andb_assoc. done.
Qed.

Lemma nontrivialAll_resp c1 c2 z zBar t v w s s1 s2 t1 t2 :
  nontrivialAll [c1; c2; z; zBar; t; v; w; s; s1; s2; t1; t2] =
  negb (trivial c1 || trivial c2 || trivial z || trivial zBar || trivial t || trivial v || trivial w || trivial s)
  && negb (trivial s1) && negb (trivial s2) && negb (trivial t1) && negb (trivial t2).
Proof. cbn [nontrivialAll forallb]. rewrite andb_true_r, !negb_orb, !andb_assoc. done. Qed.

Section pedersen.
Context (n h1 h2 : Z) (Hn : 2 <= n) (H1 : Z.coprime h1 n) (H2 : Z.coprime h2 n).

Definition ped (a b : Z) : Z := (zpow n h1 a * zpow n h2 b) mod n.

Lemma ExpMulExp_ped a b : ExpMulExp h1 a h2 b n = Ok (ped a b).
Proof.
  unfold ExpMulExp. rewrite !Exp_zpow by assumption. cbn [deref mbind res_bind]. apply Mod_pos. lia.
Qed.

Lemma ped_range a b : 0 <= ped a b < n.
Proof. apply Z.mod_pos_bound. lia. Qed.

Lemma ped_coprime a b : Z.coprime (ped a b) n.
Proof. apply Z.coprime_mod_l_iff, Z.coprime_mul_l; now apply zpow_coprime. Qed.

(** The verification equation of a commitment, an announcement and a response. *)
Lemma ped_verify e m rho alpha gamma : 0 <= e ->
  ExpMul (ped m rho) e (ped alpha gamma) n = Ok (ped (e * m + alpha) (e * rho + gamma)).
Proof.
  intros He. unfold ExpMul. rewrite Exp_pos by lia. cbn [deref mbind res_bind].
  rewrite Mod_pos by lia. f_equal. apply eqm_mod_eq. unfold ped. unmod.
  rewrite Z.pow_mul_l, !zpow_add by assumption.
  rewrite (Z.mul_comm e m), (Z.mul_comm e rho), !zpow_mul by assumption.
  eqm_ring.
Qed.
End pedersen.

Section paillierEq.
Context (N : Z) (HN : 2 <= N).

Lemma ExpMulExp_G a b : exists v, ExpMulExp (N + 1) a b N (N * N) = Ok v /\ 0 <= v < N * N /\
  [mod N * N] v == (1 + a * N) * b ^ N.
Proof.
  destruct (Exp_G N HN a) as (g & Eg & Hg). unfold ExpMulExp. rewrite Eg, Exp_pos by nia.
  cbn [deref mbind res_bind]. rewrite Mod_pos by nia. eexists. split; [reflexivity|].
  split; [apply Z.mod_pos_bound; nia|]. unmod. done.
Qed.

Lemma ExpMul_pos a e b n : 0 < n -> 0 <= e -> exists v, ExpMul a e b n = Ok v /\ 0 <= v < n /\ [mod n] v == a ^ e * b.
Proof.
  intros Hn He. unfold ExpMul. rewrite Exp_pos by assumption. cbn [deref mbind res_bind].
  rewrite Mod_pos by assumption. eexists. split; [reflexivity|].
  split; [now apply Z.mod_pos_bound|]. unmod. done.
Qed.

(** Responses to a challenge open the combined ciphertext. *)
Lemma cipher_response e m r alpha beta c s : 0 <= e ->
  [mod N * N] c == (1 + m * N) * r ^ N -> [mod N] s == r ^ e * beta ->
  [mod N * N] c ^ e * ((1 + alpha * N) * beta ^ N) == (1 + (e * m + alpha) * N) * s ^ N.
Proof.
  intros He Hc Hs. rewrite (pow_N_eqm N s (r ^ e * beta)) by assumption.
  rewrite Hc, Z.pow_mul_l, (one_plus_mul_pow N m e) by assumption.
  rewrite (Z.pow_mul_l (r ^ e)), <- !Z.pow_mul_r, (Z.mul_comm N e) by lia.
  exists (e * m * alpha * (r ^ (e * N) * beta ^ N)). ring.
Qed.
End paillierEq.

Lemma eqm_eqb n a b : 0 <= a < n -> 0 <= b < n -> [mod n] a == b -> (a =? b) = true.
Proof. intros Ha Hb H. apply Z.eqb_eq. now apply (eqm_small n). Qed.

(** * The range proof is complete *)

Section rangeComplete.
Context `{E : Curve} `{G : GoLib} (Hq : 2 <= cN S256).
Context (l : string) (N Nt h1 h2 : Z).
Hypotheses (HN : 2 <= N) (HNt : 2 <= Nt) (Hh1 : Z.coprime h1 Nt) (Hh2 : Z.coprime h2 Nt).

Definition goodPk : PublicKey := mkPublicKey l (Some N) (Some (N + 1)) (Some (N * N)).
Definition goodNt : NtildeH1H2 := mkNtilde (Some Nt) (Some h1) (Some h2).

(** The proof for given draws, as numbers. *)
Definition rangeProof (c m r alpha beta gamma rho u : Z) : Z * (Z * Z * Z * Z * Z) :=
  let z := ped Nt h1 h2 m rho in
  let w := ped Nt h1 h2 alpha gamma in
  let e := SetBytes (sha512_256 (Sha512_256_data [z; u; w; c; N])) mod cN S256 in
  (e, (z, w, ((r ^ e) mod N * beta) mod N, e * m + alpha, e * rho + gamma)).

Lemma MtARange_prove c m r alpha beta gamma rho t :
  drawZn (N3 S256) alpha -> drawZnStar N beta -> drawZn (N3 S256 * Nt) gamma ->
  drawZn (cN S256 * Nt) rho ->
  exists u, ExpMulExp (N + 1) alpha beta N (N * N) = Ok u /\
    let '(e, (z, w, s, s1, s2)) := rangeProof c m r alpha beta gamma rho u in
    MtARangeProofProve c m r goodPk goodNt
      (Some alpha :: Some beta :: Some gamma :: Some rho :: t)
    = Ok (mkMtARange (Some z) (Some u) (Some w) (Some s) (Some s1) (Some s2), t).
Proof.
  intros [Ha Ba] (Hb & Cb & Bb) [Hg Bg] [Hr Br].
  destruct (ExpMulExp_G N HN alpha beta) as (u & Eu & _). exists u. split; [exact Eu|].
  unfold rangeProof. unfold MtARangeProofProve.
  erewrite rnd_bind_run by (apply lift_run; reflexivity). cbv beta iota.
  erewrite rnd_bind_run by (apply lift_run; reflexivity). cbv beta iota zeta.
  erewrite rnd_bind_run by now apply GetRandomIntFromZn_hit.
  erewrite rnd_bind_run by now apply GetRandomIntFromZnStar_hit.
  erewrite rnd_bind_run by now apply GetRandomIntFromZn_hit.
  erewrite rnd_bind_run by now apply GetRandomIntFromZn_hit.
  erewrite rnd_bind_run by (apply lift_run, ExpMulExp_ped; assumption).
  erewrite rnd_bind_run by (apply lift_run; exact Eu).
  erewrite rnd_bind_run by (apply lift_run, ExpMulExp_ped; assumption).
  erewrite rnd_bind_run by (apply lift_run; reflexivity).
  erewrite rnd_bind_run by (apply lift_run; reflexivity).
  erewrite rnd_bind_run by (apply lift_run, Mod_pos; lia).
  cbn [foldRange deref mbind res_bind app]. set (e := SetBytes _ mod _).
  assert (He : 0 <= e) by (apply Z.mod_pos_bound; lia).
  erewrite rnd_bind_run.
  2: { apply lift_run. unfold ExpMul. rewrite Exp_pos by lia. cbn [deref mbind res_bind].
       apply Mod_pos. lia. }
  reflexivity.
Qed.

(** The verifier decides the fields of a proof the prover made. *)
Lemma MtARange_verify c m r alpha beta gamma rho u :
  [mod N * N] c == (1 + m * N) * r ^ N -> 0 <= c < N * N ->
  ExpMulExp (N + 1) alpha beta N (N * N) = Ok u ->
  let '(e, (z, w, s, s1, s2)) := rangeProof c m r alpha beta gamma rho u in
  let pf := mkMtARange (Some z) (Some u) (Some w) (Some s) (Some s1) (Some s2) in
  MtARangeProofVerify (Some pf) (Some c) (Some goodPk) (Some goodNt) = Ok (rangeFieldsOk c pf).
Proof.
  intros Hc Rc Eu. destruct (ExpMulExp_G N HN alpha beta) as (u' & Eu' & Ru & Hu).
  rewrite Eu in Eu'. injection Eu' as <-. unfold rangeProof.
  set (z := ped Nt h1 h2 m rho). set (w := ped Nt h1 h2 alpha gamma).
  set (e := SetBytes _ mod _). assert (He : 0 <= e) by (apply Z.mod_pos_bound; lia).
  set (s := ((r ^ e) mod N * beta) mod N). cbv zeta.
  assert (Rz : 0 <= z < Nt) by now apply ped_range. assert (Rw : 0 <= w < Nt) by now apply ped_range.
  assert (Rs : 0 <= s < N) by (apply Z.mod_pos_bound; lia).
  unfold MtARangeProofVerify, goodPk, goodNt. cbn [pkN pkN2 pkG ntNtilde ntH1 ntH2 deref mbind res_bind].
  rewrite !Z.eqb_refl. cbn [negb rangeFieldsOk]. rewrite (Z.leb_antisym (N3 S256)).
  destruct (N3 S256 <? e * m + alpha); [done|]. cbn [negb andb].
  destruct (Z.leb_spec Nt z); [lia|]. destruct (Z.leb_spec Nt w); [lia|].
  destruct (Z.leb_spec (N * N) u); [lia|]. destruct (Z.leb_spec (N * N) c); [lia|].
  destruct (Z.leb_spec N s); [lia|].
  repeat (rewrite Mod_pos by lia; cbn [mbind res_bind]). rewrite !Z.mod_small by lia.
  rewrite nontrivialAll_range. destruct (trivial z || trivial w || trivial u || trivial c || trivial s); [done|]. destruct (trivial (e * m + alpha)); [done|].
  destruct (trivial (e * rho + gamma)); [done|]. cbn [negb andb].
  change (Sha512_256 [Some z; Some u; Some w; Some c; Some N])
    with (Ok (Some (SetBytes (sha512_256 (Sha512_256_data [z; u; w; c; N]))))).
  cbn [mbind res_bind deref]. rewrite Mod_pos by lia. cbn [mbind res_bind]. fold e.
  destruct (ExpMulExp_G N HN (e * m + alpha) s) as (u2 & -> & Ru2 & Hu2). cbn [mbind res_bind].
  destruct (ExpMul_pos c e u (N * N)) as (ceU & -> & RceU & HceU); [nia|assumption|].
  cbn [mbind res_bind].
  rewrite (eqm_eqb (N * N) ceU u2); [|assumption..|].
  2: { rewrite HceU, Hu2, Hu. apply (cipher_response N HN e m r alpha beta c s); auto.
       unfold s. unmod. done. }
  cbn [negb]. rewrite ExpMulExp_ped by assumption. cbn [mbind res_bind].
  unfold z, w. rewrite ped_verify by assumption. cbn [mbind res_bind]. now rewrite Z.eqb_refl.
Qed.

(** Units never vanish: only the neutral elements and the two responses are left. *)
Lemma range_fields c m r alpha beta gamma rho u :
  [mod N * N] c == (1 + m * N) * r ^ N -> Z.coprime r N -> Z.coprime beta N ->
  ExpMulExp (N + 1) alpha beta N (N * N) = Ok u -> 2 <= gamma -> 0 <= rho ->
  let '(e, (z, w, s, s1, s2)) := rangeProof c m r alpha beta gamma rho u in
  s1 <= N3 S256 -> s1 < 0 \/ 2 <= s1 ->
  rangeFieldsOk c (mkMtARange (Some z) (Some u) (Some w) (Some s) (Some s1) (Some s2)) = noOnes [z; w; u; c; s].
Proof.
  intros Hc Hr Hb Eu Hg Hrho. destruct (ExpMulExp_G N HN alpha beta) as (u' & Eu' & Ru & Hu).
  rewrite Eu in Eu'. injection Eu' as <-. unfold rangeProof.
  set (e := SetBytes _ mod _). assert (He : 0 <= e) by (apply Z.mod_pos_bound; lia).
  intros Hs1 Ht1. cbn [rangeFieldsOk]. rewrite (proj2 (Z.leb_le _ _) Hs1). cbn [andb nontrivialAll noOnes forallb].
  assert (HN2 : 2 <= N * N) by nia.
  rewrite !(trivial_unit Nt (ped _ _ _ _ _)) by (assumption || now apply ped_coprime).
  rewrite (trivial_unit (N * N) u HN2 (cipher_coprime N alpha beta u HN Hb Hu)).
  rewrite (trivial_unit (N * N) c HN2 (cipher_coprime N m r c HN Hr Hc)).
  rewrite (trivial_unit N (((r ^ e) mod N * beta) mod N)); [|assumption|].
  2: { apply Z.coprime_mod_l_iff, Z.coprime_mul_l; [|assumption]. apply Z.coprime_mod_l_iff. now apply Z.coprime_pow_l. }
  rewrite !trivial_outside by (assumption || nia). now rewrite !andb_true_r.
Qed.
End rangeComplete.

(** * The respondent's proofs are complete *)

Section respComplete.
Context `{E : Curve} `{G : GoLib} (Hq : 2 <= cN S256).
Context (l : string) (N Nt h1 h2 c1 : Z).
Hypotheses (HN : 2 <= N) (HNt : 2 <= Nt) (Hh1 : Z.coprime h1 Nt) (Hh2 : Z.coprime h2 Nt).
Hypotheses (Hc1 : Z.coprime c1 (N * N)).

Abbreviation pkR := (goodPk l N).
Abbreviation ntR := (goodNt Nt h1 h2).

Definition drawsOk (d : respDraws) : Prop :=
  drawZn (N3 S256) (dAlpha d) /\ drawZn (cN S256 * Nt) (dRho d) /\
  drawZn (N3 S256 * Nt) (dRhoBar d) /\ drawZn (cN S256 * Nt) (dSigma d) /\
  drawZnStar N (dBeta d) /\ drawZnStar N (dGamma d) /\ drawZn (cN S256 * Nt) (dDelta d).

(** Draws that keep the four responses away from 0, 1 and, for [S1], below [q^3]. *)
Definition roomy (d : respDraws) : Prop :=
  2 <= dAlpha d <= N3 S256 - cN S256 * cN S256 /\ 2 <= dRhoBar d /\ 2 <= dGamma d /\ 2 <= dDelta d.

Definition drawTape (d : respDraws) : tape :=
  Some <$> [dAlpha d; dRho d; dRhoBar d; dSigma d; dBeta d; dGamma d; dDelta d].

Lemma drawResp_run d t : drawsOk d -> drawResp N Nt (drawTape d ++ t) = Ok (d, t).
Proof.
  intros ([]&[]&[]&[]&(?&?&?)&(?&?&?)&[]). unfold drawResp, drawTape. cbn [fmap list_fmap app].
  do 4 (erewrite rnd_bind_run by now apply GetRandomIntFromZn_hit).
  do 2 (erewrite rnd_bind_run by now apply GetRandomIntFromZnStar_hit).
  erewrite rnd_bind_run by now apply GetRandomIntFromZn_hit. destruct d. done.
Qed.

(** The challenge, with the prefix [pre]. *)
Definition respChallenge (pre : list Z) (z zBar t v w c2 : Z) : Z :=
  SetBytes (sha512_256 (Sha512_256_data (pre ++ [z; zBar; t; v; w; c1; c2; N]))) mod cN S256.

Lemma collect_Some (l1 : list Z) : forall k (acc : list Z),
  foldRange (Some <$> l1) (fun _ n acc => n ← deref n; Ok (acc ++ [n])) k acc = Ok (acc ++ l1).
Proof.
  induction l1 as [|x l1 IH]; intros k acc; [now rewrite app_nil_r|]. rewrite fmap_cons.
  cbn [foldRange deref mbind res_bind]. rewrite IH, <- app_assoc. done.
Qed.

Lemma Sha512_256_Some v l0 : Sha512_256 (Some <$> (v :: l0)) =
  Ok (Some (SetBytes (sha512_256 (Sha512_256_data (v :: l0))))).
Proof. unfold Sha512_256. rewrite fmap_cons, <- fmap_cons, (collect_Some (v :: l0)). done. Qed.

(** The announcement [v = G^gamma beta^N c1^alpha]. *)
Definition respV (d : respDraws) : Z :=
  ((1 + dGamma d * N) * dBeta d ^ N * zpow (N * N) c1 (dAlpha d)) mod (N * N).

Definition respNumbers (pre : list Z) (x y r c2 : Z) (d : respDraws)
  : Z * (Z * Z * Z * Z * Z * Z) * (Z * Z * Z * Z) :=
  let z := ped Nt h1 h2 x (dRho d) in
  let zBar := ped Nt h1 h2 (dAlpha d) (dRhoBar d) in
  let t := ped Nt h1 h2 y (dSigma d) in
  let v := respV d in
  let w := ped Nt h1 h2 (dGamma d) (dDelta d) in
  let e := respChallenge pre z zBar t v w c2 in
  let s := ((r ^ e) mod N * dBeta d) mod N in
  (e, (z, zBar, t, v, w, s),
   (e * x + dAlpha d, e * dRho d + dRhoBar d, e * y + dGamma d, e * dSigma d + dDelta d)).

Definition respOfNumbers (n : Z * (Z * Z * Z * Z * Z * Z) * (Z * Z * Z * Z)) : MtARespZKProof :=
  let '(_, (z, zBar, t, v, w, s), (s1, s2, t1, t2)) := n in
  mkMtAResp (Some z) (Some zBar) (Some t) (Some v) (Some w) (Some s)
    (Some s1) (Some s2) (Some t1) (Some t2).

Lemma respBody_run pre x y r c2 d :
  respBody (Some <$> pre) x y r c1 c2 N (N + 1) (N * N) Nt h1 h2 d =
  Ok (respOfNumbers (respNumbers pre x y r c2 d)).
Proof.
  unfold respBody, respNumbers. rewrite !(ExpMulExp_ped Nt h1 h2 HNt Hh1 Hh2). cbn [mbind res_bind].
  destruct (ExpMulExp_G N HN (dGamma d) (dBeta d)) as (v & -> & Rv & Hv). cbn [mbind res_bind].
  rewrite Exp_zpow by (assumption || nia). cbn [deref mbind res_bind].
  rewrite Mod_pos by nia. cbn [mbind res_bind].
  replace ((v * zpow (N * N) c1 (dAlpha d)) mod (N * N)) with (respV d).
  2: { unfold respV. apply eqm_mod_eq. now rewrite Hv. }
  set (z := ped Nt h1 h2 x _). set (zBar := ped Nt h1 h2 (dAlpha d) _). set (t := ped Nt h1 h2 y _).
  set (w := ped Nt h1 h2 (dGamma d) _).
  change [Some z; Some zBar; Some t; Some (respV d); Some w; Some c1; Some c2; Some N]
    with (Some <$> [z; zBar; t; respV d; w; c1; c2; N]). rewrite <- fmap_app.
  destruct (pre ++ [z; zBar; t; respV d; w; c1; c2; N]) as [|x0 l0] eqn:El; [now destruct pre|].
  rewrite Sha512_256_Some, <- El. cbn [deref mbind res_bind]. rewrite Mod_pos by lia.
  cbn [mbind res_bind]. fold (respChallenge pre z zBar t (respV d) w c2).
  set (e := respChallenge pre z zBar t (respV d) w c2).
  assert (He : 0 <= e) by (apply Z.mod_pos_bound; lia).
  unfold ExpMul. rewrite Exp_pos by lia. cbn [deref mbind res_bind]. rewrite Mod_pos by lia. done.
Qed.

(** The guards decide the fields. *)
Lemma respGuards_decide pre x y r c2 d k : 0 <= c1 < N * N -> 0 <= c2 < N * N ->
  let n := respNumbers pre x y r c2 d in
  let '(_, (z, zBar, t, v, w, s), (s1, s2, t1, t2)) := n in
  respGuards c1 c2 pkR ntR z zBar t v w s s1 (Some s2) (Some t1) (Some t2) k =
  if respFieldsOk c1 c2 (respOfNumbers n) then k N Nt s2 t1 t2 else Ok false.
Proof.
  intros R1 R2. cbn [respNumbers respOfNumbers]. cbv zeta.
  pose proof (ped_range Nt h1 h2 HNt x (dRho d)) as Rz.
  pose proof (ped_range Nt h1 h2 HNt (dAlpha d) (dRhoBar d)) as Rzb.
  pose proof (ped_range Nt h1 h2 HNt y (dSigma d)) as Rt.
  pose proof (ped_range Nt h1 h2 HNt (dGamma d) (dDelta d)) as Rw.
  assert (Rv : 0 <= respV d < N * N) by (apply Z.mod_pos_bound; nia).
  set (e := respChallenge _ _ _ _ _ _ _). set (s := (_ mod N * dBeta d) mod N).
  assert (Rs : 0 <= s < N) by (apply Z.mod_pos_bound; lia).
  unfold respGuards, goodPk, goodNt. cbn [pkN pkN2 pkG ntNtilde deref mbind res_bind respFieldsOk].
  rewrite !Z.eqb_refl. cbn [negb]. rewrite (Z.leb_antisym (N3 S256)).
  destruct (N3 S256 <? e * x + dAlpha d); [done|]. cbn [negb andb].
  repeat match goal with |- context [if ?a <=? ?b then _ else _] => destruct (Z.leb_spec a b); [lia|] end.
  repeat (rewrite Mod_pos by nia; cbn [mbind res_bind]).
  rewrite !Z.mod_small by assumption. rewrite nontrivialAll_resp.
  repeat (match goal with |- context [if ?b then Ok false else _] => destruct b end; [done|]). done.
Qed.

Lemma respEquations_hold pre x y r c2 d :
  [mod N * N] c2 == zpow (N * N) c1 x * ((1 + y * N) * r ^ N) ->
  let '(e, (z, zBar, t, v, w, s), (s1, s2, t1, t2)) := respNumbers pre x y r c2 d in
  respEquations ntR c1 c2 e N Nt z zBar t v w s s1 s2 t1 t2 = Ok true.
Proof.
  intros Hc2. cbn [respNumbers].
  set (z := ped Nt h1 h2 x _). set (zBar := ped Nt h1 h2 (dAlpha d) _). set (t := ped Nt h1 h2 y _).
  set (w := ped Nt h1 h2 (dGamma d) _). set (e := respChallenge pre z zBar t (respV d) w c2).
  assert (He : 0 <= e) by (apply Z.mod_pos_bound; lia).
  set (s := ((r ^ e) mod N * dBeta d) mod N).
  unfold respEquations, goodNt. cbn [ntH1 ntH2 deref mbind res_bind].
  rewrite !(ExpMulExp_ped Nt h1 h2 HNt Hh1 Hh2). cbn [mbind res_bind]. unfold z, zBar, t, w.
  rewrite !(ped_verify Nt h1 h2 HNt Hh1 Hh2) by assumption. cbn [mbind res_bind].
  rewrite !Z.eqb_refl. cbn [negb].
  destruct (ExpMulExp_G N HN (e * y + dGamma d) s) as (cs & -> & _ & Hcs). cbn [mbind res_bind].
  rewrite Exp_zpow by (assumption || nia). cbn [deref mbind res_bind].
  rewrite Mod_pos by nia. cbn [mbind res_bind].
  destruct (ExpMul_pos c2 e (respV d) (N * N)) as (cv & -> & Rcv & Hcv); [nia|assumption|].
  cbn [mbind res_bind].
  rewrite (eqm_eqb (N * N) _ cv); [done|apply Z.mod_pos_bound; nia|assumption|].
  assert (HN2 : 2 <= N * N) by nia.
  rewrite eqm_mod, Hcs, Hcv. unfold respV. rewrite eqm_mod.
  rewrite <- (cipher_response N HN e y r (dGamma d) (dBeta d) ((1 + y * N) * r ^ N) s); auto.
  - rewrite (zpow_add (N * N) c1) by assumption.
    rewrite (Z.mul_comm e x), (zpow_mul (N * N) c1) by assumption.
    rewrite Hc2, (Z.pow_mul_l (zpow _ _ _)). eqm_ring.
  - reflexivity.
  - unfold s. unmod. done.
Qed.
(** Units never vanish: only the neutral elements and the responses are left. *)
Lemma resp_fields pre x y r c2 d :
  [mod N * N] c2 == zpow (N * N) c1 x * ((1 + y * N) * r ^ N) -> Z.coprime r N ->
  0 <= x < cN S256 -> 0 <= y -> drawsOk d -> roomy d ->
  let n := respNumbers pre x y r c2 d in
  let '(_, (z, zBar, t, v, w, s), _) := n in
  respFieldsOk c1 c2 (respOfNumbers n) = noOnes [c1; c2; z; zBar; t; v; w; s].
Proof.
  intros Hc2 Hr Hx Hy (_ & [Hrho _] & _ & [Hsig _] & (_ & Hb & _) & _) (Ha & Hrb & Hg & Hdel). cbn [respNumbers respOfNumbers]. cbv zeta.
  set (e := respChallenge _ _ _ _ _ _ _). assert (He : 0 <= e < cN S256) by (apply Z.mod_pos_bound; lia).
  assert (HN2 : 2 <= N * N) by nia. cbn [respFieldsOk].
  rewrite (proj2 (Z.leb_le _ _)) by nia. cbn [andb nontrivialAll noOnes forallb].
  rewrite !(trivial_unit Nt (ped _ _ _ _ _)) by (assumption || now apply ped_coprime).
  rewrite (trivial_unit (N * N) c1), (trivial_unit (N * N) c2), (trivial_unit (N * N) (respV d)),
    (trivial_unit N (((r ^ e) mod N * dBeta d) mod N)); try assumption.
  - rewrite !trivial_outside by (right; nia). now rewrite !andb_true_r.
  - apply Z.coprime_mod_l_iff, Z.coprime_mul_l; [|assumption]. apply Z.coprime_mod_l_iff. apply Z.coprime_pow_l; [lia|assumption].
  - apply Z.coprime_mod_l_iff, Z.coprime_mul_l; [|now apply zpow_coprime].
    now apply (cipher_coprime N (dGamma d) (dBeta d)).
  - apply eqm_iff in Hc2. apply Z.coprime_mod_l_iff. rewrite Hc2. apply Z.coprime_mod_l_iff.
    apply Z.coprime_mul_l; [now apply zpow_coprime|]. now apply (cipher_coprime N y r).
Qed.
End respComplete.

(** * The point of the proof with check *)

Section awcPoint.
Context `{L : CurveLaws}.

Abbreviation q := (cN S256).

(** [s1*G = e*X + U] for [s1 = e*x + alpha], away from the exceptional cases of
    the point addition. *)
Lemma awc_point x e alpha : 0 <= e < q -> x mod q <> 0 -> alpha mod q <> 0 ->
  e mod q <> 0 -> (e * x + alpha) mod q <> 0 -> (e * x - alpha) mod q <> 0 ->
  ScalarBaseMult (Bytes ((e * x + alpha) mod q)) = Ok (mkpt (pt (e * x + alpha))) /\
  exists exG, ScalarMult (mkpt (pt x)) (Bytes e) = Ok exG /\
    Add S256 exG (mkpt (pt alpha)) = Ok (mkpt (pt (e * x + alpha))).
Proof.
  intros He Hx Ha He0 Hs Hd. pose proof N_ge2. split.
  - rewrite ScalarBaseMult_pt by (apply Z.mod_pos_bound; lia).
    rewrite gp_ne0 by now rewrite Zmod_mod. now rewrite pt_mod.
  - exists (mkpt (pt (x * e))). rewrite ScalarMult_pt by assumption.
    assert (Hxe : (x * e) mod q <> 0) by (apply prime_mul_ne0; [apply N_prime|assumption..]).
    rewrite gp_ne0 by assumption. split; [done|]. rewrite Add_pt by assumption.
    rewrite (Z.mul_comm x e). bdestr. now rewrite gp_ne0.
Qed.

Lemma ScalarBaseMult_mod x : x mod q <> 0 -> ScalarBaseMult (Bytes (x mod q)) = Ok (mkpt (pt x)).
Proof.
  intros Hx. pose proof N_ge2. rewrite ScalarBaseMult_pt by (apply Z.mod_pos_bound; lia).
  rewrite gp_ne0 by now rewrite Zmod_mod. now rewrite pt_mod.
Qed.

Lemma IsOnCurvePt_pt x : x mod q <> 0 -> IsOnCurvePt (mkpt (pt x)) = Ok true.
Proof. intros Hx. unfold IsOnCurvePt, mkpt. cbn [deref fst snd mbind res_bind]. now rewrite IsOnCurve_pt. Qed.
End awcPoint.

(** * Claims *)

Section rangeAny.
Context `{E : Curve} `{G : GoLib} (Hq : 2 <= cN S256).
Context (l : string) (N Nt h1 h2 : Z).
Hypotheses (HN : 2 <= N) (HNt : 2 <= Nt) (Hh1 : Z.coprime h1 Nt) (Hh2 : Z.coprime h2 Nt).

(** Every proof the prover returns is the one of [rangeProof] for some draws. *)
Lemma MtARange_prove_inv c m r t pf t' :
  MtARangeProofProve c m r (goodPk l N) (goodNt Nt h1 h2) t = Ok (pf, t') ->
  exists alpha beta gamma rho u, 0 <= alpha < N3 S256 /\ 1 <= beta < N /\ ExpMulExp (N + 1) alpha beta N (N * N) = Ok u /\
    let '(e, (z, w, s, s1, s2)) := rangeProof N Nt h1 h2 c m r alpha beta gamma rho u in
    pf = mkMtARange (Some z) (Some u) (Some w) (Some s) (Some s1) (Some s2).
Proof.
  intros HP. unfold MtARangeProofProve in HP.
  erewrite rnd_bind_run in HP by (apply lift_run; reflexivity). cbv beta iota in HP.
  erewrite rnd_bind_run in HP by (apply lift_run; reflexivity). cbv beta iota zeta in HP.
  apply rnd_bind_Ok in HP as (alpha & t1 & Ha%GetRandomIntFromZn_range & HP).
  apply rnd_bind_Ok in HP as (beta & t2 & [Hb _]%GetRandomIntFromZnStar_range & HP).
  apply rnd_bind_Ok in HP as (gamma & t3 & _ & HP). apply rnd_bind_Ok in HP as (rho & t4 & _ & HP).
  destruct (ExpMulExp_G N HN alpha beta) as (u & Eu & _). exists alpha, beta, gamma, rho, u.
  split; [exact Ha|]. split; [exact Hb|]. split; [exact Eu|].
  rewrite !(ExpMulExp_ped Nt h1 h2 HNt Hh1 Hh2), Eu in HP.
  do 3 (erewrite rnd_bind_run in HP by now apply lift_run).
  erewrite rnd_bind_run in HP by (apply lift_run; reflexivity).
  erewrite rnd_bind_run in HP by (apply lift_run; reflexivity).
  erewrite rnd_bind_run in HP by (apply lift_run, Mod_pos; lia).
  cbn [foldRange deref mbind res_bind app] in HP. unfold rangeProof.
  set (e := SetBytes _ mod _) in *. assert (He : 0 <= e) by (apply Z.mod_pos_bound; lia).
  unfold ExpMul in HP. rewrite Exp_pos in HP by lia. cbn [deref mbind res_bind] in HP.
  rewrite Mod_pos in HP by lia. injection HP as <- _. reflexivity.
Qed.

Lemma MtARange_decided c m r t pf t' :
  [mod N * N] c == (1 + m * N) * r ^ N -> 0 <= c < N * N ->
  MtARangeProofProve c m r (goodPk l N) (goodNt Nt h1 h2) t = Ok (pf, t') ->
  MtARangeProofVerify (Some pf) (Some c) (Some (goodPk l N)) (Some (goodNt Nt h1 h2)) = Ok (rangeFieldsOk c pf).
Proof.
  intros Hc Rc (alpha & beta & gamma & rho & u & _ & _ & Eu & HP)%MtARange_prove_inv.
  pose proof (MtARange_verify Hq l N Nt h1 h2 HN HNt Hh1 Hh2 c m r alpha beta gamma rho u Hc Rc Eu) as HV.
  destruct (rangeProof N Nt h1 h2 c m r alpha beta gamma rho u) as [e [[[[z w] s] s1] s2]].
  subst pf. exact HV.
Qed.

(** On draws that keep the responses away from 0 and 1 only neutral elements are refused. *)
Lemma MtARange_outcome c m r alpha beta gamma rho t :
  [mod N * N] c == (1 + m * N) * r ^ N -> 0 <= c < N * N -> Z.coprime r N ->
  drawZn (N3 S256) alpha -> drawZnStar N beta -> drawZn (N3 S256 * Nt) gamma -> drawZn (cN S256 * Nt) rho ->
  2 <= gamma ->
  (forall e, 0 <= e < cN S256 -> e * m + alpha <= N3 S256 /\ (e * m + alpha < 0 \/ 2 <= e * m + alpha)) ->
  exists z u w s s1 s2,
    let pf := mkMtARange (Some z) (Some u) (Some w) (Some s) (Some s1) (Some s2) in
    MtARangeProofProve c m r (goodPk l N) (goodNt Nt h1 h2)
      (Some alpha :: Some beta :: Some gamma :: Some rho :: t) = Ok (pf, t) /\
    MtARangeProofVerify (Some pf) (Some c) (Some (goodPk l N)) (Some (goodNt Nt h1 h2)) = Ok (noOnes [z; w; u; c; s]).
Proof.
  intros Hc Rc Hr Ha Hb Hg Hrho Hg2 Hs.
  destruct (MtARange_prove Hq l N Nt h1 h2 HN HNt Hh1 Hh2 c m r alpha beta gamma rho t Ha Hb Hg Hrho)
    as (u & Eu & HP).
  pose proof (MtARange_verify Hq l N Nt h1 h2 HN HNt Hh1 Hh2 c m r alpha beta gamma rho u Hc Rc Eu) as HV.
  pose proof (range_fields Hq N Nt h1 h2 HN HNt Hh1 Hh2 c m r alpha beta gamma rho u Hc Hr
    (proj1 (proj2 Hb)) Eu Hg2 (proj1 (proj1 Hrho))) as HF.
  unfold rangeProof in *. cbv zeta in *. set (e := SetBytes _ mod _) in *.
  assert (He : 0 <= e < cN S256) by (apply Z.mod_pos_bound; lia).
  destruct (Hs e He) as [H1 H2]. do 6 eexists. split; [exact HP|]. rewrite HV. f_equal. now apply HF.
Qed.
End rangeAny.

Section respAny.
Context `{E : Curve} `{G : GoLib} (Hq : 2 <= cN S256).
Context (l : string) (N Nt h1 h2 c1 : Z).
Hypotheses (HN : 2 <= N) (HNt : 2 <= Nt) (Hh1 : Z.coprime h1 Nt) (Hh2 : Z.coprime h2 Nt).
Hypotheses (Hc1 : Z.coprime c1 (N * N)) (R1 : 0 <= c1 < N * N).

(** The prover returns the numbers of its draws. *)
Lemma MtAResp_returns x y r c2 d t : drawsOk N Nt d ->
  MtARespZKProofProve x y r c1 c2 (goodPk l N) (goodNt Nt h1 h2) (drawTape d ++ t)
  = Ok (respOfNumbers (respNumbers N Nt h1 h2 c1 [] x y r c2 d), t).
Proof.
  intros Hd. unfold MtARespZKProofProve.
  erewrite rnd_bind_run by (apply lift_run; reflexivity). cbv beta iota.
  erewrite rnd_bind_run by (apply lift_run; reflexivity). cbv beta iota zeta.
  erewrite rnd_bind_run by now apply drawResp_run.
  apply lift_run. exact (respBody_run Hq N Nt h1 h2 c1 HN HNt Hh1 Hh2 Hc1 [] x y r c2 d).
Qed.

Lemma MtAResp_prove_inv x y r c2 t pf t' :
  MtARespZKProofProve x y r c1 c2 (goodPk l N) (goodNt Nt h1 h2) t = Ok (pf, t') ->
  exists d, pf = respOfNumbers (respNumbers N Nt h1 h2 c1 [] x y r c2 d).
Proof.
  intros HP. unfold MtARespZKProofProve in HP.
  erewrite rnd_bind_run in HP by (apply lift_run; reflexivity). cbv beta iota in HP.
  erewrite rnd_bind_run in HP by (apply lift_run; reflexivity). cbv beta iota zeta in HP.
  apply rnd_bind_Ok in HP as (d & t1 & _ & HP). exists d.
  change [] with (Some <$> ([] : list Z)) in HP.
  rewrite (respBody_run Hq N Nt h1 h2 c1 HN HNt Hh1 Hh2 Hc1) in HP. now injection HP as <- _.
Qed.

Lemma MtAResp_decided x y r c2 d :
  [mod N * N] c2 == zpow (N * N) c1 x * ((1 + y * N) * r ^ N) -> 0 <= c2 < N * N ->
  let pf := respOfNumbers (respNumbers N Nt h1 h2 c1 [] x y r c2 d) in
  MtARespZKProofVerify (Some pf) (Some c1) (Some c2) (Some (goodPk l N)) (Some (goodNt Nt h1 h2))
    = Ok (respFieldsOk c1 c2 pf).
Proof.
  intros Hc2 R2.
  pose proof (fun k => respGuards_decide l N Nt h1 h2 c1 HN HNt [] x y r c2 d k R1 R2) as HG.
  pose proof (respEquations_hold Hq N Nt h1 h2 c1 HN HNt Hh1 Hh2 Hc1 [] x y r c2 d Hc2) as HE.
  unfold respNumbers, respOfNumbers, MtARespZKProofVerify in *. cbn zeta beta iota in HG, HE |- *.
  rewrite HG. destruct (respFieldsOk _ _ _); [|done].
  unfold Sha512_256. cbn [foldRange deref mbind res_bind app]. rewrite Mod_pos by lia.
  cbn [mbind res_bind]. exact HE.
Qed.
End respAny.

Section awcAny.
Context `{L : CurveLaws} `{G : GoLib}.
Context (l : string) (N Nt h1 h2 c1 : Z).
Hypotheses (HN : 2 <= N) (HNt : 2 <= Nt) (Hh1 : Z.coprime h1 Nt) (Hh2 : Z.coprime h2 Nt).
Hypotheses (Hc1 : Z.coprime c1 (N * N)) (R1 : 0 <= c1 < N * N).

Abbreviation q := (cN S256).

(** The points hashed in front: [U = alpha*G] and [X = x*G]. *)
Definition awcPrefix (x alpha : Z) : list Z := [(pt alpha).1; (pt alpha).2; (pt x).1; (pt x).2].

Definition awcNumbers (x y r c2 : Z) (d : respDraws) :=
  respNumbers N Nt h1 h2 c1 (awcPrefix x (dAlpha d)) x y r c2 d.

Definition awcOf (x y r c2 : Z) (d : respDraws) : MtAwcRespZKProof :=
  mkMtAwc (Some (pt (dAlpha d)).1) (Some (pt (dAlpha d)).2) (respOfNumbers (awcNumbers x y r c2 d)).

Lemma MtAwc_returns x y r c2 d t : drawsOk N Nt d -> x mod q <> 0 -> dAlpha d mod q <> 0 ->
  MtAwcRespZKProofProve x y r c1 c2 (goodPk l N) (goodNt Nt h1 h2) (drawTape d ++ t)
  = Ok (awcOf x y r c2 d, t).
Proof.
  intros Hd Hx Ha. pose proof N_ge2. unfold MtAwcRespZKProofProve.
  erewrite rnd_bind_run by (apply lift_run; reflexivity). cbv beta iota.
  erewrite rnd_bind_run by (apply lift_run; reflexivity). cbv beta iota zeta.
  erewrite rnd_bind_run by now apply drawResp_run.
  erewrite rnd_bind_run by (apply lift_run, Mod_pos; lia).
  erewrite rnd_bind_run by now apply lift_run, ScalarBaseMult_mod.
  erewrite rnd_bind_run by (apply lift_run, Mod_pos; lia).
  pose proof (Z.mod_pos_bound x q). destruct (Z.ltb_spec (x mod q) 0); [lia|].
  erewrite rnd_bind_run by now apply lift_run, ScalarBaseMult_mod.
  cbn [mkpt fst snd].
  change [Some (pt (dAlpha d)).1; Some (pt (dAlpha d)).2; Some (pt x).1; Some (pt x).2]
    with (Some <$> awcPrefix x (dAlpha d)).
  erewrite rnd_bind_run by (apply lift_run, respBody_run; assumption). reflexivity.
Qed.

Lemma MtAwc_decided x y r c2 d :
  [mod N * N] c2 == zpow (N * N) c1 x * ((1 + y * N) * r ^ N) -> 0 <= c2 < N * N ->
  let e := (awcNumbers x y r c2 d).1.1 in let alpha := dAlpha d in
  x mod q <> 0 -> alpha mod q <> 0 -> e <> 0 ->
  (e * x + alpha) mod q <> 0 -> (e * x - alpha) mod q <> 0 ->
  MtAwcRespZKProofVefify (Some (awcOf x y r c2 d)) [Some (pt x).1; Some (pt x).2] (Some c1) (Some c2)
    (Some (goodPk l N)) (Some (goodNt Nt h1 h2))
  = Ok (respFieldsOk c1 c2 (respOfNumbers (awcNumbers x y r c2 d))).
Proof.
  intros Hc2 R2 e alpha Hx Ha He0 Hs Hd. pose proof N_ge2 as Hq.
  pose proof (fun k => respGuards_decide l N Nt h1 h2 c1 HN HNt (awcPrefix x (dAlpha d)) x y r c2 d k R1 R2) as HG.
  pose proof (respEquations_hold Hq N Nt h1 h2 c1 HN HNt Hh1 Hh2 Hc1
    (awcPrefix x (dAlpha d)) x y r c2 d Hc2) as HE.
  assert (He : 0 <= e < q) by (apply Z.mod_pos_bound; lia).
  assert (He' : e mod q <> 0) by now rewrite Z.mod_small.
  destruct (awc_point x e alpha He Hx Ha He' Hs Hd) as (P1 & exG & P2 & P3).
  unfold awcOf, awcNumbers, respNumbers, respOfNumbers, MtAwcRespZKProofVefify in *.
  cbn zeta beta iota in HG, HE |- *. cbn [length Nat.eqb]. rewrite HG. destruct (respFieldsOk _ _ _); [|done].
  assert (Hc : checkPointOnCurve [Some (pt x).1; Some (pt x).2] = true).
  { unfold checkPointOnCurve. cbn -[IsOnCurve]. now rewrite IsOnCurve_pt. }
  rewrite Hc. cbn [negb].
  unfold Sha512_256. cbn [foldRange deref mbind res_bind app]. rewrite Mod_pos by lia.
  cbn [mbind res_bind]. rewrite Mod_pos by lia. cbn [mbind res_bind].
  cbn [fst] in e. unfold respChallenge, awcPrefix in e, HE |- *. cbn [app] in e, HE |- *.
  fold e. fold e in HE. fold alpha. fold alpha in HE.
  pose proof (Z.mod_pos_bound (e * x + alpha) q).
  destruct (Z.ltb_spec ((e * x + alpha) mod q) 0); [lia|].
  rewrite P1. cbn [mbind res_bind]. change (Some (pt x).1, Some (pt x).2) with (mkpt (pt x)).
  rewrite P2. cbn [mbind res_bind]. change (Some (pt alpha).1, Some (pt alpha).2) with (mkpt (pt alpha)).
  rewrite P3. cbn [mbind res_bind]. rewrite IsOnCurvePt_pt by assumption. cbn [mbind res_bind negb].
  cbn [mkpt fst snd CmpEq deref mbind res_bind]. rewrite !Z.eqb_refl. cbn [negb]. exact HE.
Qed.
End awcAny.

(** C31: the A.1 range proof is complete.  For a ciphertext of [0 <= m < q] whose
    randomness is a unit the prover returns, on all draws that leave room for the
    response ([2 <= alpha <= q^3 - q^2], [2 <= gamma]), a proof the verifier accepts
    unless one of the elements [z], [w], [u], [c] and [s] is the number 1.  For any
    plaintext at all the verifier accepts a proof the prover returned exactly when its
    response is at most [q^3] and no field is 0 or 1. *)
Theorem MtARange_complete `{E : Curve} `{G : GoLib} l N Nt h1 h2 c m r :
  2 <= cN S256 -> 2 <= N -> 2 <= Nt -> Z.coprime h1 Nt -> Z.coprime h2 Nt ->
  [mod N * N] c == (1 + m * N) * r ^ N -> 0 <= c < N * N ->
  let q := cN S256 in
  let Prove := MtARangeProofProve c m r (goodPk l N) (goodNt Nt h1 h2) in
  let Verify pf := MtARangeProofVerify (Some pf) (Some c) (Some (goodPk l N)) (Some (goodNt Nt h1 h2)) in
  (0 <= m < q -> Z.coprime r N ->
   forall alpha beta gamma rho t,
     drawZn (q * q * q) alpha -> drawZnStar N beta -> drawZn (q * q * q * Nt) gamma -> drawZn (q * Nt) rho ->
     2 <= alpha <= q * q * q - q * q -> 2 <= gamma ->
     exists z u w s s1 s2,
       let pf := mkMtARange (Some z) (Some u) (Some w) (Some s) (Some s1) (Some s2) in
       Prove (Some alpha :: Some beta :: Some gamma :: Some rho :: t) = Ok (pf, t) /\
       Verify pf = Ok (noOnes [z; w; u; c; s])) /\
  (forall t pf t', Prove t = Ok (pf, t') ->
     exists z u w s s1 s2,
       pf = mkMtARange (Some z) (Some u) (Some w) (Some s) (Some s1) (Some s2) /\
       Verify pf = Ok ((s1 <=? q * q * q) && nontrivialAll [z; w; u; c; s; s1; s2])).
Proof.
  intros Hq HN HNt Hh1 Hh2 Hc Rc q Prove Verify. split.
  - intros Hm Hr alpha beta gamma rho t Ha Hb Hg Hrho Ba Bg. apply MtARange_outcome; try assumption.
    intros e He. unfold N3. fold q in He |- *. nia.
  - intros t pf t' HP. pose proof (MtARange_decided Hq l N Nt h1 h2 HN HNt Hh1 Hh2 c m r t pf t' Hc Rc HP) as HV.
    apply MtARange_prove_inv in HP as (alpha & beta & gamma & rho & u & _ & _ & _ & HP); [|assumption..].
    destruct (rangeProof N Nt h1 h2 c m r alpha beta gamma rho u) as [e [[[[z w] s] s1] s2]].
    subst pf. do 6 eexists. split; [reflexivity|]. exact HV.
Qed.

(** The Paillier modulus 187, the auxiliary modulus 253 = 11*23. *)
Definition pk187 : PublicKey := goodPk "8" 187.
Definition nt253 : NtildeH1H2 := goodNt 253 4 192.

Lemma drawsRange_example : @drawZn (N3 (@S256 toy)) 7 /\ drawZnStar 187 21 /\
  @drawZn (N3 (@S256 toy) * 253) 9 /\ drawZn (cN (@S256 toy) * 253) 6.
Proof. vm_compute. intuition congruence. Defined.

Lemma MtARange_complete_witness : exists pf,
  MtARangeProofProve 15723 7 9 pk187 nt253 [Some 7; Some 21; Some 9; Some 6] = Ok (pf, []) /\
  MtARangeProofVerify (Some pf) (Some 15723) (Some pk187) (Some nt253) = Ok true.
Proof.
  destruct (MtARange_complete (E := toy) "8" 187 253 4 192 15723 7 9) as [HP _].
  1-3: vm_compute; discriminate.
  1-2: reflexivity.
  - apply eqm_iff. vm_compute. reflexivity.
  - split; [discriminate|reflexivity].
  - destruct drawsRange_example as (Da & Db & Dg & Dr).
    destruct (HP ltac:(vm_compute; intuition congruence) eq_refl 7 21 9 6 [] Da Db Dg Dr
      ltac:(vm_compute; intuition congruence) ltac:(lia)) as (z & u & w & s & s1 & s2 & H1 & H2).
    eexists. split; [exact H1|]. etransitivity; [exact H2|]. vm_compute in H1. injection H1 as <- <- <- <- <- <-. reflexivity.
Defined.

(** C32: the range proof does not bound the plaintext from below, although the
    response is meant to force [-q^3 <= m <= q^3].  Whatever [m] a ciphertext with a
    unit for randomness holds, the prover run on a representative [m - k*N <= -q^3]
    returns, on all draws with [2 <= alpha] and [2 <= gamma], a proof that the verifier
    accepts under the same condition as an honest one: unless one of the elements
    [z], [w], [u], [c] and [s] is the number 1. *)
Theorem MtARange_unbounded `{E : Curve} `{G : GoLib} l N Nt h1 h2 c m r k :
  2 <= cN S256 -> 2 <= N -> 2 <= Nt -> Z.coprime h1 Nt -> Z.coprime h2 Nt ->
  let q := cN S256 in
  [mod N * N] c == (1 + m * N) * r ^ N -> 0 <= c < N * N -> Z.coprime r N -> m - k * N <= - (q * q * q) ->
  forall alpha beta gamma rho t,
    drawZn (q * q * q) alpha -> drawZnStar N beta -> drawZn (q * q * q * Nt) gamma -> drawZn (q * Nt) rho ->
    2 <= alpha -> 2 <= gamma ->
    exists z u w s s1 s2,
      let pf := mkMtARange (Some z) (Some u) (Some w) (Some s) (Some s1) (Some s2) in
      MtARangeProofProve c (m - k * N) r (goodPk l N) (goodNt Nt h1 h2)
        (Some alpha :: Some beta :: Some gamma :: Some rho :: t) = Ok (pf, t) /\
      MtARangeProofVerify (Some pf) (Some c) (Some (goodPk l N)) (Some (goodNt Nt h1 h2))
        = Ok (noOnes [z; w; u; c; s]).
Proof.
  intros Hq HN HNt Hh1 Hh2 q Hc Rc Hr Hm alpha beta gamma rho t Ha Hb Hg Hrho Ba Bg.
  apply MtARange_outcome; try assumption.
  - rewrite Hc. exists (k * r ^ N). ring.
  - intros e He. unfold N3. fold q in He |- *. destruct Ha as [Ha _]. destruct (Z.eq_dec e 0) as [->|]; nia.
Qed.

Lemma MtARange_unbounded_witness : exists pf,
  MtARangeProofProve 15723 (7 - 10 ^ 9 * 187) 9 pk187 nt253
    [Some 7; Some 21; Some 9; Some 6] = Ok (pf, []) /\
  MtARangeProofVerify (Some pf) (Some 15723) (Some pk187) (Some nt253) = Ok true.
Proof.
  destruct drawsRange_example as (Da & Db & Dg & Dr).
  destruct (MtARange_unbounded (E := toy) "8" 187 253 4 192 15723 7 9 (10 ^ 9)
    ltac:(vm_compute; discriminate) ltac:(lia) ltac:(lia) eq_refl eq_refl
    ltac:(apply eqm_iff; vm_compute; reflexivity) ltac:(lia) eq_refl ltac:(vm_compute; discriminate)
    7 21 9 6 [] Da Db Dg Dr ltac:(lia) ltac:(lia)) as (z & u & w & s & s1 & s2 & H1 & H2).
  eexists. split; [exact H1|]. etransitivity; [exact H2|]. vm_compute in H1. injection H1 as <- <- <- <- <- <-. reflexivity.
Defined.

(** C33: the A.3 respondent's proof is complete.  For [c2 = c1^x * Enc(y; r)] with
    [0 <= x < q], [0 <= y] and [r] a unit the prover returns, on all draws that leave
    room for the responses, a proof the verifier accepts unless one of the eight
    elements [c1], [c2], [z], [zBar], [t], [v], [w] and [s] is the number 1.  For any
    [x] and [y] at all the verifier accepts a returned proof exactly when its
    response [S1] is at most [q^3] and no field is 0 or 1. *)
Theorem MtAResp_complete `{E : Curve} `{G : GoLib} l N Nt h1 h2 c1 c2 x y r :
  2 <= cN S256 -> 2 <= N -> 2 <= Nt -> Z.coprime h1 Nt -> Z.coprime h2 Nt ->
  Z.coprime c1 (N * N) -> 0 <= c1 < N * N -> 0 <= c2 < N * N ->
  [mod N * N] c2 == zpow (N * N) c1 x * ((1 + y * N) * r ^ N) ->
  let q := cN S256 in
  let Prove := MtARespZKProofProve x y r c1 c2 (goodPk l N) (goodNt Nt h1 h2) in
  let Verify pf := MtARespZKProofVerify (Some pf) (Some c1) (Some c2) (Some (goodPk l N))
                     (Some (goodNt Nt h1 h2)) in
  (0 <= x < q -> 0 <= y -> Z.coprime r N ->
   forall d tape, drawsOk N Nt d -> roomy d -> exists z zBar t v w s s1 s2 t1 t2,
     let pf := mkMtAResp (Some z) (Some zBar) (Some t) (Some v) (Some w) (Some s)
                 (Some s1) (Some s2) (Some t1) (Some t2) in
     Prove (drawTape d ++ tape) = Ok (pf, tape) /\ Verify pf = Ok (noOnes [c1; c2; z; zBar; t; v; w; s])) /\
  (forall tape pf tape', Prove tape = Ok (pf, tape') -> exists z zBar t v w s s1 s2 t1 t2,
     pf = mkMtAResp (Some z) (Some zBar) (Some t) (Some v) (Some w) (Some s)
            (Some s1) (Some s2) (Some t1) (Some t2) /\
     Verify pf = Ok ((s1 <=? q * q * q) && nontrivialAll [c1; c2; z; zBar; t; v; w; s; s1; s2; t1; t2])).
Proof.
  intros Hq HN HNt Hh1 Hh2 Hc1 R1 R2 Hc2 q Prove Verify. split.
  - intros Hx Hy Hr d tape Hd Hroom.
    pose proof (MtAResp_returns Hq l N Nt h1 h2 c1 HN HNt Hh1 Hh2 Hc1 x y r c2 d tape Hd) as HP.
    pose proof (MtAResp_decided Hq l N Nt h1 h2 c1 HN HNt Hh1 Hh2 Hc1 R1 x y r c2 d Hc2 R2) as HV.
    pose proof (resp_fields Hq N Nt h1 h2 c1 HN HNt Hh1 Hh2 Hc1 [] x y r c2 d Hc2 Hr Hx Hy Hd Hroom) as HF.
    cbv zeta in HV. unfold respNumbers in HP, HV, HF. cbv beta iota zeta in HF. rewrite HF in HV.
    do 10 eexists. split; [exact HP|exact HV].
  - intros tape pf tape' HP. apply MtAResp_prove_inv in HP as (d & ->); [|assumption..].
    pose proof (MtAResp_decided Hq l N Nt h1 h2 c1 HN HNt Hh1 Hh2 Hc1 R1 x y r c2 d Hc2 R2) as HV.
    do 10 eexists. split; [reflexivity|exact HV].
Qed.

Lemma drawsOk_example : @drawsOk toy 187 253 (mkDraws 7 6 9 8 21 31 11).
Proof.
  repeat match goal with
  | |- _ /\ _ => split
  | |- drawsOk _ _ _ => unfold drawsOk
  | |- drawZn _ _ => split
  | |- drawZnStar _ _ => unfold drawZnStar
  end; try reflexivity; discriminate.
Defined.

Lemma roomy_example : @roomy toy (mkDraws 7 6 9 8 21 31 11).
Proof. vm_compute. intuition congruence. Defined.

Lemma MtAResp_complete_witness : exists pf,
  MtARespZKProofProve 5 20 9 15723 4195 pk187 nt253 (drawTape (mkDraws 7 6 9 8 21 31 11) ++ [])
  = Ok (pf, []) /\
  MtARespZKProofVerify (Some pf) (Some 15723) (Some 4195) (Some pk187) (Some nt253) = Ok true.
Proof.
  destruct (MtAResp_complete (E := toy) "8" 187 253 4 192 15723 4195 5 20 9) as [HP _].
  1-3: vm_compute; discriminate.
  1-3: reflexivity.
  1-2: split; [discriminate|reflexivity].
  - apply eqm_iff. vm_compute. reflexivity.
  - destruct (HP ltac:(vm_compute; intuition congruence) ltac:(lia) eq_refl _ [] drawsOk_example roomy_example)
      as (z & zb & t & v & w & s & s1 & s2 & t1 & t2 & H1 & H2).
    eexists. split; [exact H1|]. etransitivity; [exact H2|]. vm_compute in H1.
    injection H1 as <- <- <- <- <- <- <- <- <- <-. reflexivity.
Defined.

(** C34: the A.2 respondent's proof with check is complete.  For [X = x*G],
    [0 < x < q], and [c2 = c1^x * Enc(y; r)] with [0 <= y] and [r] a unit the prover
    returns, on all draws that leave room for the responses and with [alpha] not a
    multiple of [q], a proof the verifier accepts for [X] when the challenge [e] is not
    zero and [e*X] is neither [U] nor [-U] (the exceptional cases of the point
    addition), unless one of the eight elements [c1], [c2], [z], [zBar], [t], [v], [w]
    and [s] is the number 1. *)
Theorem MtAwc_complete `{L : CurveLaws} `{G : GoLib} l N Nt h1 h2 c1 c2 x y r d tape :
  2 <= N -> 2 <= Nt -> Z.coprime h1 Nt -> Z.coprime h2 Nt ->
  Z.coprime c1 (N * N) -> 0 <= c1 < N * N -> 0 <= c2 < N * N ->
  [mod N * N] c2 == zpow (N * N) c1 x * ((1 + y * N) * r ^ N) ->
  0 < x < cN S256 -> 0 <= y -> Z.coprime r N ->
  drawsOk N Nt d -> roomy d -> dAlpha d mod cN S256 <> 0 ->
  exists ux uy z zBar t v w s s1 s2 t1 t2,
    let pf := mkMtAwc (Some ux) (Some uy) (mkMtAResp (Some z) (Some zBar) (Some t) (Some v) (Some w) (Some s)
                (Some s1) (Some s2) (Some t1) (Some t2)) in
    MtAwcRespZKProofProve x y r c1 c2 (goodPk l N) (goodNt Nt h1 h2) (drawTape d ++ tape) = Ok (pf, tape) /\
    let e := SetBytes (sha512_256 (Sha512_256_data
               [ux; uy; (pt x).1; (pt x).2; z; zBar; t; v; w; c1; c2; N])) mod cN S256 in
    (e <> 0 -> (e * x + dAlpha d) mod cN S256 <> 0 -> (e * x - dAlpha d) mod cN S256 <> 0 ->
     MtAwcRespZKProofVefify (Some pf) [Some (pt x).1; Some (pt x).2] (Some c1) (Some c2)
       (Some (goodPk l N)) (Some (goodNt Nt h1 h2)) = Ok (noOnes [c1; c2; z; zBar; t; v; w; s])).
Proof.
  intros HN HNt Hh1 Hh2 Hc1 R1 R2 Hc2 Hx Hy Hr Hd Hroom Ha. pose proof N_ge2 as Hq.
  assert (Hx0 : x mod cN S256 <> 0) by (rewrite Z.mod_small; lia).
  pose proof (MtAwc_returns l N Nt h1 h2 c1 HN HNt Hh1 Hh2 Hc1 x y r c2 d tape Hd Hx0 Ha) as HP.
  pose proof (MtAwc_decided l N Nt h1 h2 c1 HN HNt Hh1 Hh2 Hc1 R1 x y r c2 d Hc2 R2 Hx0 Ha) as HV.
  pose proof (resp_fields Hq N Nt h1 h2 c1 HN HNt Hh1 Hh2 Hc1 (awcPrefix x (dAlpha d)) x y r c2 d Hc2 Hr
    ltac:(lia) Hy Hd Hroom) as HF.
  unfold awcOf, awcNumbers, respNumbers in HP, HV, HF. cbv beta iota zeta in HF. rewrite HF in HV.
  do 12 eexists. split; [exact HP|]. exact HV.
Qed.

Lemma MtAwc_complete_witness : exists pf,
  MtAwcRespZKProofProve 5 20 9 15723 4195 pk187 nt253
    (drawTape (mkDraws 7 6 9 8 21 31 11) ++ []) = Ok (pf, []) /\
  MtAwcRespZKProofVefify (Some pf) [Some (toy_pt 5).1; Some (toy_pt 5).2] (Some 15723) (Some 4195)
    (Some pk187) (Some nt253) = Ok true.
Proof.
  destruct (MtAwc_complete (L := toy_laws) "8" 187 253 4 192 15723 4195 5 20 9
    (mkDraws 7 6 9 8 21 31 11) []) as (ux & uy & z & zb & t & v & w & s & s1 & s2 & t1 & t2 & H1 & H2).
  1-2: vm_compute; discriminate.
  1-3: reflexivity.
  1-2: split; [discriminate|reflexivity].
  1: apply eqm_iff; vm_compute; reflexivity.
  1: split; reflexivity.
  1: lia.
  1: reflexivity.
  1: exact drawsOk_example.
  1: exact roomy_example.
  1: vm_compute; discriminate.
  eexists. split; [exact H1|]. vm_compute in H1.
  injection H1 as <- <- <- <- <- <- <- <- <- <- <- <-.
  etransitivity; [apply H2; vm_compute; discriminate|]. reflexivity.
Defined.

(** The JSON codecs of the three proofs are inverse to each other. *)
Theorem mta_json_roundtrip `{JsonLaws} z zBar t v w s s1 s2 t1 t2 u ux uy :
  let range := mkMtARange (Some z) (Some u) (Some w) (Some s) (Some s1) (Some s2) in
  let resp := mkMtAResp (Some z) (Some zBar) (Some t) (Some v) (Some w) (Some s) (Some s1)
                (Some s2) (Some t1) (Some t2) in
  let awc := mkMtAwc (Some ux) (Some uy) resp in
  MtARangeProof_UnmarshalJSON (MtARangeProof_MarshalJSON range) = Ok range /\
  MtARespZKProof_UnmarshalJSON (MtARespZKProof_MarshalJSON resp) = Ok resp /\
  MtAwcRespZKProof_UnmarshalJSON (MtAwcRespZKProof_MarshalJSON awc) = Ok awc.
Proof.
  assert (Hn : forall names, bool_decide (NoDup names) = true -> NoDup (A := string) names)
    by (intros names; apply bool_decide_eq_true).
  repeat split.
  - unfold MtARangeProof_UnmarshalJSON, MtARangeProof_MarshalJSON. cbn [rZ rU rW rS rS1 rS2].
    change [Some z; Some u; Some w; Some s; Some s1; Some s2]
      with (Some <$> [z; u; w; s; s1; s2]).
    rewrite ints_roundtrip; [done|reflexivity|apply Hn; reflexivity|reflexivity].
  - unfold MtARespZKProof_UnmarshalJSON, MtARespZKProof_MarshalJSON.
    change (respFields _) with (Some <$> [z; zBar; t; v; w; s; s1; s2; t1; t2]).
    rewrite ints_roundtrip; [done|reflexivity|apply Hn; reflexivity|reflexivity].
  - unfold MtAwcRespZKProof_UnmarshalJSON, MtAwcRespZKProof_MarshalJSON. cbn [wUx wUy wResp].
    change ([Some ux; Some uy] ++ _) with (Some <$> [ux; uy; z; zBar; t; v; w; s; s1; s2; t1; t2]).
    rewrite ints_roundtrip; [done|reflexivity|apply Hn; reflexivity|reflexivity].
Qed.

Lemma mta_json_roundtrip_witness :
  MtARangeProof_UnmarshalJSON (MtARangeProof_MarshalJSON
    (mkMtARange (Some 1) (Some 11) (Some 5) (Some 6) (Some (-7)) (Some 8)))
  = Ok (mkMtARange (Some 1) (Some 11) (Some 5) (Some 6) (Some (-7)) (Some 8)).
Proof. apply (mta_json_roundtrip 1 2 3 4 5 6 (-7) 8 9 10 11 12 13). Defined.
