(* ===== verification/SquareFree.v ===== *)
(** The proof that a modulus is square-free, [smpc-lib/crypto/ec2/squarefreeZK.go]:
    the values derived from the modulus, prover, verifier and JSON codec. *)

From Stdlib Require Import ZArith Lia Zcong Zdivisibility.
From S2P Require Import Prelude NumTheory Primality GoBig Random Text IntGo Json Paillier Ntilde.

#[local] Open Scope Z_scope.

(** [len(x.Bytes())]. *)
Definition byteCount (x : Z) : Z := Z.of_nat (length (Bytes x)).

Record SquareFreeProof := mkSquareFree { sfSigma : list bigint }.

(** The constant [m] and the bound [alpha] of the trial division. *)
Definition sfRounds : nat := 8.
Definition sfAlpha : nat := 65537.

Definition productString : Z := SetBytes (bytes "productoftwoprimesproof").

Section squarefree.
Context `{L : GoLib}.

(** The goroutine of one index: short hashes are collected until they are as
    long as [n]; [fuel] bounds the number of hashes, [Starve] when it is out. *)
Fixpoint calcXloop (fuel : nat) (n num index l : Z) (tmp : list Z) (inlen try : Z) : res bigint :=
  match fuel with
  | O => Starve
  | S f =>
      h ← Sha512_256 [Some try; Some num; Some productString; Some index];
      try ← deref h;
      let candidate diff tmp :=
        X ← joinInt (Some <$> tmp) diff;
        match X with
        | None => Ok None
        | Some X =>
            X ← Mod X n;
            if IsNumberInMultiplicativeGroup (Some n) (Some X) then Ok (Some X)
            else calcXloop f n num index l [] 0 try
        end in
      if l <? inlen + byteCount try then
        let diff := l - inlen in
        if 0 <? diff then candidate diff tmp else Ok None
      else
        let tmp := tmp ++ [try] in
        let inlen := inlen + byteCount try in
        if inlen =? l then candidate 0 tmp else calcXloop f n num index l tmp inlen try
  end.

Definition CalcX (fuel : nat) (n num : bigint) : res (option (list Z)) :=
  match n, num with
  | Some n, Some num =>
      if n <=? 0 then Ok None else if num <? 0 then Ok None else
      num ← Mod num n;
      let l := byteCount n in
      roh ← mapRange (fun index => calcXloop fuel n num index l [] 0 n)
              (Z.of_nat <$> seq 0 sfRounds);
      Ok (allSome roh)
  | _, _ => Ok None
  end.

Definition SquareFreeProve (fuel : nat) (n num l : bigint) : res (option SquareFreeProof) :=
  match n, num, l with
  | Some n, Some num, Some l =>
      if num <? 0 then Ok None else
      X ← CalcX fuel (Some n) (Some num);
      match X with
      | None => Ok None
      | Some X =>
          match ModInverse n l with
          | None => Ok None
          | Some M => Ok (Some (mkSquareFree ((fun v => Exp v M n) <$> X)))
          end
      end
  | _, _, _ => Ok None
  end.

(** [for i := 2; i < alpha; i++]: a prime below [alpha] that divides [n]. *)
Definition smallFactor (n : Z) : bool :=
  existsb (fun i => ProbablyPrime i && (n mod i =? 0)) (Z.of_nat <$> seq 2 (sfAlpha - 2)).

Definition SquareFreeVerify (fuel : nat) (n num : bigint) (proof : option SquareFreeProof) : res bool :=
  match n, num, proof with
  | Some n, Some num, Some pf =>
      if num <? 0 then Ok false else
      if negb (Nat.eqb (length (sfSigma pf)) sfRounds) then Ok false else
      X ← CalcX fuel (Some n) (Some num);
      match X with
      | None => Ok false
      | Some X =>
          if n <=? 0 then Ok false else
          if smallFactor n then Ok false else
          inRange ← checkAll (sfSigma pf) (fun _ v =>
            v ← deref v; Ok (negb ((v <=? 0) || (n <=? v))));
          if negb inRange then Ok false else
          checkAll X (fun k v =>
            s ← index (sfSigma pf) k; s ← deref s;
            yn ← deref (Exp s n n);
            xn ← Mod v n;
            Ok (yn =? xn))
      end
  | _, _, _ => Ok false
  end.
End squarefree.

(** * JSON *)

Section json.
Context `{J : JsonLib}.

Definition sigma_MarshalJSON (sigma : list bigint) : string :=
  json_Marshal [("Y", Join colon (Sprintf_v <$> sigma))].

Definition sigma_UnmarshalJSON (raw : string) : res (list bigint) :=
  match json_Unmarshal raw with
  | None => Err "json"
  | Some zk => parseInts "get sigma fail" (Split colon (field "Y" zk))
  end.

Definition SquareFreeProof_MarshalJSON (sfpf : SquareFreeProof) : string :=
  sigma_MarshalJSON (sfSigma sfpf).

Definition SquareFreeProof_UnmarshalJSON (raw : string) : res SquareFreeProof :=
  sigma ← sigma_UnmarshalJSON raw; Ok (mkSquareFree sigma).
End json.

(** * The derived values *)

Definition inZnStar (n x : Z) : Prop := 1 <= x < n /\ Z.coprime x n.

Section facts.
Context `{L : GoLib}.

Lemma calcXloop_unit fuel n num index l : forall tmp inlen try X,
  calcXloop fuel n num index l tmp inlen try = Ok (Some X) -> inZnStar n X.
Proof.
  induction fuel as [|f IH]; intros tmp inlen try X H; [discriminate|]. cbn [calcXloop] in H.
  apply res_bind_Ok in H as (h & _ & H). apply res_bind_Ok in H as (try' & _ & H).
  assert (Hcand : forall diff tmp',
    (X0 ← joinInt (Some <$> tmp') diff;
     match X0 with
     | None => Ok None
     | Some X0 =>
         X1 ← Mod X0 n;
         if IsNumberInMultiplicativeGroup (Some n) (Some X1) then Ok (Some X1)
         else calcXloop f n num index l [] 0 try'
     end) = Ok (Some X) -> inZnStar n X).
  { intros diff tmp' Hc. apply res_bind_Ok in Hc as ([X0|] & _ & Hc); [|discriminate].
    apply res_bind_Ok in Hc as (X1 & _ & Hc).
    destruct (IsNumberInMultiplicativeGroup (Some n) (Some X1)) eqn:E; [|now apply IH in Hc].
    injection Hc as <-. now apply IsNumberInMultiplicativeGroup_true. }
  cbv zeta in H. destruct (l <? inlen + byteCount try').
  - destruct (0 <? l - inlen); [|discriminate]. exact (Hcand _ _ H).
  - destruct (inlen + byteCount try' =? l); [exact (Hcand _ _ H)|exact (IH _ _ _ _ H)].
Qed.

Lemma CalcX_units fuel n num X : CalcX fuel (Some n) (Some num) = Ok (Some X) ->
  0 < n /\ 0 <= num /\ length X = sfRounds /\ Forall (inZnStar n) X.
Proof.
  unfold CalcX. destruct (Z.leb_spec n 0); [discriminate|].
  destruct (Z.ltb_spec num 0); [discriminate|]. rewrite Mod_pos by assumption. cbn [mbind res_bind].
  intros (roh & Hroh & E)%res_bind_Ok. injection E as ->%allSome_Some. apply mapRange_Forall2 in Hroh.
  split; [assumption|]. split; [assumption|]. split.
  - apply Forall2_length in Hroh. rewrite !length_fmap, length_seq in Hroh. congruence.
  - apply Forall2_fmap_r, Forall2_Forall_r with (Q := inZnStar n) in Hroh; [assumption|].
    apply Forall_forall. intros index _ x Hx. exact (calcXloop_unit _ _ _ _ _ _ _ _ _ Hx).
Qed.

(** * The prover's roots *)

(** The exponent [n^-1 mod (p-1)(q-1)] takes [n]-th roots modulo [n = p q]. *)
Lemma nth_root p q M x : Z.prime p -> Z.prime q -> p <> q -> Z.coprime x (p * q) -> 0 <= M ->
  [mod (p - 1) * (q - 1)] p * q * M == 1 -> [mod p * q] (x ^ M) ^ (p * q) == x.
Proof.
  intros Hp Hq Hpq Hx HM HE. pose proof (prime_pos p Hp). pose proof (prime_pos q Hq).
  rewrite <- Z.pow_mul_r by nia. rewrite (Z.mul_comm M). destruct HE as [k Hk].
  assert (Hl : 0 < (p - 1) * (q - 1)) by nia.
  destruct (Z.eq_dec M 0) as [->|HM0].
  { (* then [(p-1)(q-1)] divides one, so [p = q = 2] *)
    exfalso. assert (Hu : ((p - 1) * (q - 1) | 1)) by (exists (- k); lia).
    apply Z.divide_1_r_nonneg in Hu; [|lia]. nia. }
  assert (Hk0 : 0 <= k) by nia.
  assert (Hone : forall r s, Z.prime r -> Z.coprime x r -> 0 <= s ->
    [mod r] x ^ ((r - 1) * s + 1) == x).
  { intros r s Hr Hxr Hs. pose proof (prime_pos r Hr). rewrite Z.pow_add_r, Z.pow_1_r by nia.
    assert (Hx0 : x mod r <> 0) by (apply coprime_mod_ne0; [lia|assumption]).
    rewrite Z.pow_mul_r, (fermat r x Hr Hx0), (eqm_1_pow r s Hs), Z.mul_1_l by lia. reflexivity. }
  apply crt; [now apply prime_ne_coprime| |].
  - replace (p * q * M) with ((p - 1) * ((q - 1) * k) + 1) by lia. apply Hone; [assumption| |nia].
    apply (coprime_divide_r x (p * q)); [apply Z.divide_factor_l|assumption].
  - replace (p * q * M) with ((q - 1) * ((p - 1) * k) + 1) by lia. apply Hone; [assumption| |nia].
    apply (coprime_divide_r x (p * q)); [apply Z.divide_factor_r|assumption].
Qed.

Lemma smallFactor_none p q : Z.prime p -> Z.prime q -> Z.of_nat sfAlpha <= p -> Z.of_nat sfAlpha <= q ->
  smallFactor (p * q) = false.
Proof.
  intros Hp Hq Bp Bq. apply not_true_iff_false. intros H. unfold smallFactor in H.
  apply existsb_exists in H as (i & Hi & H). apply andb_true_iff in H as [_ H%Z.eqb_eq].
  apply list_elem_of_In, list_elem_of_fmap in Hi as (k & -> & Hk%elem_of_seq).
  assert (Hc : forall r, Z.prime r -> Z.of_nat sfAlpha <= r -> Z.gcd (Z.of_nat k) r = 1).
  { intros r Hr Br. apply prime_coprime; [assumption|]. rewrite Z.mod_small by lia. lia. }
  assert (Hd : (Z.of_nat k | p * q)) by now apply eqm_0_divide, eqm_0_mod.
  apply Z.gauss in Hd; [|now apply Hc]. specialize (Hc q Hq Bq).
  assert (Hd1 : (Z.of_nat k | Z.gcd (Z.of_nat k) q)) by now apply Z.gcd_greatest.
  rewrite Hc in Hd1. apply Z.divide_1_r_nonneg in Hd1; lia.
Qed.

Lemma sfAlpha_Z : Z.of_nat sfAlpha = 65537.
Proof. vm_compute. reflexivity. Qed.

(** The trial division finds exactly the prime factors below its bound. *)
Lemma smallFactor_spec `{!GoLibLaws L} n :
  smallFactor n = false <-> forall p, Z.prime p -> p < 65537 -> ~ (p | n).
Proof.
  pose proof sfAlpha_Z as HA. unfold smallFactor. split.
  - intros Hf p Hp Bp Hd. pose proof (prime_pos p Hp). apply not_true_iff_false in Hf. apply Hf.
    apply existsb_exists. exists p. split.
    + apply list_elem_of_In, list_elem_of_fmap. exists (Z.to_nat p). split; [lia|]. apply elem_of_seq. lia.
    + rewrite (ProbablyPrime_prime p Hp). now apply Z.eqb_eq, eqm_0_mod, eqm_0_divide.
  - intros Hn. apply not_true_iff_false. intros H.
    apply existsb_exists in H as (i & Hi & [Hp Hd%Z.eqb_eq]%andb_true_iff).
    apply list_elem_of_In, list_elem_of_fmap in Hi as (k & -> & Hk%elem_of_seq).
    apply ProbablyPrime_small in Hp; [|lia]. apply (Hn _ Hp); [lia|]. now apply eqm_0_divide, eqm_0_mod.
Qed.

(** An [n]-th power is a [p]-th power for a factor [p]: modulo [p^2] it lies in the
    subgroup of the [p-1]-st roots of unity. *)
Lemma nth_power_order p n x s : Z.prime p -> (p * p | n) -> 0 < n -> Z.coprime x n ->
  s ^ n mod n = x mod n -> [mod p * p] x ^ (p - 1) == 1.
Proof.
  intros Hp Hpp Hn Hx Hs%eqm_iff. pose proof (prime_pos p Hp). destruct Hpp as [k ->].
  assert (Hk : 0 < k) by nia.
  assert (Hs2 : [mod p * p] x == (s ^ (k * p)) ^ p).
  { rewrite <- Z.pow_mul_r by nia. replace (k * p * p) with (k * (p * p)) by ring.
    symmetry. apply (eqm_weaken (k * (p * p))); [now exists k|exact Hs]. }
  set (a := s ^ (k * p)) in *.
  assert (Ha : a mod p <> 0).
  { intros H0%eqm_0_mod. apply (coprime_divide_r x _ p) in Hx; [|exists (k * p); ring].
    apply (coprime_mod_ne0 p x ltac:(lia) Hx). apply eqm_0_mod.
    rewrite (eqm_weaken (p * p) p _ _ (Z.divide_factor_l p p) Hs2), H0. now rewrite Z.pow_0_l by lia. }
  rewrite Hs2, <- Z.pow_mul_r, (Z.mul_comm p (p - 1)) by lia. now apply fermat_square.
Qed.
End facts.

(** * JSON round trip *)

Lemma sigma_roundtrip `{JsonLaws} l : l <> [] ->
  sigma_UnmarshalJSON (sigma_MarshalJSON (Some <$> l)) = Ok (Some <$> l).
Proof.
  intros Hne. unfold sigma_UnmarshalJSON, sigma_MarshalJSON. rewrite json_roundtrip.
  - cbn [field String.eqb Ascii.eqb Bool.eqb]. rewrite <- list_fmap_compose.
    change (Sprintf_v ∘ Some) with (fun z : Z => Sprintf_v (Some z)).
    rewrite Split_strings by (reflexivity || assumption). apply parseInts_ok.
  - unfold asciiObject. cbn [forallb fst snd]. now rewrite isAscii_Join_ints.
Qed.

(** * Claims *)

(** For [n] a product of two distinct primes above the trial-division bound
    that is coprime to [(p-1)(q-1)], the prover returns whenever the values are
    derived, and the verifier accepts its proof; the codec preserves the proof. *)
Theorem SquareFree_complete `{L : GoLib} `{J : JsonLaws} fuel p q num X :
  let n := p * q in let l := (p - 1) * (q - 1) in
  Z.prime p -> Z.prime q -> p <> q -> Z.of_nat sfAlpha <= p -> Z.of_nat sfAlpha <= q ->
  Z.coprime n l -> CalcX fuel (Some n) (Some num) = Ok (Some X) ->
  exists pf, SquareFreeProve fuel (Some n) (Some num) (Some l) = Ok (Some pf) /\
    SquareFreeVerify fuel (Some n) (Some num) (Some pf) = Ok true /\
    SquareFreeProof_UnmarshalJSON (SquareFreeProof_MarshalJSON pf) = Ok pf.
Proof.
  intros n l Hp Hq Hpq Bp Bq Hc HX. pose proof (CalcX_units _ _ _ _ HX) as (Hn & Hnum & HL & HU).
  pose proof (prime_pos p Hp) as Pp. pose proof (prime_pos q Hq) as Pq. assert (Hl : 0 < l) by (unfold l; nia).
  set (M := Z.invmod n l). pose proof (invmod_range l n Hl) as RM. pose proof (invmod_mul l n Hc) as EM.
  fold M in RM, EM. set (root := fun x => (x ^ M) mod n).
  assert (Hroot : forall x, inZnStar n x -> 1 <= root x < n /\ root x ^ n mod n = x).
  { intros x [Rx Cx].
    assert (E : root x ^ n mod n = x).
    { rewrite <- (Z.mod_small x n) at 2 by lia. apply eqm_iff. unfold root. rewrite eqm_mod.
      now apply nth_root. }
    split; [|exact E]. pose proof (Z.mod_pos_bound (x ^ M) n Hn) as Rr. fold (root x) in Rr.
    destruct (Z.eq_dec (root x) 0) as [H0|]; [|lia].
    rewrite H0, Z.pow_0_l, Zmod_0_l in E by lia. lia. }
  assert (Esig : (fun v => Exp v M n) <$> X = Some <$> (root <$> X)).
  { rewrite <- list_fmap_compose. apply list_fmap_ext. intros i x _. now apply Exp_pos. }
  exists (mkSquareFree (Some <$> (root <$> X))). split; [|split].
  - unfold SquareFreeProve. destruct (Z.ltb_spec num 0); [lia|]. rewrite HX. cbn [mbind res_bind].
    rewrite ModInverse_coprime by assumption. fold M. now rewrite Esig.
  - unfold SquareFreeVerify. destruct (Z.ltb_spec num 0); [lia|]. cbn [sfSigma].
    rewrite !length_fmap, HL. cbn [Nat.eqb sfRounds negb]. rewrite HX. cbn [mbind res_bind].
    destruct (Z.leb_spec n 0); [lia|]. unfold n at 1. rewrite smallFactor_none by assumption.
    rewrite Forall_forall in HU. rewrite (checkAll_pass (Some <$> _)).
    + cbn [mbind res_bind negb]. apply checkAll_pass. intros i x Hi. unfold index.
      rewrite !list_lookup_fmap, Hi. cbn [fmap option_fmap option_map deref mbind res_bind].
      apply list_elem_of_lookup_2, HU, Hroot in Hi as [_ E]. rewrite Exp_pos by lia.
      cbn [deref mbind res_bind]. rewrite Mod_pos by assumption. cbn [mbind res_bind].
      rewrite E. f_equal. apply Z.eqb_eq. rewrite <- E at 2. now rewrite Zmod_mod.
    + intros i x Hi. apply list_elem_of_lookup_2, list_elem_of_fmap in Hi as (y & -> & Hy).
      apply list_elem_of_fmap in Hy as (x0 & -> & [Hr _]%HU%Hroot). cbn [deref mbind res_bind].
      destruct (Z.leb_spec (root x0) 0), (Z.leb_spec n (root x0)); (lia || done).
  - unfold SquareFreeProof_UnmarshalJSON, SquareFreeProof_MarshalJSON. cbn [sfSigma].
    rewrite sigma_roundtrip; [done|]. intros E%fmap_nil_inv. now rewrite E in HL.
Qed.

Lemma SquareFree_complete_witness : exists pf,
  SquareFreeProve 100 (Some (65537 * 65539)) (Some 77) (Some (65536 * 65538)) = Ok (Some pf) /\
  SquareFreeVerify 100 (Some (65537 * 65539)) (Some 77) (Some pf) = Ok true.
Proof.
  assert (HX : exists X, CalcX 100 (Some (65537 * 65539)) (Some 77) = Ok (Some X))
    by (eexists; vm_compute; reflexivity).
  destruct HX as [X HX].
  destruct (SquareFree_complete 100 65537 65539 77 X) as (pf & HP & HV & _).
  1-2: small_prime.
  1: discriminate.
  1-2: apply Z.leb_le; vm_compute; reflexivity.
  1: vm_compute; reflexivity.
  1: exact HX.
  exists pf. split; [exact HP|exact HV].
Defined.

(** What the verifier decides. *)
Lemma SquareFreeVerify_spec `{LL : GoLibLaws} fuel n num sigma :
  SquareFreeVerify fuel (Some n) (Some num) (Some (mkSquareFree sigma)) = Ok true <->
  exists X roots, CalcX fuel (Some n) (Some num) = Ok (Some X) /\ sigma = Some <$> roots /\
    length roots = sfRounds /\ (forall p, Z.prime p -> p < 65537 -> ~ (p | n)) /\
    Forall2 (fun x s => 0 < s < n /\ s ^ n mod n = x mod n) X roots.
Proof.
  unfold SquareFreeVerify. cbn [sfSigma]. split.
  - destruct (num <? 0); [discriminate|].
    destruct (Nat.eqb_spec (length sigma) sfRounds) as [HL|]; [|discriminate]. cbn [negb].
    intros ([X|] & HX & H)%res_bind_Ok; [|discriminate].
    pose proof (CalcX_units _ _ _ _ HX) as (Hn & _ & HLX & _).
    destruct (n <=? 0); [discriminate|]. destruct (smallFactor n) eqn:Hf; [discriminate|].
    apply res_bind_Ok in H as ([] & HR & H); [|discriminate]. cbn [negb] in H.
    rewrite checkAll_true in HR. rewrite checkAll_true in H. destruct (derefAll sigma) as [roots ->].
    { intros i Hi%HR. discriminate. }
    exists X, roots. rewrite length_fmap in HL. split_and!; try done; [now apply smallFactor_spec|].
    apply Forall2_same_length_lookup_2; [congruence|]. intros i x s Hx Hs.
    assert (Hi : (Some <$> roots) !! i = Some (Some s)) by now rewrite list_lookup_fmap, Hs.
    pose proof (HR i _ Hi) as Hr. cbn [deref mbind res_bind] in Hr.
    specialize (H i x Hx). unfold index in H. rewrite Hi in H. cbn [deref mbind res_bind] in H.
    rewrite Exp_pos in H by lia. cbn [deref mbind res_bind] in H.
    rewrite Mod_pos in H by assumption. injection H as H%Z.eqb_eq. split; [|exact H].
    injection Hr as Hr%negb_true_iff%orb_false_iff. rewrite Z.leb_gt, Z.leb_gt in Hr. lia.
  - intros (X & roots & HX & -> & HL & Hf & HF).
    pose proof (CalcX_units _ _ _ _ HX) as (Hn & Hnum & HLX & _). apply smallFactor_spec in Hf.
    destruct (Z.ltb_spec num 0); [lia|]. rewrite length_fmap, HL. cbn [Nat.eqb sfRounds negb].
    rewrite HX. cbn [mbind res_bind]. destruct (Z.leb_spec n 0); [lia|]. rewrite Hf.
    rewrite Forall2_lookup in HF. rewrite (checkAll_pass (Some <$> _)).
    + cbn [mbind res_bind negb]. apply checkAll_pass. intros i x Hi. unfold index.
      specialize (HF i). rewrite Hi in HF. inversion HF as [? s [Hs E] Hx0 Hsi|]; subst.
      rewrite list_lookup_fmap, <- Hsi. cbn [fmap option_fmap option_map deref mbind res_bind].
      rewrite Exp_pos by lia. cbn [deref mbind res_bind]. rewrite Mod_pos by assumption.
      cbn [mbind res_bind]. now rewrite E, Z.eqb_refl.
    + intros i v Hi. rewrite list_lookup_fmap in Hi. apply fmap_Some in Hi as (s & Hsi & ->).
      specialize (HF i). rewrite Hsi in HF. inversion HF as [x ? [Hs E]|]; subst.
      cbn [deref mbind res_bind]. destruct (Z.leb_spec s 0), (Z.leb_spec n s); (lia || done).
Qed.

(** C39: what an accepted proof establishes.  The verifier accepts exactly when the
    eight values [X] are derived from the modulus, the proof consists of eight [n]-th
    roots of them in the range of the modulus, and no prime below 65537 divides the
    modulus.  When the modulus has a square factor [p^2] all the same, [p] is at least
    65537 and every one of the derived values is a [p-1]-st root of unity modulo [p^2]. *)
Theorem SquareFreeVerify_sound `{LL : GoLibLaws} fuel n num sigma :
  let accepts := SquareFreeVerify fuel (Some n) (Some num) (Some (mkSquareFree sigma)) = Ok true in
  (accepts <->
   exists X roots, CalcX fuel (Some n) (Some num) = Ok (Some X) /\ sigma = Some <$> roots /\
     length roots = 8%nat /\ (forall p, Z.prime p -> p < 65537 -> ~ (p | n)) /\
     Forall2 (fun x s => 0 < s < n /\ s ^ n mod n = x mod n) X roots) /\
  (forall p, accepts -> Z.prime p -> (p * p | n) ->
   65537 <= p /\ exists X, CalcX fuel (Some n) (Some num) = Ok (Some X) /\ length X = 8%nat /\
     Forall (fun x => 0 < x < n /\ [mod p * p] x ^ (p - 1) == 1) X).
Proof.
  split; [apply SquareFreeVerify_spec|]. intros p Hacc Hp Hpp.
  apply SquareFreeVerify_spec in Hacc as (X & roots & HX & -> & _ & Hsmall & HF). split.
  - destruct (Z.lt_ge_cases p 65537) as [Hlt|]; [|assumption]. exfalso. apply (Hsmall p Hp Hlt).
    transitivity (p * p); [apply Z.divide_factor_l|assumption].
  - pose proof (CalcX_units _ _ _ _ HX) as (Hn & _ & HL & HU). exists X. split; [exact HX|]. split; [exact HL|].
    rewrite Forall_forall in HU |- *. intros x Hx. destruct (HU x Hx) as [Rx Cx]. split; [lia|].
    apply list_elem_of_lookup in Hx as [i Hi]. rewrite Forall2_lookup in HF. specialize (HF i). rewrite Hi in HF.
    inversion HF as [? s [_ Hs]|]; subst. now apply (nth_power_order p n x s).
Qed.

(** The honest proof for [65537 * 65539]: no smaller prime divides the modulus. *)
Lemma SquareFreeVerify_sound_witness : exists sigma X roots,
  SquareFreeVerify 100 (Some (65537 * 65539)) (Some 77) (Some (mkSquareFree sigma)) = Ok true /\
  CalcX 100 (Some (65537 * 65539)) (Some 77) = Ok (Some X) /\ sigma = Some <$> roots /\
  Forall2 (fun x s => s ^ (65537 * 65539) mod (65537 * 65539) = x mod (65537 * 65539)) X roots.
Proof.
  assert (HX : exists X, CalcX 100 (Some (65537 * 65539)) (Some 77) = Ok (Some X))
    by (eexists; vm_compute; reflexivity).
  destruct HX as [X HX].
  destruct (SquareFree_complete 100 65537 65539 77 X) as ([sigma] & _ & HV & _).
  1-2: small_prime.
  1: discriminate.
  1-2: apply Z.leb_le; vm_compute; reflexivity.
  1: vm_compute; reflexivity.
  1: exact HX.
  destruct (SquareFreeVerify_sound (L := smallLib) 100 (65537 * 65539) 77 sigma) as [[HS _] _].
  destruct (HS HV) as (X' & roots & HX' & Hs & _ & _ & HF). exists sigma, X', roots.
  split_and!; [exact HV|exact HX'|exact Hs|]. eapply Forall2_impl; [exact HF|]. now intros x s [_ H].
Defined.
