(* ===== verification/Hv.v ===== *)
(** The proof that a modulus is a product of two primes,
    [smpc-lib/crypto/ec2/hvZK.go]: the values of Jacobi symbol one derived from
    the modulus, prover, verifier and JSON codec. *)

From Stdlib Require Import ZArith Lia Zcong Zdivisibility Zpow_facts.
From stdpp Require Import gmap strings.
From S2P Require Import Prelude NumTheory Primality GoBig Random Text IntGo Json Paillier Ntilde SquareFree.

#[local] Open Scope Z_scope.

(** [GetHoeffdingBound]: [128 * 32 * ln 2] rounded up, a constant. *)
Definition HoeffdingBound : nat := Z.to_nat 2840.

Record HvProof := mkHv { hvSigma : list bigint }.

Section hv.
Context `{L : GoLib}.

(** The goroutine of one index up to its access to the shared map: the value it
    derives, or nil when it gives up; [fuel] bounds the number of hashes. *)
Fixpoint calcRohLoop (fuel : nat) (n num index l : Z) (tmp : list Z) (inlen try : Z) : res bigint :=
  match fuel with
  | O => Starve
  | S f =>
      h ← Sha512_256 [Some try; Some num; Some productString; Some index];
      try ← deref h;
      let candidate diff tmp :=
        roh ← joinInt (Some <$> tmp) diff;
        match roh with
        | None => calcRohLoop f n num index l [] 0 try
        | Some roh =>
            roh ← Mod roh n;
            if negb (IsNumberInMultiplicativeGroup (Some n) (Some roh))
            then calcRohLoop f n num index l [] 0 try else
            sym ← Jacobi roh n;
            if negb (sym =? 1) then calcRohLoop f n num index l [] 0 try else
            Ok (Some roh)
        end in
      if l <? inlen + byteCount try then
        let diff := l - inlen in
        if 0 <? diff then candidate diff tmp else Ok None
      else
        let tmp := tmp ++ [try] in
        let inlen := inlen + byteCount try in
        if inlen =? l then candidate 0 tmp else calcRohLoop f n num index l tmp inlen try
  end.

(** The goroutines write to the channel in the order of their indices; a value
    already in the shared map is not sent. *)
Fixpoint collectRoh (fuel : nat) (n num l : Z) (indices : list Z) (seen : gset string) : res (list Z) :=
  match indices with
  | [] => Ok []
  | index :: rest =>
      roh ← calcRohLoop fuel n num index l [] 0 n;
      match roh with
      | None => collectRoh fuel n num l rest seen
      | Some r =>
          let key := ToLower (Sprintf_v (Some r)) in
          if decide (key ∈ seen) then collectRoh fuel n num l rest seen else
          data ← collectRoh fuel n num l rest ({[key]} ∪ seen);
          Ok (r :: data)
      end
  end.

Definition CalcRoh (fuel : nat) (n num : bigint) : res (option (list Z)) :=
  match n, num with
  | Some n, Some num =>
      if n <=? 0 then Ok None else if num <? 0 then Ok None else
      num ← Mod num n;
      let l := byteCount n in
      data ← collectRoh fuel n num l (Z.of_nat <$> seq 0 HoeffdingBound) ∅;
      if negb (Nat.eqb (length data) HoeffdingBound) then Ok None else Ok (Some data)
  | _, _ => Ok None
  end.

(** The response to one value: a square root, or zero. *)
Definition hvRoot (n p q v : Z) : res Z :=
  x ← (if q <=? p then GetTheQuadraticResidueInt (Some v) (Some n) (Some p) (Some q)
       else GetTheQuadraticResidueInt (Some v) (Some n) (Some q) (Some p));
  match x with
  | Some (x, _, _, _) =>
      x2 ← Mod (x * x) n;
      if x2 =? v then Ok (Z.abs x) else Ok 0
  | None => Ok 0
  end.

Definition HvProve (fuel : nat) (n num p q : bigint) : res (option HvProof) :=
  match n, num, p, q with
  | Some n, Some num, Some p, Some q =>
      if num <? 0 then Ok None else
      ROH ← CalcRoh fuel (Some n) (Some num);
      match ROH with
      | None => Ok None
      | Some ROH =>
          sigma ← mapRange (hvRoot n p q) ROH;
          Ok (Some (mkHv (Some <$> sigma)))
      end
  | _, _, _, _ => Ok None
  end.

(** [for kk, vv := range proof.Sigma]: the number of roots, or nothing when one
    of them is wrong. *)
Fixpoint hvCount (n : Z) (sigma : list bigint) (ROH : list Z) (count : nat) : res (option nat) :=
  match sigma with
  | [] => Ok (Some count)
  | vv :: sigma' =>
      vv ← deref vv;
      if vv =? 0 then hvCount n sigma' (drop 1 ROH) count else
      t ← Mod (vv * vv) n;
      r ← index ROH 0;
      if negb (t =? r) then Ok None else hvCount n sigma' (drop 1 ROH) (S count)
  end.

Definition HvVerify (fuel : nat) (n num : bigint) (proof : option HvProof) : res bool :=
  match n, num, proof with
  | Some n, Some num, Some pf =>
      if num <? 0 then Ok false else
      ROH ← CalcRoh fuel (Some n) (Some num);
      match ROH with
      | None => Ok false
      | Some ROH =>
          if negb (Nat.eqb (length (hvSigma pf)) (length ROH)) then Ok false else
          b ← CheckPrime (Some n);
          if negb b then Ok false else
          count ← hvCount n (hvSigma pf) ROH 0;
          match count with
          | None => Ok false
          | Some count => Ok (negb (Nat.ltb count (3 * HoeffdingBound / 8)))
          end
      end
  | _, _, _ => Ok false
  end.
End hv.

(** * JSON *)

Section json.
Context `{J : JsonLib}.

Definition HvProof_MarshalJSON (hvpf : HvProof) : string := sigma_MarshalJSON (hvSigma hvpf).

Definition HvProof_UnmarshalJSON (raw : string) : res HvProof :=
  sigma ← sigma_UnmarshalJSON raw; Ok (mkHv sigma).
End json.

(** * The derived values *)

#[local] Opaque HoeffdingBound.

Section facts.
Context `{L : GoLib}.

Lemma calcRohLoop_unit fuel n num index l : forall tmp inlen try r,
  calcRohLoop fuel n num index l tmp inlen try = Ok (Some r) -> inZnStar n r /\ Jacobi r n = Ok 1.
Proof.
  induction fuel as [|f IH]; intros tmp inlen try r H; [discriminate|]. cbn [calcRohLoop] in H.
  apply res_bind_Ok in H as (h & _ & H). apply res_bind_Ok in H as (try' & _ & H). cbv zeta in H.
  match type of H with context [0 <? l - inlen] =>
    set (candidate := fun diff tmp' =>
      joinInt (Some <$> tmp') diff ≫= fun roh =>
        match roh with
        | None => calcRohLoop f n num index l [] 0 try'
        | Some roh =>
            roh ← Mod roh n;
            if negb (IsNumberInMultiplicativeGroup (Some n) (Some roh))
            then calcRohLoop f n num index l [] 0 try' else
            sym ← Jacobi roh n;
            if negb (sym =? 1) then calcRohLoop f n num index l [] 0 try' else Ok (Some roh)
        end)
  end.
  assert (Hc : forall diff tmp', candidate diff tmp' = Ok (Some r) -> inZnStar n r /\ Jacobi r n = Ok 1).
  { intros diff tmp' ([r0|] & _ & Hc)%res_bind_Ok; [|now apply IH in Hc].
    apply res_bind_Ok in Hc as (r1 & _ & Hc).
    destruct (IsNumberInMultiplicativeGroup (Some n) (Some r1)) eqn:E; [|now apply IH in Hc].
    apply res_bind_Ok in Hc as (sym & Hs & Hc).
    destruct (Z.eqb_spec sym 1) as [->|]; [|now apply IH in Hc].
    injection Hc as <-. split; [now apply IsNumberInMultiplicativeGroup_true|assumption]. }
  destruct (l <? inlen + byteCount try').
  - destruct (0 <? l - inlen); [|discriminate]. exact (Hc _ _ H).
  - destruct (inlen + byteCount try' =? l); [exact (Hc _ _ H)|exact (IH _ _ _ _ H)].
Qed.

Lemma collectRoh_spec fuel n num l indices : forall seen data,
  collectRoh fuel n num l indices seen = Ok data ->
  NoDup data /\ Forall (fun r => ToLower (Sprintf_v (Some r)) ∉ seen) data /\
  Forall (fun r => inZnStar n r /\ Jacobi r n = Ok 1) data.
Proof.
  induction indices as [|index rest IH]; intros seen data H; cbn [collectRoh] in H.
  - injection H as <-. split_and!; constructor.
  - apply res_bind_Ok in H as ([r|] & Hr & H); [|now apply IH].
    destruct (decide _) as [Hin|Hin]; [now apply IH|].
    apply res_bind_Ok in H as (data' & (Hn & Hs & Hf)%IH & [= <-]).
    apply calcRohLoop_unit in Hr. split_and!; [|constructor; [assumption|]|now constructor].
    + constructor; [|assumption]. intros Hr'. rewrite Forall_forall in Hs. apply (Hs r Hr'). set_solver.
    + eapply Forall_impl; [exact Hs|]. set_solver.
Qed.

(** The derived values are distinct units of Jacobi symbol one. *)
Lemma CalcRoh_spec fuel n num R : CalcRoh fuel (Some n) (Some num) = Ok (Some R) ->
  0 < n /\ 0 <= num /\ length R = HoeffdingBound /\ NoDup R /\
  Forall (fun r => inZnStar n r /\ Jacobi r n = Ok 1) R.
Proof.
  unfold CalcRoh. destruct (Z.leb_spec n 0); [discriminate|].
  destruct (Z.ltb_spec num 0); [discriminate|]. rewrite Mod_pos by assumption. cbn [mbind res_bind].
  intros (data & (Hn & _ & Hf)%collectRoh_spec & E)%res_bind_Ok.
  destruct (Nat.eqb_spec (length data) HoeffdingBound); [|discriminate]. injection E as <-.
  split_and!; auto.
Qed.
End facts.

(** * The prover's roots *)

Definition residue `{GoLib} (p q r : Z) : Prop := is_Some (ModSqrt r p) /\ is_Some (ModSqrt r q).

#[export] Instance residue_dec `{GoLib} p q r : Decision (residue p q r).
Proof. unfold residue. apply _. Defined.

Section roots.
Context `{G : GoLibLaws} (p q : Z) (Hp : Z.prime p) (Hq : Z.prime q) (P2 : 2 < p) (Q2 : 2 < q) (Hpq : p <> q).

Lemma square_unit v x : inZnStar (p * q) v -> 0 <= x < p * q -> [mod p * q] x * x == v ->
  0 < x /\ x * x mod (p * q) = v.
Proof.
  intros [Rv Cv] Rx Hx. split.
  - destruct (Z.eq_dec x 0) as [->|]; [|lia]. apply eqm_iff in Hx.
    rewrite Z.mul_0_l, Zmod_0_l, Z.mod_small in Hx; lia.
  - apply eqm_iff in Hx. now rewrite Hx, Z.mod_small by lia.
Qed.

Lemma hvRoot_spec v : inZnStar (p * q) v -> exists x, hvRoot (p * q) p q v = Ok x /\
  if decide (residue p q v) then 0 < x /\ x * x mod (p * q) = v else x = 0.
Proof.
  intros Hv. unfold hvRoot. assert (Hn : 0 < p * q) by nia.
  assert (Hroot : forall a b, Z.prime a -> Z.prime b -> 2 < b -> b < a -> a * b = p * q ->
    (residue a b v <-> residue p q v) -> exists x,
    (x ← GetTheQuadraticResidueInt (Some v) (Some (p * q)) (Some a) (Some b);
     match x with
     | Some (x, _, _, _) => x2 ← Mod (x * x) (p * q); if x2 =? v then Ok (Z.abs x) else Ok 0
     | None => Ok 0
     end) = Ok x /\ if decide (residue p q v) then 0 < x /\ x * x mod (p * q) = v else x = 0).
  { intros a b Ha Hb B2 Hab En Hres. pose proof (GetTheQuadraticResidueInt_spec v a b Ha Hb B2 Hab) as HS.
    rewrite En in HS. unfold residue at 1 in Hres. destruct (ModSqrt v a) as [ra|].
    - destruct (ModSqrt v b) as [rb|].
      + destruct HS as (x & nx & y & ny & -> & HF & _). cbn [mbind res_bind]. rewrite Mod_pos by assumption.
        cbn [mbind res_bind]. apply Forall_cons in HF as [[Rx Hx] _].
        destruct (square_unit v x Hv Rx Hx) as [Hx0 Ex]. rewrite Ex, Z.eqb_refl.
        exists (Z.abs x). split; [done|]. rewrite decide_True by (apply Hres; eauto).
        rewrite Z.abs_eq by lia. auto.
      + rewrite HS. exists 0. split; [done|]. rewrite decide_False; [done|].
        intros [_ [? ?]]%Hres. discriminate.
    - rewrite HS. exists 0. split; [done|]. rewrite decide_False; [done|].
      intros [[? ?] _]%Hres. discriminate. }
  destruct (Z.leb_spec q p).
  - apply Hroot; auto. lia.
  - apply Hroot; auto; [lia|]. unfold residue. tauto.
Qed.

Lemma mapRange_hvRoot R : Forall (inZnStar (p * q)) R -> exists xs,
  mapRange (hvRoot (p * q) p q) R = Ok xs /\
  Forall2 (fun x r => if decide (residue p q r) then 0 < x /\ x * x mod (p * q) = r else x = 0) xs R.
Proof.
  induction 1 as [|r R Hr _ (xs & E & HF)]; [exists []; split; [done|constructor]|].
  destruct (hvRoot_spec r Hr) as (x & Ex & Hx). exists (x :: xs). cbn [mapRange].
  rewrite Ex, E. split; [done|now constructor].
Qed.

Lemma hvCount_spec xs R : Forall2 (fun x r =>
    if decide (residue p q r) then 0 < x /\ x * x mod (p * q) = r else x = 0) xs R -> forall count,
  hvCount (p * q) (Some <$> xs) R count = Ok (Some (count + length (filter (residue p q) R))%nat).
Proof.
  assert (Hn : 0 < p * q) by nia.
  induction 1 as [|x r xs R Hx _ IH]; intros count; [cbn; now rewrite Nat.add_0_r|].
  rewrite fmap_cons. cbn [hvCount deref mbind res_bind drop index lookup list_lookup].
  rewrite filter_cons. destruct (decide (residue p q r)).
  - destruct Hx as [Hx0 Ex]. destruct (Z.eqb_spec x 0); [lia|]. rewrite Mod_pos by assumption.
    cbn [mbind res_bind index lookup list_lookup deref]. rewrite Ex, Z.eqb_refl. cbn [negb].
    rewrite drop_0, IH. cbn [length]. do 2 f_equal. lia.
  - subst x. rewrite Z.eqb_refl, drop_0. apply IH.
Qed.
End roots.

(** * Claims *)

(** For [n] a product of two distinct odd primes that does not test prime,
    whatever the fuel: when the values are derived they are distinct units of
    Jacobi symbol one, the prover returns, the codec preserves its proof, and the
    verifier accepts it exactly when at least three eighths of the values are
    quadratic residues modulo both primes; when they are not, prover and verifier
    end the same way, with no proof and no acceptance. *)
Theorem Hv_decides `{G : GoLibLaws} `{J : JsonLaws} fuel p q num :
  Z.prime p -> Z.prime q -> 2 < p -> 2 < q -> p <> q -> ProbablyPrime (p * q) = false -> 0 <= num ->
  let Prove := HvProve fuel (Some (p * q)) (Some num) (Some p) (Some q) in
  let Verify pf := HvVerify fuel (Some (p * q)) (Some num) (Some pf) in
  match CalcRoh fuel (Some (p * q)) (Some num) with
  | Ok (Some R) =>
      (NoDup R /\ Forall (fun r => inZnStar (p * q) r /\ Jacobi r (p * q) = Ok 1) R) /\
      exists pf, Prove = Ok (Some pf) /\ HvProof_UnmarshalJSON (HvProof_MarshalJSON pf) = Ok pf /\
        Verify pf = Ok (Nat.leb (3 * HoeffdingBound / 8) (length (filter (residue p q) R)))
  | Ok None => Prove = Ok None /\ forall pf, Verify pf = Ok false
  | Err e => Prove = Err e /\ forall pf, Verify pf = Err e
  | Panic => Prove = Panic /\ forall pf, Verify pf = Panic
  | Starve => Prove = Starve /\ forall pf, Verify pf = Starve
  end.
Proof.
  intros Hp Hq P2 Q2 Hpq Hpp Hnum Prove Verify. unfold Prove, Verify, HvProve, HvVerify.
  destruct (Z.ltb_spec num 0); [lia|].
  destruct (CalcRoh fuel (Some (p * q)) (Some num)) as [[R|]|e| |] eqn:HR; [|done..].
  pose proof (CalcRoh_spec _ _ _ _ HR) as (Hn & _ & HL & HN & HF).
  split; [auto|]. destruct (mapRange_hvRoot p q Hp Hq P2 Q2 Hpq R) as (xs & Ex & HF2).
  { eapply Forall_impl; [exact HF|]. cbn. tauto. }
  exists (mkHv (Some <$> xs)). cbn [mbind res_bind hvSigma]. split; [|split].
  - now rewrite Ex.
  - unfold HvProof_UnmarshalJSON, HvProof_MarshalJSON. cbn [hvSigma]. rewrite sigma_roundtrip; [done|].
    intros ->. apply Forall2_nil_inv_l in HF2. subst R. vm_compute in HL. discriminate.
  - rewrite length_fmap, (Forall2_length _ _ _ HF2), Nat.eqb_refl. cbn [negb].
    rewrite CheckPrime_odd; [|assumption| |assumption].
    + cbn [mbind res_bind negb]. rewrite (hvCount_spec p q P2 Q2 Hpq xs R HF2). cbn [mbind res_bind Nat.add].
      now rewrite Nat.ltb_antisym, negb_involutive.
    + intros E%eqm_0_mod. rewrite eqm_0_divide in E.
      apply Z.divide_prime_mul in E as [E|E]; [..|small_prime].
      * apply Z.divide_prime_prime in E; [lia|small_prime|assumption].
      * apply Z.divide_prime_prime in E; [lia|small_prime|assumption].
Qed.

Lemma Hv_decides_witness :
  HvProve 1 (Some (7 * 11)) (Some 3) (Some 7) (Some 11) = Starve.
Proof.
  assert (HR : CalcRoh 1 (Some (7 * 11)) (Some 3) = Starve) by (vm_compute; reflexivity).
  pose proof (Hv_decides (L := smallLib) 1 7 11 3 ltac:(small_prime) ltac:(small_prime)
    ltac:(lia) ltac:(lia) ltac:(lia) ltac:(vm_compute; reflexivity) ltac:(lia)) as H.
  cbv zeta in H. rewrite HR in H. exact (proj1 H).
Defined.

(** The prover on a concrete value. *)
Example hvRoot_example : hvRoot 77 7 11 4 = Ok 2 /\ hvRoot 77 7 11 6 = Ok 0.
Proof. split; vm_compute; reflexivity. Qed.
