(* ===== verification/Hex.v ===== *)
(** [encoding/hex] on byte strings: node identifiers travel as the hexadecimal
    text of their decimal numeral. *)

From Stdlib Require Import ZArith Lia Ascii.
From stdpp Require Import strings.
From S2P Require Import Prelude Text.

Definition hexDigit (n : N) : ascii :=
  match String.get (N.to_nat n) "0123456789abcdef" with Some c => c | None => "0"%char end.

Definition hexValue (c : ascii) : option N :=
  let n := N_of_ascii c in
  if (48 <=? n)%N && (n <=? 57)%N then Some (n - 48)%N
  else if (97 <=? n)%N && (n <=? 102)%N then Some (n - 87)%N
  else if (65 <=? n)%N && (n <=? 70)%N then Some (n - 55)%N
  else None.

(** [hex.EncodeToString]. *)
Fixpoint EncodeToString (s : string) : string :=
  match s with
  | EmptyString => ""
  | String c s' =>
      let n := N_of_ascii c in
      String (hexDigit (n / 16)) (String (hexDigit (n mod 16)) (EncodeToString s'))
  end.

(** [hex.DecodeString]: an error on an odd length or another character. *)
Fixpoint DecodeString (s : string) : res string :=
  match s with
  | EmptyString => Ok ""
  | String a (String b s') =>
      match hexValue a, hexValue b with
      | Some x, Some y => rest ← DecodeString s'; Ok (String (ascii_of_N (16 * x + y)) rest)
      | _, _ => Err "encoding/hex: invalid byte"
      end
  | String _ EmptyString => Err "encoding/hex: odd length hex string"
  end.

Lemma hexValue_digit n : (n < 16)%N -> hexValue (hexDigit n) = Some n.
Proof.
  intros H. destruct n as [|p]; [done|].
  do 4 (destruct p as [p|p|]; try (exfalso; lia); try done).
Qed.

Lemma DecodeString_Encode s : DecodeString (EncodeToString s) = Ok s.
Proof.
  induction s as [|c s IH]; [done|]. cbn [EncodeToString DecodeString].
  pose proof (N_ascii_bounded c).
  rewrite !hexValue_digit by (apply N.Div0.div_lt_upper_bound || apply N.mod_lt; lia).
  rewrite IH. cbn [mbind res_bind]. rewrite <- N.div_mod by lia. now rewrite ascii_N_embedding.
Qed.

Lemma EncodeToString_inj s1 s2 : EncodeToString s1 = EncodeToString s2 -> s1 = s2.
Proof. intros E%(f_equal DecodeString). rewrite !DecodeString_Encode in E. congruence. Qed.

Lemma EncodeToString_nonempty s : s <> "" -> EncodeToString s <> "".
Proof. now destruct s. Qed.
