(* ===== verification/KgMessage.v ===== *)
(** The messages of ECDSA key generation, [smpc-lib/ecdsa/keygen/message.go], and
    their decoding on arrival, [GetRealMessage] of [smpc/key_ec.go]. *)

From Stdlib Require Import ZArith Lia.
From stdpp Require Import gmap strings.
From S2P Require Import Prelude Text Json IntGo Paillier Schnorr Ntilde SquareFree Hv.

#[local] Open Scope Z_scope.

Record KGRoundMessage := mkHeader { FromID : string; FromIndex : Z; ToID : list string }.

Definition AppendToID (kg : KGRoundMessage) (toid : string) : KGRoundMessage :=
  mkHeader (FromID kg) (FromIndex kg) (ToID kg ++ [toid]).

(** The message types, each with the embedded [*KGRoundMessage]. *)
Inductive Message :=
| KGRound0Message (kg : KGRoundMessage)
| KGRound1Message (kg : KGRoundMessage) (ComC ComCBip32 : bigint) (U1PaillierPk : option PublicKey)
| KGRound2Message (kg : KGRoundMessage) (ID Share : bigint)
| KGRound2Message1 (kg : KGRoundMessage) (C1 : bigint)
| KGRound2Message2 (kg : KGRoundMessage) (Num : bigint) (SfPf : option SquareFreeProof)
| KGRound3Message (kg : KGRoundMessage) (ComU1GD ComC1GD : list bigint) (U1PolyGG : list (list bigint))
| KGRound3Message1 (kg : KGRoundMessage) (Y : bigint)
| KGRound4Message (kg : KGRoundMessage) (U1NtildeH1H2 : option NtildeH1H2)
    (NtildeProof1 NtildeProof2 : option NtildeProof) (ComXiC : bigint)
| KGRound5Message (kg : KGRoundMessage) (ComXiGD : list bigint)
| KGRound5Message1 (kg : KGRoundMessage) (Num : bigint) (HvPf : option HvProof)
| KGRound5Message2 (kg : KGRoundMessage) (Num : bigint) (SfPf : option SquareFreeProof)
| KGRound6Message (kg : KGRoundMessage) (U1zkXiProof : option ZkXiProof) (CheckPubkeyStatus : bool).

Definition header (m : Message) : KGRoundMessage :=
  match m with
  | KGRound0Message kg | KGRound1Message kg _ _ _ | KGRound2Message kg _ _ | KGRound2Message1 kg _
  | KGRound2Message2 kg _ _ | KGRound3Message kg _ _ _ | KGRound3Message1 kg _
  | KGRound4Message kg _ _ _ _ | KGRound5Message kg _ | KGRound5Message1 kg _ _
  | KGRound5Message2 kg _ _ | KGRound6Message kg _ _ => kg
  end.

Definition GetFromID (m : Message) : string := FromID (header m).
Definition GetFromIndex (m : Message) : Z := FromIndex (header m).
Definition GetToID (m : Message) : list string := ToID (header m).

Definition IsBroadcast (m : Message) : bool :=
  match m with KGRound2Message _ _ _ | KGRound3Message1 _ _ => false | _ => true end.

Definition GetMsgType (m : Message) : string :=
  match m with
  | KGRound0Message _ => "KGRound0Message"
  | KGRound1Message _ _ _ _ => "KGRound1Message"
  | KGRound2Message _ _ _ => "KGRound2Message"
  | KGRound2Message1 _ _ => "KGRound2Message1"
  | KGRound2Message2 _ _ _ => "KGRound2Message2"
  | KGRound3Message _ _ _ _ => "KGRound3Message"
  | KGRound3Message1 _ _ => "KGRound3Message1"
  | KGRound4Message _ _ _ _ _ => "KGRound4Message"
  | KGRound5Message _ _ => "KGRound5Message"
  | KGRound5Message1 _ _ _ => "KGRound5Message1"
  | KGRound5Message2 _ _ _ => "KGRound5Message2"
  | KGRound6Message _ _ _ => "KGRound6Message"
  end.

(** * Encoding *)

Abbreviation smap := (gmap string string).

(** [strings.Join] of the printed integers with [":"]. *)
Definition joinInts (l : list bigint) : string := Join colon (Sprintf_v <$> l).

Section outmap.
Context `{J : JsonLib}.

(** The entries of the header; only the two messages to single nodes carry
    their receivers. *)
Definition headerMap (m : Message) : smap :=
  <["Type" := GetMsgType m]> (
  <["ToID" := if IsBroadcast m then "" else Join colon (GetToID m)]> (
  <["FromIndex" := Itoa (GetFromIndex m)]> (
  <["FromID" := GetFromID m]> ∅))).

(** The bodies of [OutMap], one per message type, from the header's entries. *)
Definition OutMap1 (h : smap) (ComC ComCBip32 : bigint) (pk : option PublicKey) : res (option smap) :=
  pk ← deref pk;
  Ok (Some (<["U1PaillierPk" := PublicKey_MarshalJSON pk]> (
            <["ComC_bip32" := Sprintf_v ComCBip32]> (<["ComC" := Sprintf_v ComC]> h)))).

Definition OutMap2 (h : smap) (ID Share : bigint) : res (option smap) :=
  Ok (Some (<["Share" := Sprintf_v Share]> (<["ID" := Sprintf_v ID]> h))).

Definition OutMap21 (h : smap) (C1 : bigint) : res (option smap) := Ok (Some (<["C1" := Sprintf_v C1]> h)).

(** nil when the proof is missing. *)
Definition OutMap22 (h : smap) (Num : bigint) (SfPf : option SquareFreeProof) : res (option smap) :=
  match SfPf with
  | None => Ok None
  | Some sf => Ok (Some (<["Num" := Sprintf_v Num]> (<["SfPf" := SquareFreeProof_MarshalJSON sf]> h)))
  end.

Definition OutMap3 (h : smap) (ComU1GD ComC1GD : list bigint) (U1PolyGG : list (list bigint))
  : res (option smap) :=
  Ok (Some (<["U1PolyGG" := Join bar (joinInts <$> U1PolyGG)]> (
            <["ComC1GD" := joinInts ComC1GD]> (<["ComU1GD" := joinInts ComU1GD]> h)))).

Definition OutMap31 (h : smap) (Y : bigint) : res (option smap) := Ok (Some (<["Y" := Sprintf_v Y]> h)).

Definition OutMap4 (h : smap) (nt : option NtildeH1H2) (pf1 pf2 : option NtildeProof) (ComXiC : bigint)
  : res (option smap) :=
  nt ← deref nt; pf1 ← deref pf1; pf2 ← deref pf2;
  Ok (Some (<["ComXiC" := Sprintf_v ComXiC]> (
            <["NtildeProof2" := NtildeProof_MarshalJSON pf2]> (
            <["NtildeProof1" := NtildeProof_MarshalJSON pf1]> (
            <["U1NtildeH1H2" := NtildeH1H2_MarshalJSON nt]> h))))).

Definition OutMap5 (h : smap) (ComXiGD : list bigint) : res (option smap) :=
  Ok (Some (<["ComXiGD" := joinInts ComXiGD]> h)).

Definition OutMap51 (h : smap) (Num : bigint) (HvPf : option HvProof) : res (option smap) :=
  match HvPf with
  | None => Ok None
  | Some hv => Ok (Some (<["Num" := Sprintf_v Num]> (<["HvPf" := HvProof_MarshalJSON hv]> h)))
  end.

Definition OutMap52 (h : smap) (Num : bigint) (SfPf : option SquareFreeProof) : res (option smap) :=
  match SfPf with
  | None => Ok None
  | Some sf => Ok (Some (<["Num" := Sprintf_v Num]> (<["SfPf" := SquareFreeProof_MarshalJSON sf]> h)))
  end.

Definition OutMap6 (h : smap) (zk : option ZkXiProof) (b : bool) : res (option smap) :=
  zk ← deref zk;
  Ok (Some (<["CheckPubkeyStatus" := if b : bool then "true" else "false"]> (
            <["U1zkXiProof" := Schnorr_MarshalJSON zk]> h))).

Definition OutMap (m : Message) : res (option smap) :=
  let h := headerMap m in
  match m with
  | KGRound0Message _ => Ok (Some h)
  | KGRound1Message _ ComC ComCBip32 pk => OutMap1 h ComC ComCBip32 pk
  | KGRound2Message _ ID Share => OutMap2 h ID Share
  | KGRound2Message1 _ C1 => OutMap21 h C1
  | KGRound2Message2 _ Num SfPf => OutMap22 h Num SfPf
  | KGRound3Message _ ComU1GD ComC1GD U1PolyGG => OutMap3 h ComU1GD ComC1GD U1PolyGG
  | KGRound3Message1 _ Y => OutMap31 h Y
  | KGRound4Message _ nt pf1 pf2 ComXiC => OutMap4 h nt pf1 pf2 ComXiC
  | KGRound5Message _ ComXiGD => OutMap5 h ComXiGD
  | KGRound5Message1 _ Num HvPf => OutMap51 h Num HvPf
  | KGRound5Message2 _ Num SfPf => OutMap52 h Num SfPf
  | KGRound6Message _ zk b => OutMap6 h zk b
  end.
End outmap.

(** * Decoding *)

(** Reading a Go map: a missing key is the empty string. *)
Definition mget (msg : smap) (k : string) : string := default "" (msg !! k).

(** [SetString(msg[k], 10)]. *)
Definition mgetInt (msg : smap) (k : string) : bigint := SetString 10 (mget msg k).

(** The integers between colons; nil when one of them does not parse. *)
Definition splitInts (s : string) : option (list Z) := allSome (SetString 10 <$> Split colon s).

Section real.
Context `{J : JsonLib}.

(** A decoding error does not end the function: control reaches the last lines,
    which build a round 0 message. *)
Definition orElse {A} (r : res A) (k : A -> res (option Message)) (rest : res (option Message))
  : res (option Message) :=
  match r with Ok a => k a | Err _ => rest | Panic => Panic | Starve => Starve end.

(** One [if] per message type, in the order of the code: the rounds 4 to 6, *)
Definition realMessageLate (msg : smap) (kg kg0 : KGRoundMessage) : res (option Message) :=
  let ty := mget msg "Type" in
  let round0 := Ok (Some (KGRound0Message kg0)) in
  if String.eqb ty "KGRound4Message" then
    if String.eqb (mget msg "U1NtildeH1H2") "" then Ok None else
    orElse (NtildeH1H2_UnmarshalJSON (mget msg "U1NtildeH1H2")) (fun nti =>
      if String.eqb (mget msg "NtildeProof1") "" then Ok None else
      orElse (NtildeProof_UnmarshalJSON (mget msg "NtildeProof1")) (fun pf1 =>
        if String.eqb (mget msg "NtildeProof2") "" then Ok None else
        orElse (NtildeProof_UnmarshalJSON (mget msg "NtildeProof2")) (fun pf2 =>
          if String.eqb (mget msg "ComXiC") "" then Ok None else
          Ok (Some (KGRound4Message kg (Some nti) (Some pf1) (Some pf2) (mgetInt msg "ComXiC"))))
          round0) round0) round0
  else if String.eqb ty "KGRound5Message" then
    if String.eqb (mget msg "ComXiGD") "" then Ok None else
    match splitInts (mget msg "ComXiGD") with
    | Some xigd => Ok (Some (KGRound5Message kg (Some <$> xigd)))
    | None => Ok None
    end
  else if String.eqb ty "KGRound5Message1" then
    if String.eqb (mget msg "HvPf") "" || String.eqb (mget msg "Num") "" then Ok None else
    orElse (HvProof_UnmarshalJSON (mget msg "HvPf")) (fun pf =>
      match mgetInt msg "Num" with
      | Some num => Ok (Some (KGRound5Message1 kg (Some num) (Some pf)))
      | None => Ok None
      end) round0
  else if String.eqb ty "KGRound5Message2" then
    if String.eqb (mget msg "SfPf") "" || String.eqb (mget msg "Num") "" then Ok None else
    orElse (SquareFreeProof_UnmarshalJSON (mget msg "SfPf")) (fun pf =>
      match mgetInt msg "Num" with
      | Some num => Ok (Some (KGRound5Message2 kg (Some num) (Some pf)))
      | None => Ok None
      end) round0
  else if String.eqb ty "KGRound6Message" then
    if String.eqb (mget msg "U1zkXiProof") "" then Ok None else
    orElse (Schnorr_UnmarshalJSON (mget msg "U1zkXiProof")) (fun zk =>
      Ok (Some (KGRound6Message kg (Some zk) (String.eqb (mget msg "CheckPubkeyStatus") "true"))))
      round0
  else round0.

(** and before them the rounds 1 to 3. *)
Definition realMessage (msg : smap) (kg kg0 : KGRoundMessage) : res (option Message) :=
  let ty := mget msg "Type" in
  let round0 := Ok (Some (KGRound0Message kg0)) in
  if String.eqb ty "KGRound1Message" then
    if String.eqb (mget msg "U1PaillierPk") "" then Ok None else
    orElse (PublicKey_UnmarshalJSON (mget msg "U1PaillierPk")) (fun pub =>
      match mgetInt msg "ComC", mgetInt msg "ComC_bip32" with
      | Some comc, Some comcb => Ok (Some (KGRound1Message kg (Some comc) (Some comcb) (Some pub)))
      | _, _ => Ok None
      end) round0
  else if String.eqb ty "KGRound2Message" then
    match mgetInt msg "ID", mgetInt msg "Share" with
    | Some id, Some sh => Ok (Some (KGRound2Message kg (Some id) (Some sh)))
    | _, _ => Ok None
    end
  else if String.eqb ty "KGRound2Message1" then
    match mgetInt msg "C1" with
    | Some c1 => Ok (Some (KGRound2Message1 kg (Some c1)))
    | None => Ok None
    end
  else if String.eqb ty "KGRound2Message2" then
    if String.eqb (mget msg "SfPf") "" || String.eqb (mget msg "Num") "" then Ok None else
    orElse (SquareFreeProof_UnmarshalJSON (mget msg "SfPf")) (fun pf =>
      match mgetInt msg "Num" with
      | Some num => Ok (Some (KGRound2Message2 kg (Some num) (Some pf)))
      | None => Ok None
      end) round0
  else if String.eqb ty "KGRound3Message" then
    if String.eqb (mget msg "ComU1GD") "" || String.eqb (mget msg "ComC1GD") ""
       || String.eqb (mget msg "U1PolyGG") "" then Ok None else
    match splitInts (mget msg "ComU1GD"), splitInts (mget msg "ComC1GD"),
          allSome (splitInts <$> Split bar (mget msg "U1PolyGG")) with
    | Some u1gd, Some u1cd, Some ugg =>
        Ok (Some (KGRound3Message kg (Some <$> u1gd) (Some <$> u1cd) ((fun r : list Z => Some <$> r) <$> ugg)))
    | _, _, _ => Ok None
    end
  else if String.eqb ty "KGRound3Message1" then
    match mgetInt msg "Y" with
    | Some y => Ok (Some (KGRound3Message1 kg (Some y)))
    | None => Ok None
    end
  else realMessageLate msg kg kg0.

Definition GetRealMessage (msg : smap) : res (option Message) :=
  let from := mget msg "FromID" in
  if String.eqb from "" then Ok None else
  let v := mget msg "ToID" in
  let to := if String.eqb v "" then [] else Split colon v in
  match Atoi (mget msg "FromIndex") with
  | Ok index => realMessage msg (mkHeader from index to) (mkHeader from (-1) to)
  | _ => Ok None
  end.
End real.

(** * Messages survive the wire *)

(** What the sender's fields must be for the receiver to rebuild the message. *)
Section wire.
Context `{J : JsonLaws}.

Definition intsOk (l : list bigint) : Prop := exists zs, l = Some <$> zs /\ zs <> [].

Definition headerOk (m : Message) : Prop :=
  FromID (header m) <> "" /\ - 2 ^ 63 <= FromIndex (header m) < 2 ^ 63 /\
  if IsBroadcast m then ToID (header m) = []
  else Forall (fun s => s <> "" /\ noSep colon s = true) (ToID (header m)).

Definition bodyOk (m : Message) : Prop :=
  match m with
  | KGRound0Message kg => FromIndex kg = -1
  | KGRound1Message _ (Some _) (Some _) (Some pk) =>
      PublicKey_UnmarshalJSON (PublicKey_MarshalJSON pk) = Ok pk
  | KGRound2Message _ (Some _) (Some _) => True
  | KGRound2Message1 _ (Some _) => True
  | KGRound2Message2 _ (Some _) (Some pf) | KGRound5Message2 _ (Some _) (Some pf) => intsOk (sfSigma pf)
  | KGRound3Message _ u c g => intsOk u /\ intsOk c /\ g <> [] /\ Forall intsOk g
  | KGRound3Message1 _ (Some _) => True
  | KGRound4Message _ (Some nt) (Some pf1) (Some pf2) (Some _) =>
      NtildeH1H2_UnmarshalJSON (NtildeH1H2_MarshalJSON nt) = Ok nt /\
      NtildeProof_UnmarshalJSON (NtildeProof_MarshalJSON pf1) = Ok pf1 /\
      NtildeProof_UnmarshalJSON (NtildeProof_MarshalJSON pf2) = Ok pf2
  | KGRound5Message _ l => intsOk l
  | KGRound5Message1 _ (Some _) (Some pf) => intsOk (hvSigma pf)
  | KGRound6Message _ (Some zk) _ => Schnorr_UnmarshalJSON (Schnorr_MarshalJSON zk) = Ok zk
  | _ => False
  end.

Lemma splitInts_join zs : zs <> [] -> splitInts (joinInts (Some <$> zs)) = Some zs.
Proof.
  intros Hne. unfold splitInts, joinInts. rewrite <- list_fmap_compose.
  change (Sprintf_v ∘ Some) with (fun z : Z => Sprintf_v (Some z)).
  rewrite Split_ints by (reflexivity || assumption). now apply allSome_Some.
Qed.

Lemma Sprintf_nonempty z : Sprintf_v (Some z) <> "".
Proof. intros E%(f_equal (SetString 10)). now rewrite SetString_Sprintf in E. Qed.

Lemma joinInts_nonempty zs : zs <> [] -> joinInts (Some <$> zs) <> "".
Proof. intros Hne E. pose proof (splitInts_join zs Hne) as H. now rewrite E in H. Qed.

Lemma noSep_joinInts zs : noSep bar (joinInts (Some <$> zs)) = true.
Proof.
  apply noSep_Join; [done|]. apply forallb_forall. intros s Hs.
  apply list_elem_of_In, list_elem_of_fmap in Hs as (z & -> & _). now apply noSep_Sprintf.
Qed.

Lemma Join_nonempty sep s l : s <> "" -> Join sep (s :: l) <> "".
Proof. destruct s; [done|]. now destruct l. Qed.

(** The rows of the polynomial commitments. *)
Lemma split_rows (g : list (list bigint)) : g <> [] -> Forall intsOk g -> exists gz,
  g = (fun r : list Z => Some <$> r) <$> gz /\
  allSome (splitInts <$> Split bar (Join bar (joinInts <$> g))) = Some gz /\
  Join bar (joinInts <$> g) <> "".
Proof.
  intros Hne HF.
  assert (Hg : exists gz, g = (fun r : list Z => Some <$> r) <$> gz /\ Forall (fun r => r <> []) gz).
  { clear Hne. induction HF as [|r g (zs & -> & Hz) _ (gz & -> & HF)]; [now exists []|].
    exists (zs :: gz). now split; [|constructor]. }
  destruct Hg as (gz & -> & HN). exists gz. split; [done|]. rewrite Split_Join.
  - split.
    + apply allSome_Some. rewrite <- !list_fmap_compose. apply list_fmap_ext. intros i r Hr.
      cbn. apply splitInts_join. rewrite Forall_forall in HN. now apply HN, (list_elem_of_lookup_2 gz i).
    + destruct gz as [|r gz]; [done|]. apply Forall_cons in HN as [Hr _].
      rewrite !fmap_cons. now apply Join_nonempty, joinInts_nonempty.
  - now intros ?%fmap_nil_inv.
  - apply forallb_forall. intros s Hs. apply list_elem_of_In, list_elem_of_fmap in Hs as (r & -> & Hr).
    apply list_elem_of_fmap in Hr as (z & -> & _). apply noSep_joinInts.
Qed.

Lemma mget_sub (o msg : smap) k v : o ⊆ msg -> o !! k = Some v -> mget msg k = v.
Proof. intros Hs Hk. unfold mget. now rewrite (lookup_weaken _ _ _ _ Hk Hs). Qed.

Lemma mgetInt_sub (o msg : smap) k z : o ⊆ msg -> o !! k = Some (Sprintf_v (Some z)) -> mgetInt msg k = Some z.
Proof. intros Hs Hk. unfold mgetInt. rewrite (mget_sub o) with (v := Sprintf_v (Some z)) by assumption. apply SetString_Sprintf. Qed.

Lemma eqb_nonempty s : s <> "" -> String.eqb s "" = false.
Proof. apply String.eqb_neq. Qed.

Lemma sigma_codec l : intsOk l -> sigma_UnmarshalJSON (sigma_MarshalJSON l) = Ok l /\ sigma_MarshalJSON l <> "".
Proof. intros (zs & -> & Hz). split; [now apply sigma_roundtrip|apply json_nonempty]. Qed.
End wire.

Ltac map_look :=
  repeat first [rewrite lookup_insert_eq; reflexivity | rewrite lookup_insert_ne by discriminate].

Section roundtrip.
Context `{J : JsonLaws}.

(** The receivers read back. *)
Lemma receivers_read_back to : Forall (fun s => s <> "" /\ noSep colon s = true) to ->
  (if String.eqb (Join colon to) "" then [] else Split colon (Join colon to)) = to.
Proof.
  intros Ht. destruct to as [|s l]; [done|]. rewrite eqb_nonempty.
  - apply Split_Join; [done|]. apply forallb_forall. intros s' Hs'.
    apply list_elem_of_In in Hs'. rewrite Forall_forall in Ht. now apply Ht.
  - apply Join_nonempty. apply Forall_cons in Ht as [[? _] _]. assumption.
Qed.

(** The header reads back. *)
Lemma GetRealMessage_header m o msg : o ⊆ msg ->
  (forall k v, headerMap m !! k = Some v -> o !! k = Some v) -> headerOk m ->
  GetRealMessage msg =
  realMessage msg (header m) (mkHeader (FromID (header m)) (-1) (ToID (header m))) /\
  mget msg "Type" = GetMsgType m.
Proof.
  intros Hs Ho (Hf & Hi & Ht). unfold GetRealMessage.
  rewrite !(mget_sub o msg "FromID" (GetFromID m)), (mget_sub o msg "FromIndex" (Itoa (GetFromIndex m))),
    !(mget_sub o msg "ToID" (if IsBroadcast m then "" else Join colon (GetToID m))),
    (mget_sub o msg "Type" (GetMsgType m)) by (assumption || (apply Ho; unfold headerMap; map_look)).
  split; [|done]. unfold GetFromID, GetFromIndex. rewrite (eqb_nonempty _ Hf). rewrite Atoi_Itoa by assumption.
  assert (Hto : (if String.eqb (if IsBroadcast m then "" else Join colon (GetToID m)) "" then []
    else Split colon (if IsBroadcast m then "" else Join colon (GetToID m))) = ToID (header m)).
  { destruct (IsBroadcast m); [now rewrite Ht|]. now apply receivers_read_back. }
  rewrite Hto. now destruct (header m).
Qed.

(** The other entries do not hide the header's. *)
Lemma OutMap_header m o : OutMap m = Ok (Some o) ->
  forall k v, headerMap m !! k = Some v -> o !! k = Some v.
Proof.
  intros Ho k v Hk.
  assert (Hin : k = "Type" \/ k = "ToID" \/ k = "FromIndex" \/ k = "FromID").
  { unfold headerMap in Hk. rewrite !lookup_insert_Some, lookup_empty in Hk. naive_solver. }
  destruct m as [| ? ? ? [] | | | ? ? [] | | | ? [] [] [] | | ? ? [] | ? ? [] | ? [] ];
    cbn [OutMap OutMap1 OutMap2 OutMap21 OutMap22 OutMap3 OutMap31 OutMap4 OutMap5 OutMap51 OutMap52 OutMap6
      deref mbind res_bind] in Ho; try discriminate; injection Ho as <-;
    repeat (rewrite lookup_insert_ne by naive_solver); exact Hk.
Qed.

End roundtrip.

(** Read the entries of the sender's map in the receiver's. *)
Ltac read Hs :=
  repeat match goal with
  | |- context [mgetInt ?msg ?k] => erewrite (mgetInt_sub _ msg k) by (exact Hs || map_look)
  | |- context [mget ?msg ?k] => erewrite (mget_sub _ msg k) by (exact Hs || map_look)
  end.

(** None of the entries is empty. *)
Ltac nonempty :=
  repeat match goal with
  | |- context [String.eqb ?s ""] =>
      first [rewrite (eqb_nonempty s (json_nonempty _)) | rewrite (eqb_nonempty s (Sprintf_nonempty _))]
  end.

(** A message whose nested keys and proofs survive their own codec survives the wire. *)
Lemma message_codec `{J : JsonLaws} m : headerOk m -> bodyOk m ->
  exists o, OutMap m = Ok (Some o) /\ forall msg, o ⊆ msg -> GetRealMessage msg = Ok (Some m).
Proof.
  intros Hh Hb. assert (Hex : exists o, OutMap m = Ok (Some o)).
  { destruct m as [| ? [] [] [] | | | ? [] [] | | | ? [] [] [] [] | | ? [] [] | ? [] [] | ? [] ];
      cbn in Hb |- *; try done; eauto. }
  destruct Hex as [o Ho]. exists o. split; [done|]. intros msg Hs.
  destruct (GetRealMessage_header m o msg Hs (OutMap_header m o Ho) Hh) as [-> HT].
  destruct m as [kg | kg [c|] [cb|] [pk|] | kg [id|] [sh|] | kg [c1|] | kg [num|] [pf|] | kg u c g
    | kg [y|] | kg [nt|] [pf1|] [pf2|] [cx|] | kg l | kg [num|] [pf|] | kg [num|] [pf|] | kg [zk|] b ];
    cbn in Hb; try done.
  all: unfold realMessage, realMessageLate; rewrite HT; cbn [GetMsgType String.eqb Ascii.eqb Bool.eqb header].
  all: cbn [OutMap OutMap1 OutMap2 OutMap21 OutMap22 OutMap3 OutMap31 OutMap4 OutMap5 OutMap51 OutMap52 OutMap6
      deref mbind res_bind] in Ho; injection Ho as <-.
  - destruct kg. cbn in Hb |- *. now subst.
  - read Hs. now rewrite (eqb_nonempty (PublicKey_MarshalJSON pk) (json_nonempty _)), Hb.
  - now read Hs.
  - now read Hs.
  - apply sigma_codec in Hb as [Hb _]. read Hs. nonempty. cbn [orb].
    unfold SquareFreeProof_UnmarshalJSON, SquareFreeProof_MarshalJSON. rewrite Hb. now destruct pf.
  - destruct Hb as ((us & -> & Hu) & (cs & -> & Hc) & Hg & HF).
    destruct (split_rows g Hg HF) as (gz & Eg & HG & HJ). read Hs.
    rewrite (eqb_nonempty _ (joinInts_nonempty us Hu)), (eqb_nonempty _ (joinInts_nonempty cs Hc)), (eqb_nonempty _ HJ).
    cbn [orb]. rewrite !splitInts_join, HG by assumption. now rewrite <- Eg.
  - now read Hs.
  - destruct Hb as (Hn & H1 & H2). read Hs.
    rewrite (eqb_nonempty (NtildeH1H2_MarshalJSON nt) (json_nonempty _)), Hn. cbn [orElse].
    rewrite (eqb_nonempty (NtildeProof_MarshalJSON pf1) (json_nonempty _)), H1. cbn [orElse].
    rewrite (eqb_nonempty (NtildeProof_MarshalJSON pf2) (json_nonempty _)), H2. cbn [orElse].
    now nonempty.
  - destruct Hb as (zs & -> & Hz). read Hs. rewrite (eqb_nonempty _ (joinInts_nonempty zs Hz)).
    now rewrite splitInts_join.
  - apply sigma_codec in Hb as [Hb _]. read Hs. nonempty. cbn [orb].
    unfold HvProof_UnmarshalJSON, HvProof_MarshalJSON. rewrite Hb. now destruct pf.
  - apply sigma_codec in Hb as [Hb _]. read Hs. nonempty. cbn [orb].
    unfold SquareFreeProof_UnmarshalJSON, SquareFreeProof_MarshalJSON. rewrite Hb. now destruct pf.
  - read Hs. rewrite (eqb_nonempty (Schnorr_MarshalJSON zk) (json_nonempty _)), Hb. now destruct b.
Qed.

(** A complete message: no field is nil, lists are not empty, a key carries its length,
    and the arrays of a modulus proof have all their entries. *)
Definition completeNt (nt : NtildeH1H2) : Prop := exists n h1 h2, nt = mkNtilde (Some n) (Some h1) (Some h2).
Definition completeNtProof (pf : NtildeProof) : Prop := exists alpha t,
  pf = mkNtildeProof (Some <$> alpha) (Some <$> t) /\ length alpha = Iterations /\ length t = Iterations.

Definition messageOk (m : Message) : Prop :=
  match m with
  | KGRound0Message kg => FromIndex kg = -1
  | KGRound1Message _ (Some _) (Some _) (Some pk) =>
      exists l n g n2, pk = mkPublicKey (Itoa l) (Some n) (Some g) (Some n2) /\ 0 < l < 2 ^ 63
  | KGRound2Message _ (Some _) (Some _) | KGRound2Message1 _ (Some _) | KGRound3Message1 _ (Some _) => True
  | KGRound2Message2 _ (Some _) (Some pf) | KGRound5Message2 _ (Some _) (Some pf) => intsOk (sfSigma pf)
  | KGRound3Message _ u c g => intsOk u /\ intsOk c /\ g <> [] /\ Forall intsOk g
  | KGRound4Message _ (Some nt) (Some pf1) (Some pf2) (Some _) =>
      completeNt nt /\ completeNtProof pf1 /\ completeNtProof pf2
  | KGRound5Message _ l => intsOk l
  | KGRound5Message1 _ (Some _) (Some pf) => intsOk (hvSigma pf)
  | KGRound6Message _ (Some zk) _ => exists e s, zk = mkSchnorr (Some e) (Some s)
  | _ => False
  end.

Lemma Schnorr_json `{J : JsonLaws} e s :
  Schnorr_UnmarshalJSON (Schnorr_MarshalJSON (mkSchnorr (Some e) (Some s))) = Ok (mkSchnorr (Some e) (Some s)).
Proof.
  unfold Schnorr_UnmarshalJSON, Schnorr_MarshalJSON. cbn [zkE zkS].
  rewrite json_roundtrip by json_is_ascii. json_fields. done.
Qed.

Lemma completeNtProof_json `{J : JsonLaws} pf : completeNtProof pf ->
  NtildeProof_UnmarshalJSON (NtildeProof_MarshalJSON pf) = Ok pf.
Proof. intros (al & t & -> & Ha & Ht). now apply (ntilde_json_roundtrip 0 0 0 0 0 0 0 al t). Qed.

Lemma messageOk_body `{J : JsonLaws} m : messageOk m -> bodyOk m.
Proof.
  destruct m as [| ? [] [] [pk|] | ? [] [] | ? [] | ? [] [] | | ? [] | ? [nt|] [pf1|] [pf2|] [] | | ? [] [] | ? [] []
    | ? [zk|] ]; cbn [messageOk bodyOk]; try done.
  - intros (l & n & g & n2 & -> & Hl). now apply PublicKey_json.
  - intros ((n & h1 & h2 & ->) & H1 & H2). split; [|split; now apply completeNtProof_json].
    now apply (ntilde_json_roundtrip n h1 h2 0 0 0 0 (replicate Iterations 0) (replicate Iterations 0)).
  - intros (e & s & ->). apply Schnorr_json.
Qed.

(** * Claims *)

(** C40: every message of key generation reaches the receiver unchanged.  For a complete
    message, with a sender, an index that fits an int and recipients that are not empty
    and hold no separator, [OutMap] succeeds, and [GetRealMessage] rebuilds the message
    from any map that holds the sender's entries (the transport adds the key, the node
    and the signature). *)
Theorem kg_message_roundtrip `{J : JsonLaws} m : headerOk m -> messageOk m ->
  exists o, OutMap m = Ok (Some o) /\ forall msg, o ⊆ msg -> GetRealMessage msg = Ok (Some m).
Proof. intros Hh Hm%messageOk_body. now apply message_codec. Qed.

Lemma kg_message_roundtrip_witness :
  let m := KGRound2Message (mkHeader "31" 0 ["32"; "33"]) (Some 2) (Some (-5)) in
  exists o, OutMap m = Ok (Some o) /\ GetRealMessage (<["Sig" := "00"]> o) = Ok (Some m).
Proof.
  intros m. destruct (kg_message_roundtrip m) as (o & Ho & HG).
  - split; [discriminate|]. split; [split; [discriminate|reflexivity]|].
    repeat constructor; discriminate.
  - exact I.
  - exists o. split; [exact Ho|]. apply HG, insert_subseteq. injection Ho as <-. reflexivity.
Defined.

(** A message that names a known type but whose proof or key does not decode
    is not refused: it becomes a round 0 message of the same sender. *)
Theorem malformed_becomes_round0 `{J : JsonLib} msg index e :
  let from := mget msg "FromID" in
  let to := if String.eqb (mget msg "ToID") "" then [] else Split colon (mget msg "ToID") in
  from <> "" -> Atoi (mget msg "FromIndex") = Ok index ->
  (mget msg "Type" = "KGRound1Message" /\ mget msg "U1PaillierPk" <> "" /\
   PublicKey_UnmarshalJSON (mget msg "U1PaillierPk") = Err e) \/
  (mget msg "Type" = "KGRound2Message2" /\ mget msg "SfPf" <> "" /\ mget msg "Num" <> "" /\
   SquareFreeProof_UnmarshalJSON (mget msg "SfPf") = Err e) \/
  (mget msg "Type" = "KGRound6Message" /\ mget msg "U1zkXiProof" <> "" /\
   Schnorr_UnmarshalJSON (mget msg "U1zkXiProof") = Err e) ->
  GetRealMessage msg = Ok (Some (KGRound0Message (mkHeader from (-1) to))).
Proof.
  intros from to Hf Hi H. unfold GetRealMessage. fold from to. rewrite (eqb_nonempty _ Hf), Hi.
  unfold realMessage, realMessageLate. destruct H as [(-> & Hn & E)|[(-> & Hn & Hn' & E)|(-> & Hn & E)]];
    cbn [String.eqb Ascii.eqb Bool.eqb]; rewrite ?(eqb_nonempty _ Hn), ?(eqb_nonempty _ Hn');
    cbn [orb]; now rewrite E.
Qed.

Lemma malformed_becomes_round0_witness :
  GetRealMessage (<["Type" := "KGRound1Message"]> (<["U1PaillierPk" := "{}"]> (
    <["FromIndex" := "2"]> (<["FromID" := "31"]> ∅))))
  = Ok (Some (KGRound0Message (mkHeader "31" (-1) []))).
Proof.
  refine (malformed_becomes_round0 _ 2 "json" _ _ _).
  - discriminate.
  - vm_compute. reflexivity.
  - left. split; [reflexivity|]. split; [discriminate|vm_compute; reflexivity].
Defined.
