(* ===== verification/KgSave.v ===== *)
(** The result of ECDSA key generation and its form in the local database,
    [smpc-lib/ecdsa/keygen/save_data.go]. *)

From Stdlib Require Import ZArith Lia.
From stdpp Require Import gmap strings.
From S2P Require Import Prelude Text Json IntGo Paillier Ntilde KgMessage.

#[local] Open Scope Z_scope.

Record LocalDNodeSaveData := mkSave {
  Pkx : bigint; Pky : bigint; sC : bigint; SkU1 : bigint;
  U1PaillierSk : option PrivateKey; U1PaillierPk : list (option PublicKey);
  U1NtildePrivData : option NtildePrivData; U1NtildeH1H2 : list (option NtildeH1H2);
  IDs : list bigint; CurDNodeID : bigint }.

Definition NewLocalDNodeSaveData (DNodeCount : nat) : LocalDNodeSaveData :=
  mkSave None None None None None (replicate DNodeCount None) None (replicate DNodeCount None) [] None.

Section codec.
Context `{J : JsonLib}.

Definition SaveData_OutMap (sd : LocalDNodeSaveData) : res smap :=
  usk ← deref (U1PaillierSk sd);
  paipk ← mapRange (fun v => pk ← deref v; Ok (PublicKey_MarshalJSON pk)) (U1PaillierPk sd);
  priv ← deref (U1NtildePrivData sd);
  nth ← mapRange (fun v => nt ← deref v; Ok (NtildeH1H2_MarshalJSON nt)) (U1NtildeH1H2 sd);
  Ok (<["CurDNodeID" := Sprintf_v (CurDNodeID sd)]> (
      <["IDs" := Join bar (Sprintf_v <$> IDs sd)]> (
      <["U1NtildeH1H2" := Join bar nth]> (
      <["U1NtildePrivData" := NtildePrivData_MarshalJSON priv]> (
      <["U1PaillierPk" := Join bar paipk]> (
      <["U1PaillierSk" := PrivateKey_MarshalJSON usk]> (
      <["SkU1" := Sprintf_v (SkU1 sd)]> (
      <["C" := Sprintf_v (sC sd)]> (
      <["Pky" := Sprintf_v (Pky sd)]> (
      <["Pkx" := Sprintf_v (Pkx sd)]> ∅)))))))))).

(** nil ([Err]) when a part does not decode. *)
Definition GetLocalDNodeSaveData (data : smap) : res LocalDNodeSaveData :=
  let pkx := mgetInt data "Pkx" in
  let pky := mgetInt data "Pky" in
  let c := mgetInt data "C" in
  let sku1 := mgetInt data "SkU1" in
  usk ← PrivateKey_UnmarshalJSON (mget data "U1PaillierSk");
  pk ← mapRange (fun v => pk ← PublicKey_UnmarshalJSON v; Ok (Some pk))
         (Split bar (mget data "U1PaillierPk"));
  priv ← NtildePrivData_UnmarshalJSON (mget data "U1NtildePrivData");
  nt ← mapRange (fun v => nt ← NtildeH1H2_UnmarshalJSON v; Ok (Some nt))
         (Split bar (mget data "U1NtildeH1H2"));
  let ids := SetString 10 <$> Split bar (mget data "IDs") in
  let curdnodeid := mgetInt data "CurDNodeID" in
  Ok (mkSave pkx pky c sku1 (Some usk) pk (Some priv) nt ids curdnodeid).
End codec.

(** * Round trip *)

(** The values key generation ends with: nothing is nil, and the keys are ones
    the JSON codecs preserve. *)
Definition pkOk `{JsonLib} (pk : PublicKey) : Prop :=
  PublicKey_UnmarshalJSON (PublicKey_MarshalJSON pk) = Ok pk /\ noSep bar (PublicKey_MarshalJSON pk) = true.

Section roundtrip.
Context `{J : JsonLaws}.

Lemma noBar_ints names vals : forallb (noSep bar) names = true ->
  noSep bar (marshalInts names vals) = true.
Proof.
  intros Hn. apply json_noBar, forallb_forall. intros [k v] Hin.
  unfold intsObject in Hin. apply list_elem_of_In in Hin.
  pose proof (elem_of_zip_l _ _ _ _ Hin) as Hk. pose proof (elem_of_zip_r _ _ _ _ Hin) as Hv.
  apply list_elem_of_fmap in Hv as (z & -> & _). rewrite forallb_forall in Hn.
  cbn [fst snd]. rewrite (Hn k) by now apply list_elem_of_In. now rewrite noSep_Sprintf.
Qed.

(** A public key whose length prints as a number survives. *)
Lemma pkOk_intro l n g n2 : 0 < l < 2 ^ 63 -> pkOk (mkPublicKey (Itoa l) (Some n) (Some g) (Some n2)).
Proof.
  intros Hl. split; [now apply PublicKey_json|]. apply json_noBar. cbn [forallb fst snd pkLength pkN pkG pkN2].
  change (Itoa l) with (Sprintf_v (Some l)). now rewrite !noSep_Sprintf.
Qed.

Lemma ntilde_codec n h1 h2 : let nt := mkNtilde (Some n) (Some h1) (Some h2) in
  NtildeH1H2_UnmarshalJSON (NtildeH1H2_MarshalJSON nt) = Ok nt /\ noSep bar (NtildeH1H2_MarshalJSON nt) = true.
Proof.
  unfold NtildeH1H2_UnmarshalJSON, NtildeH1H2_MarshalJSON. cbn [ntNtilde ntH1 ntH2]. split.
  - rewrite json_roundtrip by json_is_ascii. json_fields. done.
  - apply json_noBar. cbn [forallb fst snd]. now rewrite !noSep_Sprintf.
Qed.

(** Encoded parts between bars decode one by one. *)
Lemma decode_parts {A} (enc : A -> string) (dec : string -> res A) (l : list A) : l <> [] ->
  Forall (fun x => dec (enc x) = Ok x /\ noSep bar (enc x) = true) l ->
  mapRange (fun v => x ← deref v; Ok (enc x)) (Some <$> l) = Ok (enc <$> l) /\
  mapRange (fun v => x ← dec v; Ok (Some x)) (Split bar (Join bar (enc <$> l))) = Ok (Some <$> l).
Proof.
  intros Hne HF. split; [|rewrite Split_Join].
  - apply mapRange_Forall2, Forall2_fmap_l, Forall2_fmap_r, Forall_Forall2_diag, Forall_true. done.
  - apply mapRange_Forall2, Forall2_fmap_l, Forall2_fmap_r, Forall_Forall2_diag.
    eapply Forall_impl; [exact HF|]. cbn. intros x [-> _]. done.
  - now intros ?%fmap_nil_inv.
  - apply forallb_forall. intros s Hs. apply list_elem_of_In, list_elem_of_fmap in Hs as (x & -> & Hx).
    rewrite Forall_forall in HF. now apply HF.
Qed.
End roundtrip.

(** * Claims *)

(** The data of a finished key generation survives the local database: for
    every public key, share, chain code, key lists and identifiers without nil
    entries, encoding succeeds and decoding restores the value. *)
Theorem savedata_roundtrip `{J : JsonLaws} pkx pky c sk usk pks priv nts ids cur :
  let nt_of '(n, h1, h2) := mkNtilde (Some n) (Some h1) (Some h2) in
  PrivateKey_UnmarshalJSON (PrivateKey_MarshalJSON usk) = Ok usk ->
  NtildePrivData_UnmarshalJSON (NtildePrivData_MarshalJSON priv) = Ok priv ->
  pks <> [] -> Forall pkOk pks -> nts <> [] -> ids <> [] ->
  let sd := mkSave (Some pkx) (Some pky) (Some c) (Some sk) (Some usk) (Some <$> pks) (Some priv)
              (Some <$> (nt_of <$> nts)) (Some <$> ids) (Some cur) in
  exists m, SaveData_OutMap sd = Ok m /\ GetLocalDNodeSaveData m = Ok sd.
Proof.
  intros nt_of Hsk Hpr Hpk HF Hnt Hids sd.
  destruct (decode_parts PublicKey_MarshalJSON PublicKey_UnmarshalJSON pks Hpk HF) as [E1 D1].
  destruct (decode_parts NtildeH1H2_MarshalJSON NtildeH1H2_UnmarshalJSON (nt_of <$> nts)) as [E2 D2].
  { now intros ?%fmap_nil_inv. }
  { apply Forall_fmap, Forall_true. intros [[n h1] h2]. apply ntilde_codec. }
  unfold SaveData_OutMap, sd. cbn [U1PaillierSk U1PaillierPk U1NtildePrivData U1NtildeH1H2 deref mbind res_bind].
  rewrite E1. cbn [mbind res_bind]. rewrite E2. cbn [mbind res_bind]. eexists. split; [reflexivity|].
  set (m := insert "CurDNodeID" _ _). assert (Hs : m ⊆ m) by reflexivity. unfold m at 1 in Hs.
  unfold GetLocalDNodeSaveData.
  repeat match goal with
  | |- context [mgetInt m ?k] => erewrite (mgetInt_sub _ m k) by (exact Hs || map_look)
  | |- context [mget m ?k] => erewrite (mget_sub _ m k) by (exact Hs || map_look)
  end.
  rewrite Hsk. cbn [mbind res_bind]. rewrite D1. cbn [mbind res_bind]. rewrite Hpr. cbn [mbind res_bind].
  rewrite D2. cbn [mbind res_bind IDs]. rewrite <- (list_fmap_compose Some Sprintf_v).
  change (Sprintf_v ∘ Some) with (fun z : Z => Sprintf_v (Some z)). now rewrite Split_ints.
Qed.

Lemma savedata_roundtrip_witness :
  let sd := mkSave (Some 2) (Some 34) (Some 5) (Some 7) (Some smallKey.2) [Some smallKey.1]
              (Some (mkNtildePriv (Some 3) (Some 4) (Some 5) (Some 11)))
              [Some (mkNtilde (Some 253) (Some 4) (Some 192))] [Some 1; Some 2] (Some 1) in
  exists m, SaveData_OutMap sd = Ok m /\ GetLocalDNodeSaveData m = Ok sd.
Proof.
  refine (savedata_roundtrip 2 34 5 7 smallKey.2 [smallKey.1]
    (mkNtildePriv (Some 3) (Some 4) (Some 5) (Some 11)) [(253, 4, 192)] [1; 2] 1 _ _ _ _ _ _).
  - exact (proj1 (proj2 (paillier_json_roundtrip 8 187 188 34969 160 90 (conj eq_refl eq_refl)))).
  - exact (proj1 (proj2 (ntilde_json_roundtrip 253 4 192 3 4 5 11
      (replicate Iterations 0) (replicate Iterations 0) eq_refl eq_refl))).
  - discriminate.
  - constructor; [exact (pkOk_intro 8 187 188 34969 (conj eq_refl eq_refl))|constructor].
  - discriminate.
  - discriminate.
Defined.
