(* ===== verification/Common.v ===== *)
(** Helpers shared by the protocols, [smpc-lib/smpc/common.go]: sorting node
    identifiers and checking a finished ECDSA signature. *)

From Stdlib Require Import ZArith Lia Zcong Zdivisibility.
From stdpp Require Import sorting.
From S2P Require Import Prelude NumTheory Primality GoBig Random Text Secp256k1 CurveFacts.
From S2P Require Import CurveLaws ToyCurve Vss2.

#[local] Open Scope Z_scope.

(** [sort.Sort] of a [SortableIDSSlice]: nil pointers compare equal to each
    other, a comparison of nil with a number panics. *)
Definition sortIDs (ids : list bigint) : res (list bigint) :=
  match allSome ids with
  | Some l => Ok (Some <$> merge_sort Z.le l)
  | None => if forallb (fun o => match o with None => true | _ => false end) ids then Ok ids else Panic
  end.

(** [smpc.GetRandomInt]. *)
Definition GetRandomIntLen (length : Z) : rnd bigint :=
  if length <=? 0 then mret None else
  let one := 1 in
  let maxi := Z.shiftl one length in
  let maxi := maxi - one in
  rand_Int maxi.

(** [ReadBits] into a buffer of zeros. *)
Definition ReadBits (x : Z) (buf : list Z) : list Z := readBits x buf.

Definition IsInfinityPoint (x y : bigint) : bool :=
  match x, y with
  | Some x, Some y => (x =? 0) && negb (y =? 0)
  | _, _ => false
  end.

Section verify.
Context `{E : Curve}.

(** [smpc.Verify2]; [v] is not used. *)
Definition VerifySignature (r s : bigint) (message : string) (pkx pky : bigint) : res bool :=
  match r, s, pkx, pky with
  | Some r, Some s, Some pkx, Some pky =>
      if String.eqb message "" then Ok false else
      if negb (IsOnCurve S256 pkx pky) then Ok false else
      if IsInfinityPoint (Some pkx) (Some pky) then Ok false else
      let nSubOne := cN S256 - 1 in
      if (r <? 1) || (nSubOne <? r) then Ok false else
      if (s <? 1) || (nSubOne <? s) then Ok false else
      let z := SetString 16 message in
      match ModInverse s (cN S256) with
      | None => Ok false
      | Some ss =>
          z ← deref z;
          let zz := z * ss in
          u1 ← Mod zz (cN S256);
          let zz2 := r * ss in
          u2 ← Mod zz2 (cN S256);
          let u1 := if u1 <? 0 then u1 + cP S256 else u1 in
          let ug := ReadBits u1 (replicate 32 0) in
          ugp ← KMulG ug;
          let u2 := if u2 <? 0 then u2 + cP S256 else u2 in
          let upk := ReadBits u2 (replicate 32 0) in
          upkp ← ScalarMult (Some pkx, Some pky) upk;
          p ← Add S256 ugp upkp;
          xxx ← deref p.1;
          xR ← Mod xxx (cN S256);
          Ok (xR =? r)
      end
  | _, _, _, _ => Ok false
  end.
End verify.

(** * What the check decides *)

Section decides.
Context `{L : CurveLaws}.
Abbreviation q := (cN S256).

(** The guards pass for a point of the curve and numbers in range. *)
Lemma VerifySignature_unfold r s message x z w :
  x mod q <> 0 -> (pt x).1 <> 0 -> 0 < r < q -> 0 < s < q ->
  SetString 16 message = Some z -> ModInverse s q = Some w ->
  VerifySignature (Some r) (Some s) message (Some (pt x).1) (Some (pt x).2) =
  (p ← Add S256 (gp (z * w)) (gp (x * (r * w)));
   xxx ← deref p.1;
   xR ← Mod xxx q;
   Ok (xR =? r)).
Proof.
  intros Hx H0 Hr Hs Hz Hw. pose proof N_ge2. pose proof N_256. unfold VerifySignature.
  destruct (String.eqb_spec message "") as [->|_]; [discriminate|].
  rewrite IsOnCurve_pt by assumption. cbn [negb IsInfinityPoint]. rewrite Hw, Hz.
  replace ((pt x).1 =? 0) with false by (symmetry; now apply Z.eqb_neq). cbn [andb].
  replace ((r <? 1) || (q - 1 <? r)) with false by lia.
  replace ((s <? 1) || (q - 1 <? s)) with false by lia.
  cbn [deref mbind res_bind]. rewrite !Mod_pos by lia. cbn [mbind res_bind].
  pose proof (Z.mod_pos_bound (z * w) q).
  pose proof (Z.mod_pos_bound (r * w) q).
  replace ((z * w) mod q <? 0) with false by lia. replace ((r * w) mod q <? 0) with false by lia.
  unfold KMulG, ScalarBaseMult, ReadBits. fold (be32 ((z * w) mod q)). fold (be32 ((r * w) mod q)).
  rewrite !ScalarMult_be32 by lia. fold (ScalarBaseMult (Bytes ((z * w) mod q))).
  rewrite ScalarBaseMult_pt by lia. cbn [mbind res_bind].
  change (Some (pt x).1, Some (pt x).2) with (mkpt (pt x)). rewrite ScalarMult_pt by (lia || assumption).
  cbn [mbind res_bind].
  assert (E1 : gp ((z * w) mod q) = gp (z * w)) by (apply gp_proper; now rewrite eqm_mod).
  assert (E2 : gp (x * ((r * w) mod q)) = gp (x * (r * w))) by (apply gp_proper; now rewrite eqm_mod).
  now rewrite E1, E2.
Qed.
(** The inverse of [s] and the second scalar. *)
Lemma sig_inverse r s x : x mod q <> 0 -> 0 < r < q -> 0 < s < q -> let w := Z.invmod s q in
  ModInverse s q = Some w /\ [mod q] s * w == 1 /\ (x * (r * w)) mod q <> 0.
Proof.
  intros Hx Hr Hs w. pose proof N_ge2. pose proof N_prime as Hq.
  assert (Hc : Z.coprime s q) by (apply prime_coprime; [assumption|rewrite Z.mod_small; lia]).
  assert (Hsw : [mod q] s * w == 1) by now apply invmod_mul.
  split; [apply ModInverse_coprime; [lia|assumption]|]. split; [assumption|].
  apply prime_mul_ne0; [assumption..|]. apply prime_mul_ne0; [assumption|rewrite Z.mod_small; lia|].
  apply coprime_mod_ne0; [lia|]. apply (eqm_1_coprime _ _ s). now rewrite Z.mul_comm.
Qed.

Lemma VerifySignature_eval r s message x z :
  x mod q <> 0 -> (pt x).1 <> 0 -> 0 < r < q -> 0 < s < q -> SetString 16 message = Some z ->
  let w := Z.invmod s q in let u1 := z * w in let u2 := x * (r * w) in
  VerifySignature (Some r) (Some s) message (Some (pt x).1) (Some (pt x).2) =
    if (u1 mod q =? 0) || ((u1 - u2) mod q =? 0) || ((u1 + u2) mod q =? 0)
    then Panic else Ok ((pt (u1 + u2)).1 mod q =? r).
Proof.
  intros Hx H0 Hr Hs Hz w u1 u2. pose proof N_ge2.
  destruct (sig_inverse r s x Hx Hr Hs) as (Hw & _ & Hu2).
  rewrite (VerifySignature_unfold r s message x z w) by assumption. fold u1 u2.
  rewrite Add_gp by assumption. destruct (u1 mod q =? 0); [done|].
  destruct ((u1 - u2) mod q =? 0); [done|]. cbn [orb mbind res_bind]. unfold gp.
  destruct ((u1 + u2) mod q =? 0); [done|].
  cbn [mkpt fst deref mbind res_bind]. rewrite Mod_pos by lia. done.
Qed.

(** A signature made with nonce [k] is accepted. *)
Lemma VerifySignature_accepts r s message x z k :
  x mod q <> 0 -> (pt x).1 <> 0 -> 0 < r < q -> 0 < s < q -> SetString 16 message = Some z ->
  let w := Z.invmod s q in let u1 := z * w in let u2 := x * (r * w) in
  k mod q <> 0 -> r = (pt k).1 mod q -> [mod q] s * k == z + r * x ->
  u1 mod q <> 0 -> (u1 - u2) mod q <> 0 ->
  VerifySignature (Some r) (Some s) message (Some (pt x).1) (Some (pt x).2) = Ok true.
Proof.
  intros Hx H0 Hr Hs Hz w u1 u2 Hk Er Ek Hu1 Hne.
  destruct (sig_inverse r s x Hx Hr Hs) as (_ & Hsw & _). fold w in Hsw.
  assert (Es : [mod q] u1 + u2 == k).
  { unfold u1, u2. replace (z * w + x * (r * w)) with ((z + r * x) * w) by ring. rewrite <- Ek.
    replace (s * k * w) with (s * w * k) by ring. rewrite Hsw. now rewrite Z.mul_1_l. }
  rewrite (VerifySignature_eval r s message x z) by assumption. fold w u1 u2.
  replace (u1 mod q =? 0) with false by (symmetry; now apply Z.eqb_neq).
  replace ((u1 - u2) mod q =? 0) with false by (symmetry; now apply Z.eqb_neq).
  replace ((u1 + u2) mod q) with (k mod q) by now apply eqm_iff.
  replace (k mod q =? 0) with false by (symmetry; now apply Z.eqb_neq).
  cbn [orb]. rewrite (pt_eqm _ _ Es), <- Er. now rewrite Z.eqb_refl.
Qed.
End decides.

(** * Claims *)

(** C26: [smpc.Verify2] decides the ECDSA equation.  For a public key [x*G], [r]
    and [s] in [[1, N-1]] and a hexadecimal message [z], let [u1 = z/s] and
    [u2 = r*x/s] modulo [N]: it returns whether the [x]-coordinate of
    [(u1+u2)*G] is [r] modulo [N], and panics exactly when [u1*G] is nil or the
    two summands are equal or opposite (the point addition has no such case).  A
    signature made with nonce [k] from the ECDSA equations is accepted. *)
Theorem VerifySignature_decides `{L : CurveLaws} r s message x z :
  x mod cN S256 <> 0 -> (pt x).1 <> 0 -> 0 < r < cN S256 -> 0 < s < cN S256 ->
  SetString 16 message = Some z ->
  let w := Z.invmod s (cN S256) in
  let u1 := z * w in let u2 := x * (r * w) in
  VerifySignature (Some r) (Some s) message (Some (pt x).1) (Some (pt x).2) =
    (if (u1 mod cN S256 =? 0) || ((u1 - u2) mod cN S256 =? 0) || ((u1 + u2) mod cN S256 =? 0)
     then Panic else Ok ((pt (u1 + u2)).1 mod cN S256 =? r)) /\
  (forall k, k mod cN S256 <> 0 -> r = (pt k).1 mod cN S256 -> [mod cN S256] s * k == z + r * x ->
     u1 mod cN S256 <> 0 -> (u1 - u2) mod cN S256 <> 0 ->
     VerifySignature (Some r) (Some s) message (Some (pt x).1) (Some (pt x).2) = Ok true).
Proof.
  intros Hx H0 Hr Hs Hz w u1 u2. split; [now apply VerifySignature_eval|].
  intros k. now apply (VerifySignature_accepts r s message x z k).
Qed.

(** Key 5, nonce 7, message 10 (hexadecimal) on the small curve. *)
Lemma VerifySignature_decides_witness :
  let r := (toy_pt 7).1 mod 139 in
  let s := ((16 + r * 5) * Z.invmod 7 139) mod 139 in
  VerifySignature (Some r) (Some s) "10" (Some (toy_pt 5).1) (Some (toy_pt 5).2) = Ok true.
Proof.
  intros r s.
  refine (proj2 (VerifySignature_decides (L := toy_laws) r s "10" 5 16 _ _ _ _ _) 7 _ _ _ _ _).
  8: { apply eqm_iff. vm_compute. reflexivity. }
  all: vm_compute; (reflexivity || discriminate || (split; reflexivity)).
Defined.
