(* ===== verification/Gg20Zk.v ===== *)
(** The zero-knowledge proofs of the GG20 rounds of signing,
    [smpc-lib/crypto/ec2/tZK.go], [stZK.go] and [pdl_w_slack_proof.go]: the
    second generator [CalcHPoint], the proof of an opening
    [T = sigma*G + l*H], the proof that [S = sigma*R] has the same [sigma], and
    the proof that [k*R] and the Paillier ciphertext of [k] agree. *)

From Stdlib Require Import ZArith Lia Zcong Zdivisibility.
From S2P Require Import Prelude NumTheory Primality GoBig Random Text IntGo Json Secp256k1 CurveFacts.
From S2P Require Import CurveLaws ToyCurve Vss2 Commit Paillier Schnorr Ntilde MtA Common.

#[local] Open Scope Z_scope.

(** [crypto/sha256.Sum256]. *)
Class Sha256Lib := { sha256 : list Z -> list Z }.

(** * The second generator *)

Section hpoint.
Context `{E : Curve} `{G : GoLib} `{H : Sha256Lib}.

(** Both coordinates nil stand for the error, which the caller drops. *)
Definition decompressPoint (x : Z) (sign : Z) : res gpoint :=
  let x3 := x * x in
  let x3 := x3 * x in
  let y2 := x3 + 7 in
  match ModSqrt y2 (cP S256) with
  | None => Ok nilpt
  | Some y =>
      if negb (Bit y 0 =? Z.land sign 1) then
        let i := - y in
        y ← Mod i (cP S256);
        Ok (Some x, Some y)
      else Ok (Some x, Some y)
  end.

Definition minRounds : nat := 3.

Fixpoint hLoop (fuel i : nat) (bz : list Z) (h : gpoint) : res gpoint :=
  match fuel with
  | O => Starve
  | S f =>
      if Nat.ltb i minRounds || (match h with (None, None) => true | _ => false end) then
        if Nat.leb 10 i then Err "too many rounds (max: 10)" else
        let sum := sha256 bz in
        h ← (if Nat.leb (minRounds - 1) i then decompressPoint (SetBytes sum) 2 else Ok h);
        hLoop f (S i) sum h
      else Ok h
  end.

(** The counter is at most 10, so the loop test runs at most eleven times. *)
Definition CalcHPoint : res gpoint := hLoop 11 0 (Marshal S256 (cGx S256) (cGy S256)) nilpt.
End hpoint.

(** * Data *)

Record TProof := mkTProof { tAlphaX : bigint; tAlphaY : bigint; tT : bigint; tU : bigint }.

Record STProof := mkSTProof {
  stAlphaX : bigint; stAlphaY : bigint; stBetaX : bigint; stBetaY : bigint; stT : bigint; stU : bigint }.

Record PDLwSlackStatement := mkPDLSt {
  pCipherText : bigint; pPK : option PublicKey; pK1R : gpoint; pR : gpoint;
  pH1 : bigint; pH2 : bigint; pNTilde : bigint }.

(** The field [SK] is not read. *)
Record PDLwSlackWitness := mkPDLWit { pK1 : bigint; pK1Ra : bigint; pSK : option PrivateKey }.

Record PDLwSlackProof := mkPDL {
  pdZ : bigint; pdU1X : bigint; pdU1Y : bigint; pdU2 : bigint; pdU3 : bigint;
  pdS1 : bigint; pdS2 : bigint; pdS3 : bigint }.

Section proofs.
Context `{E : Curve} `{G : GoLib}.

(** The challenge of the two proofs on points: the hash reduced modulo the order. *)
Definition hashModN (l : list bigint) : res Z :=
  e ← Sha512_256 l;
  e ← deref e;
  Mod e (cN S256).

(** [!(p.x.Cmp(q.x) != 0 || p.y.Cmp(q.y) != 0)]. *)
Definition samePoint (p p' : gpoint) : res bool :=
  bx ← CmpEq p.1 p'.1;
  if negb bx then Ok false else CmpEq p.2 p'.2.

(** * T = sigma*G + l*H *)

Definition TProve (t1 h : gpoint) (sigma1 l1 : bigint) : rnd (option TProof) :=
  match t1, h, sigma1, l1 with
  | (Some _, Some _), (Some _, Some _), Some sigma1, Some l1 =>
      a ← GetRandomIntFromZn (cN S256);
      b ← GetRandomIntFromZn (cN S256);
      aG ← lift (ScalarBaseMult (Bytes a));
      bH ← lift (ScalarMult h (Bytes b));
      alpha ← lift (Add S256 aG bH);
      g ← lift (ScalarBaseMult (Bytes 1));
      e ← lift (hashModN [t1.1; t1.2; h.1; h.2; g.1; g.2; alpha.1; alpha.2]);
      t ← lift (Mod (a + e * sigma1) (cN S256));
      u ← lift (Mod (b + e * l1) (cN S256));
      mret (Some (mkTProof alpha.1 alpha.2 (Some t) (Some u)))
  | _, _, _, _ => mret None
  end.

Definition TVerify (t1 h : gpoint) (proof : option TProof) : res bool :=
  match t1, h, proof with
  | (Some t1X, Some t1Y), (Some hx, Some hy), Some pf =>
      let tmp := [tAlphaX pf; tAlphaY pf; t1.1; t1.2; h.1; h.2] in
      if negb (checkPointOnCurve tmp) then Ok false else
      if IsInfinityPoint (tAlphaX pf) (tAlphaY pf) || IsInfinityPoint t1.1 t1.2
         || IsInfinityPoint h.1 h.2 then Ok false else
      T ← deref (tT pf);
      mt ← Mod T (cN S256);
      U ← deref (tU pf);
      mu ← Mod U (cN S256);
      if trivial mt || trivial mu then Ok false else
      g ← ScalarBaseMult (Bytes 1);
      e ← hashModN [t1.1; t1.2; h.1; h.2; g.1; g.2; tAlphaX pf; tAlphaY pf];
      tG ← ScalarBaseMult (Bytes T);
      uH ← ScalarMult h (Bytes U);
      tGu ← Add S256 tG uH;
      et1 ← ScalarMult t1 (Bytes e);
      ate ← Add S256 (tAlphaX pf, tAlphaY pf) et1;
      samePoint tGu ate
  | _, _, _ => Ok false
  end.

(** * S = sigma*R and T = sigma*G + l*H *)

Definition calculateTAndU (q a e sigma1 b l1 : Z) : res (Z * Z) :=
  t ← modInt_Add q a (e * sigma1);
  u ← modInt_Add q b (e * l1);
  Ok (t, u).

Definition NewSTProof (t1 s1 R h : gpoint) (sigma1 l1 : bigint) : rnd (option STProof) :=
  match t1, s1, R, h, sigma1, l1 with
  | (Some _, Some _), (Some _, Some _), (Some _, Some _), (Some _, Some _), Some sigma1, Some l1 =>
      g ← lift (ScalarBaseMult (Bytes 1));
      a ← GetRandomIntFromZn (cN S256);
      b ← GetRandomIntFromZn (cN S256);
      alpha ← lift (ScalarMult R (Bytes a));
      aG ← lift (ScalarBaseMult (Bytes a));
      bHG ← lift (ScalarMult h (Bytes b));
      beta ← lift (Add S256 aG bHG);
      e ← lift (hashModN [t1.1; t1.2; s1.1; s1.2; R.1; R.2; h.1; h.2; g.1; g.2;
                          alpha.1; alpha.2; beta.1; beta.2]);
      '(t, u) ← lift (calculateTAndU (cN S256) a e sigma1 b l1);
      mret (Some (mkSTProof alpha.1 alpha.2 beta.1 beta.2 (Some t) (Some u)))
  | _, _, _, _, _, _ => mret None
  end.

Definition STVerify (s1 t1 R h : gpoint) (proof : option STProof) : res bool :=
  match s1, t1, R, h, proof with
  | (Some _, Some _), (Some _, Some _), (Some _, Some _), (Some _, Some _), Some pf =>
      let tmp := [s1.1; s1.2; t1.1; t1.2; R.1; R.2; h.1; h.2; stAlphaX pf; stAlphaY pf;
                  stBetaX pf; stBetaY pf] in
      if negb (checkPointOnCurve tmp) then Ok false else
      if IsInfinityPoint s1.1 s1.2 || IsInfinityPoint t1.1 t1.2 || IsInfinityPoint R.1 R.2
         || IsInfinityPoint h.1 h.2 || IsInfinityPoint (stAlphaX pf) (stAlphaY pf)
         || IsInfinityPoint (stBetaX pf) (stBetaY pf) then Ok false else
      T ← deref (stT pf);
      mt ← Mod T (cN S256);
      U ← deref (stU pf);
      mu ← Mod U (cN S256);
      if trivial mt || trivial mu then Ok false else
      g ← ScalarBaseMult (Bytes 1);
      e ← hashModN [t1.1; t1.2; s1.1; s1.2; R.1; R.2; h.1; h.2; g.1; g.2;
                    stAlphaX pf; stAlphaY pf; stBetaX pf; stBetaY pf];
      tR ← ScalarMult R (Bytes T);
      eS ← ScalarMult s1 (Bytes e);
      aSc ← Add S256 (stAlphaX pf, stAlphaY pf) eS;
      same ← samePoint tR aSc;
      if negb same then Ok false else
      tG ← ScalarBaseMult (Bytes T);
      uHG ← ScalarMult h (Bytes U);
      eT1 ← ScalarMult t1 (Bytes e);
      tGuH ← Add S256 tG uHG;
      betaT ← Add S256 (stBetaX pf, stBetaY pf) eT1;
      samePoint betaT tGuH
  | _, _, _, _, _ => Ok false
  end.

(** * k*R and the ciphertext of k *)

Definition commitmentUnknownOrder (h1 h2 : bigint) (NTilde : Z) (x r : bigint) : res bigint :=
  match h1, h2, x, r with
  | Some h1, Some h2, Some x, Some r =>
      h1X ← deref (modInt_Exp NTilde h1 x);
      h2R ← deref (modInt_Exp NTilde h2 r);
      com ← modInt_Mul NTilde h1X h2R;
      Ok (Some com)
  | _, _, _, _ => Ok None
  end.

(** A draw below [n], reduced modulo the order of the curve. *)
Definition drawModN (n : Z) : rnd Z :=
  x ← GetRandomIntFromZn n;
  lift (Mod x (cN S256)).

(** The challenge of a statement and the announcements. *)
Definition pdlHash (st : PDLwSlackStatement) (N : Z) (z : bigint) (u1 : gpoint) (u2 u3 : bigint) : res Z :=
  hashModN [(pR st).1; (pR st).2; (pK1R st).1; (pK1R st).2; pCipherText st; z; u1.1; u1.2; u2; u3;
            Some N; Some (N + 1); Some (N * N); pH1 st; pH2 st; pNTilde st].

Definition NewPDLwSlackProof (wit : option PDLwSlackWitness) (st : option PDLwSlackStatement)
  : rnd (option PDLwSlackProof) :=
  match wit, st with
  | Some wit, Some st =>
      let q3 := cN S256 * cN S256 in
      let q3 := q3 * cN S256 in
      NTilde ← lift (deref (pNTilde st));
      let qNTilde := cN S256 * NTilde in
      let q3NTilde := q3 * NTilde in
      alpha ← drawModN q3;
      pk ← lift (deref (pPK st));
      N ← lift (deref (pkN pk));
      let nAddOne := N + 1 in
      tmp ← drawModN nAddOne;
      let beta := 1 + tmp in
      let N2 := N * N in
      rho ← drawModN qNTilde;
      gamma ← drawModN q3NTilde;
      z ← lift (commitmentUnknownOrder (pH1 st) (pH2 st) NTilde (pK1 wit) (Some rho));
      u1 ← lift (ScalarMult (pR st) (Bytes alpha));
      u2 ← lift (commitmentUnknownOrder (Some nAddOne) (Some beta) N2 (Some alpha) (Some N));
      u3 ← lift (commitmentUnknownOrder (pH1 st) (pH2 st) NTilde (Some alpha) (Some gamma));
      e ← lift (pdlHash st N z u1 u2 u3);
      k1 ← lift (deref (pK1 wit));
      let s1 := e * k1 in
      let s3 := e * rho in
      let s1 := s1 + alpha in
      s2 ← lift (commitmentUnknownOrder (pK1Ra wit) (Some beta) N (Some e) (Some 1));
      let s3 := s3 + gamma in
      mret (Some (mkPDL z u1.1 u1.2 u2 u3 (Some s1) s2 (Some s3)))
  | _, _ => mret None
  end.

Definition PDLwSlackVerify (st : option PDLwSlackStatement) (p : option PDLwSlackProof) : res bool :=
  match st, p with
  | Some st, Some p =>
      if IsInfinityPoint (pR st).1 (pR st).2 || IsInfinityPoint (pK1R st).1 (pK1R st).2
         || IsInfinityPoint (pdU1X p) (pdU1Y p) then Ok false else
      pk ← deref (pPK st);
      N ← deref (pkN pk);
      let N2 := N * N in
      c ← deref (pCipherText st);
      mCipherText ← Mod c N2;
      if trivial mCipherText then Ok false else
      H1 ← deref (pH1 st); NTilde ← deref (pNTilde st);
      mH1 ← Mod H1 NTilde;
      H2 ← deref (pH2 st);
      mH2 ← Mod H2 NTilde;
      if trivial mH1 || trivial mH2 then Ok false else
      z ← deref (pdZ p);
      mz ← Mod z NTilde;
      if trivial mz then Ok false else
      U2 ← deref (pdU2 p);
      mu2 ← Mod U2 N2;
      if trivial mu2 then Ok false else
      U3 ← deref (pdU3 p);
      mu3 ← Mod U3 NTilde;
      if trivial mu3 then Ok false else
      S2 ← deref (pdS2 p);
      ms2 ← Mod S2 N;
      if trivial ms2 then Ok false else
      let nOne := N + 1 in
      e ← pdlHash st N (Some z) (pdU1X p, pdU1Y p) (Some U2) (Some U3);
      let eNeg := - e in
      S1 ← deref (pdS1 p);
      tmp ← Mod S1 (cN S256);
      gS1 ← ScalarMult (pR st) (Bytes tmp);
      let eFeNeg := cN S256 - e in
      yMinusE ← ScalarMult (pK1R st) (Bytes eFeNeg);
      u1Test ← Add S256 gS1 yMinusE;
      on ← IsOnCurvePt u1Test;
      if negb on then Ok false else
      u2TestTmp ← commitmentUnknownOrder (Some nOne) (Some S2) N2 (Some S1) (Some N);
      u2Test ← commitmentUnknownOrder u2TestTmp (Some c) N2 (Some 1) (Some eNeg);
      u3TestTmp ← commitmentUnknownOrder (Some H1) (Some H2) NTilde (Some S1) (pdS3 p);
      u3Test ← commitmentUnknownOrder u3TestTmp (Some z) NTilde (Some 1) (Some eNeg);
      same ← samePoint (pdU1X p, pdU1Y p) u1Test;
      if negb same then Ok false else
      b2 ← CmpEq (Some U2) u2Test;
      if negb b2 then Ok false else
      CmpEq (Some U3) u3Test
  | _, _ => Ok false
  end.
End proofs.

(** * JSON *)

Definition tNames : list string := ["AlphaX"; "AlphaY"; "T"; "U"].
Definition stNames : list string := ["AlphaX"; "AlphaY"; "BetaX"; "BetaY"; "T"; "U"].
Definition pdlNames : list string := ["Z"; "U1X"; "U1Y"; "U2"; "U3"; "S1"; "S2"; "S3"].

Section json.
Context `{J : JsonLib}.

Definition TProof_MarshalJSON (pf : TProof) : string :=
  marshalInts tNames [tAlphaX pf; tAlphaY pf; tT pf; tU pf].

Definition TProof_UnmarshalJSON (raw : string) : res TProof :=
  l ← unmarshalInts tNames raw;
  match l with
  | [x; y; t; u] => Ok (mkTProof (Some x) (Some y) (Some t) (Some u))
  | _ => Panic
  end.

Definition STProof_MarshalJSON (pf : STProof) : string :=
  marshalInts stNames [stAlphaX pf; stAlphaY pf; stBetaX pf; stBetaY pf; stT pf; stU pf].

Definition STProof_UnmarshalJSON (raw : string) : res STProof :=
  l ← unmarshalInts stNames raw;
  match l with
  | [ax; ay; bx; by'; t; u] =>
      Ok (mkSTProof (Some ax) (Some ay) (Some bx) (Some by') (Some t) (Some u))
  | _ => Panic
  end.

Definition PDLwSlackProof_MarshalJSON (p : PDLwSlackProof) : string :=
  marshalInts pdlNames [pdZ p; pdU1X p; pdU1Y p; pdU2 p; pdU3 p; pdS1 p; pdS2 p; pdS3 p].

Definition PDLwSlackProof_UnmarshalJSON (raw : string) : res PDLwSlackProof :=
  l ← unmarshalInts pdlNames raw;
  match l with
  | [z; ux; uy; u2; u3; s1; s2; s3] =>
      Ok (mkPDL (Some z) (Some ux) (Some uy) (Some u2) (Some u3) (Some s1) (Some s2) (Some s3))
  | _ => Panic
  end.
End json.

(** * The second generator is a curve point *)

Section hpointFacts.
Context `{E : Curve} `{GL : GoLibLaws} `{H : Sha256Lib}.
Context (P_prime : Z.prime (cP S256)) (P_odd : 2 < cP S256) (B7 : cB S256 = 7).

Definition goodH (h : gpoint) : Prop := exists x y,
  h = mkpt (x, y) /\ IsOnCurve S256 x y = true /\ Z.even y = true /\ 0 <= y < cP S256.

Lemma prime_odd p : Z.prime p -> 2 < p -> Z.odd p = true.
Proof.
  intros Hp H2. rewrite <- Z.negb_even. destruct (Z.even p) eqn:Ev; [|done]. exfalso.
  apply Z.even_spec in Ev as [k ->].
  assert (Hc : Z.coprime 2 (2 * k)).
  { apply prime_coprime; [assumption|]. rewrite Z.mod_small; lia. }
  unfold Z.coprime in Hc. rewrite Z.gcd_mul_diag_l in Hc by lia. lia.
Qed.

Lemma even_Bit y : 0 <= y -> (Bit y 0 =? 0) = Z.even y.
Proof.
  intros Hy. unfold Bit. cbn [Z.of_nat]. rewrite Z.bit0_odd, <- Z.negb_even. now destruct (Z.even y).
Qed.

Lemma decompressPoint_good x : exists h, decompressPoint x 2 = Ok h /\ (h = nilpt \/ goodH h).
Proof.
  unfold decompressPoint. destruct (ModSqrt _ _) as [y|] eqn:Es; [|eauto].
  apply ModSqrt_Some in Es as [Hy Es]; [|assumption..]. change (Z.land 2 1) with 0.
  rewrite even_Bit by lia.
  assert (Hon : forall y', [mod cP S256] y' * y' == y * y -> IsOnCurve S256 x y' = true).
  { intros y' Hy'. apply IsOnCurve_iff. unfold on_curve. cbn [fst snd]. rewrite B7, Hy', Es. done. }
  destruct (Z.even y) eqn:Ev; cbn [negb].
  - eexists. split; [reflexivity|]. right. exists x, y. split; [done|]. split; [apply Hon; reflexivity|]. auto.
  - rewrite Mod_pos by lia. cbn [mbind res_bind]. eexists. split; [reflexivity|]. right.
    assert (0 < y) by (destruct (Z.eq_dec y 0); [subst; discriminate|lia]).
    assert (En : (- y) mod cP S256 = cP S256 - y).
    { rewrite <- (Z.mod_small (cP S256 - y) (cP S256)) by lia. apply eqm_iff.
      exists (-1). ring. }
    rewrite En. exists x, (cP S256 - y). split; [done|]. split; [|split; [|lia]].
    + apply Hon. exists (cP S256 - 2 * y). ring.
    + pose proof (prime_odd _ P_prime P_odd) as Ho. rewrite <- Z.negb_even in Ho.
      rewrite Z.even_sub, Ev. now destruct (Z.even (cP S256)).
Qed.

Lemma hLoop_spec fuel : forall i bz h, (11 <= fuel + i)%nat -> (i <= 10)%nat -> h = nilpt \/ goodH h ->
  hLoop fuel i bz h = Err "too many rounds (max: 10)" \/ exists h', hLoop fuel i bz h = Ok h' /\ goodH h'.
Proof.
  induction fuel as [|f IH]; intros i bz h Hf Hi Hh; [lia|]. cbn [hLoop].
  destruct (Nat.ltb i minRounds || _) eqn:Eg.
  - destruct (Nat.leb_spec 10 i); [now left|].
    assert (Hd : exists h1, (if Nat.leb (minRounds - 1) i then decompressPoint (SetBytes (sha256 bz)) 2
                             else Ok h) = Ok h1 /\ (h1 = nilpt \/ goodH h1)).
    { destruct (Nat.leb _ i); [apply decompressPoint_good|eauto]. }
    destruct Hd as (h1 & -> & Hh1). cbn [mbind res_bind]. apply IH; [lia..|assumption].
  - right. exists h. split; [done|]. apply orb_false_iff in Eg as [_ Eg].
    destruct Hh as [->|Hh]; [discriminate Eg|assumption].
Qed.

Lemma CalcHPoint_spec :
  CalcHPoint = Err "too many rounds (max: 10)" \/ exists h, CalcHPoint = Ok h /\ goodH h.
Proof. apply hLoop_spec; [lia..|now left]. Qed.
End hpointFacts.

(** * Sums of multiples of the base point *)

Section sums.
Context `{L : CurveLaws} `{G : GoLib}.
Abbreviation q := (cN S256).

(** Two multiples [Add] can add: neither is nil, they are neither equal nor
    opposite. *)
Definition addable (a b : Z) : Prop :=
  a mod q <> 0 /\ b mod q <> 0 /\ (a - b) mod q <> 0 /\ (a + b) mod q <> 0.

Lemma Add_addable a b : addable a b -> Add S256 (gp a) (gp b) = Ok (gp (a + b)).
Proof.
  intros (Ha & Hb & Hd & _). rewrite Add_gp by assumption.
  apply Z.eqb_neq in Ha, Hd. now rewrite Ha, Hd.
Qed.

#[global] Instance addable_proper : Proper (NumTheory.eqm q ==> NumTheory.eqm q ==> iff) addable.
Proof.
  intros a a' Ha b b' Hb. unfold addable. rewrite <- !eqm_0_mod.
  now rewrite Ha, Hb.
Qed.

(** A point of the curve that is not taken for infinity. *)
Definition affine (a : Z) : Prop := a mod q <> 0 /\ (pt a).1 <> 0.

Lemma affine_gp a : affine a -> gp a = mkpt (pt a).
Proof. intros [Ha _]. now apply gp_ne0. Qed.

Lemma affine_finite a : affine a -> IsInfinityPoint (gp a).1 (gp a).2 = false.
Proof.
  intros Ha. rewrite affine_gp by assumption. cbn. destruct Ha as [_ Ha]. apply Z.eqb_neq in Ha.
  now rewrite Ha.
Qed.

(** The points of the tests are on the curve. *)
Lemma checkPoints (l : list Z) : l <> [] -> Forall affine l ->
  checkPointOnCurve (l ≫= fun a => [(gp a).1; (gp a).2]) = true.
Proof.
  intros Hne Hl. unfold checkPointOnCurve.
  assert (El : length (l ≫= fun a => [(gp a).1; (gp a).2]) = (length l * 2)%nat).
  { clear. induction l as [|a l IH]; [done|]. cbn [mbind list_bind length app] in *. rewrite IH. lia. }
  rewrite El, Nat.Div0.mod_mul. cbn [Nat.eqb negb orb].
  destruct (Nat.eqb_spec (length l * 2) 0) as [E0|_]; [destruct l; [done|discriminate]|]. cbn [orb].
  clear Hne El. induction Hl as [|a l Ha Hl IH]; [done|]. cbn [mbind list_bind app checkPairs].
  rewrite affine_gp by assumption. cbn [mkpt fst snd]. destruct Ha as [Ha _].
  now rewrite IsOnCurve_pt.
Qed.

Lemma ScalarMult_gp a k : a mod q <> 0 -> 0 <= k < q -> ScalarMult (gp a) (Bytes k) = Ok (gp (a * k)).
Proof. intros Ha Hk. rewrite gp_ne0 by assumption. now apply ScalarMult_pt. Qed.

Lemma samePoint_gp a b : a mod q <> 0 -> b mod q <> 0 ->
  samePoint (gp a) (gp b) = Ok ((a - b) mod q =? 0).
Proof.
  intros Ha Hb. unfold samePoint. rewrite !gp_ne0 by assumption. cbn [mkpt fst snd CmpEq mbind res_bind].
  destruct (Z.eqb_spec ((a - b) mod q) 0) as [H0|H0].
  - assert (Hab : [mod q] a == b).
    { apply eqm_0_mod in H0. rewrite <- (Z.sub_add b a), H0. now rewrite Z.add_0_l. }
    rewrite (pt_eqm _ _ Hab), !Z.eqb_refl. done.
  - destruct (Z.eqb_spec (pt a).1 (pt b).1) as [E1|_]; [|done].
    destruct (Z.eqb_spec (pt a).2 (pt b).2) as [E2|_]; [|done]. exfalso. apply H0, eqm_0_mod.
    rewrite (pt_inj a b Ha Hb); [now rewrite Z.sub_diag|].
    destruct (pt a), (pt b). cbn in *. congruence.
Qed.

(** The challenge of a list of numbers. *)
Definition challengeN (l : list Z) : Z := SetBytes (sha512_256 (Sha512_256_data l)) mod q.

Lemma hashModN_run v l : hashModN (Some <$> (v :: l)) = Ok (challengeN (v :: l)).
Proof.
  unfold hashModN. rewrite Sha512_256_Some. cbn [deref mbind res_bind]. pose proof N_ge2.
  now apply Mod_pos; lia.
Qed.

Lemma challengeN_range l : 0 <= challengeN l < q.
Proof. pose proof N_ge2. apply Z.mod_pos_bound. lia. Qed.

Lemma draw_hit v t : 0 < v < q -> drawable v -> GetRandomIntFromZn q (Some v :: t) = Ok (v, t).
Proof. intros Hv [_ Hd]. apply GetRandomIntFromZn_hit; [lia|assumption]. Qed.

Lemma ScalarBaseMult_1 : ScalarBaseMult (Bytes 1) = Ok (gp 1).
Proof. pose proof N_ge2. apply ScalarBaseMult_pt. lia. Qed.

Lemma one_ne0 : 1 mod q <> 0.
Proof. pose proof N_ge2. rewrite Z.mod_small; lia. Qed.

Lemma small_ne0 k : 0 < k < q -> k mod q <> 0.
Proof. intros. rewrite Z.mod_small; lia. Qed.

Lemma nontrivial_mod T : 1 < T < q -> trivial (T mod q) = false.
Proof. intros. unfold trivial. rewrite Z.mod_small by lia. bdestr; cbn; try done; lia. Qed.
End sums.

(** * The proofs on points *)

(** [Forall] of an explicit list, from the hypotheses. *)
Ltac all_of := repeat (apply Forall_cons_2; [assumption|]); apply Forall_nil_2.

Section points.
Context `{L : CurveLaws} `{G : GoLib}.
Abbreviation q := (cN S256).

(** The coordinates of multiples, as the hash reads them. *)
Definition coords (l : list Z) : list Z := l ≫= fun a => [(pt a).1; (pt a).2].

Lemma gp_coords l : Forall (fun a => a mod q <> 0) l ->
  (l ≫= fun a => [(gp a).1; (gp a).2]) = Some <$> coords l.
Proof.
  induction 1 as [|a l Ha _ IH]; [done|]. unfold coords in *. cbn [mbind list_bind app].
  rewrite fmap_cons, fmap_cons, gp_ne0 by assumption. cbn [mkpt fst snd]. now rewrite <- IH.
Qed.

Lemma hash_points a l : Forall (fun a => a mod q <> 0) (a :: l) ->
  hashModN ((a :: l) ≫= fun a => [(gp a).1; (gp a).2]) = Ok (challengeN (coords (a :: l))).
Proof. intros Hl. rewrite gp_coords by assumption. unfold coords. cbn [mbind list_bind app]. apply hashModN_run. Qed.

(** The challenge of the proof of [tau*G] with the announcement [a*G]. *)
Definition tChallenge (tau eta a : Z) : Z := challengeN (coords [tau; eta; 1; a]).

(** The test is the equation [T*G + U*H = alpha + e*T1] of discrete logarithms. *)
Lemma TVerify_eval tau eta a T U : affine tau -> affine eta -> affine a -> 1 < T < q -> 1 < U < q ->
  let e := tChallenge tau eta a in
  addable T (eta * U) -> addable a (tau * e) ->
  TVerify (gp tau) (gp eta) (Some (mkTProof (gp a).1 (gp a).2 (Some T) (Some U))) =
  Ok ((T + eta * U - (a + tau * e)) mod q =? 0).
Proof.
  intros Ht Hh Ha HT HU e Hl Hr. pose proof N_ge2. unfold TVerify. cbn [tAlphaX tAlphaY tT tU].
  rewrite (affine_gp tau), (affine_gp eta) by assumption. cbn [mkpt]. rewrite <- (affine_gp tau Ht), <- (affine_gp eta Hh).
  change [(gp a).1; (gp a).2; (gp tau).1; (gp tau).2; (gp eta).1; (gp eta).2]
    with ([a; tau; eta] ≫= fun a => [(gp a).1; (gp a).2]).
  rewrite checkPoints by (discriminate || all_of). cbn [negb].
  rewrite !affine_finite by assumption. cbn [orb deref mbind res_bind].
  rewrite !Mod_pos by lia. cbn [mbind res_bind]. rewrite !nontrivial_mod by assumption. cbn [orb].
  rewrite ScalarBaseMult_1. cbn [mbind res_bind].
  change [(gp tau).1; (gp tau).2; (gp eta).1; (gp eta).2; (gp 1).1; (gp 1).2; (gp a).1; (gp a).2]
    with ([tau; eta; 1; a] ≫= fun a => [(gp a).1; (gp a).2]).
  pose proof one_ne0. destruct Ht as [Ht ?], Hh as [Hh ?], Ha as [Ha ?].
  rewrite hash_points by all_of. cbn [mbind res_bind].
  rewrite ScalarBaseMult_pt by lia. cbn [mbind res_bind].
  rewrite (ScalarMult_gp eta) by (assumption || lia). cbn [mbind res_bind].
  rewrite (Add_addable T) by assumption. cbn [mbind res_bind].
  fold (tChallenge tau eta a). fold e. rewrite (ScalarMult_gp tau) by (assumption || apply challengeN_range).
  cbn [mbind res_bind]. rewrite <- surjective_pairing, Add_addable by assumption. cbn [mbind res_bind].
  apply samePoint_gp; [apply Hl|apply Hr].
Qed.

(** What the prover returns. *)
Lemma TProve_run tau eta sigma l a b t : tau mod q <> 0 -> eta mod q <> 0 ->
  0 < a < q -> 0 < b < q -> drawable a -> drawable b -> addable a (eta * b) ->
  let alpha := a + eta * b in let e := tChallenge tau eta alpha in
  TProve (gp tau) (gp eta) (Some sigma) (Some l) (Some a :: Some b :: t) =
  Ok (Some (mkTProof (gp alpha).1 (gp alpha).2 (Some ((a + e * sigma) mod q)) (Some ((b + e * l) mod q))), t).
Proof.
  intros Ht Hh Ha Hb Da Db Hab alpha e. pose proof N_ge2. pose proof one_ne0. unfold TProve.
  rewrite (gp_ne0 tau), (gp_ne0 eta) by assumption. cbn [mkpt]. rewrite <- (gp_ne0 tau Ht), <- (gp_ne0 eta Hh).
  erewrite rnd_bind_run by now apply draw_hit.
  erewrite rnd_bind_run by now apply draw_hit.
  erewrite rnd_bind_run by (apply lift_run, ScalarBaseMult_pt; lia).
  erewrite rnd_bind_run by (apply lift_run, ScalarMult_gp; [assumption|lia]).
  erewrite rnd_bind_run by (apply lift_run, Add_addable; assumption).
  erewrite rnd_bind_run by (apply lift_run, ScalarBaseMult_1). fold alpha.
  assert (Hal : alpha mod q <> 0) by apply Hab.
  erewrite rnd_bind_run by (apply lift_run, (hash_points tau [eta; 1; alpha]); all_of).
  erewrite rnd_bind_run by (apply lift_run, Mod_pos; lia).
  erewrite rnd_bind_run by (apply lift_run, Mod_pos; lia). done.
Qed.

(** The challenge of the proof of [sg*R] and [tau*G]. *)
Definition stChallenge (tau sg rho eta alpha beta : Z) : Z :=
  challengeN (coords [tau; sg; rho; eta; 1; alpha; beta]).

(** The two equations [T*R = alpha + e*S1] and [T*G + U*H = beta + e*T1]. *)
Lemma STVerify_eval sg tau rho eta alpha beta T U :
  affine sg -> affine tau -> affine rho -> affine eta -> affine alpha -> affine beta ->
  1 < T < q -> 1 < U < q ->
  let e := stChallenge tau sg rho eta alpha beta in
  addable alpha (sg * e) -> addable T (eta * U) -> addable beta (tau * e) ->
  STVerify (gp sg) (gp tau) (gp rho) (gp eta)
    (Some (mkSTProof (gp alpha).1 (gp alpha).2 (gp beta).1 (gp beta).2 (Some T) (Some U))) =
  Ok (((rho * T - (alpha + sg * e)) mod q =? 0) && ((beta + tau * e - (T + eta * U)) mod q =? 0)).
Proof.
  intros Hs Ht Hr Hh Ha Hb HT HU e A1 A2 A3. pose proof N_ge2. unfold STVerify.
  cbn [stAlphaX stAlphaY stBetaX stBetaY stT stU].
  rewrite (affine_gp sg), (affine_gp tau), (affine_gp rho), (affine_gp eta) by assumption. cbn [mkpt].
  rewrite <- (affine_gp sg Hs), <- (affine_gp tau Ht), <- (affine_gp rho Hr), <- (affine_gp eta Hh).
  match goal with |- context [checkPointOnCurve ?l] =>
    change l with ([sg; tau; rho; eta; alpha; beta] ≫= fun a => [(gp a).1; (gp a).2]) end.
  rewrite checkPoints by (discriminate || all_of). cbn [negb].
  rewrite !affine_finite by assumption. cbn [orb deref mbind res_bind].
  rewrite !Mod_pos by lia. cbn [mbind res_bind]. rewrite !nontrivial_mod by assumption. cbn [orb].
  rewrite ScalarBaseMult_1. cbn [mbind res_bind].
  match goal with |- context [hashModN ?l] =>
    change l with ([tau; sg; rho; eta; 1; alpha; beta] ≫= fun a => [(gp a).1; (gp a).2]) end.
  pose proof one_ne0. destruct Hs as [Hs ?], Ht as [Ht ?], Hr as [Hr ?], Hh as [Hh ?], Ha as [Ha ?], Hb as [Hb ?].
  rewrite hash_points by all_of. cbn [mbind res_bind].
  rewrite (ScalarMult_gp rho) by (assumption || lia). cbn [mbind res_bind].
  fold (stChallenge tau sg rho eta alpha beta). fold e.
  assert (He : 0 <= e < q) by apply challengeN_range.
  rewrite (ScalarMult_gp sg) by assumption. cbn [mbind res_bind].
  rewrite <- (surjective_pairing (gp alpha)), (Add_addable alpha) by assumption. cbn [mbind res_bind].
  rewrite samePoint_gp by (apply A1 || (apply prime_mul_ne0; [apply N_prime|assumption|apply small_ne0; lia])).
  cbn [mbind res_bind]. destruct (_ =? 0); cbn [negb andb]; [|done].
  rewrite ScalarBaseMult_pt by lia. cbn [mbind res_bind].
  rewrite (ScalarMult_gp eta) by (assumption || lia). cbn [mbind res_bind].
  rewrite (ScalarMult_gp tau) by assumption. cbn [mbind res_bind].
  rewrite (Add_addable T) by assumption. cbn [mbind res_bind].
  rewrite <- (surjective_pairing (gp beta)), (Add_addable beta) by assumption. cbn [mbind res_bind].
  apply samePoint_gp; [apply A3|apply A2].
Qed.

Lemma NewSTProof_run tau sg rho eta sigma l a b t :
  tau mod q <> 0 -> sg mod q <> 0 -> rho mod q <> 0 -> eta mod q <> 0 ->
  0 < a < q -> 0 < b < q -> drawable a -> drawable b -> addable a (eta * b) ->
  let alpha := rho * a in let beta := a + eta * b in
  let e := stChallenge tau sg rho eta alpha beta in
  NewSTProof (gp tau) (gp sg) (gp rho) (gp eta) (Some sigma) (Some l) (Some a :: Some b :: t) =
  Ok (Some (mkSTProof (gp alpha).1 (gp alpha).2 (gp beta).1 (gp beta).2
        (Some ((a + e * sigma) mod q)) (Some ((b + e * l) mod q))), t).
Proof.
  intros Ht Hs Hr Hh Ha Hb Da Db Hab alpha beta e. pose proof N_ge2. pose proof one_ne0. unfold NewSTProof.
  rewrite (gp_ne0 tau), (gp_ne0 sg), (gp_ne0 rho), (gp_ne0 eta) by assumption. cbn [mkpt].
  rewrite <- (gp_ne0 tau Ht), <- (gp_ne0 sg Hs), <- (gp_ne0 rho Hr), <- (gp_ne0 eta Hh).
  erewrite rnd_bind_run by (apply lift_run, ScalarBaseMult_1).
  erewrite rnd_bind_run by now apply draw_hit.
  erewrite rnd_bind_run by now apply draw_hit.
  erewrite rnd_bind_run by (apply lift_run, ScalarMult_gp; [assumption|lia]).
  erewrite rnd_bind_run by (apply lift_run, ScalarBaseMult_pt; lia).
  erewrite rnd_bind_run by (apply lift_run, ScalarMult_gp; [assumption|lia]).
  erewrite rnd_bind_run by (apply lift_run, Add_addable; assumption). fold alpha beta.
  assert (Hbe : beta mod q <> 0) by apply Hab.
  assert (Hal : alpha mod q <> 0) by (apply prime_mul_ne0; [apply N_prime|assumption|now apply small_ne0]).
  erewrite rnd_bind_run by (apply lift_run, (hash_points tau [sg; rho; eta; 1; alpha; beta]); all_of).
  unfold calculateTAndU, modInt_Add. rewrite !Mod_pos by lia. done.
Qed.
End points.

(** * The proof on a ciphertext *)

Section pdl.
Context `{L : CurveLaws} `{G : GoLib}.
Abbreviation q := (cN S256).

Lemma commitmentUnknownOrder_run a b n x y :
  commitmentUnknownOrder (Some a) (Some b) n (Some x) (Some y) = (v ← ExpMulExp a x b y n; Ok (Some v)).
Proof.
  unfold commitmentUnknownOrder, ExpMulExp, modInt_Exp, modInt_Mul.
  destruct (Exp a x n); [|done]. cbn [deref mbind res_bind]. now destruct (Exp b y n).
Qed.

(** Dividing by the power the challenge asks for. *)
Lemma ExpMulExp_strip A U c e n : 2 <= n -> Z.coprime c n -> 0 <= e -> [mod n] A == c ^ e * U ->
  ExpMulExp A 1 c (- e) n = Ok (U mod n).
Proof.
  intros Hn Hc He HA. unfold ExpMulExp. rewrite (Exp_pos A 1) by lia. rewrite (Exp_zpow n c) by assumption.
  cbn [deref mbind res_bind]. rewrite Mod_pos by lia. f_equal. apply eqm_mod_eq. rewrite eqm_mod.
  rewrite Z.pow_1_r, HA.
  assert (H1 : [mod n] c ^ e * zpow n c (- e) == 1).
  { assert (He' : [mod n] c ^ e == zpow n c e).
    { unfold zpow. destruct (Z.ltb_spec e 0); [lia|]. now rewrite eqm_mod. }
    rewrite He', <- zpow_add by assumption. rewrite Z.add_opp_diag_r. unfold zpow. cbn. now rewrite eqm_mod. }
  replace (c ^ e * U * zpow n c (- e)) with (c ^ e * zpow n c (- e) * U) by ring.
  rewrite H1. now rewrite Z.mul_1_l.
Qed.

Context (l : string) (N Nt h1 h2 : Z).
Hypotheses (HN : 2 <= N) (HNt : 2 <= Nt) (Hh1 : Z.coprime h1 Nt) (Hh2 : Z.coprime h2 Nt).

Definition pdlStatement (c k1 rho : Z) : PDLwSlackStatement :=
  mkPDLSt (Some c) (Some (goodPk l N)) (gp (rho * k1)) (gp rho) (Some h1) (Some h2) (Some Nt).

(** The challenge as a number. *)
Definition pdlChallenge (c k1 rho alpha z u2 u3 : Z) : Z :=
  challengeN (coords [rho; rho * k1] ++ [c; z] ++ coords [rho * alpha] ++
              [u2; u3; N; N + 1; N * N; h1; h2; Nt]).

Lemma pdlHash_run c k1 rho alpha z u2 u3 : rho mod q <> 0 -> (rho * k1) mod q <> 0 -> (rho * alpha) mod q <> 0 ->
  pdlHash (pdlStatement c k1 rho) N (Some z) (gp (rho * alpha)) (Some u2) (Some u3) =
  Ok (pdlChallenge c k1 rho alpha z u2 u3).
Proof.
  intros H1 H2 H3. unfold pdlHash, pdlStatement. cbn [pR pK1R pCipherText pH1 pH2 pNTilde].
  rewrite !gp_ne0 by assumption. cbn [mkpt fst snd].
  change [Some (pt rho).1; Some (pt rho).2; Some (pt (rho * k1)).1; Some (pt (rho * k1)).2; Some c; Some z;
     Some (pt (rho * alpha)).1; Some (pt (rho * alpha)).2; Some u2; Some u3; Some N; Some (N + 1);
     Some (N * N); Some h1; Some h2; Some Nt]
    with (Some <$> ((pt rho).1 :: [(pt rho).2; (pt (rho * k1)).1; (pt (rho * k1)).2; c; z;
     (pt (rho * alpha)).1; (pt (rho * alpha)).2; u2; u3; N; N + 1; N * N; h1; h2; Nt])).
  apply hashModN_run.
Qed.

Lemma drawModN_hit n v t : drawZn n v -> drawModN n (Some v :: t) = Ok (v mod q, t).
Proof.
  intros [Hv Hb]. unfold drawModN. erewrite rnd_bind_run by now apply GetRandomIntFromZn_hit.
  pose proof N_ge2. apply lift_run, Mod_pos. lia.
Qed.

(** The proof for reduced draws, as numbers: challenge, [z, u2, u3] and responses. *)
Definition pdlNumbers (c k1 r rho alpha beta rh gamma u2 : Z) : Z * PDLwSlackProof :=
  let z := ped Nt h1 h2 k1 rh in
  let u3 := ped Nt h1 h2 alpha gamma in
  let e := pdlChallenge c k1 rho alpha z u2 u3 in
  (e, mkPDL (Some z) (gp (rho * alpha)).1 (gp (rho * alpha)).2 (Some u2) (Some u3)
        (Some (e * k1 + alpha)) (Some ((r ^ e * beta) mod N)) (Some (e * rh + gamma))).

Lemma NewPDL_run c k1 r sk rho a0 b0 r0 g0 t :
  rho mod q <> 0 -> (rho * k1) mod q <> 0 -> a0 mod q <> 0 ->
  drawZn (q * q * q) a0 -> drawZn (N + 1) b0 -> drawZn (q * Nt) r0 -> drawZn (q * q * q * Nt) g0 ->
  exists u2, ExpMulExp (N + 1) (a0 mod q) (1 + b0 mod q) N (N * N) = Ok u2 /\
    NewPDLwSlackProof (Some (mkPDLWit (Some k1) (Some r) sk)) (Some (pdlStatement c k1 rho))
      (Some a0 :: Some b0 :: Some r0 :: Some g0 :: t) =
    Ok (Some (pdlNumbers c k1 r rho (a0 mod q) (1 + b0 mod q) (r0 mod q) (g0 mod q) u2).2, t).
Proof.
  intros Hrho Hrk Ha0 Da Db Dr Dg. pose proof N_ge2.
  assert (Hra : (rho * (a0 mod q)) mod q <> 0).
  { apply prime_mul_ne0; [apply N_prime|assumption|now rewrite Zmod_mod]. }
  destruct (ExpMulExp_G N HN (a0 mod q) (1 + b0 mod q)) as (u2 & Eu2 & _). exists u2. split; [exact Eu2|].
  unfold NewPDLwSlackProof. cbn [pNTilde pdlStatement pPK].
  erewrite rnd_bind_run by now apply lift_run.
  erewrite rnd_bind_run by now apply drawModN_hit.
  erewrite rnd_bind_run by now apply lift_run. cbn [goodPk pkN].
  erewrite rnd_bind_run by now apply lift_run.
  erewrite rnd_bind_run by now apply drawModN_hit.
  erewrite rnd_bind_run by now apply drawModN_hit.
  erewrite rnd_bind_run by now apply drawModN_hit.
  cbn [pH1 pH2 pK1 pK1Ra pR pdlStatement]. rewrite !commitmentUnknownOrder_run, Eu2, !(ExpMulExp_ped Nt h1 h2) by assumption.
  cbn [mbind res_bind].
  erewrite rnd_bind_run by now apply lift_run.
  erewrite rnd_bind_run by (apply lift_run, ScalarMult_gp; [assumption|apply Z.mod_pos_bound; lia]).
  erewrite rnd_bind_run by now apply lift_run.
  erewrite rnd_bind_run by now apply lift_run.
  erewrite rnd_bind_run by (apply lift_run, pdlHash_run; assumption).
  erewrite rnd_bind_run by now apply lift_run.
  rewrite commitmentUnknownOrder_run. unfold ExpMulExp. rewrite !Exp_pos by (lia || apply challengeN_range).
  cbn [deref mbind res_bind]. rewrite Mod_pos by lia. cbn [mbind res_bind].
  erewrite rnd_bind_run by now apply lift_run. cbn [pdlNumbers snd].
  rewrite Z.pow_1_r, Zmult_mod_idemp_l, Zmult_mod_idemp_r. done.
Qed.

(** What the verifier asks of the fields beyond the equations. *)
Definition pdlFieldsOk (c : Z) (pf : PDLwSlackProof) : bool :=
  match pf with
  | mkPDL (Some z) _ _ (Some u2) (Some u3) _ (Some s2) _ =>
      nontrivialAll [c mod (N * N); h1 mod Nt; h2 mod Nt; z mod Nt; u2 mod (N * N); u3 mod Nt; s2 mod N]
  | _ => false
  end.

(** The sum of the verifier is the announcement [alpha*R]. *)
Lemma pdl_point e k1 rho alpha : 0 < e < q -> rho mod q <> 0 -> (rho * k1) mod q <> 0 ->
  addable (rho * (e * k1 + alpha)) (- (rho * k1 * e)) ->
  exists gS1 yE, ScalarMult (gp rho) (Bytes ((e * k1 + alpha) mod q)) = Ok gS1 /\
    ScalarMult (gp (rho * k1)) (Bytes (q - e)) = Ok yE /\ Add S256 gS1 yE = Ok (gp (rho * alpha)).
Proof.
  intros He Hr Hrk Had. pose proof N_ge2.
  assert (E1 : [mod q] rho * ((e * k1 + alpha) mod q) == rho * (e * k1 + alpha)) by now rewrite eqm_mod.
  assert (E2 : [mod q] rho * k1 * (q - e) == - (rho * k1 * e)) by (exists (rho * k1); ring).
  eexists _, _. split; [apply ScalarMult_gp; [assumption|apply Z.mod_pos_bound; lia]|].
  split; [apply ScalarMult_gp; [assumption|lia]|].
  rewrite Add_addable by now rewrite E1, E2. f_equal. apply gp_proper. rewrite E1, E2.
  replace (rho * (e * k1 + alpha) + - (rho * k1 * e)) with (rho * alpha) by ring. done.
Qed.

Lemma PDL_verify c k1 r rho alpha beta rh gamma u2 :
  affine rho -> affine (rho * k1) -> affine (rho * alpha) -> Z.coprime r N ->
  [mod N * N] c == (1 + k1 * N) * r ^ N ->
  ExpMulExp (N + 1) alpha beta N (N * N) = Ok u2 ->
  let '(e, pf) := pdlNumbers c k1 r rho alpha beta rh gamma u2 in
  pdlFieldsOk c pf = true -> e <> 0 -> addable (rho * (e * k1 + alpha)) (- (rho * k1 * e)) ->
  PDLwSlackVerify (Some (pdlStatement c k1 rho)) (Some pf) = Ok true.
Proof.
  intros Ar Ark Ara Hr Hc Eu2. unfold pdlNumbers. cbv zeta.
  set (z := ped Nt h1 h2 k1 rh). set (u3 := ped Nt h1 h2 alpha gamma).
  set (e := pdlChallenge c k1 rho alpha z u2 u3). set (s2 := (r ^ e * beta) mod N).
  intros HF He Had. pose proof N_ge2.
  assert (Rz : 0 <= z < Nt) by now apply ped_range. assert (Ru3 : 0 <= u3 < Nt) by now apply ped_range.
  assert (Re : 0 <= e < q) by apply challengeN_range.
  destruct (ExpMulExp_G N HN alpha beta) as (u2' & Eu2' & Ru2 & Hu2).
  rewrite Eu2 in Eu2'. injection Eu2' as <-.
  cbn [pdlFieldsOk] in HF. apply nontrivialAll_spec in HF.
  repeat match goal with H : Forall _ (_ :: _) |- _ => apply Forall_cons in H as [? H] end.
  unfold PDLwSlackVerify. cbn [pdlStatement pR pK1R pPK goodPk pkN pCipherText pH1 pH2 pNTilde pdU1X pdU1Y
    pdZ pdU2 pdU3 pdS1 pdS2 pdS3].
  rewrite !affine_finite by assumption. cbn [orb deref mbind res_bind goodPk pkN].
  rewrite !Mod_pos by nia. cbn [mbind res_bind].
  repeat match goal with H : trivial _ = false |- _ => rewrite H; clear H end. cbn [orb].
  rewrite <- surjective_pairing.
  change (mkPDLSt _ _ _ _ _ _ _) with (pdlStatement c k1 rho).
  rewrite pdlHash_run by (apply Ar || apply Ark || apply Ara). fold e. cbn [mbind res_bind].
  destruct (pdl_point e k1 rho alpha) as (gS1 & yE & -> & E2 & E3); [lia|apply Ar|apply Ark|assumption|].
  cbn [mbind res_bind]. rewrite E2. cbn [mbind res_bind]. rewrite E3. cbn [mbind res_bind].
  rewrite (affine_gp _ Ara), IsOnCurvePt_pt by apply Ara. cbn [negb mbind res_bind].
  rewrite <- (affine_gp _ Ara).
  assert (Hcc : Z.coprime c (N * N)) by (apply (encrypts_inverse N HN c k1); exists r; auto).
  assert (Hzc : Z.coprime z Nt) by (unfold z; now apply ped_coprime).
  destruct (ExpMulExp_G N HN (e * k1 + alpha) s2) as (v2 & Ev2 & _ & Hv2).
  rewrite !commitmentUnknownOrder_run, Ev2. cbn [mbind res_bind]. rewrite commitmentUnknownOrder_run.
  rewrite (ExpMulExp_strip v2 u2 c e (N * N)); [|nia|assumption|lia|].
  2: { rewrite Hv2, Hu2. symmetry. apply cipher_response with (m := k1) (r := r); auto; [lia|].
       unfold s2. now rewrite eqm_mod. }
  cbn [mbind res_bind]. rewrite (ExpMulExp_ped Nt h1 h2) by assumption. cbn [mbind res_bind].
  rewrite commitmentUnknownOrder_run.
  rewrite (ExpMulExp_strip _ u3 z e Nt); [|lia|assumption|lia|].
  2: { pose proof (ped_verify Nt h1 h2 HNt Hh1 Hh2 e k1 rh alpha gamma ltac:(lia)) as Hp.
       destruct (ExpMul_pos z e u3 Nt) as (w & Ew & _ & Hw); [lia..|].
       fold z u3 in Hp. rewrite Ew in Hp. injection Hp as <-. exact Hw. }
  cbn [mbind res_bind]. rewrite !(Z.mod_small u2), !(Z.mod_small u3) by lia.
  rewrite samePoint_gp by apply Ara. rewrite Z.sub_diag, Zmod_0_l. cbn. now rewrite !Z.eqb_refl.
Qed.
End pdl.

(** A response the equation determines. *)
Lemma response_unique n T T' A B : 0 <= T < n -> 0 <= T' < n -> [mod n] T + A == B ->
  ((T' + A - B) mod n =? 0) = (T' =? T).
Proof.
  intros HT HT' HB. destruct (Z.eqb_spec T' T) as [->|Hne].
  - apply Z.eqb_eq, eqm_0_mod. rewrite HB. now rewrite Z.sub_diag.
  - apply Z.eqb_neq. intros H0%eqm_0_mod. apply Hne, (eqm_small n); [assumption..|].
    rewrite <- HB in H0. replace (T' + A - (T + A)) with (T' - T) in H0 by ring.
    rewrite <- (Z.sub_add T T'), H0. now rewrite Z.add_0_l.
Qed.

Lemma eqb_opp_mod n x y : x = - y -> (x mod n =? 0) = (y mod n =? 0).
Proof.
  intros ->. apply eq_true_iff_eq. rewrite !Z.eqb_eq, <- !eqm_0_mod. split; intros H0.
  - rewrite <- (Z.opp_involutive y), H0. done.
  - now rewrite H0.
Qed.

(** * Claims *)

(** [CalcHPoint] ends, with an error or with a point of the curve whose
    [y]-coordinate is even. *)
Theorem CalcHPoint_on_curve `{E : Curve} `{GL : GoLibLaws} `{H : Sha256Lib} :
  Z.prime (cP S256) -> 2 < cP S256 -> cB S256 = 7 ->
  CalcHPoint = Err "too many rounds (max: 10)" \/
  exists x y, CalcHPoint = Ok (mkpt (x, y)) /\ IsOnCurve S256 x y = true /\ Z.even y = true.
Proof.
  intros Hp Ho HB. destruct (CalcHPoint_spec Hp Ho HB) as [->|(h & -> & x & y & -> & ? & ? & _)]; [now left|].
  right. eauto.
Qed.

(** The digest of a chain of three is 2, the coordinate of the base point. *)
#[export] Instance toySha256 : Sha256Lib := {| sha256 := fun m => [Z.of_nat (length m) mod 64 + 1] |}.

Lemma CalcHPoint_on_curve_witness : CalcHPoint = Ok (mkpt (2, 34)) /\
  (CalcHPoint = Err "too many rounds (max: 10)" \/
   exists x y, CalcHPoint = Ok (mkpt (x, y)) /\ IsOnCurve toyCurve x y = true /\ Z.even y = true).
Proof.
  split; [vm_compute; reflexivity|].
  apply (CalcHPoint_on_curve (E := toy)); [exact toy_P_prime|reflexivity|reflexivity].
Defined.

(** An honest proof of [T1 = sigma*G + l*H] is accepted, and no other response
    [T'] in its place is, for every draw outside the exceptional cases of the point
    addition. *)
Theorem TVerify_unique_response `{L : CurveLaws} `{G : GoLib} sigma l eta a b t :
  let q := cN S256 in
  let tau := sigma + eta * l in let alpha := a + eta * b in let e := tChallenge tau eta alpha in
  let T := (a + e * sigma) mod q in let U := (b + e * l) mod q in
  affine tau -> affine eta -> affine alpha -> 0 < a < q -> 0 < b < q -> drawable a -> drawable b ->
  addable a (eta * b) -> 1 < T -> 1 < U -> addable T (eta * U) -> addable alpha (tau * e) ->
  TProve (gp tau) (gp eta) (Some sigma) (Some l) (Some a :: Some b :: t) =
    Ok (Some (mkTProof (gp alpha).1 (gp alpha).2 (Some T) (Some U)), t) /\
  forall T', 1 < T' < q -> addable T' (eta * U) ->
    TVerify (gp tau) (gp eta) (Some (mkTProof (gp alpha).1 (gp alpha).2 (Some T') (Some U))) = Ok (T' =? T).
Proof.
  intros q tau alpha e T U At Ah Aa Ha Hb Da Db Hab HT HU HTU Hae. pose proof N_ge2.
  split; [apply TProve_run; (apply At || apply Ah || assumption)|].
  intros T' HT' HTU'. pose proof (Z.mod_pos_bound (b + e * l) q).
  pose proof (Z.mod_pos_bound (a + e * sigma) q).
  rewrite TVerify_eval by (assumption || lia). fold e. f_equal.
  apply response_unique; [lia..|]. unfold T, U, tau, alpha. unmod. eqm_ring.
Qed.

Lemma TVerify_unique_response_witness : exists pf,
  TProve (gp 26) (gp 5) (Some 11) (Some 3) [Some 20; Some 30] = Ok (Some pf, []) /\
  TVerify (gp 26) (gp 5) (Some pf) = Ok true.
Proof.
  destruct (TVerify_unique_response (L := toy_laws) 11 3 5 20 30 []) as [Ep Ev].
  1-12: vm_compute; repeat split; (discriminate || reflexivity).
  eexists. split; [exact Ep|]. rewrite Ev; [vm_compute; reflexivity|vm_compute; split; reflexivity|].
  vm_compute. repeat split; discriminate.
Defined.

(** An honest proof that [S1 = sigma*R] and [T1 = sigma*G + l*H] is accepted,
    and no other response [T'] in its place is. *)
Theorem STVerify_unique_response `{L : CurveLaws} `{G : GoLib} sigma l eta rho a b t :
  let q := cN S256 in
  let tau := sigma + eta * l in let sg := rho * sigma in
  let alpha := rho * a in let beta := a + eta * b in let e := stChallenge tau sg rho eta alpha beta in
  let T := (a + e * sigma) mod q in let U := (b + e * l) mod q in
  affine sg -> affine tau -> affine rho -> affine eta -> affine alpha -> affine beta ->
  0 < a < q -> 0 < b < q -> drawable a -> drawable b -> addable a (eta * b) -> 1 < T -> 1 < U ->
  addable alpha (sg * e) -> addable T (eta * U) -> addable beta (tau * e) ->
  NewSTProof (gp tau) (gp sg) (gp rho) (gp eta) (Some sigma) (Some l) (Some a :: Some b :: t) =
    Ok (Some (mkSTProof (gp alpha).1 (gp alpha).2 (gp beta).1 (gp beta).2 (Some T) (Some U)), t) /\
  forall T', 1 < T' < q -> addable T' (eta * U) ->
    STVerify (gp sg) (gp tau) (gp rho) (gp eta)
      (Some (mkSTProof (gp alpha).1 (gp alpha).2 (gp beta).1 (gp beta).2 (Some T') (Some U))) = Ok (T' =? T).
Proof.
  intros q tau sg alpha beta e T U As At Ar Ah Aa Ab Ha Hb Da Db Hab HT HU H1 H2 H3. pose proof N_ge2.
  split; [apply NewSTProof_run; (apply At || apply As || apply Ar || apply Ah || assumption)|].
  intros T' HT' HTU'. pose proof (Z.mod_pos_bound (b + e * l) q).
  pose proof (Z.mod_pos_bound (a + e * sigma) q).
  rewrite STVerify_eval by (assumption || lia). fold e. fold q. f_equal.
  assert (HU2 : ((beta + tau * e - (T' + eta * U)) mod q =? 0) = (T' =? T)).
  { rewrite <- (response_unique q T T' (eta * U) (beta + tau * e)); [|lia..|].
    - apply eqb_opp_mod. ring.
    - unfold T, U, tau, beta. unmod. eqm_ring. }
  rewrite HU2. destruct (Z.eqb_spec T' T) as [->|_]; [|apply andb_false_r]. rewrite andb_true_r.
  apply Z.eqb_eq, eqm_0_mod. unfold T, alpha, sg. unmod. eqm_ring.
Qed.

Lemma STVerify_unique_response_witness : exists pf,
  NewSTProof (gp 26) (gp 88) (gp 8) (gp 5) (Some 11) (Some 3) [Some 20; Some 30] = Ok (Some pf, []) /\
  STVerify (gp 88) (gp 26) (gp 8) (gp 5) (Some pf) = Ok true.
Proof.
  destruct (STVerify_unique_response (L := toy_laws) 11 3 5 8 20 30 []) as [Ep Ev].
  1-16: vm_compute; repeat split; (discriminate || reflexivity).
  eexists. split; [exact Ep|]. rewrite Ev; [vm_compute; reflexivity|vm_compute; split; reflexivity|].
  vm_compute. repeat split; discriminate.
Defined.

Lemma drawModN_range `{L : CurveLaws} n t v t' : drawModN n t = Ok (v, t') -> 0 <= v < cN S256.
Proof.
  unfold drawModN. intros Hd. pose proof N_ge2. inv_ok. rewrite Mod_pos in * by lia. simplify_eq.
  apply Z.mod_pos_bound. lia.
Qed.

(** The response of a proof the prover returned, for any entropy. *)
Lemma NewPDL_inv `{L : CurveLaws} `{G : GoLib} wit st t pf t' :
  NewPDLwSlackProof (Some wit) (Some st) t = Ok (Some pf, t') ->
  exists pk N k1 e alpha, pPK st = Some pk /\ pkN pk = Some N /\ pK1 wit = Some k1 /\
    pdlHash st N (pdZ pf) (pdU1X pf, pdU1Y pf) (pdU2 pf) (pdU3 pf) = Ok e /\
    pdS1 pf = Some (e * k1 + alpha) /\ 0 <= alpha < cN S256.
Proof.
  intros Ep. pose proof N_ge2. unfold NewPDLwSlackProof in Ep. inv_ok. simplify_eq.
  apply drawModN_range in H1. exists x3, x5, x23, x21, x1.
  cbn [pdZ pdU1X pdU1Y pdU2 pdU3 pdS1]. rewrite <- surjective_pairing. auto 7.
Qed.

(** C24: an honest proof that [k1*R] and the Paillier ciphertext [c] hold the same
    [k1] is accepted, for every draw for which no field is 0 or 1, the challenge is
    not zero and the point addition is not exceptional. *)
Theorem PDLwSlack_complete `{L : CurveLaws} `{G : GoLib} l N Nt h1 h2 c k1 r sk rho a0 b0 r0 g0 t :
  let q := cN S256 in
  2 <= N -> 2 <= Nt -> Z.coprime h1 Nt -> Z.coprime h2 Nt -> Z.coprime r N ->
  [mod N * N] c == (1 + k1 * N) * r ^ N ->
  affine rho -> affine (rho * k1) -> a0 mod q <> 0 -> affine (rho * (a0 mod q)) ->
  drawZn (q * q * q) a0 -> drawZn (N + 1) b0 -> drawZn (q * Nt) r0 -> drawZn (q * q * q * Nt) g0 ->
  let st := pdlStatement l N Nt h1 h2 c k1 rho in
  exists e pf,
    NewPDLwSlackProof (Some (mkPDLWit (Some k1) (Some r) sk)) (Some st)
      (Some a0 :: Some b0 :: Some r0 :: Some g0 :: t) = Ok (Some pf, t) /\
    pdlHash st N (pdZ pf) (pdU1X pf, pdU1Y pf) (pdU2 pf) (pdU3 pf) = Ok e /\
    (pdlFieldsOk N Nt h1 h2 c pf = true -> e <> 0 ->
     addable (rho * (e * k1 + a0 mod q)) (- (rho * k1 * e)) ->
     PDLwSlackVerify (Some st) (Some pf) = Ok true).
Proof.
  intros q HN HNt H1 H2 Hr Hc Ar Ark Ha0 Ara Da Db Dr Dg st.
  destruct (NewPDL_run l N Nt h1 h2 HN HNt H1 H2 c k1 r sk rho a0 b0 r0 g0 t) as (u2 & Eu2 & Erun);
    [apply Ar|apply Ark|assumption..|].
  pose proof (PDL_verify l N Nt h1 h2 HN HNt H1 H2 c k1 r rho (a0 mod q) (1 + b0 mod q) (r0 mod q) (g0 mod q) u2
    Ar Ark Ara Hr Hc Eu2) as Hv.
  eexists _, _. split; [exact Erun|]. split; [|exact Hv].
  unfold pdlNumbers. cbn [snd pdZ pdU1X pdU1Y pdU2 pdU3]. rewrite <- surjective_pairing.
  apply pdlHash_run; (apply Ar || apply Ark || apply Ara).
Qed.

(** The proof of [k1 = 7] with [R = 8*G] for draws 7, 21, 9, 6. *)
Lemma PDLwSlack_complete_witness : exists pf,
  NewPDLwSlackProof (Some (mkPDLWit (Some 7) (Some 9) None))
    (Some (pdlStatement "8" 187 253 4 192 15723 7 8)) [Some 7; Some 21; Some 9; Some 6] = Ok (Some pf, []) /\
  PDLwSlackVerify (Some (pdlStatement "8" 187 253 4 192 15723 7 8)) (Some pf) = Ok true.
Proof.
  destruct (PDLwSlack_complete (L := toy_laws) "8" 187 253 4 192 15723 7 9 None 8 7 21 9 6 [])
    as (e & pf & Ep & Eh & Ev).
  1-2: discriminate.
  1-3: reflexivity.
  1: apply eqm_iff; vm_compute; reflexivity.
  1-8: vm_compute; repeat split; (discriminate || reflexivity).
  exists pf. split; [exact Ep|]. vm_compute in Ep. injection Ep as <-. vm_compute in Eh. injection Eh as <-.
  apply Ev; vm_compute; [reflexivity|discriminate|repeat split; discriminate].
Defined.

(** C22: the response [S1] of the proof gives the secret nonce share away.  The mask
    [alpha] is reduced modulo the group order before it is added to [e*k1], so, for
    the challenge [e] everybody recomputes from the message, [k1] lies in an interval
    of [(q-1)/e + 1] numbers; for every challenge above half the order there are two
    candidates. *)
Theorem PDLwSlack_reveals_nonce `{L : CurveLaws} `{G : GoLib} wit st k1 t pf t' :
  let q := cN S256 in
  pK1 wit = Some k1 -> NewPDLwSlackProof (Some wit) (Some st) t = Ok (Some pf, t') ->
  exists pk N e s1, pPK st = Some pk /\ pkN pk = Some N /\
    pdlHash st N (pdZ pf) (pdU1X pf, pdU1Y pf) (pdU2 pf) (pdU3 pf) = Ok e /\ pdS1 pf = Some s1 /\
    (0 < e -> s1 / e - (q - 1) / e <= k1 <= s1 / e) /\
    (q <= 2 * e -> k1 = s1 / e \/ k1 = s1 / e - 1).
Proof.
  intros q Hk Ep. pose proof N_ge2.
  destruct (NewPDL_inv _ _ _ _ _ Ep) as (pk & N & k & e & alpha & EN & EpN & Ek & Eh & Es & Ha).
  rewrite Ek in Hk. injection Hk as ->.
  exists pk, N, e, (e * k1 + alpha). repeat split; try assumption.
  - rewrite (Z.mul_comm e k1), Z.div_add_l by lia.
    pose proof (Z.div_le_mono alpha (q - 1) e). lia.
  - rewrite (Z.mul_comm e k1), Z.div_add_l by lia. pose proof (Z.div_pos alpha e). lia.
  - intros He. rewrite (Z.mul_comm e k1), Z.div_add_l by lia.
    assert (alpha / e < 2) by (apply Z.div_lt_upper_bound; lia). pose proof (Z.div_pos alpha e). lia.
Qed.

Lemma PDLwSlack_reveals_nonce_witness : exists pf e s1,
  NewPDLwSlackProof (Some (mkPDLWit (Some 7) (Some 9) None))
    (Some (pdlStatement "8" 187 253 4 192 15723 7 8)) [Some 7; Some 21; Some 9; Some 6] = Ok (Some pf, []) /\
  pdS1 pf = Some s1 /\ 0 < e /\ s1 / e - 138 / e <= 7 <= s1 / e.
Proof.
  assert (Er : exists pf, NewPDLwSlackProof (Some (mkPDLWit (Some 7) (Some 9) None))
    (Some (pdlStatement "8" 187 253 4 192 15723 7 8)) [Some 7; Some 21; Some 9; Some 6] = Ok (Some pf, [])).
  { eexists. vm_compute. reflexivity. }
  destruct Er as [pf Ep].
  destruct (PDLwSlack_reveals_nonce (L := toy_laws) (mkPDLWit (Some 7) (Some 9) None)
    (pdlStatement "8" 187 253 4 192 15723 7 8) 7 _ pf [] eq_refl Ep) as (pk & N & e & s1 & E1 & E2 & Eh & Es & Hk & _).
  exists pf, e, s1. split; [exact Ep|]. split; [exact Es|].
  injection E1 as <-. injection E2 as <-. vm_compute in Ep. injection Ep as <-.
  vm_compute in Eh. injection Eh as <-. split; [reflexivity|]. apply Hk. reflexivity.
Defined.

(** * The codecs *)

Lemma gg20_json `{JsonLaws} a b c d e f g h :
  let t := mkTProof (Some a) (Some b) (Some c) (Some d) in
  let st := mkSTProof (Some a) (Some b) (Some c) (Some d) (Some e) (Some f) in
  let pdl := mkPDL (Some a) (Some b) (Some c) (Some d) (Some e) (Some f) (Some g) (Some h) in
  TProof_UnmarshalJSON (TProof_MarshalJSON t) = Ok t /\
  STProof_UnmarshalJSON (STProof_MarshalJSON st) = Ok st /\
  PDLwSlackProof_UnmarshalJSON (PDLwSlackProof_MarshalJSON pdl) = Ok pdl.
Proof.
  assert (Hn : forall names, bool_decide (NoDup names) = true -> NoDup (A := string) names)
    by (intros names; apply bool_decide_eq_true).
  unfold TProof_UnmarshalJSON, TProof_MarshalJSON, STProof_UnmarshalJSON, STProof_MarshalJSON,
    PDLwSlackProof_UnmarshalJSON, PDLwSlackProof_MarshalJSON.
  cbn [tAlphaX tAlphaY tT tU stAlphaX stAlphaY stBetaX stBetaY stT stU pdZ pdU1X pdU1Y pdU2 pdU3 pdS1 pdS2 pdS3].
  change [Some a; Some b; Some c; Some d; Some e; Some f; Some g; Some h]
    with (Some <$> [a; b; c; d; e; f; g; h]).
  change [Some a; Some b; Some c; Some d; Some e; Some f] with (Some <$> [a; b; c; d; e; f]).
  change [Some a; Some b; Some c; Some d] with (Some <$> [a; b; c; d]).
  rewrite !ints_roundtrip by (reflexivity || (apply Hn; reflexivity)). done.
Qed.
