(* ===== verification/DNode.v ===== *)
(** The life cycle of a party, [smpc-lib/smpc/dnode.go]: a party holds a current
    round, stores the messages it receives, and moves to the next round when the
    current one has all its messages.  The protocols implement the interface
    [DNode]; [BaseStart] and [BaseUpdate] are the code they share. *)

From Stdlib Require Import ZArith Lia.
From S2P Require Import Prelude.

(** * Calls that change a party's state

    A method of a party changes its state in place, may draw entropy, and either
    returns a value or an error; the changes made before an error persist.
    [Crash] is a panic, [Hang] a call that does not return. *)

Inductive outcome (S A : Type) : Type :=
| Ret (a : A) (s : S) (t : tape)
| Fail (e : string) (s : S) (t : tape)
| Crash
| Hang.
Arguments Ret {S A} a s t.
Arguments Fail {S A} e s t.
Arguments Crash {S A}.
Arguments Hang {S A}.

Definition act (S A : Type) : Type := S -> tape -> outcome S A.

#[export] Instance act_ret S : MRet (act S) := fun A a s t => Ret a s t.
#[export] Instance act_bind S : MBind (act S) := fun A B f m s t =>
  match m s t with
  | Ret a s' t' => f a s' t'
  | Fail e s' t' => Fail e s' t'
  | Crash => Crash
  | Hang => Hang
  end.

Section primitives.
Context {S : Type}.

(** [return errors.New(e)]. *)
Definition fail {A} (e : string) : act S A := fun s t => Fail e s t.
Definition crash {A} : act S A := fun _ _ => Crash.
Definition getS : act S S := fun s t => Ret s s t.
Definition modify (f : S -> S) : act S unit := fun s t => Ret tt (f s) t.

(** A call that does not touch the state. *)
Definition call {A} (m : rnd A) : act S A := fun s t =>
  match m t with
  | Ok (a, t') => Ret a s t'
  | Err e => Fail e s t
  | Panic => Crash
  | Starve => Hang
  end.

Definition calls {A} (m : res A) : act S A := call (lift m).

(** A call whose error value is dropped and whose result is then used: the nil
    result panics. *)
Definition unchecked {A} (m : rnd A) : act S A := fun s t =>
  match m t with
  | Ok (a, t') => Ret a s t'
  | Starve => Hang
  | _ => Crash
  end.

(** [_, err = f()] where the caller looks at [err]. *)
Definition attempt {A} (m : act S A) : act S (option A) := fun s t =>
  match m s t with
  | Ret a s' t' => Ret (Some a) s' t'
  | Fail _ s' t' => Ret None s' t'
  | Crash => Crash
  | Hang => Hang
  end.

Lemma act_bind_Ret {A B} (m : act S A) (f : A -> act S B) s t b s' t' :
  (m ≫= f) s t = Ret b s' t' <-> exists a s1 t1, m s t = Ret a s1 t1 /\ f a s1 t1 = Ret b s' t'.
Proof. unfold mbind, act_bind. destruct (m s t); naive_solver. Qed.

Lemma act_bind_run {A B} (m : act S A) (f : A -> act S B) s t a s' t' :
  m s t = Ret a s' t' -> (m ≫= f) s t = f a s' t'.
Proof. intros H. unfold mbind, act_bind. now rewrite H. Qed.

(** ** What a call that returns does to the state *)

(** [hoare P m Q]: a call from a state with [P] that returns [a] leaves a state
    with [Q a]. *)
Definition hoare {A} (P : S -> Prop) (m : act S A) (Q : A -> S -> Prop) : Prop :=
  forall s t a s' t', P s -> m s t = Ret a s' t' -> Q a s'.

Lemma hoare_conseq {A} (P P' : S -> Prop) (m : act S A) (Q Q' : A -> S -> Prop) :
  hoare P' m Q' -> (forall s, P s -> P' s) -> (forall a s, Q' a s -> Q a s) -> hoare P m Q.
Proof. unfold hoare. eauto. Qed.

Lemma hoare_ret {A} P (a : A) : hoare P (mret a) (fun b s => b = a /\ P s).
Proof. intros s t b s' t' HP [= <- <- <-]. auto. Qed.

Lemma hoare_bind {A B} P (m : act S A) (f : A -> act S B) R Q :
  hoare P m R -> (forall a, hoare (R a) (f a) Q) -> hoare P (m ≫= f) Q.
Proof. intros Hm Hf s t b s' t' HP (a & s1 & t1 & H1 & H2)%act_bind_Ret. eapply Hf; eauto. Qed.

Lemma hoare_pre {A} (K : Prop) P (m : act S A) Q : (K -> hoare P m Q) -> hoare (fun s => K /\ P s) m Q.
Proof. intros H s t a s' t' [HK HP]. now apply H. Qed.

Lemma hoare_fail {A} P e Q : hoare P (@fail A e) Q.
Proof. intros s t a s' t' _ [=]. Qed.

Lemma hoare_crash {A} P Q : hoare P (@crash A) Q.
Proof. intros s t a s' t' _ [=]. Qed.

Lemma hoare_modify (P : S -> Prop) f (Q : unit -> S -> Prop) :
  (forall s, P s -> Q tt (f s)) -> hoare P (modify f) Q.
Proof. intros Hf s t [] s' t' HP E. injection E as <- _. auto. Qed.

(** The value of the state is known after reading it. *)
Lemma hoare_getS_bind {B} P (f : S -> act S B) Q :
  (forall s0, P s0 -> hoare (fun s => s = s0) (f s0) Q) -> hoare P (getS ≫= f) Q.
Proof. intros Hf s t b s' t' HP E. eapply (Hf s HP); [reflexivity|exact E]. Qed.

(** Calls that leave the state as it is. *)
Definition quiet {A} (m : act S A) : Prop := forall s t a s' t', m s t = Ret a s' t' -> s' = s.

Lemma hoare_quiet {A} P (m : act S A) : quiet m -> hoare P m (fun _ => P).
Proof. intros Hm s t a s' t' HP H. now rewrite (Hm _ _ _ _ _ H). Qed.

Lemma quiet_ret {A} (a : A) : quiet (mret a).
Proof. now intros s t b s' t' [= _ -> _]. Qed.

Lemma quiet_bind {A B} (m : act S A) (f : A -> act S B) : quiet m -> (forall a, quiet (f a)) -> quiet (m ≫= f).
Proof.
  intros Hm Hf s t b s' t' (a & s1 & t1 & H1 & H2)%act_bind_Ret.
  apply Hm in H1 as ->. eapply Hf; eauto.
Qed.

Lemma quiet_fail {A} e : quiet (@fail A e).
Proof. intros s t a s' t' [=]. Qed.

Lemma quiet_crash {A} : quiet (@crash A).
Proof. intros s t a s' t' [=]. Qed.

Lemma quiet_getS : quiet getS.
Proof. now intros s t a s' t' [= <- <- _]. Qed.

Lemma quiet_call {A} (m : rnd A) : quiet (call m).
Proof.
  intros s t a s' t'. unfold call. destruct (m t) as [[b t1]| | |]; try discriminate.
  now intros [= _ -> _].
Qed.

Lemma quiet_calls {A} (m : res A) : quiet (calls m).
Proof. apply quiet_call. Qed.

Lemma quiet_unchecked {A} (m : rnd A) : quiet (unchecked m).
Proof.
  intros s t a s' t'. unfold unchecked. destruct (m t) as [[b t1]| | |]; try discriminate.
  now intros [= _ -> _].
Qed.

Lemma quiet_attempt {A} (m : res A) : quiet (attempt (calls m)).
Proof. intros s t a s' t'. unfold attempt, calls, call, lift. destruct m; cbn; naive_solver. Qed.

(** A call of a function that draws nothing returns its value. *)
Lemma calls_Ret {A} (m : res A) s t a s' t' : calls m s t = Ret a s' t' <-> m = Ok a /\ s' = s /\ t' = t.
Proof. unfold calls, call, lift. destruct m; cbn; naive_solver. Qed.

Lemma calls_run {A} (m : res A) a s t : m = Ok a -> calls m s t = Ret a s t.
Proof. now intros ->. Qed.

Lemma hoare_calls {A} P (m : res A) : hoare P (calls m) (fun a s => m = Ok a /\ P s).
Proof. intros s t a s' t' HP (H & -> & ->)%calls_Ret. auto. Qed.

(** [for _, x := range l { ... }] around calls. *)
Fixpoint forEach {A} (l : list A) (body : A -> act S unit) : act S unit :=
  match l with
  | [] => mret tt
  | x :: l' => _ ← body x; forEach l' body
  end.

Lemma forEach_app {A} (l1 l2 : list A) body s t :
  forEach (l1 ++ l2) body s t = (forEach l1 body ≫= fun _ => forEach l2 body) s t.
Proof.
  revert s t. induction l1 as [|x l1 IH]; intros s t; [done|].
  cbn [app forEach]. unfold mbind, act_bind in *. destruct (body x s t) as [[] s1 t1| | |]; auto.
Qed.

Lemma hoare_forEach {A} (P : S -> Prop) (l : list A) body :
  (forall x, x ∈ l -> hoare P (body x) (fun _ => P)) -> hoare P (forEach l body) (fun _ => P).
Proof.
  induction l as [|x l IH]; intros Hb; cbn [forEach].
  - eapply hoare_conseq; [apply (hoare_ret P)|done|now intros ? ? []].
  - eapply hoare_bind; [apply Hb; constructor|]. intros []. apply IH. intros y Hy. apply Hb. now constructor.
Qed.

Lemma quiet_forEach {A} (l : list A) body : (forall x, quiet (body x)) -> quiet (forEach l body).
Proof.
  intros Hb. induction l as [|x l IH]; [apply quiet_ret|]. cbn [forEach]. now apply quiet_bind.
Qed.
End primitives.

(** Prove that a call leaves the state as it is, or that it keeps what holds of
    it, by walking over its code. *)
Ltac head t := lazymatch t with ?f _ => head f | _ => t end.
Ltac quiet :=
  repeat first
    [ assumption
    | apply quiet_ret | apply quiet_fail | apply quiet_crash | apply quiet_getS | apply quiet_call
    | apply quiet_calls | apply quiet_unchecked | apply quiet_attempt
    | apply quiet_bind; [|intros ?] | apply quiet_forEach; intros ?
    | match goal with |- quiet (match ?x with _ => _ end) => destruct x end
    | match goal with |- quiet ?m => let h := head m in unfold h end ].

(** Invert the calls of a sequence that returned. *)
Ltac inv_act :=
  repeat match goal with
  | H : Ret _ _ _ = Ret _ _ _ |- _ => injection H as H; subst
  | H : Fail _ _ _ = Ret _ _ _ |- _ => discriminate H
  | H : Crash = Ret _ _ _ |- _ => discriminate H
  | H : Hang = Ret _ _ _ |- _ => discriminate H
  | H : fail _ _ _ = Ret _ _ _ |- _ => discriminate H
  | H : crash _ _ = Ret _ _ _ |- _ => discriminate H
  | H : _ /\ _ |- _ => destruct H
  | H : exists _, _ |- _ => destruct H
  | H : (_ ≫= _) _ _ = Ret _ _ _ |- _ => apply act_bind_Ret in H
  | H : calls _ _ _ = Ret _ _ _ |- _ => apply calls_Ret in H
  | H : getS _ _ = Ret _ _ _ |- _ => injection H as H; subst
  | H : mret _ _ _ = Ret _ _ _ |- _ => injection H as H; subst
  | H : modify _ _ _ = Ret _ _ _ |- _ => injection H as H; subst
  | H : deref ?p = Ok _ |- _ => destruct p eqn:?; [injection H as H; subst|discriminate H]
  end.

(** * The interface of a party *)

Class DNode (S Msg : Type) := {
  DNodeID : S -> string;
  Finalize : S -> bool;
  (** [p.rnd != nil] *)
  hasRound : S -> bool;
  (** [p.rnd = p.FirstRound()], [p.rnd = p.FinalizeRound()] *)
  setFirstRound : S -> S;
  setFinalizeRound : S -> S;
  StoreMessage : Msg -> act S bool;
  (** the methods of the current round *)
  Start : act S unit;
  Update : act S bool;
  CanProceed : S -> bool;
  (** [p.rnd = p.rnd.NextRound()] *)
  advance : act S unit;
  ResetOK : act S unit
}.

Section base.
Context {S Msg : Type} `{P : DNode S Msg}.

(** [p.setRound(round)]. *)
Definition setRound (f : S -> S) : act S unit :=
  s ← getS;
  if hasRound s then fail "a round is already set on this party" else modify f.

Definition BaseStart : act S unit :=
  s ← getS;
  if String.eqb (DNodeID s) "" then fail "could not start. this smpc node has an invalid DNodeID" else
  if hasRound s then fail "could not start. this smpc node is in an unexpected state" else
  _ ← (if Finalize s then setRound setFinalizeRound else setRound setFirstRound);
  s ← getS;
  if negb (hasRound s) then crash else Start.

(** The part of [BaseUpdate] that runs when the current round has its messages:
    the next round starts, and once more the one after it when its messages are
    already there. *)
Definition proceed : act S unit :=
  _ ← advance;
  s ← getS;
  if negb (hasRound s) then mret tt else
  _ ← Start;
  u ← attempt Update;
  _ ← (match u with
       | None => mret tt
       | Some _ =>
           s ← getS;
           if negb (CanProceed s) then mret tt else
           _ ← advance;
           s ← getS;
           if hasRound s then Start else mret tt
       end);
  s ← getS;
  if hasRound s then ResetOK else crash.

(** [BaseUpdate]; [fuel] bounds the recursion, [stuck] is its outcome below that
    bound. *)
Fixpoint BaseUpdate (stuck : act S bool) (fuel : nat) (msg : Msg) : act S bool :=
  match fuel with
  | O => stuck
  | Datatypes.S f =>
      s ← getS;
      if negb (hasRound s) then mret true else
      ok ← StoreMessage msg;
      if negb ok then mret false else
      _ ← Update;
      s ← getS;
      if CanProceed s then _ ← proceed; BaseUpdate stuck f msg else mret true
  end.
End base.

(** * Termination

    A protocol has finitely many rounds; what remains to be run decreases. *)

(** [m] keeps the value of [f]. *)
Definition keeps {S A} (f : S -> nat) (m : act S A) : Prop :=
  forall n, hoare (fun s => f s = n) m (fun _ s => f s = n).

Section keeps.
Context {S : Type} (f : S -> nat).

Lemma keeps_bind {A B} (m : act S A) (k : A -> act S B) : keeps f m -> (forall a, keeps f (k a)) -> keeps f (m ≫= k).
Proof. intros Hm Hk n. eapply hoare_bind; [apply Hm|]. intros a. apply Hk. Qed.

Lemma keeps_quiet {A} (m : act S A) : quiet m -> keeps f m.
Proof. intros Hm n. now apply hoare_quiet. Qed.

Lemma keeps_modify g : (forall s, f (g s) = f s) -> keeps f (modify g).
Proof. intros Hg n. apply hoare_modify. intros s <-. apply Hg. Qed.

Lemma keeps_forEach {A} (l : list A) body : (forall x, keeps f (body x)) -> keeps f (forEach l body).
Proof. intros Hb n. apply hoare_forEach. intros x _. apply Hb. Qed.
End keeps.

Ltac keeps :=
  repeat first
    [ match goal with H : _ |- keeps _ _ => apply H end
    | lazymatch goal with |- keeps _ (let x := _ in _) => cbv zeta end
    | apply keeps_modify; reflexivity
    | apply keeps_bind; [|intros ?] | apply keeps_forEach; intros ?
    | apply keeps_quiet; solve [quiet]
    | match goal with |- keeps _ (match ?x with _ => _ end) => destruct x end
    | match goal with |- keeps _ ?m => let h := head m in unfold h end ].

Class Ranked (S Msg : Type) (P : DNode S Msg) := {
  rank : S -> nat;
  rank_store m : keeps rank (StoreMessage m);
  rank_start : keeps rank Start;
  rank_update : keeps rank (attempt Update);
  rank_reset : keeps rank ResetOK;
  rank_advance n : hoare (fun s => rank s = n) advance (fun _ s => (rank s < n)%nat)
}.

Section termination.
Context {S Msg : Type} `{P : DNode S Msg} `{R : !Ranked S Msg P}.

Lemma rank_le {A} (m : act S A) k :
  keeps rank m -> hoare (fun s => (rank s < k)%nat) m (fun _ s => (rank s < k)%nat).
Proof. intros H s t a s' t' Hs E. pose proof (H _ _ _ _ _ _ eq_refl E). cbn in *. lia. Qed.

Lemma rank_update' : keeps rank Update.
Proof.
  intros n s t a s' t' Hs E. eapply (rank_update n s t (Some a) s' t'); [exact Hs|].
  unfold attempt. now rewrite E.
Qed.

Lemma proceed_rank n : hoare (fun s => rank s = n) proceed (fun _ s => (rank s < n)%nat).
Proof.
  unfold proceed. eapply hoare_bind; [apply rank_advance|]. intros [].
  set (I := fun s => (rank s < n)%nat).
  assert (Hq : forall A (m : act S A), quiet m -> hoare I m (fun _ => I)) by (intros; now apply hoare_quiet).
  assert (Hs : hoare I Start (fun _ => I)) by (apply rank_le, rank_start).
  eapply hoare_bind; [apply Hq, quiet_getS|]. intros s.
  destruct (negb (hasRound s)); [apply Hq, quiet_ret|].
  eapply hoare_bind; [exact Hs|]. intros ?.
  eapply hoare_bind; [apply (rank_le (attempt Update)), rank_update|].
  intros u. eapply (hoare_bind _ _ _ (fun _ => I)).
  - destruct u; [|apply Hq, quiet_ret].
    eapply hoare_bind; [apply Hq, quiet_getS|]. intros s1.
    destruct (negb (CanProceed s1)); [apply Hq, quiet_ret|].
    apply (hoare_bind _ _ _ (fun _ => I)).
    + intros s2 t2 ? s3 t3 H2 E. pose proof (rank_advance _ _ _ _ _ _ eq_refl E). cbn in *. unfold I in *. lia.
    + intros ?. eapply hoare_bind; [apply Hq, quiet_getS|]. intros s2.
      destruct (hasRound s2); [exact Hs|apply Hq, quiet_ret].
  - intros ?. eapply hoare_bind; [apply Hq, quiet_getS|]. intros s2.
    destruct (hasRound s2); [|apply Hq, quiet_crash].
    apply rank_le, rank_reset.
Qed.

(** The recursion of [BaseUpdate] ends: with more fuel than rounds that remain
    its bound is never reached. *)
Lemma BaseUpdate_fuel msg k1 k2 : forall f1 f2 s t, (rank s < f1)%nat -> (rank s < f2)%nat ->
  BaseUpdate k1 f1 msg s t = BaseUpdate k2 f2 msg s t.
Proof.
  induction f1 as [|f1 IH]; intros [|f2] s t H1 H2; try lia.
  cbn [BaseUpdate]. unfold mbind, act_bind, getS. destruct (negb (hasRound s)); [done|].
  destruct (StoreMessage msg s t) as [ok s1 t1| | |] eqn:E1; try done.
  destruct (negb ok); [done|].
  destruct (Update s1 t1) as [u s2 t2| | |] eqn:E2; try done.
  destruct (CanProceed s2); [|done].
  destruct (proceed s2 t2) as [[] s3 t3| | |] eqn:E3; try done.
  pose proof (rank_store _ _ _ _ _ _ _ eq_refl E1). pose proof (rank_update' _ _ _ _ _ _ eq_refl E2).
  pose proof (proceed_rank _ _ _ _ _ _ eq_refl E3). cbn in *. apply IH; lia.
Qed.
End termination.

(** * Invariants

    An invariant of a party's state survives a call also when the call returns an
    error: what the call changed before it failed persists. *)

Definition stable {S A} (I : S -> Prop) (m : act S A) : Prop :=
  forall s t, I s -> match m s t with Ret _ s' _ | Fail _ s' _ => I s' | Crash | Hang => True end.

Section stable.
Context {S : Type} (I : S -> Prop).

Lemma stable_ret {A} (a : A) : stable I (mret a).
Proof. now intros s t H. Qed.

Lemma stable_fail {A} e : stable I (@fail S A e).
Proof. now intros s t H. Qed.

Lemma stable_crash {A} : stable I (@crash S A).
Proof. now intros s t H. Qed.

Lemma stable_getS : stable I getS.
Proof. now intros s t H. Qed.

Lemma stable_call {A} (m : rnd A) : stable I (call m).
Proof. intros s t H. unfold call. now destruct (m t) as [[b t']| | |]. Qed.

Lemma stable_calls {A} (m : res A) : stable I (calls m).
Proof. apply stable_call. Qed.

Lemma stable_unchecked {A} (m : rnd A) : stable I (unchecked m).
Proof. intros s t H. unfold unchecked. now destruct (m t) as [[b t']| | |]. Qed.

Lemma stable_attempt {A} (m : act S A) : stable I m -> stable I (attempt m).
Proof. intros Hm s t H. specialize (Hm s t H). unfold attempt. now destruct (m s t). Qed.

Lemma stable_modify f : (forall s, I s -> I (f s)) -> stable I (modify f).
Proof. intros Hf s t H. now apply Hf. Qed.

Lemma stable_bind {A B} (m : act S A) (f : A -> act S B) :
  stable I m -> (forall a, stable I (f a)) -> stable I (m ≫= f).
Proof.
  intros Hm Hf s t H. specialize (Hm s t H). unfold mbind, act_bind. destruct (m s t) as [a s1 t1| | |]; try done.
  now apply Hf.
Qed.

Lemma stable_forEach {A} (l : list A) body : (forall x, stable I (body x)) -> stable I (forEach l body).
Proof.
  intros Hb. induction l as [|x l IH]; [apply stable_ret|]. cbn [forEach]. now apply stable_bind.
Qed.

(** The state that was read is the current one. *)
Lemma stable_getS_bind {B} (f : S -> act S B) :
  (forall s t, I s -> match f s s t with Ret _ s' _ | Fail _ s' _ => I s' | Crash | Hang => True end) ->
  stable I (getS ≫= f).
Proof. intros Hf s t H. now apply Hf. Qed.
End stable.

Ltac stable :=
  repeat (try assumption;
    lazymatch goal with
    | |- stable _ (let x := _ in _) => cbv zeta
    | |- stable _ (mret _) => apply stable_ret
    | |- stable _ (fail _) => apply stable_fail
    | |- stable _ crash => apply stable_crash
    | |- stable _ getS => apply stable_getS
    | |- stable _ (call _) => apply stable_call
    | |- stable _ (calls _) => apply stable_calls
    | |- stable _ (unchecked _) => apply stable_unchecked
    | |- stable _ (attempt _) => apply stable_attempt
    | |- stable _ (_ ≫= _) => apply stable_bind; [|intros ?]
    | |- stable _ (forEach _ _) => apply stable_forEach; intros ?
    | |- stable _ (match ?x with _ => _ end) => destruct x
    | |- stable _ (modify _) => match goal with H : _ |- _ => apply H end
    | |- stable _ ?m => first [ match goal with H : _ |- _ => apply H end | let h := head m in unfold h ]
    end).

(** What the methods of a party keep, its life cycle keeps. *)
Class Stable (S Msg : Type) (P : DNode S Msg) (I : S -> Prop) : Prop := {
  stable_first s : I s -> I (setFirstRound s);
  stable_finalize s : I s -> I (setFinalizeRound s);
  stable_store m : stable I (StoreMessage m);
  stable_start : stable I Start;
  stable_update : stable I Update;
  stable_advance : stable I advance;
  stable_reset : stable I ResetOK
}.

Section life.
Context {S Msg : Type} `{P : DNode S Msg} (I : S -> Prop) `{HI : !Stable S Msg P I}.

Lemma BaseStart_stable : stable I BaseStart.
Proof.
  pose proof stable_start. unfold BaseStart, setRound.
  assert (stable I (modify setFinalizeRound)) by apply stable_modify, stable_finalize.
  assert (stable I (modify setFirstRound)) by apply stable_modify, stable_first. stable.
Qed.

Lemma proceed_stable : stable I proceed.
Proof. pose proof stable_start. pose proof stable_update. pose proof stable_advance. pose proof stable_reset. stable. Qed.

Lemma BaseUpdate_stable stuck fuel msg : stable I stuck -> stable I (BaseUpdate stuck fuel msg).
Proof.
  intros Hs. pose proof proceed_stable. pose proof stable_store. pose proof stable_update.
  induction fuel as [|f IH]; [exact Hs|]. cbn [BaseUpdate]. stable.
Qed.
End life.
