(* ===== verification/Keygen.v ===== *)
(** A party of ECDSA key generation, [smpc-lib/ecdsa/keygen]: its state
    ([local_dnode.go]), the bookkeeping of the rounds ([rounds.go]) and the eight
    rounds ([round_0.go] to [round_7.go]).

    The rounds of the source share one [base] by pointer, and [base] points to the
    party's data and temporary data: a [LocalDNode] holds one copy of each and
    the kind of its current round.  A send on the channels [out] and [end] appends
    to a log. *)

From Stdlib Require Import ZArith Lia.
From stdpp Require Import gmap strings.
From S2P Require Import Prelude GoBig Random Text Hex IntGo Json Secp256k1 Vss2 Commit Paillier Schnorr.
From S2P Require Import Ntilde SquareFree Hv Common DNode KgMessage KgSave.

#[local] Open Scope Z_scope.

(** * Data *)

(** The message slices of [localTempData], [kgRound0Messages] and so on. *)
Inductive slot := S0 | S1 | S2 | S21 | S22 | S3 | S31 | S4 | S5 | S51 | S52 | S6.

#[export] Instance slot_eq_dec : EqDecision slot.
Proof. solve_decision. Defined.

(** The slice a message is stored in. *)
Definition slotOf (m : Message) : slot :=
  match m with
  | KGRound0Message _ => S0
  | KGRound1Message _ _ _ _ => S1
  | KGRound2Message _ _ _ => S2
  | KGRound2Message1 _ _ => S21
  | KGRound2Message2 _ _ _ => S22
  | KGRound3Message _ _ _ _ => S3
  | KGRound3Message1 _ _ => S31
  | KGRound4Message _ _ _ _ _ => S4
  | KGRound5Message _ _ => S5
  | KGRound5Message1 _ _ _ => S51
  | KGRound5Message2 _ _ _ => S52
  | KGRound6Message _ _ _ => S6
  end.

Record localTempData := mkTemp {
  u1 : bigint; u1Poly : option PolyStruct2; u1PolyG : option PolyGStruct2; commitU1G : option Commitment;
  c1 : bigint; commitC1G : option Commitment;
  u1PaillierPk : option PublicKey; u1PaillierSk : option PrivateKey; tp : bigint; tq : bigint;
  u1Shares : list ShareStruct2;
  p1 : bigint; p2 : bigint; commitXiG : option Commitment }.

Definition emptyTemp : localTempData :=
  mkTemp None None None None None None None None None None [] None None None.

(** [base], without the pointers to the party's own data. *)
Record base := mkBase {
  rOk : list bool; rStarted : bool; rNumber : Z; rDnodeid : string;
  rDnodecount : nat; rThreshold : Z; rPaillierkeylength : Z }.

Record LocalDNode := mkNode {
  nRnd : option (nat * base);
  nID : string; nCount : nat; nThresHold : Z; nPaillierKeyLength : Z;
  nMsgs : slot -> list (option Message);
  nTemp : localTempData;
  nData : LocalDNodeSaveData;
  nOut : list Message;
  nEnd : list LocalDNodeSaveData;
  (** the package's channel of safe primes *)
  nPrimes : primeQueue }.

Abbreviation kg := (act LocalDNode).

(** * Assignments *)

Definition withRnd r (s : LocalDNode) := mkNode r (nID s) (nCount s) (nThresHold s)
  (nPaillierKeyLength s) (nMsgs s) (nTemp s) (nData s) (nOut s) (nEnd s) (nPrimes s).
Definition withID id (s : LocalDNode) := mkNode (nRnd s) id (nCount s) (nThresHold s)
  (nPaillierKeyLength s) (nMsgs s) (nTemp s) (nData s) (nOut s) (nEnd s) (nPrimes s).
Definition withMsgs m (s : LocalDNode) := mkNode (nRnd s) (nID s) (nCount s) (nThresHold s)
  (nPaillierKeyLength s) m (nTemp s) (nData s) (nOut s) (nEnd s) (nPrimes s).
Definition withTemp t (s : LocalDNode) := mkNode (nRnd s) (nID s) (nCount s) (nThresHold s)
  (nPaillierKeyLength s) (nMsgs s) t (nData s) (nOut s) (nEnd s) (nPrimes s).
Definition withData d (s : LocalDNode) := mkNode (nRnd s) (nID s) (nCount s) (nThresHold s)
  (nPaillierKeyLength s) (nMsgs s) (nTemp s) d (nOut s) (nEnd s) (nPrimes s).
Definition withOut o (s : LocalDNode) := mkNode (nRnd s) (nID s) (nCount s) (nThresHold s)
  (nPaillierKeyLength s) (nMsgs s) (nTemp s) (nData s) o (nEnd s) (nPrimes s).
Definition withEnd e (s : LocalDNode) := mkNode (nRnd s) (nID s) (nCount s) (nThresHold s)
  (nPaillierKeyLength s) (nMsgs s) (nTemp s) (nData s) (nOut s) e (nPrimes s).
Definition withPrimes ch (s : LocalDNode) := mkNode (nRnd s) (nID s) (nCount s) (nThresHold s)
  (nPaillierKeyLength s) (nMsgs s) (nTemp s) (nData s) (nOut s) (nEnd s) ch.

Definition withShares l (t : localTempData) := mkTemp (u1 t) (u1Poly t) (u1PolyG t) (commitU1G t) (c1 t)
  (commitC1G t) (u1PaillierPk t) (u1PaillierSk t) (tp t) (tq t) l (p1 t) (p2 t) (commitXiG t).
Definition withP12 a b (t : localTempData) := mkTemp (u1 t) (u1Poly t) (u1PolyG t) (commitU1G t) (c1 t)
  (commitC1G t) (u1PaillierPk t) (u1PaillierSk t) (tp t) (tq t) (u1Shares t) a b (commitXiG t).
Definition withCommitXi com (t : localTempData) := mkTemp (u1 t) (u1Poly t) (u1PolyG t) (commitU1G t) (c1 t)
  (commitC1G t) (u1PaillierPk t) (u1PaillierSk t) (tp t) (tq t) (u1Shares t) (p1 t) (p2 t) com.

Definition withSk sk (d : LocalDNodeSaveData) := mkSave (Pkx d) (Pky d) (sC d) (SkU1 d) sk
  (U1PaillierPk d) (U1NtildePrivData d) (U1NtildeH1H2 d) (IDs d) (CurDNodeID d).
Definition withPks l (d : LocalDNodeSaveData) := mkSave (Pkx d) (Pky d) (sC d) (SkU1 d) (U1PaillierSk d)
  l (U1NtildePrivData d) (U1NtildeH1H2 d) (IDs d) (CurDNodeID d).
Definition withIDs ids cur (d : LocalDNodeSaveData) := mkSave (Pkx d) (Pky d) (sC d) (SkU1 d)
  (U1PaillierSk d) (U1PaillierPk d) (U1NtildePrivData d) (U1NtildeH1H2 d) ids cur.
Definition withKey sk pkx pky c (d : LocalDNodeSaveData) := mkSave pkx pky c sk (U1PaillierSk d)
  (U1PaillierPk d) (U1NtildePrivData d) (U1NtildeH1H2 d) (IDs d) (CurDNodeID d).
Definition withPriv pr (d : LocalDNodeSaveData) := mkSave (Pkx d) (Pky d) (sC d) (SkU1 d) (U1PaillierSk d)
  (U1PaillierPk d) pr (U1NtildeH1H2 d) (IDs d) (CurDNodeID d).
Definition withNtildes l (d : LocalDNodeSaveData) := mkSave (Pkx d) (Pky d) (sC d) (SkU1 d) (U1PaillierSk d)
  (U1PaillierPk d) (U1NtildePrivData d) l (IDs d) (CurDNodeID d).

Definition setSlot (f : slot -> list (option Message)) (sl : slot) l : slot -> list (option Message) :=
  fun sl' => if decide (sl' = sl) then l else f sl'.

Definition setTemp (f : localTempData -> localTempData) : kg unit := modify (fun s => withTemp (f (nTemp s)) s).
Definition setData (f : LocalDNodeSaveData -> LocalDNodeSaveData) : kg unit :=
  modify (fun s => withData (f (nData s)) s).

(** [l[i] = x]; an index out of range panics. *)
Definition inBounds {A} (l : list A) (i : Z) : bool := (0 <=? i) && (i <? Z.of_nat (length l)).

Definition putMsg (sl : slot) (i : Z) (m : Message) : kg unit :=
  s ← getS;
  if inBounds (nMsgs s sl) i
  then modify (withMsgs (setSlot (nMsgs s) sl (<[Z.to_nat i := Some m]> (nMsgs s sl))))
  else crash.

Definition putPk (i : Z) (pk : option PublicKey) : kg unit :=
  s ← getS;
  let l := U1PaillierPk (nData s) in
  if inBounds l i then setData (withPks (<[Z.to_nat i := pk]> l)) else crash.

Definition putNtilde (i : Z) (nt : option NtildeH1H2) : kg unit :=
  s ← getS;
  let l := U1NtildeH1H2 (nData s) in
  if inBounds l i then setData (withNtildes (<[Z.to_nat i := nt]> l)) else crash.

(** Reading a slice of messages. *)
Definition getMsg (sl : slot) (k : nat) : kg (option Message) :=
  s ← getS; calls (index (nMsgs s sl) k).

(** [round.out <- m]. *)
Definition send (m : Message) : kg unit := modify (fun s => withOut (nOut s ++ [m]) s).

(** [kg.SetFromID(round.dnodeid); kg.SetFromIndex(index)]. *)
Definition myHeader (b : base) (i : Z) : KGRoundMessage := mkHeader (rDnodeid b) i [].

(** * rounds.go *)

Definition theBase : kg base :=
  s ← getS; match nRnd s with Some (_, b) => mret b | None => crash end.

Definition setBase (f : base -> base) : kg unit :=
  modify (fun s => match nRnd s with Some (k, b) => withRnd (Some (k, f b)) s | None => s end).

Definition withOk ok (b : base) := mkBase ok (rStarted b) (rNumber b) (rDnodeid b) (rDnodecount b)
  (rThreshold b) (rPaillierkeylength b).
Definition withStarted st (b : base) := mkBase (rOk b) st (rNumber b) (rDnodeid b) (rDnodecount b)
  (rThreshold b) (rPaillierkeylength b).
Definition withNumber k (b : base) := mkBase (rOk b) (rStarted b) k (rDnodeid b) (rDnodecount b)
  (rThreshold b) (rPaillierkeylength b).

Definition round_CanProceed (s : LocalDNode) : bool :=
  match nRnd s with
  | Some (_, b) => rStarted b && forallb (fun ok : bool => ok) (rOk b)
  | None => false
  end.

Definition round_ResetOK : kg unit := setBase (fun b => withOk ((fun _ => false) <$> rOk b) b).

(** [GetIDs], of the messages of round 0. *)
Definition idsOf (msgs : list (option Message)) : res (list bigint) :=
  ids ← mapRange (fun v =>
    v ← deref v;
    uidtmp ← DecodeString (GetFromID v);
    Ok (SetString 10 uidtmp)) msgs;
  sortIDs ids.

Definition GetIDs : kg (list bigint) := s ← getS; calls (idsOf (nMsgs s S0)).

(** [GetDNodeIDIndex]. *)
Definition indexOf (received count : nat) (id : string) : res Z :=
  if String.eqb id "" || negb (Nat.eqb received count) then Ok (-1) else
  uidtmp ← DecodeString id;
  let idtmp := SetString 10 uidtmp in
  found ← forRange (seq 0 count) (fun _ i =>
    idtmp ← deref idtmp;
    Ok (if Z.of_nat i + 1 =? idtmp then Some (Z.of_nat i) else None)) 0;
  match found with
  | Some i => Ok i
  | None => Err "get dnode index fail,no found in kgRound0Messages"
  end.

Definition GetDNodeIDIndex (id : string) : kg Z :=
  s ← getS; b ← theBase; calls (indexOf (length (nMsgs s S0)) (rDnodecount b) id).

(** The first lines of every [Start]. *)
Definition begin_ (k : Z) : kg base :=
  b ← theBase;
  if rStarted b then fail "round already started" else
  _ ← setBase (fun b => withStarted true (withNumber k b));
  _ ← round_ResetOK;
  theBase.

(** * The rounds *)

Definition round0_Start : kg unit :=
  b ← begin_ 0;
  let m := KGRound0Message (myHeader b (-1)) in
  _ ← modify (fun s => withMsgs (setSlot (nMsgs s) S0 (nMsgs s S0 ++ [Some m])) s);
  send m.

Section rounds.
Context `{E : Curve} `{G : GoLib} (fuel : nat).

(** The secrets of a round 1 commitment: [u*G] and the coordinates of the other
    committed coefficients. *)
Definition commitSecrets (uG : gpoint) (polyG : PolyGStruct2) : res (list bigint) :=
  foldRange (drop 1 (PolyG polyG)) (fun _ g acc =>
    x ← index g 0; y ← index g 1; Ok (acc ++ [x; y])) 0 [uG.1; uG.2].

(** [ec2.GenerateKeyPair] on the package's prime channel. *)
Definition genKeyPair (length : Z) : kg (option (PublicKey * PrivateKey * Z * Z)) :=
  s ← getS;
  '(o, ch) ← calls (GenerateKeyPair length (nPrimes s));
  _ ← modify (withPrimes ch);
  mret o.

Definition round1_Start : kg unit :=
  b ← begin_ 1;
  u1 ← call (GetRandomIntFromZn (cN S256));
  c1 ← call (GetRandomIntFromZn (cN S256));
  if (rThreshold b <=? 1) || (Z.of_nat (rDnodecount b) <? rThreshold b) then fail "round one fail" else
  '(u1Poly, u1PolyG) ← unchecked (Vss2Init (Some u1) (rThreshold b));
  '(_, c1PolyG) ← unchecked (Vss2Init (Some c1) (rThreshold b));
  u1G ← calls (ScalarBaseMult (Bytes u1));
  u1Secrets ← calls (commitSecrets u1G u1PolyG);
  commitU1G ← call (Commit u1Secrets);
  c1G ← calls (ScalarBaseMult (Bytes c1));
  c1Secrets ← calls (commitSecrets c1G c1PolyG);
  commitC1G ← call (Commit c1Secrets);
  keys ← genKeyPair (rPaillierkeylength b);
  match keys with
  | None => fail " Error generating Paillier pubkey/private data "
  | Some (u1PaillierPk, u1PaillierSk, p, q) =>
      match commitU1G, commitC1G with
      | Some comU, Some comB =>
          _ ← setTemp (fun t => mkTemp (Some u1) (Some u1Poly) (Some u1PolyG) (Some comU) (Some c1)
                (Some comB) (Some u1PaillierPk) (Some u1PaillierSk) (Some p) (Some q)
                (u1Shares t) (p1 t) (p2 t) (commitXiG t));
          index ← GetDNodeIDIndex (rDnodeid b);
          let m := KGRound1Message (myHeader b index) (comC comU) (comC comB) (Some u1PaillierPk) in
          _ ← setData (withSk (Some u1PaillierSk));
          _ ← putPk index (Some u1PaillierPk);
          _ ← putMsg S1 index m;
          send m
      | _, _ => fail " Error generating commitment/bip32-commitment data "
      end
  end.

Definition paillierBitsLen : Z := 2048.

(** One pass of the check of [paillier.N]. *)
Definition checkPaillier (msg : option Message) : kg unit :=
  match msg with
  | Some (KGRound1Message _ _ _ (Some paiPk)) =>
      n ← calls (deref (pkN paiPk));
      if BitLen n =? paillierBitsLen then mret tt else fail "got paillier N with not enough bits"
  | _ => fail "error kg round1 message"
  end.

(** The inner loop of the distribution of the shares: the share of node [id]. *)
Fixpoint sendShare (b : base) (curIndex : Z) (k : nat) (id : bigint) (shares : list ShareStruct2) : kg unit :=
  match shares with
  | [] => mret tt
  | v :: rest =>
      match GetSharesID (Some v) with
      | None => sendShare b curIndex k id rest
      | Some vv =>
          idv ← calls (deref id);
          if vv =? idv then
            let header := myHeader b curIndex in
            if Z.of_nat k =? curIndex
            then putMsg S2 (Z.of_nat k) (KGRound2Message header (ID v) (Share v))
            else send (KGRound2Message (AppendToID header (EncodeToString (Sprintf_v id))) (ID v) (Share v))
          else sendShare b curIndex k id rest
      end
  end.

Definition round2_Start : kg unit :=
  b ← begin_ 2;
  curIndex ← GetDNodeIDIndex (rDnodeid b);
  ids ← GetIDs;
  _ ← setData (withIDs ids (SetString 10 (rDnodeid b)));
  s ← getS;
  _ ← forEach (nMsgs s S1) checkPaillier;
  s ← getS;
  sk ← calls (deref (U1PaillierSk (nData s)));
  n ← calls (deref (pkN (skPublicKey sk)));
  num ← call (MustGetRandomInt (BitLen n));
  sfProof ← calls (SquareFreeProve fuel (pkN (skPublicKey sk)) (Some num) (skL sk));
  match sfProof with
  | None => fail "get square free proof fail"
  | Some sfProof =>
      let srm := KGRound2Message2 (myHeader b curIndex) (Some num) (Some sfProof) in
      _ ← putMsg S22 curIndex srm;
      _ ← send srm;
      dul ← attempt (calls (ContainsDuplicate ids));
      if (match dul with Some d => d | None => true end) || Nat.ltb (rDnodecount b) (length ids)
      then fail "node id error" else
      s ← getS;
      poly ← calls (deref (u1Poly (nTemp s)));
      u1Shares ← calls (Vss2 poly ids);
      _ ← setTemp (withShares u1Shares);
      _ ← forEach (zip (seq 0 (length ids)) ids) (fun '(k, id) => sendShare b curIndex k id u1Shares);
      let m := KGRound2Message1 (myHeader b curIndex) (c1 (nTemp s)) in
      _ ← putMsg S21 curIndex m;
      send m
  end.

(** One pass of the check of the square-free proofs. *)
Definition checkSquareFree (k : nat) : kg unit :=
  msg1 ← getMsg S1 k;
  match msg1 with
  | Some (KGRound1Message _ _ _ pk) =>
      match pk with
      | None => fail "error kg round1 message"
      | Some paiPk =>
          msg22 ← getMsg S22 k;
          match msg22 with
          | Some (KGRound2Message2 _ num sfpf) =>
              ok ← calls (SquareFreeVerify fuel (pkN paiPk) num sfpf);
              if ok : bool then mret tt
              else fail "check that a zero-knowledge proof that paillier.N is a square-free integer fail"
          | _ => fail "round.Start get round2 msg 2 fail"
          end
      end
  | _ => fail "round.Start get round1 msg fail"
  end.

Definition round3_Start : kg unit :=
  b ← begin_ 3;
  curIndex ← GetDNodeIDIndex (rDnodeid b);
  ids ← GetIDs;
  _ ← forEach (seq 0 (length ids)) checkSquareFree;
  s ← getS;
  comU ← calls (deref (commitU1G (nTemp s)));
  comB ← calls (deref (commitC1G (nTemp s)));
  polyG ← calls (deref (u1PolyG (nTemp s)));
  let m := KGRound3Message (myHeader b curIndex) (comD comU) (comD comB) (PolyG polyG) in
  _ ← putMsg S3 curIndex m;
  send m.

(** ** Round 4 *)

(** One pass of the first loop: the share against the polynomial of its dealer,
    the two commitments, and the chain code against its commitment. *)
Definition checkShare (k : nat) : kg unit :=
  msg2 ← getMsg S2 k;
  match msg2 with
  | Some (KGRound2Message _ id share) =>
      let ushare := mkShare id share in
      msg3 ← getMsg S3 k;
      match msg3 with
      | Some (KGRound3Message _ comU1GD comC1GD u1PolyGG) =>
          ok ← calls (Verify2 ushare {| PolyG := u1PolyGG |});
          if negb ok then fail "verify share data fail" else
          msg1 ← getMsg S1 k;
          match msg1 with
          | Some (KGRound1Message _ comC_ comCBip32 _) =>
              ok ← calls (Verify (mkCommitment comC_ comU1GD));
              if negb ok then fail "verify commitment fail" else
              ok ← calls (Verify (mkCommitment comCBip32 comC1GD));
              if negb ok then fail "verify commitment fail" else
              '(_, c1G) ← calls (DeCommit (mkCommitment comCBip32 comC1GD));
              msg21 ← getMsg S21 k;
              match msg21 with
              | Some (KGRound2Message1 _ c1) =>
                  c1 ← calls (deref c1);
                  cGVerify ← calls (ScalarBaseMult (Bytes c1));
                  x ← calls (index c1G 0);
                  ex ← calls (CmpEq x cGVerify.1);
                  ey ← (if ex : bool then y ← calls (index c1G 1); calls (CmpEq y cGVerify.2)
                        else mret false);
                  if ey : bool then mret tt else fail "verify threshold bip32 fail"
              | _ => fail "round.Start get round2.1 msg fail"
              end
          | _ => fail "round.Start get round1 msg fail"
          end
      | _ => fail "round.Start get round3 msg fail"
      end
  | _ => fail "round.Start get round2 msg fail"
  end.

(** What node [k] contributes: its point [u*G], its chain code and its share; a
    nil message panics. *)
Definition contribution (k : nat) : kg (gpoint * bigint * bigint) :=
  msg3 ← getMsg S3 k;
  msg1 ← getMsg S1 k;
  msg2 ← getMsg S2 k;
  msg21 ← getMsg S21 k;
  match msg3, msg1, msg2, msg21 with
  | Some (KGRound3Message _ comU1GD _ _), Some (KGRound1Message _ comC_ _ _),
    Some (KGRound2Message _ _ share), Some (KGRound2Message1 _ c1) =>
      '(_, u1G) ← calls (DeCommit (mkCommitment comC_ comU1GD));
      x ← calls (index u1G 0);
      y ← calls (index u1G 1);
      mret ((x, y), c1, share)
  | _, _, _, _ => crash
  end.

(** The loop over the other nodes, from the contribution of node 0. *)
Fixpoint sumContributions (ks : list nat) (pk : gpoint) (c skU1 : bigint) : kg (gpoint * bigint * bigint) :=
  match ks with
  | [] => mret (pk, c, skU1)
  | k :: ks' =>
      '(u1G, ck, share) ← contribution k;
      pk' ← calls (Add S256 pk u1G);
      c' ← calls (a ← deref c; b ← deref ck; Ok (a + b));
      skU1' ← calls (a ← deref skU1; b ← deref share; Ok (a + b));
      sumContributions ks' pk' (Some c') (Some skU1')
  end.

(** The public key, the chain code and the share of the private key. *)
Definition combineKey (n : nat) : kg (gpoint * Z * Z) :=
  '(pk, c, skU1) ← (match n with
    | O => mret (nilpt, None, None)
    | S n' =>
        '(pk, c, skU1) ← contribution 0;
        sumContributions (seq 1 n') pk c skU1
    end);
  c ← calls (deref c);
  c ← calls (Mod c (cN S256));
  skU1 ← calls (deref skU1);
  skU1 ← calls (Mod skU1 (cN S256));
  mret (pk, c, skU1).

(** The first half of round 4: the checks, then the key. *)
Definition verifyAndCombine (n : nat) : kg (gpoint * Z * Z) :=
  _ ← forEach (seq 0 n) checkShare;
  combineKey n.

Definition genNtilde (length : Z) : kg (option (NtildeH1H2 * Z * Z * (Z * Z) * (Z * Z))) :=
  s ← getS;
  '(o, ch) ← call (GenerateNtildeH1H2 length (nPrimes s));
  _ ← modify (withPrimes ch);
  mret o.

Definition NtildeLength : Z := 2048.

Definition round4_Start : kg unit :=
  b ← begin_ 4;
  curIndex ← GetDNodeIDIndex (rDnodeid b);
  ids ← GetIDs;
  '(pk, c, skU1) ← verifyAndCombine (length ids);
  _ ← setData (withKey (Some skU1) pk.1 pk.2 (Some c));
  xiG ← calls (ScalarBaseMult (Bytes skU1));
  commitXiG ← call (Commit [xiG.1; xiG.2]);
  match commitXiG with
  | None => fail "error generating commitment for sku1"
  | Some comXi =>
      _ ← setTemp (withCommitXi (Some comXi));
      nt ← genNtilde NtildeLength;
      match nt with
      | None => fail "gen ntilde h1 h2 fail"
      | Some (u1NtildeH1H2, alpha, beta, (p, q), (p1, p2)) =>
          _ ← setData (withPriv (Some (mkNtildePriv (Some alpha) (Some beta) (Some p) (Some q))));
          _ ← setTemp (withP12 (Some p1) (Some p2));
          h1 ← calls (deref (ntH1 u1NtildeH1H2));
          h2 ← calls (deref (ntH2 u1NtildeH1H2));
          N ← calls (deref (ntNtilde u1NtildeH1H2));
          ntildeProof1 ← call (NewNtildeProof h1 h2 alpha p q N);
          ntildeProof2 ← call (NewNtildeProof h2 h1 beta p q N);
          let m := KGRound4Message (myHeader b curIndex) (Some u1NtildeH1H2) (Some ntildeProof1)
                     (Some ntildeProof2) (comC comXi) in
          _ ← putNtilde curIndex (Some u1NtildeH1H2);
          _ ← putMsg S4 curIndex m;
          send m
      end
  end.

(** ** Round 5 *)

Definition ntildeBitsLen : Z := 2048.

Definition checkNtildeLen (msg : option Message) : kg unit :=
  match msg with
  | Some (KGRound4Message _ nt _ _ _) =>
      match nt with
      | Some (mkNtilde (Some ntilde) _ _) =>
          if BitLen ntilde =? ntildeBitsLen then mret tt else fail "got ntilde with not enough bits"
      | _ => fail "error kg round4 message"
      end
  | _ => fail "error kg round4 message"
  end.

Definition round5_Start : kg unit :=
  b ← begin_ 5;
  curIndex ← GetDNodeIDIndex (rDnodeid b);
  s ← getS;
  _ ← forEach (nMsgs s S4) checkNtildeLen;
  own ← (if 0 <=? curIndex then getMsg S4 (Z.to_nat curIndex) else crash);
  ntilde ← (match own with
            | Some (KGRound4Message _ nt _ _ _) => calls (nt ← deref nt; deref (ntNtilde nt))
            | _ => crash
            end);
  num ← call (MustGetRandomInt (BitLen ntilde));
  s ← getS;
  p1_ ← calls (deref (p1 (nTemp s)));
  p2_ ← calls (deref (p2 (nTemp s)));
  let pMinus1 := p1_ - 1 in
  let qMinus1 := p2_ - 1 in
  let l := pMinus1 * qMinus1 in
  sfProof ← calls (SquareFreeProve fuel (Some ntilde) (Some num) (Some l));
  match sfProof with
  | None => fail "get square free proof fail"
  | Some sfProof =>
      let srm := KGRound5Message2 (myHeader b curIndex) (Some num) (Some sfProof) in
      _ ← putMsg S52 curIndex srm;
      _ ← send srm;
      num ← call (MustGetRandomInt (BitLen ntilde));
      hvProof ← calls (HvProve fuel (Some ntilde) (Some num) (Some p1_) (Some p2_));
      match hvProof with
      | None => fail "get hvzk proof fail"
      | Some hvProof =>
          let srm2 := KGRound5Message1 (myHeader b curIndex) (Some num) (Some hvProof) in
          _ ← putMsg S51 curIndex srm2;
          _ ← send srm2;
          comXi ← calls (deref (commitXiG (nTemp s)));
          let m := KGRound5Message (myHeader b curIndex) (comD comXi) in
          _ ← putMsg S5 curIndex m;
          send m
      end
  end.

(** ** Round 6 *)

Definition checkXiCommit (k : nat) : kg unit :=
  msg5 ← getMsg S5 k;
  match msg5 with
  | Some (KGRound5Message _ comXiGD) =>
      msg4 ← getMsg S4 k;
      match msg4 with
      | Some (KGRound4Message _ _ _ _ comXiC) =>
          ok ← calls (Verify (mkCommitment comXiC comXiGD));
          if ok : bool then mret tt else fail "verify commitment fail"
      | _ => fail "round.Start get round4 msg fail"
      end
  | _ => fail "round.Start get round5 msg fail"
  end.

(** The modulus of the round 4 message of node [k]. *)
Definition ntildeOfNode (k : nat) (err : string) : kg Z :=
  msg4 ← getMsg S4 k;
  match msg4 with
  | Some (KGRound4Message _ nt _ _ _) =>
      nt ← calls (deref nt);
      match ntNtilde nt with
      | None => fail "error kg round4 message"
      | Some ntilde => mret ntilde
      end
  | _ => fail err
  end.

Definition checkNtildeSquareFree (k : nat) : kg unit :=
  ntilde ← ntildeOfNode k "round.Start get round4 msg fail";
  msg52 ← getMsg S52 k;
  match msg52 with
  | Some (KGRound5Message2 _ num sfpf) =>
      ok ← calls (SquareFreeVerify fuel (Some ntilde) num sfpf);
      if ok : bool then mret tt
      else fail "check that a zero-knowledge proof that ntilde is a square-free integer fail"
  | _ => fail "round.Start get round5 msg 2 fail"
  end.

Definition checkNtildeHv (k : nat) : kg unit :=
  ntilde ← ntildeOfNode k "round.Start get round 4 msg fail";
  msg51 ← getMsg S51 k;
  match msg51 with
  | Some (KGRound5Message1 _ num hvpf) =>
      ok ← calls (HvVerify fuel (Some ntilde) num hvpf);
      if ok : bool then mret tt
      else fail "check that a zero-knowledge proof that ntilde is a valid RSA modulus from two safe primes fail"
  | _ => fail "round.Start get round 5-1 msg fail"
  end.

Definition round6_Start : kg unit :=
  b ← begin_ 6;
  curIndex ← GetDNodeIDIndex (rDnodeid b);
  ids ← GetIDs;
  _ ← forEach (seq 0 (length ids)) checkXiCommit;
  _ ← forEach (seq 0 (length ids)) checkNtildeSquareFree;
  _ ← forEach (seq 0 (length ids)) checkNtildeHv;
  _ ← setTemp (withP12 None None);
  s ← getS;
  u1zkXiProof ← call (ZkXiProve (SkU1 (nData s)));
  let m := KGRound6Message (myHeader b curIndex) (Some u1zkXiProof) true in
  _ ← putMsg S6 curIndex m;
  send m.

(** ** Round 7 *)

Definition checkXi (k : nat) : kg unit :=
  msg5 ← getMsg S5 k;
  match msg5 with
  | Some (KGRound5Message _ comXiGD) =>
      msg4 ← getMsg S4 k;
      match msg4 with
      | Some (KGRound4Message _ _ _ _ comXiC) =>
          '(_, xiG) ← calls (DeCommit (mkCommitment comXiC comXiGD));
          msg6 ← getMsg S6 k;
          match msg6 with
          | Some (KGRound6Message _ zk _) =>
              ok ← calls (ZkXiVerify xiG zk);
              if ok : bool then mret tt else fail "verify zkx fail"
          | _ => fail "round.Start get round6 msg fail"
          end
      | _ => fail "round.Start get round4 msg fail"
      end
  | _ => fail "round.Start get round5 msg fail"
  end.

Definition round7_Start : kg unit :=
  _ ← begin_ 7;
  ids ← GetIDs;
  _ ← forEach (seq 0 (length ids)) checkXi;
  modify (fun s => withEnd (nEnd s ++ [nData s]) s).
End rounds.

(** * Rounds as a whole *)

(** [CanAccept] of the round [k]. *)
Definition CanAccept (k : nat) (m : Message) : bool :=
  match k, slotOf m with
  | 0%nat, S0 | 1%nat, S1 | 3%nat, S3 | 4%nat, S4 | 6%nat, S6 => IsBroadcast m
  | 2%nat, S2 => negb (IsBroadcast m)
  | 2%nat, S21 | 2%nat, S22 => IsBroadcast m
  | 5%nat, S5 | 5%nat, S51 | 5%nat, S52 => IsBroadcast m
  | _, _ => false
  end.

(** The slice [Update] walks over and the slices it reads beside it; nothing in
    round 7. *)
Definition updSlots (k : nat) : option (slot * list slot) :=
  match k with
  | 0%nat => Some (S0, [])
  | 1%nat => Some (S1, [])
  | 2%nat => Some (S2, [S21; S22])
  | 3%nat => Some (S3, [])
  | 4%nat => Some (S4, [])
  | 5%nat => Some (S51, [S5; S52])
  | 6%nat => Some (S6, [])
  | _ => None
  end.

Definition accepts (k : nat) (msg : option Message) : bool :=
  match msg with Some m => CanAccept k m | None => false end.

(** The messages beside the current one, up to the first that is missing. *)
Fixpoint besideOk (k j : nat) (f : slot -> list (option Message)) (sls : list slot) : res bool :=
  match sls with
  | [] => Ok true
  | sl :: sls' =>
      m ← index (f sl) j;
      if accepts k m then besideOk k j f sls' else Ok false
  end.

Fixpoint updLoop (k : nat) (beside : list slot) (l : list (option Message)) (j : nat) : kg bool :=
  match l with
  | [] => mret true
  | msg :: l' =>
      b ← theBase;
      okj ← calls (index (rOk b) j);
      if okj : bool then updLoop k beside l' (S j) else
      if negb (accepts k msg) then mret false else
      s ← getS;
      ok ← calls (besideOk k j (nMsgs s) beside);
      if negb ok then mret false else
      _ ← setBase (fun b => withOk (<[j := true]> (rOk b)) b);
      updLoop k beside l' (S j)
  end.

Definition round_Update : kg bool :=
  s ← getS;
  match nRnd s with
  | None => crash
  | Some (k, _) =>
      match updSlots k with
      | Some (sl, beside) => updLoop k beside (nMsgs s sl) 0
      | None => mret false
      end
  end.

(** [p.rnd = p.rnd.NextRound()]. *)
Definition nextRound : kg unit :=
  s ← getS;
  match nRnd s with
  | None => crash
  | Some (k, b) =>
      if Nat.ltb k 7 then modify (withRnd (Some (S k, withStarted false b)))
      else modify (withRnd None)
  end.

(** * local_dnode.go *)

Definition NewLocalDNode (count : nat) (threshold paillierkeylength : Z) (ch : primeQueue) `{Curve}
  : rnd LocalDNode :=
  uid ← GetRandomIntFromZn (cN S256);
  mret (mkNode None (Sprintf_v (Some uid)) count threshold paillierkeylength
          (fun sl => match sl with S0 => [] | _ => replicate count None end)
          emptyTemp (NewLocalDNodeSaveData count) [] [] ch).

Definition SetDNodeID (id : string) (s : LocalDNode) : LocalDNode := withID (EncodeToString id) s.

(** [p.rnd = p.FirstRound()]. *)
Definition FirstRound (s : LocalDNode) : LocalDNode :=
  withRnd (Some (0%nat, mkBase (replicate (nCount s) false) false 0 (nID s) (nCount s) (nThresHold s)
                          (nPaillierKeyLength s))) s.

Definition CheckFull (msg : list (option Message)) : bool :=
  match msg with
  | [] => false
  | _ => forallb (fun v => match v with Some _ => true | None => false end) msg
  end.

Definition getFullCount (msg : list (option Message)) : nat :=
  length (omap id msg).

Definition find (l : list (option Message)) (msg : Message) : bool :=
  existsb (fun v => match v with
    | None => false
    | Some v => String.eqb (GetMsgType v) (GetMsgType msg) && String.eqb (GetFromID v) (GetFromID msg)
    end) l.

Definition DulMessage (s : LocalDNode) (msg : Message) : bool := find (nMsgs s (slotOf msg)) msg.

(** [len(l) == p.DNodeCountInGroup && CheckFull(l)]. *)
Definition slotFull (s : LocalDNode) (sl : slot) : bool :=
  Nat.eqb (length (nMsgs s sl)) (nCount s) && CheckFull (nMsgs s sl).

Section store.
Context `{G : GoLib}.

(** The checks on a round 4 message before it is stored. *)
Definition checkNtilde (nt : option NtildeH1H2) (pf1 pf2 : option NtildeProof) : kg unit :=
  nt ← calls (deref nt);
  h1 ← calls (deref (ntH1 nt));
  N ← calls (deref (ntNtilde nt));
  h1modn ← calls (Mod h1 N);
  h2 ← calls (deref (ntH2 nt));
  h2modn ← calls (Mod h2 N);
  if (h1modn =? 0) || (h2modn =? 0) then fail "h1 or h2 is equal 0 mod Ntilde" else
  if (h1modn =? 1) || (h2modn =? 1) then fail "h1 or h2 is equal 1 mod Ntilde" else
  if h1modn =? h2modn then fail "h1 and h2 were equal mod Ntilde" else
  ok1 ← calls (NtildeProof_Verify pf1 (Some h1) (Some h2) (Some N));
  ok2 ← (if ok1 : bool then calls (NtildeProof_Verify pf2 (Some h2) (Some h1) (Some N)) else mret false);
  if ok2 : bool then mret tt else fail "ntilde zk proof check fail".

(** The assignments of the message's [case]. *)
Definition storeAt (msg : Message) : kg unit :=
  let index := GetFromIndex msg in
  match msg with
  | KGRound1Message _ _ _ pk => _ ← putMsg S1 index msg; putPk index pk
  | KGRound4Message _ nt pf1 pf2 _ =>
      _ ← checkNtilde nt pf1 pf2;
      _ ← putNtilde index nt;
      putMsg S4 index msg
  | _ => putMsg (slotOf msg) index msg
  end.

Definition keygen_StoreMessage (msg : Message) : kg bool :=
  s ← getS;
  match msg with
  | KGRound0Message _ =>
      if find (nMsgs s S0) msg then mret false else
      _ ← (if Nat.ltb (length (nMsgs s S0)) (nCount s)
           then modify (withMsgs (setSlot (nMsgs s) S0 (nMsgs s S0 ++ [Some msg])))
           else mret tt);
      s ← getS;
      mret (Nat.eqb (length (nMsgs s S0)) (nCount s))
  | _ =>
      if find (nMsgs s (slotOf msg)) msg then mret false else
      _ ← storeAt msg;
      s ← getS;
      mret (slotFull s (slotOf msg))
  end.
End store.

(** * The party *)

Section party.
Context `{E : Curve} `{G : GoLib} (fuel : nat).

Definition round_Start : kg unit :=
  s ← getS;
  match nRnd s with
  | Some (0%nat, _) => round0_Start
  | Some (1%nat, _) => round1_Start
  | Some (2%nat, _) => round2_Start fuel
  | Some (3%nat, _) => round3_Start fuel
  | Some (4%nat, _) => round4_Start
  | Some (5%nat, _) => round5_Start fuel
  | Some (6%nat, _) => round6_Start fuel
  | Some (_, _) => round7_Start
  | None => crash
  end.

Definition keygenDNode : DNode LocalDNode Message := {|
  DNodeID := nID;
  Finalize := fun _ => false;
  hasRound := fun s => match nRnd s with Some _ => true | None => false end;
  setFirstRound := FirstRound;
  setFinalizeRound := withRnd None;
  StoreMessage := keygen_StoreMessage;
  Start := round_Start;
  Update := round_Update;
  CanProceed := round_CanProceed;
  advance := nextRound;
  ResetOK := round_ResetOK
|}.

(** [p.Start()]. *)
Definition keygen_Start : kg unit := BaseStart (P := keygenDNode).

(** [p.Update(msg)]; the recursion is at most nine deep. *)
Definition keygen_Update (msg : Message) : kg bool :=
  BaseUpdate (P := keygenDNode) (fun _ _ => Hang) 9 msg.
End party.
