(* ===== verification/KgLife.v ===== *)
(** The life cycle of a key generation party: what each round writes, the
    termination of [Update], and that a party never misses the moment to go on. *)

From Stdlib Require Import ZArith Lia.
From stdpp Require Import gmap strings sorting.
From S2P Require Import Prelude GoBig Random Text Hex IntGo Secp256k1 ToyCurve Vss2 Commit Paillier.
From S2P Require Import Ntilde Common DNode KgMessage KgSave Keygen.

#[local] Open Scope Z_scope.

(** * What a round writes *)

(** The slices the messages of a round go to. *)
Definition roundSlots (k : nat) : list slot :=
  match updSlots k with Some (sl, beside) => sl :: beside | None => [] end.

(** [effect s0 me F s]: from [s0] to [s] the party stored a message of its own,
    at its index [me], in the slices [F], and changed nothing else of what the
    life cycle depends on. *)
Definition effect (s0 : LocalDNode) (me : nat) (F : list slot) (s : LocalDNode) : Prop :=
  nRnd s = nRnd s0 /\ nCount s = nCount s0 /\ nEnd s = nEnd s0 /\
  forall sl, if decide (sl ∈ F)
    then exists m, slotOf m = sl /\ (me < length (nMsgs s0 sl))%nat /\
                   nMsgs s sl = <[me := Some m]> (nMsgs s0 sl)
    else nMsgs s sl = nMsgs s0 sl.

Section effects.
Context (s0 : LocalDNode) (me : nat).

Lemma effect_nil : effect s0 me [] s0.
Proof. do 3 (split; [done|]). intros sl. now rewrite decide_False by apply not_elem_of_nil. Qed.

(** An assignment to the other fields. *)
Lemma effect_other F s s' : effect s0 me F s -> nRnd s' = nRnd s -> nCount s' = nCount s ->
  nEnd s' = nEnd s -> nMsgs s' = nMsgs s -> effect s0 me F s'.
Proof. intros (H1 & H2 & H3 & H4) E1 E2 E3 E. unfold effect. rewrite E1, E2, E3, E. auto. Qed.

Lemma eff_modify F f : (forall s, nRnd (f s) = nRnd s /\ nCount (f s) = nCount s /\
    nEnd (f s) = nEnd s /\ nMsgs (f s) = nMsgs s) ->
  hoare (effect s0 me F) (modify f) (fun _ => effect s0 me F).
Proof. intros Hf. apply hoare_modify. intros s Hs. destruct (Hf s) as (?&?&?&?). eapply effect_other; eauto. Qed.

Lemma eff_setTemp F f : hoare (effect s0 me F) (setTemp f) (fun _ => effect s0 me F).
Proof. now apply eff_modify. Qed.

Lemma eff_setData F f : hoare (effect s0 me F) (setData f) (fun _ => effect s0 me F).
Proof. now apply eff_modify. Qed.

Lemma eff_send F m : hoare (effect s0 me F) (send m) (fun _ => effect s0 me F).
Proof. now apply eff_modify. Qed.

Lemma eff_putPk F i pk : hoare (effect s0 me F) (putPk i pk) (fun _ => effect s0 me F).
Proof.
  eapply hoare_bind; [apply hoare_quiet, quiet_getS|]. intros s. cbv zeta.
  destruct (inBounds _ _); [apply eff_setData|apply hoare_crash].
Qed.

Lemma eff_putNtilde F i nt : hoare (effect s0 me F) (putNtilde i nt) (fun _ => effect s0 me F).
Proof.
  eapply hoare_bind; [apply hoare_quiet, quiet_getS|]. intros s. cbv zeta.
  destruct (inBounds _ _); [apply eff_setData|apply hoare_crash].
Qed.

Lemma eff_genKeyPair F l : hoare (effect s0 me F) (genKeyPair l) (fun _ => effect s0 me F).
Proof.
  eapply hoare_bind; [apply hoare_quiet, quiet_getS|]. intros s. cbv beta.
  eapply hoare_bind; [apply hoare_quiet, quiet_calls|]. intros [o ch]. cbv beta.
  eapply hoare_bind; [now apply eff_modify|]. intros ?. apply hoare_quiet, quiet_ret.
Qed.

Lemma eff_genNtilde F l : hoare (effect s0 me F) (genNtilde l) (fun _ => effect s0 me F).
Proof.
  eapply hoare_bind; [apply hoare_quiet, quiet_getS|]. intros s. cbv beta.
  eapply hoare_bind; [apply hoare_quiet, quiet_call|]. intros [o ch]. cbv beta.
  eapply hoare_bind; [now apply eff_modify|]. intros ?. apply hoare_quiet, quiet_ret.
Qed.

Lemma effect_put F s sl m : effect s0 me F s -> slotOf m = sl -> (me < length (nMsgs s sl))%nat ->
  effect s0 me (sl :: F) (withMsgs (setSlot (nMsgs s) sl (<[me := Some m]> (nMsgs s sl))) s).
Proof.
  intros (H1 & H2 & H3 & H4) Hm Hlen. do 3 (split; [assumption|]). cbn [nMsgs withMsgs].
  intros sl'. unfold setSlot. specialize (H4 sl'). destruct (decide (sl' = sl)) as [->|Hne].
  - rewrite decide_True by constructor. exists m. destruct (decide (sl ∈ F)) as [_|_].
    + destruct H4 as (m' & _ & Hl & E). rewrite E in *. now rewrite list_insert_insert_eq.
    + rewrite H4 in *. auto.
  - destruct (decide (sl' ∈ F)); [now rewrite decide_True by now constructor|].
    rewrite decide_False; [assumption|]. now intros [|]%elem_of_cons.
Qed.

Lemma eff_putMsg F sl i m : Z.to_nat i = me -> slotOf m = sl ->
  hoare (effect s0 me F) (putMsg sl i m) (fun _ => effect s0 me (sl :: F)).
Proof.
  intros Hi Hm. apply hoare_getS_bind. intros s Hs.
  destruct (inBounds (nMsgs s sl) i) eqn:Eb; [|apply hoare_crash].
  apply hoare_modify. intros s' ->. rewrite Hi. apply effect_put; [assumption..|].
  unfold inBounds in Eb. apply andb_prop in Eb as [Ea%Z.leb_le Eb%Z.ltb_lt]. lia.
Qed.

Lemma eff_index F id b k : nRnd s0 = Some (k, b) ->
  indexOf (length (nMsgs s0 S0)) (rDnodecount b) id = Ok (Z.of_nat me) -> S0 ∉ F ->
  hoare (effect s0 me F) (GetDNodeIDIndex id) (fun i s => i = Z.of_nat me /\ effect s0 me F s).
Proof.
  intros Hr Hi HF. apply hoare_getS_bind. intros s Hs. pose proof Hs as (E1 & _ & _ & E2).
  specialize (E2 S0). rewrite decide_False in E2 by assumption.
  intros s1 t i s2 t2 -> H. cbv [mbind act_bind theBase getS mret act_ret] in H. rewrite E1, Hr, E2 in H.
  apply calls_Ret in H as (H & -> & _). rewrite Hi in H. now injection H as <-.
Qed.
End effects.

(** ** The first lines of a round *)

Definition startedBase (z : Z) (b : base) : base :=
  withOk ((fun _ => false) <$> rOk b) (withStarted true (withNumber z b)).

Lemma begin_spec s0 k b z : nRnd s0 = Some (k, b) ->
  hoare (fun s => s = s0) (begin_ z)
    (fun b' s => (b' = startedBase z b /\ rStarted b = false) /\ s = withRnd (Some (k, startedBase z b)) s0).
Proof.
  intros Hr s t b' s' t' -> H.
  cbv [begin_ theBase round_ResetOK setBase modify mbind act_bind getS mret act_ret fail] in H. rewrite Hr in H.
  destruct (rStarted b); [discriminate|]. rewrite Hr in H. cbn in H. now injection H as <- <- _.
Qed.

Lemma quiet_combineKey `{E : Curve} n : quiet (combineKey n).
Proof.
  assert (Hs : forall ks pk c sk, quiet (sumContributions ks pk c sk)).
  { induction ks as [|k ks IH]; intros pk c sk; cbn [sumContributions]; quiet. apply IH. }
  unfold combineKey. quiet. apply Hs.
Qed.

Lemma quiet_verifyAndCombine `{E : Curve} n : quiet (verifyAndCombine n).
Proof. apply quiet_bind; [|intros ?; apply quiet_combineKey]. quiet. Qed.

(** ** The shares of round 2 *)

Lemma idsOf_length msgs ids : idsOf msgs = Ok ids -> length ids = length msgs.
Proof.
  unfold idsOf, sortIDs. intros (l & Hl%mapRange_Forall2%Forall2_length & H)%res_bind_Ok. rewrite Hl.
  destruct (allSome l) as [r|] eqn:Er.
  - injection H as <-. apply allSome_Some in Er as ->. rewrite !length_fmap.
    apply Permutation_length, merge_sort_Permutation.
  - destruct (forallb _ l); [|discriminate]. now injection H as <-.
Qed.

Lemma Vss2_IDs `{E : Curve} poly ids shares : Vss2 poly ids = Ok shares ->
  ID <$> shares = ids /\ Forall is_Some ids.
Proof.
  assert (Hgen : forall l k acc r, foldRange l (fun _ id shares =>
      shareVal ← calculatePolynomial2 (Poly poly) id; Ok (shares ++ [mkShare id shareVal])) k acc = Ok r ->
    ID <$> r = (ID <$> acc) ++ l /\ Forall is_Some l).
  { induction l as [|id l IH]; intros k acc r H; cbn [foldRange] in H.
    - injection H as <-. now rewrite app_nil_r.
    - apply res_bind_Ok in H as (acc' & (v & Hv & [= <-])%res_bind_Ok & H).
      apply IH in H as [-> HF]. rewrite fmap_app, <- app_assoc. split; [done|].
      constructor; [|assumption]. destruct id; [eauto|]. unfold calculatePolynomial2 in Hv.
      now destruct (rev (Poly poly)). }
  unfold Vss2. destruct ids as [|i ids]; [discriminate|].
  destruct (ContainsDuplicate _) as [[]| | |]; try discriminate. intros H. now apply Hgen in H.
Qed.

Section shares.
Context (s0 : LocalDNode) (me : nat) (b : base).

Lemma eff_sendShare_other F k id shares : k <> me ->
  hoare (effect s0 me F) (sendShare b (Z.of_nat me) k id shares) (fun _ => effect s0 me F).
Proof.
  intros Hk. induction shares as [|v shares IH]; cbn [sendShare]; [apply hoare_quiet, quiet_ret|].
  destruct (GetSharesID (Some v)); [|exact IH].
  eapply hoare_bind; [apply hoare_quiet, quiet_calls|]. intros idv. cbv beta zeta.
  destruct (_ =? idv); [|exact IH]. destruct (Z.eqb_spec (Z.of_nat k) (Z.of_nat me)); [lia|apply eff_send].
Qed.

Lemma eff_sendShare_own F x shares : Some x ∈ ID <$> shares ->
  hoare (effect s0 me F) (sendShare b (Z.of_nat me) me (Some x) shares) (fun _ => effect s0 me (S2 :: F)).
Proof.
  induction shares as [|v shares IH]; cbn [sendShare]; [now intros ?%elem_of_nil|].
  rewrite fmap_cons, elem_of_cons. unfold GetSharesID. intros Hx.
  destruct (ID v) as [vv|] eqn:Ev; [|destruct Hx; [discriminate|auto]].
  eapply hoare_bind; [apply hoare_calls|]. intros idv. cbv beta. apply hoare_pre. intros [= <-].
  destruct (Z.eqb_spec vv x) as [->|Hne].
  - rewrite Z.eqb_refl. apply eff_putMsg; [apply Nat2Z.id|done].
  - apply IH. destruct Hx; congruence.
Qed.

(** After the distribution the party holds its own share. *)
Lemma eff_shares F ids shares : ID <$> shares = ids -> Forall is_Some ids -> (me < length ids)%nat ->
  hoare (effect s0 me F)
    (forEach (zip (seq 0 (length ids)) ids) (fun '(k, id) => sendShare b (Z.of_nat me) k id shares))
    (fun _ => effect s0 me (S2 :: F)).
Proof.
  intros Hids HF Hme. set (l := zip (seq 0 (length ids)) ids).
  assert (Hl : forall i k id, l !! i = Some (k, id) -> k = i /\ ids !! i = Some id).
  { intros i k id. unfold l. rewrite lookup_zip_with. intros H.
    apply bind_Some in H as (k' & Hk & H). apply bind_Some in H as (id' & Hid & [= <- <-]).
    apply lookup_seq in Hk as [-> _]. auto. }
  destruct (lookup_lt_is_Some_2 ids me Hme) as [id Hid].
  assert (Hx : exists x, id = Some x) by (eapply Forall_lookup_1 in HF; eauto). destruct Hx as [x ->].
  assert (Hm : l !! me = Some (me, Some x)).
  { unfold l. rewrite lookup_zip_with, (lookup_seq_lt _ _ _ Hme), Hid. done. }
  intros s t [] s' t' Hs H. rewrite <- (take_drop_middle l me _ Hm), forEach_app in H. revert H.
  apply (hoare_bind (effect s0 me F) _ _ (fun _ => effect s0 me F) (fun _ => effect s0 me (S2 :: F)));
    [| |exact Hs].
  - apply hoare_forEach. intros [k i] (j & Hj)%list_elem_of_lookup.
    apply lookup_take_Some in Hj as [Hj Hlt]. apply Hl in Hj as [-> _].
    apply eff_sendShare_other. lia.
  - intros _. cbn [forEach]. eapply hoare_bind.
    { apply eff_sendShare_own. rewrite Hids. eapply list_elem_of_lookup_2; eauto. }
    intros []. apply hoare_forEach. intros [k i] (j & Hj)%list_elem_of_lookup.
    rewrite lookup_drop in Hj. apply Hl in Hj as [-> _]. apply eff_sendShare_other. lia.
Qed.
End shares.

(** Walk over the code of a round. *)
Ltac effprim :=
  first
    [ apply eff_setTemp | apply eff_setData | apply eff_send | apply eff_putPk | apply eff_putNtilde
    | apply eff_genKeyPair | apply eff_genNtilde
    | apply eff_putMsg; [apply Nat2Z.id || reflexivity|reflexivity]
    | apply hoare_quiet; solve [quiet | apply quiet_verifyAndCombine] ].
Ltac eff :=
  repeat (cbv beta zeta; first
    [ effprim
    | apply hoare_fail | apply hoare_crash
    | lazymatch goal with
      | |- hoare _ (GetDNodeIDIndex _ ≫= _) _ => fail
      | |- _ => eapply hoare_bind; [solve [effprim]|intros ?]
      end
    | match goal with |- hoare _ (match ?x with _ => _ end) _ => destruct x end ]).

(** An index that is found is that of one of the received messages. *)
Lemma indexOf_lt received count id me : indexOf received count id = Ok (Z.of_nat me) -> (me < received)%nat.
Proof.
  unfold indexOf. destruct (String.eqb id ""); [intros [= H]; lia|]. cbn [orb].
  destruct (Nat.eqb_spec received count) as [->|]; [|intros [= H]; lia]. cbn [negb].
  intros (u & _ & (o & Ho & H)%res_bind_Ok)%res_bind_Ok. destruct o as [i|]; [|discriminate].
  injection H as ->. revert Ho. generalize 0%nat at 2 as k. revert me.
  assert (Hgen : forall l k me, (forall i, i ∈ l -> (i < count)%nat) ->
    forRange l (fun _ i => idtmp ← deref (SetString 10 u);
      Ok (if Z.of_nat i + 1 =? idtmp then Some (Z.of_nat i) else None)) k = Ok (Some (Z.of_nat me)) ->
    (me < count)%nat).
  { induction l as [|i l IH]; intros k me Hl H; cbn [forRange] in H; [discriminate|].
    apply res_bind_Ok in H as (o & (x & Hx & [= <-])%res_bind_Ok & H).
    destruct (_ =? x); [|eapply IH; [|exact H]; intros; apply Hl; now constructor].
    injection H as H. apply Nat2Z.inj in H as <-. apply Hl. constructor. }
  intros me k H. eapply Hgen; [|exact H]. intros i [_ Hi]%elem_of_seq. lia.
Qed.

Section starts.
Context `{E : Curve} `{G : GoLib} (fuel : nat).
Context (s0 : LocalDNode) (k : nat) (b : base) (me : nat).
Context (Hr : nRnd s0 = Some (k, b)).
Context (Hi : indexOf (length (nMsgs s0 S0)) (rDnodecount b) (rDnodeid b) = Ok (Z.of_nat me)).

(** The state in which the body of the round runs. *)
Abbreviation s1 z := (withRnd (Some (k, startedBase z b)) s0).

Lemma eff_round {A} z (m : base -> kg A) Q :
  (rStarted b = false -> hoare (effect (s1 z) me []) (m (startedBase z b)) Q) ->
  hoare (fun s => s = s0) (begin_ z ≫= m) Q.
Proof.
  intros H. eapply hoare_bind; [exact (begin_spec _ _ _ z Hr)|]. intros b'. cbv beta.
  apply hoare_pre. intros [-> Hs]. eapply hoare_conseq; [now apply H| |done].
  intros s ->. apply effect_nil.
Qed.

Lemma eff_index1 {B} z F (f : Z -> kg B) Q : S0 ∉ F ->
  hoare (effect (s1 z) me F) (f (Z.of_nat me)) Q ->
  hoare (effect (s1 z) me F) (GetDNodeIDIndex (rDnodeid b) ≫= f) Q.
Proof.
  intros HF H. eapply hoare_bind; [eapply (eff_index _ _ _ _ (startedBase z b) k); [reflexivity|exact Hi|assumption]|]. intros i. cbv beta.
  apply hoare_pre. now intros ->.
Qed.

Lemma me_lt : (me < length (nMsgs s0 S0))%nat.
Proof. eapply indexOf_lt; eauto. Qed.

Lemma eff_GetIDs z F : S0 ∉ F ->
  hoare (effect (s1 z) me F) GetIDs
    (fun ids s => length ids = length (nMsgs s0 S0) /\ effect (s1 z) me F s).
Proof.
  intros HF. apply hoare_getS_bind. intros s Hs. pose proof Hs as (_ & _ & _ & E2).
  specialize (E2 S0). rewrite decide_False in E2 by assumption. rewrite E2.
  eapply hoare_conseq; [apply (hoare_calls (effect (s1 z) me F))|now intros ? ->|].
  intros ids s' [Hids%idsOf_length H']. auto.
Qed.

Lemma round1_effect : hoare (fun s => s = s0) round1_Start (fun _ => effect (s1 1) me [S1]).
Proof.
  apply eff_round. intros _. eff.
  apply eff_index1; [set_solver|]. eff.
Qed.

Lemma round2_effect : hoare (fun s => s = s0) (round2_Start fuel) (fun _ => effect (s1 2) me [S21; S2; S22]).
Proof.
  apply eff_round. intros _. apply eff_index1; [set_solver|].
  eapply hoare_bind; [apply (eff_GetIDs 2 []); set_solver|]. intros ids. cbv beta. apply hoare_pre. intros Hlen.
  do 8 (eapply hoare_bind; [solve [effprim]|intros ?]; cbv beta). cbv zeta.
  destruct a6; [|apply hoare_fail].
  do 3 (eapply hoare_bind; [solve [effprim]|intros ?]; cbv beta).
  destruct (_ || _); [apply hoare_fail|].
  do 2 (eapply hoare_bind; [solve [effprim]|intros ?]; cbv beta).
  eapply hoare_bind; [apply hoare_calls|intros shares]. cbv beta. apply hoare_pre.
  intros [Hids HF]%Vss2_IDs.
  eapply hoare_bind; [apply eff_setTemp|intros ?]. cbv beta.
  eapply hoare_bind; [apply eff_shares; [assumption..|]|].
  { rewrite Hlen. apply me_lt. }
  intros ?. cbv beta. eff.
Qed.

Lemma round3_effect : hoare (fun s => s = s0) (round3_Start fuel) (fun _ => effect (s1 3) me [S3]).
Proof. apply eff_round. intros _. apply eff_index1; [set_solver|]. eff. Qed.

Lemma round4_effect : hoare (fun s => s = s0) round4_Start (fun _ => effect (s1 4) me [S4]).
Proof. apply eff_round. intros _. apply eff_index1; [set_solver|]. eff. Qed.

Lemma round5_effect : hoare (fun s => s = s0) (round5_Start fuel) (fun _ => effect (s1 5) me [S5; S51; S52]).
Proof. apply eff_round. intros _. apply eff_index1; [set_solver|]. eff. Qed.

Lemma round6_effect : hoare (fun s => s = s0) (round6_Start fuel) (fun _ => effect (s1 6) me [S6]).
Proof. apply eff_round. intros _. apply eff_index1; [set_solver|]. eff. Qed.

Lemma round7_effect : hoare (fun s => s = s0) round7_Start
  (fun _ s => effect (s1 7) me [] (withEnd (nEnd s0) s) /\ exists d, nEnd s = nEnd s0 ++ [d]).
Proof.
  apply eff_round. intros _. do 2 (eapply hoare_bind; [solve [effprim]|intros ?]; cbv beta).
  apply hoare_modify. intros s (H1 & H2 & H3 & H4). split; [|exists (nData s); cbn; now rewrite H3].
  split; [exact H1|]. split; [exact H2|]. split; [done|exact H4].
Qed.
End starts.

Lemma round0_spec s0 k b : nRnd s0 = Some (k, b) ->
  hoare (fun s => s = s0) round0_Start (fun _ s =>
    let m := KGRound0Message (myHeader (startedBase 0 b) (-1)) in
    s = withOut (nOut s0 ++ [m]) (withMsgs (setSlot (nMsgs s0) S0 (nMsgs s0 S0 ++ [Some m]))
          (withRnd (Some (k, startedBase 0 b)) s0))).
Proof.
  intros Hr. eapply hoare_bind; [exact (begin_spec _ _ _ 0 Hr)|]. intros b'. cbv beta. apply hoare_pre.
  intros [-> _] s t [] s' t' -> H. cbv [mbind act_bind modify send] in H. now injection H as <- _.
Qed.

(** ** One statement for the rounds 1 to 6 *)

Lemma effect_same s0 me F F' s : (forall sl, sl ∈ F <-> sl ∈ F') -> effect s0 me F s -> effect s0 me F' s.
Proof.
  intros HF (H1 & H2 & H3 & H4). do 3 (split; [done|]). intros sl. specialize (H4 sl).
  destruct (decide (sl ∈ F)), (decide (sl ∈ F')); naive_solver.
Qed.

Lemma Start_effect `{E : Curve} `{G : GoLib} fuel s0 k b me : nRnd s0 = Some (k, b) -> (1 <= k <= 6)%nat ->
  indexOf (length (nMsgs s0 S0)) (rDnodecount b) (rDnodeid b) = Ok (Z.of_nat me) ->
  hoare (fun s => s = s0) (round_Start fuel)
    (fun _ => effect (withRnd (Some (k, startedBase (Z.of_nat k) b)) s0) me (roundSlots k)).
Proof.
  intros Hr Hk Hi. apply hoare_getS_bind. intros s ->. rewrite Hr.
  destruct k as [|[|[|[|[|[|[|k]]]]]]]; try lia; cbn [roundSlots updSlots].
  - now apply round1_effect.
  - eapply hoare_conseq; [exact (round2_effect fuel s0 2 b me Hr Hi)|done|].
    intros ? s. apply effect_same. set_solver.
  - now apply round3_effect.
  - now apply round4_effect.
  - eapply hoare_conseq; [exact (round5_effect fuel s0 5 b me Hr Hi)|done|].
    intros ? s. apply effect_same. set_solver.
  - now apply round6_effect.
Qed.

(** ** Storing a message *)

Lemma storeAt_effect `{G : GoLib} msg s0 : slotOf msg <> S0 ->
  hoare (fun s => s = s0) (storeAt msg) (fun _ => effect s0 (Z.to_nat (GetFromIndex msg)) [slotOf msg]).
Proof.
  intros Hs. apply (hoare_conseq _ (effect s0 (Z.to_nat (GetFromIndex msg)) []) _ _
    (fun _ => effect s0 (Z.to_nat (GetFromIndex msg)) [slotOf msg])); [|intros s ->; apply effect_nil|done].
  destruct msg; try contradiction; cbn [storeAt slotOf]; eff.
Qed.

(** * Termination of Update *)

(** The rounds that remain. *)
Definition kgRank (s : LocalDNode) : nat :=
  match nRnd s with Some (k, _) => S (7 - k) | None => 0 end.

Section ranked.
Context `{E : Curve} `{G : GoLib} (fuel : nat).

Lemma keeps_setBase f : keeps kgRank (setBase f).
Proof. apply keeps_modify. intros s. unfold kgRank. now destruct (nRnd s) as [[k b]|] eqn:Er; [|rewrite Er]. Qed.

Lemma keeps_begin z : keeps kgRank (begin_ z).
Proof. pose proof keeps_setBase. unfold begin_, round_ResetOK. keeps; auto. Qed.

Lemma keeps_sendShare b cur k id shares : keeps kgRank (sendShare b cur k id shares).
Proof. induction shares; cbn [sendShare]; keeps. Qed.

Lemma keeps_put sl i m : keeps kgRank (putMsg sl i m).
Proof. keeps. Qed.

Lemma keeps_index id : keeps kgRank (GetDNodeIDIndex id).
Proof. keeps. Qed.

Lemma keeps_combine n : keeps kgRank (verifyAndCombine n).
Proof. apply keeps_quiet, quiet_verifyAndCombine. Qed.

Lemma keeps_Start : keeps kgRank (round_Start fuel).
Proof.
  pose proof keeps_begin. pose proof keeps_sendShare. pose proof keeps_combine.
  pose proof keeps_put. pose proof keeps_index.
  apply keeps_bind; [apply keeps_quiet, quiet_getS|]. intros s.
  destruct (nRnd s) as [[k b]|]; [|apply keeps_quiet, quiet_crash].
  do 7 (destruct k as [|k]; [keeps|]). keeps.
Qed.

Lemma keeps_updLoop k beside l : forall j, keeps kgRank (updLoop k beside l j).
Proof.
  pose proof keeps_setBase. induction l as [|msg l IH]; intros j; cbn [updLoop]; keeps.
Qed.

(** [Update] of a round returns no error. *)
Lemma updLoop_no_error k beside l : forall j s t e s' t', updLoop k beside l j s t <> Fail e s' t'.
Proof.
  induction l as [|msg l IH]; intros j s t e s' t'; cbn [updLoop]; [discriminate|].
  cbv [mbind act_bind theBase getS mret act_ret]. destruct (nRnd s) as [[? b]|]; [|discriminate].
  unfold calls at 1, call at 1, lift, index. destruct (rOk b !! j) as [[]|]; cbn; [apply IH| |discriminate].
  destruct (negb (accepts k msg)); [discriminate|].
  assert (Hb : forall sls, match besideOk k j (nMsgs s) sls with Err _ => False | _ => True end).
  { induction sls as [|sl sls IHs]; [done|]. cbn [besideOk]. unfold index.
    destruct (nMsgs s sl !! j); [cbn|done]. now destruct (accepts k o). }
  specialize (Hb beside). unfold calls, call, lift.
  destruct (besideOk k j (nMsgs s) beside) as [ok| | |]; cbn; [|easy|discriminate|discriminate].
  destruct (negb ok); [discriminate|]. apply IH.
Qed.

Lemma Update_no_error s t e s' t' : round_Update s t <> Fail e s' t'.
Proof.
  unfold round_Update, mbind, act_bind, getS. destruct (nRnd s) as [[k b]|]; [|discriminate].
  destruct (updSlots k) as [[sl beside]|]; [apply updLoop_no_error|discriminate].
Qed.

(** So an attempt of it is a call of it. *)
Lemma attempt_Update s t o s' t' : attempt round_Update s t = Ret o s' t' ->
  exists r, o = Some r /\ round_Update s t = Ret r s' t'.
Proof.
  unfold attempt. destruct (round_Update s t) as [u s1 t1|e s1 t1| |] eqn:Eu; [|now apply Update_no_error in Eu|done..].
  intros [= <- <- <-]. eauto.
Qed.

Lemma keeps_Update : keeps kgRank (attempt round_Update).
Proof.
  intros n s t a s' t' Hs (r & -> & H)%attempt_Update. revert H.
  assert (Hk : keeps kgRank round_Update) by (pose proof keeps_updLoop; unfold round_Update; keeps).
  now apply Hk.
Qed.

Lemma keeps_Store msg : keeps kgRank (keygen_StoreMessage msg).
Proof. pose proof keeps_put. unfold keygen_StoreMessage, storeAt. keeps. Qed.

#[export] Instance keygenRanked : Ranked LocalDNode Message (keygenDNode fuel).
Proof.
  refine {| rank := kgRank |}.
  - apply keeps_Store.
  - apply keeps_Start.
  - apply keeps_Update.
  - apply keeps_setBase.
  - intros n. apply hoare_getS_bind. intros s <-. cbn [rank]. unfold kgRank at 2.
    destruct (nRnd s) as [[k b]|]; [|apply hoare_crash].
    destruct (Nat.ltb_spec k 7); apply hoare_modify; intros s' ->; unfold kgRank; cbn; lia.
Defined.
End ranked.
