(* ===== verification/KgProgress.v ===== *)
(** The invariant of a key generation party: it waits for a message of its current
    round, or it has finished. *)

From Stdlib Require Import ZArith Lia.
From stdpp Require Import gmap strings.
From S2P Require Import Prelude Primality GoBig Random Text Hex IntGo Secp256k1 ToyCurve Vss2 Paillier Ntilde.
From S2P Require Import DNode KgMessage KgSave Keygen KgLife.

#[local] Open Scope Z_scope.

(** The round whose messages a slice holds. *)
Definition roundOf (sl : slot) : nat :=
  match sl with
  | S0 => 0 | S1 => 1 | S2 | S21 | S22 => 2 | S3 | S31 => 3 | S4 => 4 | S5 | S51 | S52 => 5 | S6 => 6
  end.

Lemma roundSlots_round k sl : sl ∈ roundSlots k -> roundOf sl = k.
Proof. do 7 (destruct k as [|k]; [cbn; set_solver|]). cbn. set_solver. Qed.

Lemma roundSlots_S0 k sl : sl ∈ roundSlots (S k) -> sl <> S0.
Proof. intros H%roundSlots_round ->. discriminate. Qed.

(** A party accepts, in each slice of its round, the messages of the slice's type. *)
Lemma accepts_iff k sl msg : sl ∈ roundSlots k -> (forall m, msg = Some m -> slotOf m = sl) ->
  accepts k msg = match msg with Some _ => true | None => false end.
Proof.
  intros Hsl Hm. destruct msg as [m|]; [|done]. specialize (Hm m eq_refl).
  do 7 (destruct k as [|k]; [cbn in Hsl; destruct m; cbn in Hm; subst sl; (done || (exfalso; set_solver))|]).
  cbn in Hsl. set_solver.
Qed.

Definition present (s : LocalDNode) (sl : slot) (j : nat) : Prop :=
  exists m, nMsgs s sl !! j = Some (Some m).

(** No message of a round from [k] on. *)
Definition fresh (s : LocalDNode) (k : nat) : Prop := forall sl j, (k <= roundOf sl)%nat -> ~ present s sl j.

Lemma present_effect s0 i F s sl j : effect s0 i F s -> present s sl j <-> present s0 sl j \/ (sl ∈ F /\ j = i).
Proof.
  intros (_ & _ & _ & H). specialize (H sl). unfold present. destruct (decide (sl ∈ F)) as [HF|HF].
  - destruct H as (m & _ & Hl & ->). destruct (decide (i = j)) as [->|Hne].
    + rewrite list_lookup_insert_eq by assumption. split; eauto.
    + rewrite list_lookup_insert_ne by assumption. split; [auto|]. intros [|[_ ->]]; [assumption|done].
  - rewrite H. split; [auto|]. intros [|[? _]]; [assumption|done].
Qed.

Section invariant.
Context (n me : nat) (id : string).

(** Some message of the round is missing. *)
Definition waiting (s : LocalDNode) (k : nat) : Prop :=
  exists sl j, sl ∈ roundSlots k /\ (j < n)%nat /\ ~ present s sl j.

(** The party's own messages of the round are stored. *)
Definition own (s : LocalDNode) (k : nat) : Prop :=
  (1 <= k)%nat -> forall sl, sl ∈ roundSlots k -> present s sl me.

Record core (s : LocalDNode) (k : nat) (b : base) : Prop := {
  c_rnd : nRnd s = Some (k, b);
  c_le : (k <= 7)%nat;
  c_count : nCount s = n /\ rDnodecount b = n;
  c_id : rDnodeid b = id;
  c_ok : length (rOk b) = n;
  c_len sl : sl <> S0 -> length (nMsgs s sl) = n;
  c_len0 : (length (nMsgs s S0) <= n)%nat /\ ((1 <= k)%nat -> length (nMsgs s S0) = n);
  c_some0 j : nMsgs s S0 !! j <> Some None;
  c_typed sl j m : nMsgs s sl !! j = Some (Some m) -> slotOf m = sl;
  c_marks j sl : rOk b !! j = Some true -> sl ∈ roundSlots k -> present s sl j;
  c_mine sl : (k < roundOf sl)%nat -> ~ present s sl me;
  c_end : length (nEnd s) = if Nat.eqb k 7 then 1%nat else 0%nat;
  c_last : k = 7%nat -> Forall (fun ok => ok = false) (rOk b)
}.

Lemma length_effect s0 i F s sl : effect s0 i F s -> length (nMsgs s sl) = length (nMsgs s0 sl).
Proof.
  intros (_ & _ & _ & H). specialize (H sl). destruct (decide (sl ∈ F)); [|now rewrite H].
  destruct H as (m & _ & _ & ->). now rewrite length_insert.
Qed.

Lemma typed_effect s0 i F s sl j m : effect s0 i F s ->
  (forall sl j m, nMsgs s0 sl !! j = Some (Some m) -> slotOf m = sl) ->
  nMsgs s sl !! j = Some (Some m) -> slotOf m = sl.
Proof.
  intros (_ & _ & _ & H) Ht. specialize (H sl). destruct (decide (sl ∈ F)); [|rewrite H; apply Ht].
  destruct H as (m' & Hm & _ & ->). intros [(_ & [= <-] & _)|[_ Hl]]%list_lookup_insert_Some; [assumption|eauto].
Qed.

(** Storing messages of the rounds up to the next one, the party's own only up to
    the current one. *)
Lemma core_effect s0 s i F k b : effect s0 i F s -> core s0 k b -> S0 ∉ F ->
  (forall sl, sl ∈ F -> i = me -> (roundOf sl <= k)%nat) -> core s k b.
Proof.
  intros He C HF Hi. pose proof He as (E1 & E2 & E3 & E4).
  pose proof (E4 S0) as E0. rewrite decide_False in E0 by assumption. destruct C. split.
  - congruence.
  - assumption.
  - split; [rewrite E2|]; tauto.
  - assumption.
  - assumption.
  - intros sl Hsl. rewrite (length_effect s0 i F s) by assumption. auto.
  - now rewrite E0.
  - now rewrite E0.
  - intros sl j m. eapply typed_effect; eauto.
  - intros j sl Hj Hsl. apply (present_effect s0 i F s); [assumption|]. left. auto.
  - intros sl Hk H. apply (present_effect s0 i F s) in H as [H|[Hsl <-]]; [|auto|assumption].
    + eapply c_mine0; eauto.
    + specialize (Hi sl Hsl eq_refl). lia.
  - congruence.
  - assumption.
Qed.
End invariant.
Arguments c_rnd {n me id s k b}.
Arguments c_le {n me id s k b}.
Arguments c_ok {n me id s k b}.
Arguments c_len {n me id s k b}.
Arguments c_typed {n me id s k b}.
Arguments c_marks {n me id s k b}.
Arguments c_last {n me id s k b}.

(** * Update *)

Lemma besideOk_true k i f sls : besideOk k i f sls = Ok true ->
  forall sl, sl ∈ sls -> exists m, f sl !! i = Some m /\ accepts k m = true.
Proof.
  induction sls as [|sl sls IH]; cbn [besideOk]; [set_solver|].
  intros (m & Hm & H)%res_bind_Ok sl'. unfold index in Hm. destruct (f sl !! i) eqn:Ef; [|discriminate].
  injection Hm as ->. destruct (accepts k m) eqn:Ea; [|discriminate].
  intros [->|]%elem_of_cons; eauto.
Qed.

Lemma besideOk_false k i f sls : besideOk k i f sls = Ok false ->
  exists sl m, sl ∈ sls /\ f sl !! i = Some m /\ accepts k m = false.
Proof.
  induction sls as [|sl sls IH]; cbn [besideOk]; [discriminate|].
  intros (m & Hm & H)%res_bind_Ok. unfold index in Hm. destruct (f sl !! i) eqn:Ef; [|discriminate].
  injection Hm as ->. destruct (accepts k m) eqn:Ea.
  - destruct (IH H) as (sl' & m' & ? & ? & ?). exists sl', m'. split; [now constructor|auto].
  - exists sl, m. split; [constructor|auto].
Qed.

Section update.
Context (k : nat) (sl0 : slot) (beside : list slot) (Hupd : updSlots k = Some (sl0, beside)).

Definition typed (s : LocalDNode) : Prop :=
  forall sl j m, nMsgs s sl !! j = Some (Some m) -> slotOf m = sl.

Lemma accepted_present s sl i m : typed s -> sl ∈ sl0 :: beside -> nMsgs s sl !! i = Some m ->
  if accepts k m then present s sl i else ~ present s sl i.
Proof.
  intros Ht Hsl Hi. rewrite (accepts_iff k sl).
  - destruct m as [m|]; [now exists m|]. intros [m' Hm']. congruence.
  - unfold roundSlots. now rewrite Hupd.
  - intros m' ->. eauto.
Qed.

Lemma withOk_same s b : nRnd s = Some (k, b) -> withRnd (Some (k, withOk (rOk b) b)) s = s.
Proof. intros Hr. destruct s, b; cbn in *. now subst. Qed.

(** One pass: the sender is marked already, or it lacks a message, or it is
    marked now. *)
Lemma updLoop_cons msg l j s b t r s' t' : updLoop k beside (msg :: l) j s t = Ret r s' t' ->
  nRnd s = Some (k, b) -> typed s -> nMsgs s sl0 !! j = Some msg ->
  (rOk b !! j = Some true /\ updLoop k beside l (S j) s t = Ret r s' t') \/
  (r = false /\ s' = s /\ exists sl, sl ∈ sl0 :: beside /\ ~ present s sl j) \/
  (is_Some (rOk b !! j) /\ (forall sl, sl ∈ sl0 :: beside -> present s sl j) /\
   updLoop k beside l (S j) (withRnd (Some (k, withOk (<[j := true]> (rOk b)) b)) s) t = Ret r s' t').
Proof.
  intros H Hr Ht Hj. cbn [updLoop] in H. apply act_bind_Ret in H as (b0 & s1 & t1 & E1 & H).
  cbv [theBase mbind act_bind getS mret act_ret] in E1. rewrite Hr in E1. injection E1 as <- <- <-.
  apply act_bind_Ret in H as (okj & s2 & t2 & (Ej & -> & ->)%calls_Ret & H).
  unfold index in Ej. destruct (rOk b !! j) as [o|]; [|discriminate]. injection Ej as ->.
  destruct okj; [auto|right]. pose proof (accepted_present s sl0 j msg Ht ltac:(constructor) Hj) as Ha.
  destruct (accepts k msg); cbn [negb] in H; [|injection H as <- <- _; left; set_solver].
  apply act_bind_Ret in H as (s2 & s3 & t3 & E2 & H). injection E2 as <- <- <-.
  apply act_bind_Ret in H as (ok & s2 & t2' & (Eb & -> & ->)%calls_Ret & H). destruct ok; cbn [negb] in H.
  - apply act_bind_Ret in H as (? & s2 & t3' & E3 & H). unfold setBase, modify in E3. rewrite Hr in E3.
    injection E3 as <- <- <-. right. split; [done|split; [|done]]. intros sl [->|Hsl]%elem_of_cons; [done|].
    destruct (besideOk_true _ _ _ _ Eb sl Hsl) as (m & Hm & Hac).
    pose proof (accepted_present s sl j m Ht ltac:(now constructor) Hm) as Hp. now rewrite Hac in Hp.
  - injection H as <- <- _. left. split; [done|split; [done|]].
    destruct (besideOk_false _ _ _ _ Eb) as (sl & m & Hsl & Hm & Hac). exists sl. split; [now constructor|].
    pose proof (accepted_present s sl j m Ht ltac:(now constructor) Hm) as Hp. now rewrite Hac in Hp.
Qed.

(** The loop marks senders all of whose messages are there, and stops at the
    first one that lacks a message. *)
Lemma updLoop_spec l : forall j s b t r s' t', updLoop k beside l j s t = Ret r s' t' ->
  nRnd s = Some (k, b) -> typed s -> drop j (nMsgs s sl0) = l ->
  exists ok', s' = withRnd (Some (k, withOk ok' b)) s /\ length ok' = length (rOk b) /\
    (forall i, rOk b !! i = Some true -> ok' !! i = Some true) /\
    (forall i, ok' !! i = Some true ->
       rOk b !! i = Some true \/ forall sl, sl ∈ sl0 :: beside -> present s sl i) /\
    if r : bool then forall i, (j <= i < j + length l)%nat -> ok' !! i = Some true
    else exists i sl, (i < length (nMsgs s sl0))%nat /\ sl ∈ sl0 :: beside /\ ~ present s sl i.
Proof.
  induction l as [|msg l IH]; intros j s b t r s' t' H Hr Ht Hd.
  - injection H as <- <- _. exists (rOk b). rewrite withOk_same by assumption.
    do 4 (split; [auto|]). cbn. intros; lia.
  - assert (Hj : nMsgs s sl0 !! j = Some msg) by now rewrite <- (Nat.add_0_r j), <- lookup_drop, Hd.
    assert (Hd' : drop (S j) (nMsgs s sl0) = l) by (rewrite (drop_S _ _ _ Hj) in Hd; congruence).
    apply (updLoop_cons _ _ _ _ b) in H as [[Hm H]|[(-> & -> & sl & Hsl & Hp)|((o & Ho) & Hp & H)]]; try assumption.
    + destruct (IH _ _ _ _ _ _ _ H Hr Ht Hd') as (ok' & -> & Hlen & Hmono & Hmark & Hres).
      exists ok'. do 4 (split; [done|]). destruct r; [|done].
      intros i Hi. destruct (decide (i = j)) as [->|]; [auto|]. apply Hres. cbn in Hi. lia.
    + exists (rOk b). rewrite withOk_same by assumption. do 4 (split; [auto|]).
      exists j, sl. split; [eapply lookup_lt_Some; eauto|auto].
    + destruct (IH _ _ (withOk (<[j := true]> (rOk b)) b) _ _ _ _ H eq_refl Ht Hd')
        as (ok' & -> & Hlen & Hmono & Hmark & Hres). cbn [rOk withOk] in *.
      pose proof (lookup_lt_Some _ _ _ Ho) as Hjl.
      exists ok'. split; [done|]. split; [now rewrite Hlen, length_insert|]. split; [|split].
      * intros i Hi. apply Hmono, list_lookup_insert_Some. destruct (decide (j = i)); [left; subst; auto|right; auto].
      * intros i Hi. destruct (Hmark i Hi) as [[(-> & _)|[_ ?]]%list_lookup_insert_Some|]; auto.
      * destruct r; [|done]. intros i Hi. destruct (decide (i = j)) as [->|]; [|apply Hres; cbn in Hi; lia].
        apply Hmono. now rewrite list_lookup_insert_eq.
Qed.
End update.

(** * The steps of the life cycle *)

Section steps.
Context (n me : nat) (id : string) (Hn : (2 <= n)%nat).
Abbreviation core := (core n me id).
Abbreviation waiting := (waiting n).
Abbreviation own := (own me).

Definition complete (s : LocalDNode) (k : nat) : Prop :=
  forall sl j, sl ∈ roundSlots k -> (j < n)%nat -> present s sl j.

Lemma allOk_iff (ok : list bool) : forallb (fun b : bool => b) ok = true <-> forall i, (i < length ok)%nat -> ok !! i = Some true.
Proof.
  rewrite forallb_forall. split.
  - intros H i [x Hx]%lookup_lt_is_Some_2. rewrite Hx. f_equal. apply H, list_elem_of_In.
    eapply list_elem_of_lookup_2; eauto.
  - intros H x [i Hi]%list_elem_of_In%list_elem_of_lookup. specialize (H i (lookup_lt_Some _ _ _ Hi)). congruence.
Qed.

Lemma roundSlots_len s k b sl : core s k b -> sl ∈ roundSlots k -> (length (nMsgs s sl) <= n)%nat.
Proof. intros C _. destruct (decide (sl = S0)) as [->|H]; [apply C|]. rewrite (c_len C) by assumption. lia. Qed.

(** [Update] of the current round: afterwards the round can proceed exactly when
    it is complete. *)
Lemma Update_core s k b t r s' t' : core s k b -> rStarted b = true -> round_Update s t = Ret r s' t' ->
  exists b', core s' k b' /\ rStarted b' = true /\ nMsgs s' = nMsgs s /\
    if round_CanProceed s' then (k < 7)%nat /\ complete s' k else (k < 7)%nat -> waiting s' k.
Proof.
  intros C Hs H. unfold round_Update in H. apply act_bind_Ret in H as (s1 & s2 & t2 & E1 & H).
  injection E1 as <- <- <-. rewrite (c_rnd C) in H.
  destruct (updSlots k) as [[sl0 beside]|] eqn:Eu.
  2:{ injection H as <- <- _. exists b. do 3 (split; [done|]). unfold round_CanProceed.
      rewrite (c_rnd C), Hs. cbn [andb].
      assert (Hk : k = 7%nat) by (pose proof (c_le C); do 7 (destruct k as [|k]; [discriminate|]); lia).
      pose proof (c_last C Hk) as HF. pose proof (c_ok C) as Hl.
      destruct (rOk b) as [|o l]; [cbn in Hl; lia|]. apply Forall_cons_1 in HF as [-> _]. cbn. lia. }
  assert (Hk : (k < 7)%nat) by (do 7 (destruct k as [|k]; [lia|]); discriminate).
  assert (Es : roundSlots k = sl0 :: beside) by (unfold roundSlots; now rewrite Eu).
  apply (updLoop_spec k sl0 beside Eu _ _ _ b) in H as (ok' & -> & Hlen & Hmono & Hmark & Hres);
    [|apply C|exact (c_typed C)|done].
  assert (Hmarks : forall j sl, ok' !! j = Some true -> sl ∈ roundSlots k -> present s sl j).
  { intros j sl Hj Hsl. destruct (Hmark j Hj) as [Hj'|Hp]; [now apply (c_marks C)|].
    apply Hp. now rewrite <- Es. }
  exists (withOk ok' b). split; [|split; [done|split; [done|]]].
  { destruct C. split; try assumption; cbn; [done|congruence|lia]. }
  unfold round_CanProceed. cbn [nRnd withRnd rStarted withOk rOk]. rewrite Hs. cbn [andb].
  pose proof (c_ok C) as Hokn. destruct (forallb _ ok') eqn:Ef.
  - split; [done|]. intros sl j Hsl Hj. apply (Hmarks j sl); [|done]. rewrite allOk_iff in Ef. apply Ef. lia.
  - intros _. destruct r.
    + assert (Hlt : (length (nMsgs s sl0) < n)%nat).
      { pose proof (roundSlots_len s k b sl0 C ltac:(rewrite Es; constructor)).
        destruct (decide (length (nMsgs s sl0) = n)) as [El|]; [|lia]. exfalso.
        rewrite El in Hres. cut (forallb (fun b : bool => b) ok' = true); [congruence|].
        apply allOk_iff. intros i Hi. apply Hres. lia. }
      exists sl0, (length (nMsgs s sl0)). split; [rewrite Es; constructor|]. split; [done|].
      intros [m Hm%lookup_lt_Some]. cbn in Hm. lia.
    + destruct Hres as (i & sl & Hi & Hsl & Hp). exists sl, i. rewrite Es. split; [done|]. split; [|exact Hp].
      pose proof (roundSlots_len s k b sl0 C ltac:(rewrite Es; constructor)). lia.
Qed.

(** A message a party can receive: no message of the next round but one, and none
    at the party's own index. *)
Definition causal (msg : Message) (k : nat) : Prop :=
  (roundOf (slotOf msg) <= S k)%nat /\ (slotOf msg <> S0 -> Z.to_nat (GetFromIndex msg) <> me).

Lemma fresh_effect s0 i F s k : effect s0 i F s -> fresh s0 k ->
  (forall sl, sl ∈ F -> (roundOf sl < k)%nat) -> fresh s k.
Proof.
  intros He Hf HF sl j Hk H. apply (present_effect s0 i F s) in H as [H|[Hsl _]]; [|apply HF in Hsl; lia|done].
  now apply (Hf sl j).
Qed.

Lemma own_effect s0 i F s k : effect s0 i F s -> own s0 k -> own s k.
Proof. intros He Ho Hk sl Hsl. apply (present_effect s0 i F s); [assumption|]. left. now apply Ho. Qed.

(** A slice that is not full lacks a message. *)
Lemma slotFull_false s k b sl : core s k b -> sl <> S0 -> slotFull s sl = false ->
  exists j, (j < n)%nat /\ ~ present s sl j.
Proof.
  intros C Hsl. unfold slotFull. rewrite (proj1 (c_count _ _ _ _ _ _ C)).
  rewrite (c_len C) by assumption. rewrite Nat.eqb_refl. cbn [andb]. unfold CheckFull.
  pose proof (c_len C sl Hsl) as Hl. destruct (nMsgs s sl) as [|x l] eqn:El; [cbn in Hl; lia|]. rewrite <- El in *.
  intros Hf. apply not_true_iff_false in Hf. rewrite forallb_forall in Hf.
  destruct (decide (Exists (fun v => v = None) (nMsgs s sl))) as [He|He].
  - apply Exists_exists in He as (v & [j Hj]%list_elem_of_lookup & ->).
    exists j. split; [rewrite <- Hl; eapply lookup_lt_Some; eauto|]. intros [m Hm]. congruence.
  - exfalso. apply Hf. intros [m|] Hin; [done|]. exfalso. apply He, Exists_exists. exists None.
    split; [|done]. now apply list_elem_of_In.
Qed.

Definition settled (s : LocalDNode) (k : nat) (b : base) : Prop :=
  core s k b /\ own s k /\ fresh s (S (S k)) /\ rStarted b = true.

(** A message of another party, of a later type than round 0. *)
Lemma store_later `{G : GoLib} msg s k b t s' t' : settled s k b -> causal msg k -> slotOf msg <> S0 ->
  ((k < 7)%nat -> waiting s k) -> storeAt msg s t = Ret tt s' t' ->
  settled s' k b /\ (slotFull s' (slotOf msg) = false -> (k < 7)%nat -> waiting s' k).
Proof.
  intros (C & Ho & Hf & Hst) [Hr Hme] Hs Hw H. specialize (Hme Hs).
  apply (storeAt_effect msg s Hs _ _ _ _ _ eq_refl) in H.
  assert (C' : core s' k b).
  { eapply core_effect; [exact H|exact C|set_solver|]. intros sl _ ?. contradiction. }
  split; [split; [done|split; [eapply own_effect; eauto|split; [|done]]]|].
  - eapply fresh_effect; [exact H|done|]. intros sl ->%list_elem_of_singleton. lia.
  - intros Hff Hk. destruct (Hw Hk) as (sl & j & Hsl & Hj & Hp).
    destruct (decide (sl = slotOf msg)) as [->|Hne].
    + destruct (slotFull_false s' k b (slotOf msg) C' Hs Hff) as (j' & Hj' & Hp'). now exists (slotOf msg), j'.
    + exists sl, j. split; [done|split; [done|]].
      rewrite (present_effect _ _ _ _ sl j H). now intros [?|[?%list_elem_of_singleton _]].
Qed.

(** The state after the append of a round 0 message. *)
Definition append0 (m : Message) (s : LocalDNode) : LocalDNode :=
  withMsgs (setSlot (nMsgs s) S0 (nMsgs s S0 ++ [Some m])) s.

Lemma append0_present m s sl j : present s sl j -> present (append0 m s) sl j.
Proof.
  intros [m' Hm]. exists m'. cbn. unfold setSlot. destruct (decide (sl = S0)) as [->|]; [|done].
  now apply lookup_app_l_Some.
Qed.

Lemma append0_present_other m s sl j : sl <> S0 -> present (append0 m s) sl j <-> present s sl j.
Proof. intros H. unfold present. cbn. unfold setSlot. now rewrite decide_False. Qed.

Lemma append0_core m s b : core s 0 b -> slotOf m = S0 -> (length (nMsgs s S0) < n)%nat ->
  core (append0 m s) 0 b.
Proof.
  intros C Hm Hl. destruct C. split; try assumption; cbn [nMsgs append0 withMsgs]; unfold setSlot.
  - intros sl Hsl. rewrite decide_False by assumption. auto.
  - rewrite decide_True by done. rewrite length_app. cbn. lia.
  - intros j. rewrite decide_True by done. intros [|(_ & H)]%lookup_app_Some; [eapply c_some1; eauto|].
    now apply list_lookup_singleton_Some in H as [_ [=]].
  - intros sl j m'. destruct (decide (sl = S0)) as [->|]; [|eauto].
    intros [|(_ & H)]%lookup_app_Some; [eauto|]. now apply list_lookup_singleton_Some in H as [_ [= ->]].
  - intros j sl Hj Hsl. apply append0_present. auto.
  - intros sl Hsl. rewrite append0_present_other; [auto|]. intros ->. cbn in Hsl. lia.
Qed.

Lemma store_round0 kg0 s k b : settled s k b -> (length (nMsgs s S0) < n)%nat ->
  let s' := append0 (KGRound0Message kg0) s in
  settled s' k b /\ (length (nMsgs s' S0) <> n -> waiting s' k).
Proof.
  intros (C & Ho & Hf & Hst) Hl s'.
  assert (Hk : k = 0%nat).
  { destruct k; [done|]. pose proof (proj2 (c_len0 _ _ _ _ _ _ C) ltac:(lia)). lia. }
  subst k. pose proof (append0_core (KGRound0Message kg0) s b C eq_refl Hl) as C'. fold s' in C'.
  split; [split; [done|split; [|split; [|done]]]|].
  - intros Hk. lia.
  - intros sl j Hk. unfold s'. rewrite append0_present_other; [auto|]. intros ->. cbn in Hk. lia.
  - intros Hne. exists S0, (length (nMsgs s' S0)). split; [constructor|].
    pose proof (proj1 (c_len0 _ _ _ _ _ _ C')). split; [lia|]. intros [m Hm%lookup_lt_Some]. lia.
Qed.

Lemma Store_inv `{G : GoLib} msg s k b t ok s' t' : settled s k b -> causal msg k ->
  ((k < 7)%nat -> waiting s k) -> keygen_StoreMessage msg s t = Ret ok s' t' ->
  settled s' k b /\ (ok = false -> (k < 7)%nat -> waiting s' k).
Proof.
  intros HS Hc Hw H. unfold keygen_StoreMessage in H.
  apply act_bind_Ret in H as (s1 & s2 & t2 & E1 & H). injection E1 as <- <- <-.
  assert (Hlater : slotOf msg <> S0 ->
    (if find (nMsgs s (slotOf msg)) msg then mret false else
     _ ← storeAt msg; s ← getS; mret (slotFull s (slotOf msg))) s t = Ret ok s' t' ->
    settled s' k b /\ (ok = false -> (k < 7)%nat -> waiting s' k)).
  { clear H. intros Hs H. destruct (find _ _); [now injection H as <- <- _|].
    apply act_bind_Ret in H as ([] & s1 & t1 & E1 & H). injection H as <- <- <-.
    eapply store_later; eauto. }
  destruct msg as [kg0| | | | | | | | | | |]; try (apply Hlater; [discriminate|exact H]). clear Hlater.
  destruct (find _ _); [now injection H as <- <- _|].
  destruct (Nat.ltb_spec (length (nMsgs s S0)) (nCount s)) as [Hl|Hl];
    rewrite (proj1 (c_count _ _ _ _ _ _ (proj1 HS))) in Hl.
  - cbv [mbind act_bind modify getS mret act_ret] in H. injection H as <- <- <-.
    destruct (store_round0 kg0 s k b HS Hl) as [HS' Hw']. split; [exact HS'|].
    intros He _. apply Hw'. cbn in He. rewrite (proj1 (c_count _ _ _ _ _ _ (proj1 HS))) in He.
    now apply Nat.eqb_neq in He.
  - cbv [mbind act_bind modify getS mret act_ret] in H. injection H as <- <- <-. split; [exact HS|].
    rewrite (proj1 (c_count _ _ _ _ _ _ (proj1 HS))). intros He%Nat.eqb_neq.
    pose proof (proj1 (c_len0 _ _ _ _ _ _ (proj1 HS))). lia.
Qed.

(** ** Starting the next round *)

Lemma complete_len s k b : core s k b -> complete s k -> length (nMsgs s S0) = n.
Proof.
  intros C Hc. pose proof (c_len0 _ _ _ _ _ _ C) as [Hl Hl'].
  destruct k; [|apply Hl'; lia]. destruct (Hc S0 (n - 1)%nat) as [m Hm%lookup_lt_Some]; [constructor|lia|lia].
Qed.

(** The bookkeeping at the start of a round after a complete one. *)
Lemma core_begin s0 k b z s : core s0 k b -> complete s0 k -> (k < 7)%nat ->
  nRnd s = Some (S k, startedBase z (withStarted false b)) -> nCount s = nCount s0 -> (forall sl, nMsgs s sl = nMsgs s0 sl) ->
  length (nEnd s) = (if Nat.eqb (S k) 7 then 1 else 0)%nat ->
  core s (S k) (startedBase z (withStarted false b)).
Proof.
  intros C Hc Hk Er Ec Em Ee. pose proof (complete_len _ _ _ C Hc) as Hl.
  assert (HF : Forall (fun ok => ok = false) (rOk (startedBase z (withStarted false b)))).
  { cbn. apply Forall_fmap, Forall_true. done. }
  destruct C. split; try assumption.
  - split; [rewrite Ec|]; tauto.
  - cbn. now rewrite length_fmap.
  - intros sl Hsl. rewrite Em. auto.
  - rewrite Em. lia.
  - intros j. rewrite Em. auto.
  - intros sl j m. rewrite Em. eauto.
  - intros j sl Hj _. rewrite Forall_lookup in HF. now specialize (HF j _ Hj).
  - intros sl Hsl [m Hm]. apply (c_mine0 sl); [lia|]. exists m. now rewrite <- Em.
  - done.
Qed.

Context (Hid : indexOf n n id = Ok (Z.of_nat me)).

Lemma Start_core `{E : Curve} `{G : GoLib} fuel s0 k b t s' t' :
  core s0 k b -> complete s0 k -> (k < 7)%nat -> fresh s0 (S (S k)) ->
  round_Start fuel (withRnd (Some (S k, withStarted false b)) s0) t = Ret tt s' t' ->
  exists b', core s' (S k) b' /\ own s' (S k) /\ rStarted b' = true /\ fresh s' (S (S k)) /\
    forall sl j, present s' sl j -> present s0 sl j \/ (sl ∈ roundSlots (S k) /\ j = me).
Proof.
  intros C Hc Hk Hf H. pose proof (complete_len _ _ _ C Hc) as Hl.
  set (sA := withRnd (Some (S k, withStarted false b)) s0) in H.
  assert (Hi : indexOf (length (nMsgs sA S0)) (rDnodecount (withStarted false b)) (rDnodeid (withStarted false b))
               = Ok (Z.of_nat me)).
  { cbn. rewrite Hl, (c_id _ _ _ _ _ _ C), (proj2 (c_count _ _ _ _ _ _ C)). exact Hid. }
  destruct (decide (k = 6%nat)) as [->|Hk6].
  - assert (He : round7_Start sA t = Ret tt s' t') by exact H.
    apply (round7_effect sA 7 (withStarted false b) me eq_refl _ _ _ _ _ eq_refl) in He
      as [(H1 & H2 & H3 & H4) [d Hd]].
    assert (Em : forall sl, nMsgs s' sl = nMsgs s0 sl).
    { intros sl. specialize (H4 sl). now rewrite decide_False in H4 by set_solver. }
    eexists. split; [|split; [|split; [|split]]].
    + eapply (core_begin s0 6 b 7); [done|done|lia|exact H1|exact H2|exact Em|].
      rewrite Hd, length_app. change (nEnd sA) with (nEnd s0). now rewrite (c_end _ _ _ _ _ _ C).
    + intros _ sl. cbn. set_solver.
    + done.
    + intros sl j Hr [m Hm]. rewrite Em in Hm. apply (Hf sl j Hr). now exists m.
    + intros sl j [m Hm]. rewrite Em in Hm. left. now exists m.
  - apply (Start_effect fuel sA (S k) (withStarted false b) me eq_refl ltac:(lia) Hi _ _ _ _ _ eq_refl) in H.
    set (sB := withRnd _ sA) in H.
    assert (CB : core sB (S k) (startedBase (Z.of_nat (S k)) (withStarted false b))).
    { apply (core_begin s0 k b); try done. change (nEnd sB) with (nEnd s0). rewrite (c_end _ _ _ _ _ _ C).
      destruct (Nat.eqb_spec k 7), (Nat.eqb_spec (S k) 7); lia. }
    eexists. split; [|split; [|split; [|split]]].
    + eapply core_effect; [exact H|exact CB| |].
      * intros H0%roundSlots_round. discriminate.
      * intros sl Hsl%roundSlots_round _. lia.
    + intros _ sl Hsl. apply (present_effect _ _ _ _ sl me H). now right.
    + done.
    + eapply fresh_effect; [exact H|exact Hf|]. intros sl Hsl%roundSlots_round. lia.
    + intros sl j. now rewrite (present_effect _ _ _ _ sl j H).
Qed.

(** ** Going on *)

Definition Inv (s : LocalDNode) : Prop :=
  exists k b, settled s k b /\ ((k < 7)%nat -> waiting s k).

Lemma nextRound_run s k b t : nRnd s = Some (k, b) -> (k < 7)%nat ->
  nextRound s t = Ret tt (withRnd (Some (S k, withStarted false b)) s) t.
Proof.
  intros Hr Hk. cbv [nextRound mbind act_bind getS]. rewrite Hr.
  destruct (Nat.ltb_spec k 7); [done|lia].
Qed.

Lemma fresh_le s k k' : fresh s k -> (k <= k')%nat -> fresh s k'.
Proof. intros H Hk sl j Hr. apply H. lia. Qed.

Lemma fresh_msgs s s' k : nMsgs s' = nMsgs s -> fresh s k -> fresh s' k.
Proof. intros E Hf sl j Hr [m Hm]. rewrite E in Hm. apply (Hf sl j Hr). now exists m. Qed.

Lemma own_msgs s s' k : nMsgs s' = nMsgs s -> own s k -> own s' k.
Proof. intros E Ho Hk sl Hsl. destruct (Ho Hk sl Hsl) as [m Hm]. exists m. now rewrite E. Qed.

Lemma ResetOK_inv s k b t s' t' : settled s k b -> ((k < 7)%nat -> waiting s k) ->
  round_ResetOK s t = Ret tt s' t' -> exists b', settled s' k b' /\ ((k < 7)%nat -> waiting s' k).
Proof.
  intros (C & Ho & Hf & Hs) Hw H. cbv [round_ResetOK setBase modify] in H. rewrite (c_rnd C) in H.
  injection H as <- _. exists (withOk ((fun _ => false) <$> rOk b) b). split; [|exact Hw]. split; [|done].
  assert (HF : Forall (fun ok => ok = false) ((fun _ : bool => false) <$> rOk b)) by (apply Forall_fmap, Forall_true; done).
  destruct C. split; try done; try (cbn; now rewrite length_fmap).
  intros j sl Hj _. rewrite Forall_lookup in HF. now specialize (HF j _ Hj).
Qed.

(** Nothing of the round just started has arrived. *)
Lemma waiting_fresh s0 s k : (k < 7)%nat -> fresh s0 k ->
  (forall sl j, present s sl j -> present s0 sl j \/ (sl ∈ roundSlots k /\ j = me)) -> waiting s k.
Proof.
  intros Hk Hf Hp. assert (Hsl : exists sl, sl ∈ roundSlots k).
  { do 7 (destruct k as [|k]; [eexists; constructor|]). lia. }
  destruct Hsl as [sl Hsl]. exists sl, (if decide (me = 0)%nat then 1 else 0)%nat. split; [done|].
  split; [destruct (decide (me = 0)%nat); lia|]. intros H. apply Hp in H as [H|[_ H]].
  - apply (Hf sl _) in H; [done|]. rewrite (roundSlots_round k sl Hsl). lia.
  - destruct (decide (me = 0)%nat); lia.
Qed.

Lemma proceed_inv `{E : Curve} `{G : GoLib} fuel s k b t s' t' : settled s k b -> complete s k -> (k < 7)%nat ->
  proceed (P := keygenDNode fuel) s t = Ret tt s' t' ->
  exists k' b', (k < k')%nat /\ settled s' k' b' /\ ((k' < 7)%nat -> waiting s' k').
Proof.
  intros (C & Ho & Hf & Hs) Hc Hk H. unfold proceed in H. cbn [advance hasRound Start Update CanProceed ResetOK keygenDNode] in H.
  erewrite act_bind_run in H by exact (nextRound_run s k b t (c_rnd C) Hk).
  erewrite act_bind_run in H by reflexivity. cbn [nRnd withRnd negb] in H.
  apply act_bind_Ret in H as ([] & s1 & t1 & H1 & H).
  destruct (Start_core fuel s k b t s1 t1 C Hc Hk Hf H1) as (b1 & C1 & Ho1 & Hs1 & Hf1 & _).
  apply act_bind_Ret in H as (o & s2 & t2 & (r & -> & H2)%attempt_Update & H).
  destruct (Update_core s1 (S k) b1 t1 r s2 t2 C1 Hs1 H2) as (b2 & C2 & Hs2 & Em & Hp).
  pose proof (fresh_msgs _ _ _ Em Hf1) as Hf2. pose proof (own_msgs _ _ _ Em Ho1) as Ho2.
  apply act_bind_Ret in H as ([] & s3 & t3 & H3 & H).
  erewrite act_bind_run in H3 by reflexivity.
  assert (H3' : exists k3 b3, (k < k3)%nat /\ settled s3 k3 b3 /\ ((k3 < 7)%nat -> waiting s3 k3)).
  { destruct (round_CanProceed s2); cbn [negb] in H3.
    - destruct Hp as [Hk2 Hc2]. erewrite act_bind_run in H3 by exact (nextRound_run s2 (S k) b2 t2 (c_rnd C2) Hk2).
      erewrite act_bind_run in H3 by reflexivity. cbn [nRnd withRnd] in H3.
      destruct (Start_core fuel s2 (S k) b2 t2 s3 t3 C2 Hc2 Hk2) as (b3 & C3 & Ho3 & Hs3 & Hf3 & Hp3);
        [eapply fresh_le; [exact Hf2|lia]|exact H3|].
      exists (S (S k)), b3. split; [lia|]. split; [split; [done|split; [done|split; [|done]]]|].
      + eapply fresh_le; [exact Hf3|lia].
      + intros Hk3. eapply waiting_fresh; [done|exact Hf2|exact Hp3].
    - injection H3 as <- _. exists (S k), b2. split; [lia|]. split; [|exact Hp].
      split; [done|split; [done|split; [|done]]]. eapply fresh_le; [exact Hf2|lia]. }
  destruct H3' as (k3 & b3 & Hlt & HS3 & Hw3). erewrite act_bind_run in H by reflexivity.
  rewrite (c_rnd (proj1 HS3)) in H. destruct (ResetOK_inv s3 k3 b3 t3 s' t' HS3 Hw3 H) as (b' & HS' & Hw').
  eauto 6.
Qed.

(** [Update] keeps the invariant, for every message that can arrive. *)
Lemma Update_inv `{E : Curve} `{G : GoLib} fuel msg stuck : forall f s t ok s' t',
  (forall s t r s' t', stuck s t <> Ret r s' t') ->
  Inv s -> (forall k b, nRnd s = Some (k, b) -> causal msg k) ->
  BaseUpdate (P := keygenDNode fuel) stuck f msg s t = Ret ok s' t' -> Inv s'.
Proof.
  induction f as [|f IH]; intros s t ok s' t' Hst (k & b & HS & Hw) Hc H; [now apply Hst in H|].
  cbn [BaseUpdate] in H. cbn [hasRound StoreMessage Update CanProceed keygenDNode] in H.
  erewrite act_bind_run in H by reflexivity. pose proof (c_rnd (proj1 HS)) as Hr. rewrite Hr in H. cbn [negb] in H.
  apply act_bind_Ret in H as (ok1 & s1 & t1 & H1 & H).
  destruct (Store_inv msg s k b t ok1 s1 t1 HS (Hc k b Hr) Hw H1) as [HS1 Hw1].
  destruct ok1; cbn [negb] in H; [|injection H as _ <- _; exists k, b; auto].
  apply act_bind_Ret in H as (r & s2 & t2 & H2 & H).
  destruct HS1 as (C1 & Ho1 & Hf1 & Hs1).
  destruct (Update_core s1 k b t1 r s2 t2 C1 Hs1 H2) as (b2 & C2 & Hs2 & Em & Hp).
  assert (HS2 : settled s2 k b2).
  { split; [done|]. split; [eapply own_msgs; eauto|]. split; [eapply fresh_msgs; eauto|done]. }
  erewrite act_bind_run in H by reflexivity. destruct (round_CanProceed s2).
  - destruct Hp as [Hk Hcm]. apply act_bind_Ret in H as ([] & s3 & t3 & H3 & H).
    destruct (proceed_inv fuel s2 k b2 t2 s3 t3 HS2 Hcm Hk H3) as (k3 & b3 & Hlt & HS3 & Hw3).
    eapply IH; [exact Hst| | |exact H]; [exists k3, b3; auto|].
    intros k4 b4 Hr4. rewrite (c_rnd (proj1 HS3)) in Hr4. injection Hr4 as <- <-.
    destruct (Hc k b Hr) as [Hc1 Hc2]. split; [lia|assumption].
  - injection H as _ <- _. exists k, b2. auto.
Qed.
End steps.

(** * From the start *)

(** The node whose identifier is [me + 1] has index [me]. *)
Lemma indexOf_self n me : (me < n)%nat ->
  indexOf n n (EncodeToString (Sprintf_v (Some (Z.of_nat me + 1)))) = Ok (Z.of_nat me).
Proof.
  intros Hme. unfold indexOf. set (u := Sprintf_v _).
  assert (Hu : EncodeToString u <> "").
  { apply EncodeToString_nonempty. intros E'. apply (f_equal (SetString 10)) in E'.
    unfold u in E'. now rewrite SetString_Sprintf in E'. }
  apply String.eqb_neq in Hu. rewrite Hu, Nat.eqb_refl. cbn [orb negb].
  rewrite DecodeString_Encode. cbn [mbind res_bind]. unfold u. rewrite SetString_Sprintf. cbn [deref mbind res_bind].
  replace (forRange _ _ 0) with (@Ok (option Z) (Some (Z.of_nat me))); [done|]. symmetry.
  assert (Hgen : forall m a k, (a <= me < a + m)%nat ->
    forRange (seq a m) (fun _ i => Ok (if Z.of_nat i + 1 =? Z.of_nat me + 1 then Some (Z.of_nat i) else None)) k
    = Ok (Some (Z.of_nat me))).
  { induction m as [|m IH]; intros a k Ha; [lia|]. cbn [seq forRange mbind res_bind].
    destruct (Z.eqb_spec (Z.of_nat a + 1) (Z.of_nat me + 1)); [do 3 f_equal; lia|]. apply IH. lia. }
  apply Hgen. lia.
Qed.

Section reach.
Context `{E : Curve} `{G : GoLib} (fuel n : nat) (threshold length_ : Z) (me : nat).

(** The states of a party: a new party that was given its identifier and started,
    then updated with messages that can arrive; the channel of primes changes by
    itself. *)
Inductive reachable : LocalDNode -> Prop :=
| reach_start ch t s0 t1 s t2 :
    NewLocalDNode n threshold length_ ch t = Ok (s0, t1) ->
    keygen_Start fuel (SetDNodeID (Sprintf_v (Some (Z.of_nat me + 1))) s0) t1 = Ret tt s t2 ->
    reachable s
| reach_primes s ch : reachable s -> reachable (withPrimes ch s)
| reach_update s msg t ok s' t' :
    reachable s -> (forall k b, nRnd s = Some (k, b) -> causal me msg k) ->
    keygen_Update fuel msg s t = Ret ok s' t' -> reachable s'.

Context (Hn : (2 <= n)%nat) (Hme : (me < n)%nat).
Abbreviation id := (EncodeToString (Sprintf_v (Some (Z.of_nat me + 1)))).

Lemma Start_inv ch t s0 t1 s t2 : NewLocalDNode n threshold length_ ch t = Ok (s0, t1) ->
  keygen_Start fuel (SetDNodeID (Sprintf_v (Some (Z.of_nat me + 1))) s0) t1 = Ret tt s t2 -> Inv n me id s.
Proof.
  intros H0 H. unfold NewLocalDNode in H0. apply rnd_bind_Ok in H0 as (uid & t' & _ & H0).
  apply rnd_ret_Ok in H0 as [-> <-]. set (s1 := SetDNodeID _ _) in H.
  assert (H' : round0_Start (FirstRound s1) t1 = Ret tt s t2).
  { revert H. unfold keygen_Start, BaseStart. cbv [mbind act_bind getS]. change (DNodeID s1) with id.
    now destruct (String.eqb id ""). }
  clear H. rename H' into H. set (b := mkBase (replicate n false) false 0 id n threshold length_).
  apply (round0_spec (FirstRound s1) 0 b eq_refl _ _ _ _ _ eq_refl) in H. cbv zeta in H.
  assert (Hp : forall sl j, present s sl j -> sl = S0 /\ j = 0%nat).
  { intros sl j [m Hm]. subst s. cbn in Hm. unfold setSlot in Hm. destruct (decide (sl = S0)) as [->|Hs].
    - now apply list_lookup_singleton_Some in Hm as [-> _].
    - exfalso. cbn in Hm. destruct sl; try done; now apply lookup_replicate in Hm as [[=] _]. }
  assert (C : core n me id s 0 (startedBase 0 b)).
  { split; try (subst s; cbn; (done || lia || rewrite ?length_fmap, ?length_replicate; lia)).
    - subst s. intros sl Hs. cbn. unfold setSlot. rewrite decide_False by assumption.
      cbn. destruct sl; try done; apply length_replicate.
    - rewrite H. split; [|lia]. change (1 <= n)%nat. lia.
    - subst s. intros j H0. now apply list_lookup_singleton_Some in H0 as [_ [=]].
    - subst s. intros sl j m. cbn. unfold setSlot. destruct (decide (sl = S0)) as [->|Hs].
      + now intros [_ [= <-]]%list_lookup_singleton_Some.
      + cbn. destruct sl; try done; now intros [[=] _]%lookup_replicate.
    - intros j sl Hj _. exfalso. cbn in Hj. apply list_lookup_fmap_Some in Hj as (x & [=] & _).
    - intros sl Hsl [-> _]%Hp. cbn in Hsl. lia. }
  exists 0%nat, (startedBase 0 b). split; [split; [exact C|split; [|split; [|done]]]|].
  - intros H0. lia.
  - intros sl j Hr [-> _]%Hp. cbn in Hr. lia.
  - intros _. exists S0, 1%nat. split; [constructor|]. split; [lia|]. now intros [_ ?]%Hp.
Qed.

Lemma reachable_inv s : reachable s -> Inv n me id s.
Proof.
  induction 1 as [ch t s0 t1 s t2 H0 H1|s ch _ IH|s msg t ok s' t' _ IH Hc H].
  - eapply Start_inv; eauto.
  - destruct IH as (k & b & (C & Ho & Hf & Hs) & Hw). exists k, b. split; [|exact Hw].
    split; [|done]. destruct C. now split.
  - eapply (Update_inv n me id Hn (indexOf_self n me Hme) fuel msg _ 9); [|exact IH|exact Hc|exact H]. done.
Qed.
End reach.

(** * Claims *)

(** C12: a party of key generation never misses the moment to go on.  In every
    state it can reach, in a group of at least two nodes, whatever the order of
    arrival (a message of a round may come before the party starts that round, and
    duplicates, messages that replace others and surplus messages may come), either
    it is in the last round and has emitted its result exactly once, or its current
    round lacks a message of another node and nothing was emitted. *)
Theorem keygen_waits_or_finished `{E : Curve} `{G : GoLib} fuel n threshold length_ me s :
  (2 <= n)%nat -> (me < n)%nat -> reachable fuel n threshold length_ me s ->
  exists k b, nRnd s = Some (k, b) /\
    ((k = 7%nat /\ length (nEnd s) = 1%nat) \/
     ((k < 7)%nat /\ nEnd s = [] /\
      exists sl j, sl ∈ roundSlots k /\ (j < n)%nat /\ ~ present s sl j /\ ((1 <= k)%nat -> j <> me))).
Proof.
  intros Hn Hme Hr. destruct (reachable_inv fuel n threshold length_ me Hn Hme s Hr) as (k & b & (C & Ho & _) & Hw).
  exists k, b. split; [apply C|]. pose proof (c_le C). pose proof (c_end _ _ _ _ _ _ C) as He.
  destruct (Nat.eqb_spec k 7) as [->|Hk]; [left; auto|right].
  split; [lia|]. split; [now apply nil_length_inv|].
  destruct (Hw ltac:(lia)) as (sl & j & Hsl & Hj & Hp). exists sl, j. do 3 (split; [done|]).
  intros H1 ->. now apply Hp, Ho.
Qed.

(** Node 2 of 3, started, with the round 0 message of node 1. *)
Definition exampleStart : outcome LocalDNode unit :=
  match NewLocalDNode 3 2 2048 [] [Some 5] with
  | Ok (s0, t) => keygen_Start 10 (SetDNodeID "2" s0) t
  | _ => Crash
  end.

Definition example0 (id : string) : Message := KGRound0Message (mkHeader (EncodeToString id) (-1) []).

Definition exampleState : option LocalDNode :=
  match exampleStart with
  | Ret _ s t => match keygen_Update 10 (example0 "1") s t with Ret _ s' _ => Some s' | _ => None end
  | _ => None
  end.

Lemma keygen_waits_or_finished_witness :
  match exampleState with
  | Some s => exists k b, nRnd s = Some (k, b) /\
      ((k = 7%nat /\ length (nEnd s) = 1%nat) \/
       ((k < 7)%nat /\ nEnd s = [] /\
        exists sl j, sl ∈ roundSlots k /\ (j < 3)%nat /\ ~ present s sl j /\ ((1 <= k)%nat -> j <> 1%nat)))
  | None => False
  end.
Proof.
  assert (He : match exampleStart with
               | Ret tt s t => match keygen_Update 10 (example0 "1") s t with
                               | Ret _ s' _ => reachable 10 3 2 2048 1 s'
                               | _ => False
                               end
               | _ => False
               end).
  { destruct exampleStart as [[] s t| | |] eqn:Es; try (vm_compute in Es; discriminate Es).
    destruct (keygen_Update 10 (example0 "1") s t) as [ok s' t'| | |] eqn:Eu.
    2-4: vm_compute in Es; injection Es as <- <-; vm_compute in Eu; discriminate Eu.
    eapply reach_update; [| |exact Eu]; [|intros k b _; split; [cbn; lia|done]].
    eapply (reach_start _ _ _ _ _ [] [Some 5]); [reflexivity|exact Es]. }
  unfold exampleState. destruct exampleStart as [[] s t| | |]; try contradiction.
  destruct (keygen_Update 10 (example0 "1") s t) as [ok s' t'| | |]; try contradiction.
  refine (keygen_waits_or_finished 10 3 2 2048 1 s' _ _ He); lia.
Defined.

(** [Update] terminates: its recursion is never deeper than nine calls, whatever
    the state and the message; the outcome assumed below that depth plays no role. *)
Theorem keygen_Update_terminates `{E : Curve} `{G : GoLib} fuel stuck extra msg s t :
  BaseUpdate (P := keygenDNode fuel) stuck (9 + extra) msg s t = keygen_Update fuel msg s t.
Proof.
  assert (Hr : (rank (P := keygenDNode fuel) s < 9)%nat).
  { change (kgRank s < 9)%nat. unfold kgRank. destruct (nRnd s) as [[k b]|]; lia. }
  apply BaseUpdate_fuel; [lia|exact Hr].
Qed.

(** The index is the one the message names, whoever sent it: the share that node 2
    sends with index 0 replaces the one of node 1, and an index out of range panics. *)
Example forged_index_overwrites :
  let stored := KGRound2Message (mkHeader "31" 0 []) (Some 1) (Some 5) in
  let forged i := KGRound2Message (mkHeader "32" i []) (Some 1) (Some 6) in
  let s := mkNode None "33" 2 2 2048 (fun sl => if decide (sl = S2) then [Some stored; None] else [])
             emptyTemp (NewLocalDNodeSaveData 2) [] [] [] in
  (exists b s', keygen_StoreMessage (forged 0) s [] = Ret b s' [] /\ nMsgs s' S2 = [Some (forged 0); None]) /\
  keygen_StoreMessage (forged 2) s [] = Crash.
Proof. split; [do 2 eexists; split; reflexivity|reflexivity]. Qed.

Lemma checkNtilde_Ret `{G : GoLib} nt pf1 pf2 s t s' t' : checkNtilde nt pf1 pf2 s t = Ret tt s' t' ->
  exists N h1 h2, nt = Some (mkNtilde (Some N) (Some h1) (Some h2)) /\
   (N <> 0 /\
    h1 mod Z.abs N <> 0 /\ h1 mod Z.abs N <> 1 /\ h2 mod Z.abs N <> 0 /\ h2 mod Z.abs N <> 1 /\
    h1 mod Z.abs N <> h2 mod Z.abs N /\
    NtildeProof_Verify pf1 (Some h1) (Some h2) (Some N) = Ok true /\
    NtildeProof_Verify pf2 (Some h2) (Some h1) (Some N) = Ok true) /\ s' = s.
Proof.
  intros H. unfold checkNtilde in H. inv_act.
  match goal with x : NtildeH1H2 |- _ => destruct x end. cbn in *. subst.
  eexists _, _, _. split; [reflexivity|]. unfold Mod in H2, H4.
  destruct (Z.eqb_spec x5 0); [discriminate|]. injection H2 as <-. injection H4 as <-.
  destruct (_ || _) eqn:B0 in H5; [discriminate|]. destruct (_ || _) eqn:B1 in H5; [discriminate|].
  destruct (_ =? _) eqn:B2 in H5; [discriminate|]. apply orb_false_iff in B0, B1.
  rewrite !Z.eqb_neq in *.
  apply act_bind_Ret in H5 as (ok1 & s1 & t1 & (E1 & -> & ->)%calls_Ret & H5).
  apply act_bind_Ret in H5 as (ok2 & s2 & t2 & E2 & H5).
  destruct ok2; [|discriminate]. injection H5 as <- _. destruct ok1; [|discriminate].
  apply calls_Ret in E2 as (E2 & -> & _). tauto.
Qed.

(** C27: a round 4 message that is stored carries sound auxiliary parameters: the
    residues of [h1] and [h2] are distinct and neither 0 nor 1, both proofs verify,
    and exactly its parameters are saved at the sender's index. *)
Theorem StoreMessage_round4_checked `{G : GoLib} kg0 nt pf1 pf2 c s t ok s' t' :
  let msg := KGRound4Message kg0 nt pf1 pf2 c in
  DulMessage s msg = false -> keygen_StoreMessage msg s t = Ret ok s' t' ->
  exists N h1 h2, nt = Some (mkNtilde (Some N) (Some h1) (Some h2)) /\ N <> 0 /\
    h1 mod Z.abs N <> 0 /\ h1 mod Z.abs N <> 1 /\ h2 mod Z.abs N <> 0 /\ h2 mod Z.abs N <> 1 /\
    h1 mod Z.abs N <> h2 mod Z.abs N /\
    NtildeProof_Verify pf1 (Some h1) (Some h2) (Some N) = Ok true /\
    NtildeProof_Verify pf2 (Some h2) (Some h1) (Some N) = Ok true /\
    U1NtildeH1H2 (nData s') !! Z.to_nat (FromIndex kg0) = Some nt /\
    nMsgs s' S4 !! Z.to_nat (FromIndex kg0) = Some (Some msg).
Proof.
  intros msg Hd H. unfold keygen_StoreMessage in H. cbn [msg slotOf] in H. unfold DulMessage in Hd.
  cbn [slotOf msg] in Hd.
  apply act_bind_Ret in H as (s1 & s2 & t2 & E1 & H). injection E1 as <- <- <-. rewrite Hd in H.
  apply act_bind_Ret in H as ([] & s1 & t1 & H & H'). injection H' as _ <- <-. cbn [storeAt msg] in H.
  apply act_bind_Ret in H as ([] & s2 & t2 & Hc%checkNtilde_Ret & H).
  destruct Hc as (N & h1 & h2 & Hnt & Hc). exists N, h1, h2. split; [exact Hnt|]. destruct Hc as [Hc ->].
  apply act_bind_Ret in H as ([] & s3 & t3 & H1 & H2).
  cut (U1NtildeH1H2 (nData s1) !! Z.to_nat (FromIndex kg0) = Some nt /\
       nMsgs s1 S4 !! Z.to_nat (FromIndex kg0) = Some (Some msg)); [tauto|].
  unfold putNtilde in H1. apply act_bind_Ret in H1 as (sa & sb & tb & E' & H1). injection E' as <- <- <-.
  unfold putMsg in H2. apply act_bind_Ret in H2 as (sa & sb & tb & E' & H2). injection E' as <- <- <-.
  cbv zeta in H1. destruct (inBounds (U1NtildeH1H2 _) _) eqn:B1; [|discriminate]. injection H1 as <- <-.
  destruct (inBounds (nMsgs _ _) _) eqn:B2; [|discriminate]. injection H2 as <- _.
  unfold inBounds in B1, B2. apply andb_prop in B1 as [?%Z.leb_le ?%Z.ltb_lt].
  apply andb_prop in B2 as [_ ?%Z.ltb_lt]. cbn in *. unfold setSlot. rewrite decide_True by done.
  split; apply list_lookup_insert_eq; lia.
Qed.

(** A library whose hash is zero, for which the proof with all [alpha = 1] and
    all [t = 0] verifies. *)
Definition zeroHash : GoLib :=
  {| ProbablyPrime := is_prime_small; ModSqrt := sqrt_search; sha512_256 _ := [0] |}.

Definition exampleNtilde : option NtildeH1H2 := Some (mkNtilde (Some 253) (Some 4) (Some 192)).
Definition examplePf : option NtildeProof :=
  Some (mkNtildeProof (replicate Iterations (Some 1)) (replicate Iterations (Some 0))).

Lemma StoreMessage_round4_checked_witness :
  let msg := KGRound4Message (mkHeader "31" 0 []) exampleNtilde examplePf examplePf (Some 9) in
  let s := mkNode None "33" 2 2 2048 (fun sl => if decide (sl = S4) then [None; None] else [])
             emptyTemp (NewLocalDNodeSaveData 2) [] [] [] in
  match keygen_StoreMessage (G := zeroHash) msg s [] with
  | Ret ok s' _ => ok = false /\ U1NtildeH1H2 (nData s') !! 0%nat = Some exampleNtilde
  | _ => False
  end.
Proof.
  intros msg s. destruct (keygen_StoreMessage (G := zeroHash) msg s []) as [ok s' t'| | |] eqn:Es.
  2-4: vm_compute in Es; discriminate Es.
  destruct (StoreMessage_round4_checked (G := zeroHash) (mkHeader "31" 0 []) exampleNtilde examplePf examplePf
    (Some 9) s [] ok s' t' eq_refl Es) as (N & h1 & h2 & _ & _ & _ & _ & _ & _ & _ & _ & _ & H & _).
  split; [|exact H].
  pose proof (f_equal (fun r => match r with Ret b _ _ => b | _ => true end) Es) as Eo.
  vm_compute in Eo. now symmetry.
Defined.
