(* ===== verification/KgKey.v ===== *)
(** The key that key generation produces: what round 4 accepts of the other
    nodes, and what the shares of the nodes recombine to. *)

From Stdlib Require Import ZArith Lia Zcong Zdivisibility.
From stdpp Require Import gmap strings.
From S2P Require Import Prelude NumTheory Primality GoBig Random Text Secp256k1 CurveFacts CurveLaws ToyCurve.
From S2P Require Import Lagrange Vss2 Commit Paillier DNode KgMessage KgSave Keygen KgLife.

#[local] Open Scope Z_scope.

(** What a node deals: the point [du*G] it commits to with the further points
    [drest] and the blinding number [dr], the chain code [dcc] with its commitment,
    and the polynomial [dc0 :: dcs] whose multiples of [G] it publishes. *)
Record dealer := mkDealer {
  du : Z; drest : list (Z * Z); dr : Z;
  dcc : Z; dcrest : list (Z * Z); dcr : Z;
  dc0 : Z; dcs : list Z }.

Definition coords (ps : list (Z * Z)) : list Z := ps ≫= fun p => [p.1; p.2].

(** Execute the next call of a sequence. *)
Tactic Notation "run" tactic3(t) := erewrite act_bind_run by t; cbv beta iota zeta.

Section round4.
Context `{L : CurveLaws}.
Abbreviation q := (cN S256).

Definition keyPoints (d : dealer) : list (Z * Z) := pt (du d) :: drest d.
Definition chainPoints (d : dealer) : list (Z * Z) := pt (dcc d) :: dcrest d.

(** A dealer whose points are on the curve and whose scalars are not zero. *)
Definition goodDealer (d : dealer) : Prop :=
  du d mod q <> 0 /\ 0 < dcc d < q /\
  Forall (fun p => IsOnCurve S256 p.1 p.2 = true) (drest d) /\
  Forall (fun p => IsOnCurve S256 p.1 p.2 = true) (dcrest d).

(** The state holds the messages of dealer [d] as node [k], with the share [sh] at
    the identifier [x]. *)
Definition received (s : LocalDNode) (k : nat) (d : dealer) (x sh : Z) : Prop :=
  (exists h pk, nMsgs s S1 !! k = Some (Some (KGRound1Message h
     (Some (commitHash (commitMessage (dr d) (coords (keyPoints d)))))
     (Some (commitHash (commitMessage (dcr d) (coords (chainPoints d))))) pk))) /\
  (exists h, nMsgs s S2 !! k = Some (Some (KGRound2Message h (Some x) (Some sh)))) /\
  (exists h, nMsgs s S21 !! k = Some (Some (KGRound2Message1 h (Some (dcc d))))) /\
  (exists h, nMsgs s S3 !! k = Some (Some (KGRound3Message h
     (Some <$> (dr d :: coords (keyPoints d))) (Some <$> (dcr d :: coords (chainPoints d)))
     (points (dc0 d :: dcs d))))).

Lemma getMsg_run s sl k m t : nMsgs s sl !! k = Some m -> getMsg sl k s t = Ret m s t.
Proof. intros H. unfold getMsg. erewrite act_bind_run by reflexivity. apply calls_run. unfold index. now rewrite H. Qed.

(** A commitment to points opens. *)
Lemma open_points r ps : ps <> [] -> Forall (fun p => IsOnCurve S256 p.1 p.2 = true) ps ->
  let com := mkCommitment (Some (commitHash (commitMessage r (coords ps)))) (Some <$> (r :: coords ps)) in
  Verify com = Ok true /\ DeCommit com = Ok (true, Some <$> coords ps).
Proof.
  intros Hne HF com.
  assert (HD : DeCommit com = Ok (true, Some <$> coords ps)).
  { unfold com, coords. rewrite DeCommit_spec, Z.eqb_refl. destruct ps as [|p ps]; [done|].
    cbn [length Nat.eqb negb andb]. replace (forallb _ (p :: ps)) with true; [done|]. symmetry.
    apply forallb_forall. intros x Hx. rewrite Forall_forall in HF. apply HF. now apply list_elem_of_In. }
  split; [|exact HD]. unfold DeCommit in HD. apply res_bind_Ok in HD as (b & Hb & H). rewrite Hb.
  now destruct b.
Qed.

Section node.
Context (s : LocalDNode) (k : nat) (d : dealer) (x sh : Z).
Context (Hd : goodDealer d) (Hr : received s k d x sh).

Lemma open_key :
  let com := mkCommitment (Some (commitHash (commitMessage (dr d) (coords (keyPoints d)))))
               (Some <$> (dr d :: coords (keyPoints d))) in
  Verify com = Ok true /\ DeCommit com = Ok (true, Some <$> coords (keyPoints d)).
Proof.
  destruct Hd as (Hu & _ & HF & _). apply open_points; [done|]. constructor; [now apply IsOnCurve_pt|assumption].
Qed.

Lemma open_chain :
  let com := mkCommitment (Some (commitHash (commitMessage (dcr d) (coords (chainPoints d)))))
               (Some <$> (dcr d :: coords (chainPoints d))) in
  Verify com = Ok true /\ DeCommit com = Ok (true, Some <$> coords (chainPoints d)).
Proof.
  destruct Hd as (_ & Hc & _ & HF). apply open_points; [done|]. constructor; [|assumption].
  apply IsOnCurve_pt. rewrite Z.mod_small; lia.
Qed.

(** The check of node [k] depends on its share and its published polynomial; the
    point it committed to plays no role. *)
Lemma checkShare_spec t : 0 < x < q -> nondegenerate x (dc0 d) x (dcs d) -> 0 < sh < q ->
  checkShare k s t =
  if sh =? peval (dc0 d :: dcs d) x mod q then Ret tt s t else Fail "verify share data fail" s t.
Proof.
  intros Hx Hnd Hsh. destruct Hr as ((h1 & pk & H1) & (h2 & H2) & (h21 & H21) & (h3 & H3)).
  unfold checkShare. run (apply getMsg_run, H2).
  run (apply getMsg_run, H3).
  run (apply calls_run, Verify2_spec; assumption).
  destruct (sh =? _); cbn [negb]; [|done].
  run (apply getMsg_run, H1).
  run (apply calls_run, open_key). cbn [negb].
  run (apply calls_run, open_chain). cbn [negb].
  run (apply calls_run, open_chain).
  run (apply getMsg_run, H21).
  run (apply calls_run; reflexivity).
  destruct Hd as (_ & Hc & _ & _).
  run (apply calls_run, ScalarBaseMult_pt; lia).
  rewrite gp_ne0 by (rewrite Z.mod_small; lia).
  run (apply calls_run; reflexivity).
  run (apply calls_run; cbn; now rewrite Z.eqb_refl).
  erewrite act_bind_run by (erewrite act_bind_run by (apply calls_run; reflexivity);
    apply calls_run; cbn; now rewrite Z.eqb_refl). done.
Qed.

(** A share that is zero or not reduced panics the verification. *)
Lemma checkShare_crash t : 0 < x < q -> nondegenerate x (dc0 d) x (dcs d) -> sh = 0 \/ q <= sh < 2 ^ 256 ->
  checkShare k s t = Crash.
Proof.
  intros Hx Hnd Hsh. destruct Hr as (_ & (h2 & H2) & _ & (h3 & H3)).
  unfold checkShare. run (apply getMsg_run, H2). run (apply getMsg_run, H3).
  unfold mbind at 1, act_bind at 1, calls, call, lift. now rewrite Verify2_panics_on_unreduced.
Qed.

Lemma contribution_spec t : contribution k s t = Ret (gp (du d), Some (dcc d), Some sh) s t.
Proof.
  destruct Hr as ((h1 & pk & H1) & (h2 & H2) & (h21 & H21) & (h3 & H3)). unfold contribution.
  run (apply getMsg_run, H3). run (apply getMsg_run, H1).
  run (apply getMsg_run, H2). run (apply getMsg_run, H21).
  run (apply calls_run, open_key).
  run (apply calls_run; reflexivity). run (apply calls_run; reflexivity).
  rewrite gp_ne0 by apply Hd. done.
Qed.
End node.

(** ** All nodes *)

(** The dealers and the shares they gave to the node with identifier [x]. *)
Definition dealt (s : LocalDNode) (x : Z) (ds : list (dealer * Z)) : Prop :=
  forall k d sh, ds !! k = Some (d, sh) -> goodDealer d /\ received s k d x sh.

(** No partial sum of the points meets the next point or its opposite. *)
Fixpoint sumsOk (acc : Z) (us : list Z) : Prop :=
  match us with
  | [] => True
  | u :: us' => acc mod q <> 0 /\ (acc - u) mod q <> 0 /\ sumsOk (acc + u) us'
  end.

Lemma sumContributions_spec s x t ds : forall a acc c sk,
  (forall i d sh, ds !! i = Some (d, sh) -> goodDealer d /\ received s (a + i) d x sh) ->
  sumsOk acc ((fun p => du p.1) <$> ds) ->
  sumContributions (seq a (length ds)) (gp acc) (Some c) (Some sk) s t =
  Ret (gp (acc + zsum (fun p => du p.1) ds), Some (c + zsum (fun p => dcc p.1) ds), Some (sk + zsum snd ds)) s t.
Proof.
  induction ds as [|[d sh] ds IH]; intros a acc c sk HF Hs; cbn [length seq sumContributions].
  - cbn. now rewrite !Z.add_0_r.
  - destruct (HF 0%nat d sh eq_refl) as [Hg Hr]. rewrite Nat.add_0_r in Hr.
    rewrite fmap_cons in Hs. cbn [sumsOk fst] in Hs. destruct Hs as (H0 & Hne & Hs).
    run (apply (contribution_spec s a d x sh Hg Hr)).
    run (apply calls_run; rewrite Add_gp by apply Hg;
         rewrite (proj2 (Z.eqb_neq _ _) H0), (proj2 (Z.eqb_neq _ _) Hne); reflexivity).
    run (apply calls_run; reflexivity). run (apply calls_run; reflexivity).
    rewrite IH; [|intros i d' sh' Hi; rewrite Nat.add_succ_comm; now apply (HF (S i))|exact Hs].
    rewrite !zsum_cons. cbn [fst snd]. now rewrite !Z.add_assoc.
Qed.

Lemma combineKey_spec s x d sh ds t : dealt s x ((d, sh) :: ds) -> sumsOk (du d) ((fun p => du p.1) <$> ds) ->
  let all := (d, sh) :: ds in
  combineKey (length all) s t =
  Ret (gp (zsum (fun p => du p.1) all), zsum (fun p => dcc p.1) all mod q, zsum snd all mod q) s t.
Proof.
  intros HF Hs all. destruct (HF 0%nat d sh eq_refl) as [Hg Hr]. pose proof N_ge2. unfold combineKey, all. cbn [length].
  erewrite act_bind_run.
  2:{ run (apply (contribution_spec s 0 d x sh Hg Hr)).
      apply (sumContributions_spec s x t ds 1); [|exact Hs]. intros i d' sh' Hi. apply (HF (S i) d' sh' Hi). }
  cbv beta iota. run (apply calls_run; reflexivity). run (apply calls_run, Mod_pos; lia).
  run (apply calls_run; reflexivity). run (apply calls_run, Mod_pos; lia).
  rewrite !zsum_cons. done.
Qed.

(** Shares in range, away from the exceptional cases of the verification. *)
Definition regular (x : Z) (p : dealer * Z) : Prop :=
  nondegenerate x (dc0 p.1) x (dcs p.1) /\ 0 < p.2 < q.

Definition onPolynomial (x : Z) (p : dealer * Z) : bool := p.2 =? peval (dc0 p.1 :: dcs p.1) x mod q.

(** The shares the verification lets pass: reduced, and on the polynomial. *)
Definition reducedShare (sh : Z) : bool := (0 <? sh) && (sh <? q).
Definition goodShare (x : Z) (p : dealer * Z) : bool := reducedShare p.2 && onPolynomial x p.

(** A share of at most 32 bytes, away from the exceptional cases of the verification. *)
Definition bounded (x : Z) (p : dealer * Z) : Prop :=
  nondegenerate x (dc0 p.1) x (dcs p.1) /\ 0 <= p.2 < 2 ^ 256.

Lemma checkShares_outcome s x t ds : 0 < x < q -> forall a,
  (forall i d sh, ds !! i = Some (d, sh) -> goodDealer d /\ received s (a + i) d x sh) ->
  Forall (bounded x) ds ->
  forEach (seq a (length ds)) checkShare s t =
  match List.find (fun p => negb (goodShare x p)) ds with
  | None => Ret tt s t
  | Some p => if reducedShare p.2 then Fail "verify share data fail" s t else Crash
  end.
Proof.
  intros Hx. induction ds as [|[d sh] ds IH]; intros a HF Hp; [done|]. cbn [length seq forEach List.find].
  destruct (HF 0%nat d sh eq_refl) as [Hg Hr]. rewrite Nat.add_0_r in Hr.
  apply Forall_cons_1 in Hp as [[Hn Hsh] Hp]. cbn [fst snd] in Hn, Hsh.
  unfold mbind, act_bind, goodShare at 1. cbn [fst snd]. destruct (reducedShare sh) eqn:Er.
  - apply andb_true_iff in Er as Er'. rewrite !Z.ltb_lt in Er'.
    rewrite (checkShare_spec s a d x sh Hg Hr) by (assumption || lia).
    unfold onPolynomial at 1. cbn [fst snd andb]. destruct (sh =? _); cbn [negb snd]; [|now rewrite Er].
    apply IH; [|assumption]. intros i d' sh' Hi. rewrite Nat.add_succ_comm. now apply (HF (S i)).
  - cbn [andb negb snd]. rewrite Er. rewrite (checkShare_crash s a d x sh Hr); [done|assumption..|].
    unfold reducedShare in Er. destruct (Z.ltb_spec 0 sh), (Z.ltb_spec sh q); (discriminate Er || lia).
Qed.

Lemma checkShares_spec s x t ds : 0 < x < q -> forall a,
  (forall i d sh, ds !! i = Some (d, sh) -> goodDealer d /\ received s (a + i) d x sh) ->
  Forall (regular x) ds ->
  forEach (seq a (length ds)) checkShare s t =
  if forallb (onPolynomial x) ds then Ret tt s t else Fail "verify share data fail" s t.
Proof.
  intros Hx. induction ds as [|[d sh] ds IH]; intros a HF Hp; [done|]. cbn [length seq forEach forallb].
  destruct (HF 0%nat d sh eq_refl) as [Hg Hr]. rewrite Nat.add_0_r in Hr.
  apply Forall_cons_1 in Hp as [[Hn Hsh] Hp]. cbn [fst snd] in Hn, Hsh.
  unfold mbind, act_bind. rewrite (checkShare_spec s a d x sh Hg Hr) by assumption.
  unfold onPolynomial at 1. cbn [fst snd]. destruct (sh =? _); [cbn [andb]|done].
  apply IH; [|assumption]. intros i d' sh' Hi. rewrite Nat.add_succ_comm. now apply (HF (S i)).
Qed.

Lemma verifyAndCombine_spec s x d sh ds t : 0 < x < q -> let all := (d, sh) :: ds in
  dealt s x all -> Forall (regular x) all -> sumsOk (du d) ((fun p => du p.1) <$> ds) ->
  verifyAndCombine (length all) s t =
  if forallb (onPolynomial x) all
  then Ret (gp (zsum (fun p => du p.1) all), zsum (fun p => dcc p.1) all mod q, zsum snd all mod q) s t
  else Fail "verify share data fail" s t.
Proof.
  intros Hx all HF Hp Hs. unfold verifyAndCombine, mbind at 1, act_bind at 1.
  rewrite (checkShares_spec s x t all Hx 0) by assumption.
  destruct (forallb _ all); [now apply (combineKey_spec s x)|done].
Qed.

Lemma verifyAndCombine_outcome s x d sh ds t : 0 < x < q -> let all := (d, sh) :: ds in
  dealt s x all -> Forall (bounded x) all -> sumsOk (du d) ((fun p => du p.1) <$> ds) ->
  verifyAndCombine (length all) s t =
  match List.find (fun p => negb (goodShare x p)) all with
  | None => Ret (gp (zsum (fun p => du p.1) all), zsum (fun p => dcc p.1) all mod q, zsum snd all mod q) s t
  | Some p => if reducedShare p.2 then Fail "verify share data fail" s t else Crash
  end.
Proof.
  intros Hx all HF Hp Hs. unfold verifyAndCombine, mbind at 1, act_bind at 1.
  rewrite (checkShares_outcome s x t all Hx 0) by assumption.
  destruct (List.find _ all) as [p|]; [now destruct (reducedShare p.2)|now apply (combineKey_spec s x)].
Qed.
End round4.

(** * Sums of polynomials *)

Fixpoint padd (l m : list Z) : list Z :=
  match l, m with
  | [], _ => m
  | _, [] => l
  | a :: l', b :: m' => a + b :: padd l' m'
  end.

Lemma peval_padd l m x : peval (padd l m) x = peval l x + peval m x.
Proof.
  revert m. induction l as [|a l IH]; intros [|b m]; cbn [padd]; [done|done|cbn; ring|].
  rewrite !peval_cons, IH. ring.
Qed.

Lemma padd_length l m : length (padd l m) = Nat.max (length l) (length m).
Proof. revert m. induction l as [|a l IH]; intros [|b m]; cbn [padd length]; [done..|]. rewrite IH. lia. Qed.

(** The polynomial behind the shares of the key. *)
Definition tailSum (ds : list dealer) : list Z := foldr (fun d acc => padd (dcs d) acc) [] ds.

Lemma tailSum_peval ds x :
  peval (zsum dc0 ds :: tailSum ds) x = zsum (fun d => peval (dc0 d :: dcs d) x) ds.
Proof.
  induction ds as [|d ds IH]; [cbn; ring|]. rewrite !zsum_cons, <- IH, !peval_cons.
  cbn [tailSum foldr]. fold (tailSum ds). rewrite peval_padd. ring.
Qed.

Lemma tailSum_length ds t : Forall (fun d => (length (dcs d) <= t)%nat) ds -> (length (tailSum ds) <= t)%nat.
Proof.
  induction 1 as [|d ds Hd _ IH]; cbn [tailSum foldr length]; [lia|]. fold (tailSum ds). rewrite padd_length. lia.
Qed.

(** * The group *)

Section group.
Context `{L : CurveLaws}.
Abbreviation q := (cN S256).

(** The shares the dealers give to the node [x]. *)
Definition sharesFor (ds : list dealer) (x : Z) : list (dealer * Z) :=
  (fun d => (d, peval (dc0 d :: dcs d) x mod q)) <$> ds.

(** The node's share of the key. *)
Definition keyShare (ds : list dealer) (x : Z) : Z := zsum snd (sharesFor ds x) mod q.

Lemma zsum_fmap {A B} (f : B -> Z) (g : A -> B) l : zsum f (g <$> l) = zsum (fun a => f (g a)) l.
Proof. induction l as [|a l IH]; [done|]. rewrite fmap_cons, !zsum_cons. now rewrite IH. Qed.

Lemma keyShare_spec ds x : keyShare ds x = peval (zsum dc0 ds :: tailSum ds) x mod q.
Proof.
  unfold keyShare, sharesFor. rewrite zsum_fmap, tailSum_peval. apply eqm_mod_eq.
  apply zsum_eqm. intros d _. cbn. now rewrite eqm_mod.
Qed.

(** Enough shares recombine to the sum of the dealt secrets. *)
Lemma keyShares_combine ds xs t : distinct q xs -> xs <> [] ->
  Forall (fun d => (length (dcs d) <= t)%nat) ds -> (t < length xs)%nat ->
  Combine2 ((fun x => mkShare (Some x) (Some (keyShare ds x))) <$> xs) = Ok (Some (zsum dc0 ds mod q)).
Proof.
  intros Hd Hne Ht Hlen. rewrite <- (Combine2_shares (zsum dc0 ds) (tailSum ds) xs N_prime Hd Hne).
  - f_equal. rewrite <- list_fmap_compose. apply list_fmap_ext. intros i x _. cbn.
    unfold shareOf, shareAt. cbn. now rewrite keyShare_spec.
  - cbn [length]. pose proof (tailSum_length ds t Ht). lia.
Qed.

(** Every node of the group holds the dealers' messages. *)
Definition groupState (st : Z -> LocalDNode) (d : dealer) (ds : list dealer) (xs : list Z) : Prop :=
  sumsOk (du d) (du <$> ds) /\
  forall x, x ∈ xs -> 0 < x < q /\ dealt (st x) x (sharesFor (d :: ds) x) /\
                      Forall (regular x) (sharesFor (d :: ds) x).

Lemma group_round4 st d ds xs x t : groupState st d ds xs -> x ∈ xs ->
  verifyAndCombine (S (length ds)) (st x) t =
  Ret (gp (zsum du (d :: ds)), zsum dcc (d :: ds) mod q, keyShare (d :: ds) x) (st x) t.
Proof.
  intros [Hs Hg] Hx. destruct (Hg x Hx) as (Hx0 & Hd & Hr). unfold sharesFor in Hd, Hr. rewrite fmap_cons in Hd, Hr.
  pose proof (verifyAndCombine_spec (st x) x d _ _ t Hx0 Hd Hr) as H. cbn [length] in H. rewrite length_fmap in H.
  rewrite H; clear H.
  - unfold keyShare, sharesFor. rewrite fmap_cons. rewrite !zsum_cons, !zsum_fmap. cbn [fst snd].
    replace (forallb _ _) with true; [done|]. symmetry. apply forallb_forall.
    intros p [[= ->]|Hp]%list_elem_of_In%elem_of_cons; [apply Z.eqb_refl|].
    apply list_elem_of_fmap in Hp as (d' & -> & _). apply Z.eqb_refl.
  - rewrite <- list_fmap_compose. exact Hs.
Qed.
End group.

(** * Claims *)

(** C1: key generation shares a key.  When every node holds consistent messages of
    all dealers, the key part of round 4 ([verifyAndCombine], before the node makes its
    auxiliary parameters) succeeds at every node, every node computes the same
    public key [u*G], where [u] is the sum of the dealers' secrets, and the same
    chain code, and the private shares of any more than [t] nodes, in any order,
    recombine with [Combine2] to [u] ([t] bounds the degree of the polynomials). *)
Theorem keygen_shares_key `{L : CurveLaws} st d ds xs nodes t :
  groupState st d ds xs -> Forall (fun d => [mod cN S256] du d == dc0 d) (d :: ds) ->
  nodes ⊆ xs -> distinct (cN S256) nodes -> (t < length nodes)%nat ->
  Forall (fun d => (length (dcs d) <= t)%nat) (d :: ds) ->
  let u := zsum du (d :: ds) in
  exists c sk,
    (forall x tape, x ∈ xs ->
       verifyAndCombine (S (length ds)) (st x) tape = Ret (gp u, c, sk x) (st x) tape) /\
    Combine2 ((fun x => mkShare (Some x) (Some (sk x))) <$> nodes) = Ok (Some (u mod cN S256)).
Proof.
  intros Hg Hc Hn Hd Hlen Ht u. exists (zsum dcc (d :: ds) mod cN S256), (keyShare (d :: ds)). split.
  - intros x tape Hx. eapply group_round4; eauto.
  - rewrite (keyShares_combine (d :: ds) nodes t Hd) by (assumption || (intros ->; cbn in Hlen; lia)).
    do 2 f_equal. apply eqm_mod_eq. unfold u. apply zsum_eqm. intros d' Hd'. rewrite Forall_forall in Hc.
    now rewrite (Hc d' Hd').
Qed.

(** C14: round 4 does not compare the polynomial a node publishes with the point it
    committed to in round 1.  When the two differ in sum, every node still accepts,
    and the public key they agree on is not that of the secret they share. *)
Theorem round4_accepts_other_key `{L : CurveLaws} st d ds xs nodes t :
  groupState st d ds xs -> ~ [mod cN S256] zsum du (d :: ds) == zsum dc0 (d :: ds) ->
  nodes ⊆ xs -> distinct (cN S256) nodes -> (t < length nodes)%nat ->
  Forall (fun d => (length (dcs d) <= t)%nat) (d :: ds) ->
  exists pk c sk secret,
    (forall x tape, x ∈ xs ->
       verifyAndCombine (S (length ds)) (st x) tape = Ret (pk, c, sk x) (st x) tape) /\
    Combine2 ((fun x => mkShare (Some x) (Some (sk x))) <$> nodes) = Ok (Some secret) /\
    gp secret <> pk.
Proof.
  intros Hg Hc Hn Hd Hlen Ht.
  exists (gp (zsum du (d :: ds))), (zsum dcc (d :: ds) mod cN S256), (keyShare (d :: ds)),
    (zsum dc0 (d :: ds) mod cN S256). split; [|split].
  - intros x tape Hx. eapply group_round4; eauto.
  - apply (keyShares_combine (d :: ds) nodes t Hd); (assumption || (intros ->; cbn in Hlen; lia)).
  - intros H%gp_inj. apply Hc. rewrite eqm_mod in H. now symmetry.
Qed.

(** C13: the first part of round 4, [verifyAndCombine], decides the shares.  When the
    commitments and chain codes of the dealers verify, the shares have at most 32 bytes
    and no sum meets the exceptional cases of the point addition, the nodes are checked
    in order: the key, the chain code and the private share are the sums of the dealers'
    contributions when every share is reduced, not zero and on the polynomial its dealer
    published; the first share that is not makes the round return the error when it is
    reduced and not zero, and panic when it is zero or at least the group order. *)
Theorem round4_decides_shares `{L : CurveLaws} s x d sh ds t :
  0 < x < cN S256 -> let all := (d, sh) :: ds in
  dealt s x all -> Forall (bounded x) all -> sumsOk (du d) ((fun p => du p.1) <$> ds) ->
  let reduced (p : dealer * Z) := (0 <? p.2) && (p.2 <? cN S256) in
  let onPoly (p : dealer * Z) := p.2 =? peval (dc0 p.1 :: dcs p.1) x mod cN S256 in
  verifyAndCombine (length all) s t =
  match List.find (fun p => negb (reduced p && onPoly p)) all with
  | None => Ret (gp (zsum (fun p => du p.1) all), zsum (fun p => dcc p.1) all mod cN S256,
                 zsum snd all mod cN S256) s t
  | Some p => if reduced p then Fail "verify share data fail" s t else Crash
  end.
Proof. intros Hx all HF Hp Hs reduced onPoly. exact (verifyAndCombine_outcome s x d sh ds t Hx HF Hp Hs). Qed.

(** ** Two dealers on the small curve *)

Definition dealState (shares : list (dealer * Z)) (x : Z) : LocalDNode :=
  let h := mkHeader "31" 0 [] in
  let at_ (f : dealer * Z -> Message) := (fun p => Some (f p)) <$> shares in
  mkNode None "31" 2 2 2048 (fun sl =>
    match sl with
    | S1 => at_ (fun p => KGRound1Message h
              (Some (commitHash (commitMessage (dr p.1) (coords (keyPoints p.1)))))
              (Some (commitHash (commitMessage (dcr p.1) (coords (chainPoints p.1))))) None)
    | S2 => at_ (fun p => KGRound2Message h (Some x) (Some p.2))
    | S21 => at_ (fun p => KGRound2Message1 h (Some (dcc p.1)))
    | S3 => at_ (fun p => KGRound3Message h
              (Some <$> (dr p.1 :: coords (keyPoints p.1))) (Some <$> (dcr p.1 :: coords (chainPoints p.1)))
              (points (dc0 p.1 :: dcs p.1)))
    | _ => []
    end) emptyTemp (NewLocalDNodeSaveData 2) [] [] [].

Lemma dealState_received shares x k d sh : shares !! k = Some (d, sh) -> received (dealState shares x) k d x sh.
Proof.
  intros H. split; [|split; [|split]]; repeat eexists; cbn [nMsgs dealState]; rewrite list_lookup_fmap, H; reflexivity.
Qed.

Definition dealerA : dealer := mkDealer 5 [] 11 7 [] 12 5 [9].
Definition dealerB : dealer := mkDealer 20 [] 13 8 [] 14 20 [30].
(** publishes another polynomial than it committed to *)
Definition dealerC : dealer := mkDealer 20 [] 13 8 [] 14 21 [30].

Lemma dealState_group db : db = dealerB \/ db = dealerC ->
  groupState (fun x => dealState (sharesFor [dealerA; db] x) x) dealerA [db] [1; 2].
Proof.
  intros Hdb. split; [destruct Hdb as [->| ->]; vm_compute; repeat split; discriminate|].
  intros x Hx. assert (Hx' : x = 1 \/ x = 2) by set_solver. split; [destruct Hx' as [->| ->]; vm_compute; split; reflexivity|].
  split.
  - intros k d sh Hk. split; [|now apply dealState_received].
    assert (Hd : d = dealerA \/ d = db).
    { apply list_elem_of_lookup_2 in Hk. unfold sharesFor in Hk. apply list_elem_of_fmap in Hk as (d' & [= -> _] & Hd).
      set_solver. }
    destruct Hd as [->| ->]; [|destruct Hdb as [->| ->]];
      (split; [vm_compute; discriminate|]; split; [vm_compute; split; reflexivity|split; constructor]).
  - destruct Hx' as [->| ->], Hdb as [->| ->]; repeat constructor; vm_compute; (discriminate || reflexivity).
Qed.

Lemma keygen_shares_key_witness :
  exists c sk, 
    (forall x tape, x ∈ [1; 2] ->
       verifyAndCombine 2 (dealState (sharesFor [dealerA; dealerB] x) x) tape
       = Ret (gp 25, c, sk x) (dealState (sharesFor [dealerA; dealerB] x) x) tape) /\
    Combine2 ((fun x => mkShare (Some x) (Some (sk x))) <$> [1; 2]) = Ok (Some 25).
Proof.
  refine (keygen_shares_key (L := toy_laws) _ dealerA [dealerB] [1; 2] [1; 2] 1
    (dealState_group dealerB (or_introl eq_refl)) _ _ _ _ _); cbn.
  - repeat constructor; now apply eqm_iff.
  - done.
  - refine (bool_decide_eq_true_1 _ _). vm_compute. reflexivity.
  - lia.
  - repeat constructor.
Defined.

Lemma round4_accepts_other_key_witness :
  exists pk c sk secret,
    (forall x tape, x ∈ [1; 2] ->
       verifyAndCombine 2 (dealState (sharesFor [dealerA; dealerC] x) x) tape
       = Ret (pk, c, sk x) (dealState (sharesFor [dealerA; dealerC] x) x) tape) /\
    Combine2 ((fun x => mkShare (Some x) (Some (sk x))) <$> [1; 2]) = Ok (Some secret) /\
    gp secret <> pk.
Proof.
  refine (round4_accepts_other_key (L := toy_laws) _ dealerA [dealerC] [1; 2] [1; 2] 1
    (dealState_group dealerC (or_intror eq_refl)) _ _ _ _ _); cbn.
  - intros H%eqm_iff. vm_compute in H. discriminate H.
  - done.
  - refine (bool_decide_eq_true_1 _ _). vm_compute. reflexivity.
  - lia.
  - repeat constructor.
Defined.

(** The second dealer's share is off by one, or zero. *)
Lemma round4_decides_shares_witness :
  let shares sh := [(dealerA, 14); (dealerB, sh)] in
  verifyAndCombine 2 (dealState (shares 51) 1) [] = Fail "verify share data fail" (dealState (shares 51) 1) [] /\
  verifyAndCombine 2 (dealState (shares 0) 1) [] = Crash.
Proof.
  intros shares.
  assert (Hd : forall sh, dealt (L := toy_laws) (dealState (shares sh) 1) 1 (shares sh)).
  { intros sh k d sh' Hk. split; [|now apply dealState_received].
    destruct k as [|[|k]]; cbn in Hk; [injection Hk as <- <-|injection Hk as <- <-|discriminate];
      (split; [vm_compute; discriminate|]; split; [vm_compute; split; reflexivity|split; constructor]). }
  split.
  - refine (eq_trans (round4_decides_shares (L := toy_laws) (dealState (shares 51) 1) 1 dealerA 14 [(dealerB, 51)] []
      _ (Hd 51) _ _) _); [split; reflexivity| | |reflexivity].
    + repeat constructor; vm_compute; (discriminate || reflexivity).
    + vm_compute. repeat split; discriminate.
  - refine (eq_trans (round4_decides_shares (L := toy_laws) (dealState (shares 0) 1) 1 dealerA 14 [(dealerB, 0)] []
      _ (Hd 0) _ _) _); [split; reflexivity| | |reflexivity].
    + repeat constructor; vm_compute; (discriminate || reflexivity).
    + vm_compute. repeat split; discriminate.
Defined.
