(* ===== verification/SgMessage.v ===== *)
(** The messages of ECDSA signing, [smpc-lib/ecdsa/signing/message.go], and their
    decoding on arrival, [SignGetRealMessage] of [smpc/sign_ec.go]. *)

From Stdlib Require Import ZArith Lia.
From stdpp Require Import gmap strings.
From S2P Require Import Prelude Text Json IntGo Secp256k1 Paillier Schnorr MtA Common Gg20Zk KgMessage.

#[local] Open Scope Z_scope.

(** The header has the fields of the one of key generation. *)
Definition SignRoundMessage : Type := KGRoundMessage.

Inductive SignMessage :=
| SignRound1Message (srm : SignRoundMessage) (C11 ComWiC : bigint)
| SignRound2Message (srm : SignRoundMessage) (U1u1MtAZK1Proof : option MtARangeProof)
| SignRound3Message (srm : SignRoundMessage) (Kc : bigint) (ComWiD : list bigint)
| SignRound4Message (srm : SignRoundMessage) (U1KGamma1Cipher : bigint) (U1u1MtAZK2Proof : option MtARespZKProof)
| SignRound4Message1 (srm : SignRoundMessage) (U1Kw1Cipher : bigint) (U1u1MtAZK3Proof : option MtAwcRespZKProof)
| SignRound5Message (srm : SignRoundMessage) (Delta1 T1X T1Y : bigint) (Tpf : option TProof)
| SignRound6Message (srm : SignRoundMessage) (CommU1D : list bigint) (U1GammaZKProof : option ZkUProof)
| SignRound7Message (srm : SignRoundMessage) (K1RX K1RY : bigint) (PdlwSlackPf : option PDLwSlackProof)
| SignRound8Message (srm : SignRoundMessage) (S1X S1Y : bigint) (STpf : option STProof)
| SignRound9Message (srm : SignRoundMessage) (Us1 : bigint).

Definition signHeader (m : SignMessage) : SignRoundMessage :=
  match m with
  | SignRound1Message srm _ _ | SignRound2Message srm _ | SignRound3Message srm _ _
  | SignRound4Message srm _ _ | SignRound4Message1 srm _ _ | SignRound5Message srm _ _ _ _
  | SignRound6Message srm _ _ | SignRound7Message srm _ _ _ | SignRound8Message srm _ _ _
  | SignRound9Message srm _ => srm
  end.

Definition signFromID (m : SignMessage) : string := FromID (signHeader m).
Definition signFromIndex (m : SignMessage) : Z := FromIndex (signHeader m).
Definition signToID (m : SignMessage) : list string := ToID (signHeader m).

Definition signIsBroadcast (m : SignMessage) : bool :=
  match m with
  | SignRound2Message _ _ | SignRound4Message _ _ _ | SignRound4Message1 _ _ _ => false
  | _ => true
  end.

Definition signMsgType (m : SignMessage) : string :=
  match m with
  | SignRound1Message _ _ _ => "SignRound1Message"
  | SignRound2Message _ _ => "SignRound2Message"
  | SignRound3Message _ _ _ => "SignRound3Message"
  | SignRound4Message _ _ _ => "SignRound4Message"
  | SignRound4Message1 _ _ _ => "SignRound4Message1"
  | SignRound5Message _ _ _ _ _ => "SignRound5Message"
  | SignRound6Message _ _ _ => "SignRound6Message"
  | SignRound7Message _ _ _ _ => "SignRound7Message"
  | SignRound8Message _ _ _ _ => "SignRound8Message"
  | SignRound9Message _ _ => "SignRound9Message"
  end.

(** * Encoding *)

Section outmap.
Context `{J : JsonLib}.

Definition signHeaderMap (m : SignMessage) : smap :=
  <["Type" := signMsgType m]> (
  <["ToID" := if signIsBroadcast m then "" else Join colon (signToID m)]> (
  <["FromIndex" := Itoa (signFromIndex m)]> (
  <["FromID" := signFromID m]> ∅))).

(** The bodies of [OutMap], one per message type; a nil proof panics. *)
Definition SignOutMap1 (h : smap) (C11 ComWiC : bigint) : res smap :=
  Ok (<["ComWiC" := Sprintf_v ComWiC]> (<["C11" := Sprintf_v C11]> h)).

Definition SignOutMap2 (h : smap) (pf : option MtARangeProof) : res smap :=
  pf ← deref pf;
  Ok (<["U1u1MtAZK1Proof" := MtARangeProof_MarshalJSON pf]> h).

Definition SignOutMap3 (h : smap) (Kc : bigint) (ComWiD : list bigint) : res smap :=
  Ok (<["ComWiD" := joinInts ComWiD]> (<["Kc" := Sprintf_v Kc]> h)).

Definition SignOutMap4 (h : smap) (cipher : bigint) (pf : option MtARespZKProof) : res smap :=
  pf ← deref pf;
  Ok (<["U1KGamma1Cipher" := Sprintf_v cipher]> (
      <["U1u1MtAZK2Proof" := MtARespZKProof_MarshalJSON pf]> h)).

Definition SignOutMap41 (h : smap) (cipher : bigint) (pf : option MtAwcRespZKProof) : res smap :=
  pf ← deref pf;
  Ok (<["U1Kw1Cipher" := Sprintf_v cipher]> (
      <["U1u1MtAZK3Proof" := MtAwcRespZKProof_MarshalJSON pf]> h)).

Definition SignOutMap5 (h : smap) (Delta1 T1X T1Y : bigint) (Tpf : option TProof) : res smap :=
  pf ← deref Tpf;
  Ok (<["Tpf" := TProof_MarshalJSON pf]> (
      <["T1Y" := Sprintf_v T1Y]> (<["T1X" := Sprintf_v T1X]> (<["Delta1" := Sprintf_v Delta1]> h)))).

Definition SignOutMap6 (h : smap) (CommU1D : list bigint) (zk : option ZkUProof) : res smap :=
  zk ← deref zk;
  Ok (<["CommU1D" := joinInts CommU1D]> (<["U1GammaZKProof" := Schnorr_MarshalJSON zk]> h)).

Definition SignOutMap7 (h : smap) (K1RX K1RY : bigint) (pf : option PDLwSlackProof) : res smap :=
  pf ← deref pf;
  Ok (<["PdlwSlackPf" := PDLwSlackProof_MarshalJSON pf]> (
      <["K1RY" := Sprintf_v K1RY]> (<["K1RX" := Sprintf_v K1RX]> h))).

Definition SignOutMap8 (h : smap) (S1X S1Y : bigint) (pf : option STProof) : res smap :=
  pf ← deref pf;
  Ok (<["STpf" := STProof_MarshalJSON pf]> (
      <["S1Y" := Sprintf_v S1Y]> (<["S1X" := Sprintf_v S1X]> h))).

Definition SignOutMap9 (h : smap) (Us1 : bigint) : res smap := Ok (<["Us1" := Sprintf_v Us1]> h).

Definition SignOutMap (m : SignMessage) : res smap :=
  let h := signHeaderMap m in
  match m with
  | SignRound1Message _ C11 ComWiC => SignOutMap1 h C11 ComWiC
  | SignRound2Message _ pf => SignOutMap2 h pf
  | SignRound3Message _ Kc ComWiD => SignOutMap3 h Kc ComWiD
  | SignRound4Message _ cipher pf => SignOutMap4 h cipher pf
  | SignRound4Message1 _ cipher pf => SignOutMap41 h cipher pf
  | SignRound5Message _ delta x y pf => SignOutMap5 h delta x y pf
  | SignRound6Message _ d zk => SignOutMap6 h d zk
  | SignRound7Message _ x y pf => SignOutMap7 h x y pf
  | SignRound8Message _ x y pf => SignOutMap8 h x y pf
  | SignRound9Message _ us1 => SignOutMap9 h us1
  end.
End outmap.

(** * Decoding *)

Section real.
Context `{J : JsonLib}.

(** A missing or empty entry, a number that does not parse and a proof that does
    not decode all end with nil. *)
Definition getNumber (msg : smap) (k : string) (f : Z -> res (option SignMessage)) : res (option SignMessage) :=
  if String.eqb (mget msg k) "" then Ok None else
  match mgetInt msg k with Some z => f z | None => Ok None end.

Definition getProof {A} (msg : smap) (k : string) (dec : string -> res A) (f : A -> res (option SignMessage))
  : res (option SignMessage) :=
  if String.eqb (mget msg k) "" then Ok None else
  match dec (mget msg k) with Ok a => f a | Err _ => Ok None | Panic => Panic | Starve => Starve end.

Definition getNumbers (msg : smap) (k : string) (f : list Z -> res (option SignMessage)) : res (option SignMessage) :=
  if String.eqb (mget msg k) "" then Ok None else
  match splitInts (mget msg k) with Some l => f l | None => Ok None end.

(** The messages of the rounds 5 to 9, *)
Definition signRealLate (msg : smap) (srm : SignRoundMessage) : res (option SignMessage) :=
  let ty := mget msg "Type" in
  if String.eqb ty "SignRound5Message" then
    getProof msg "Tpf" TProof_UnmarshalJSON (fun proof =>
    getNumber msg "Delta1" (fun delta => getNumber msg "T1X" (fun t1x => getNumber msg "T1Y" (fun t1y =>
    Ok (Some (SignRound5Message srm (Some delta) (Some t1x) (Some t1y) (Some proof)))))))
  else if String.eqb ty "SignRound6Message" then
    getProof msg "U1GammaZKProof" Schnorr_UnmarshalJSON (fun proof =>
    getNumbers msg "CommU1D" (fun dtmp =>
    Ok (Some (SignRound6Message srm (Some <$> dtmp) (Some proof)))))
  else if String.eqb ty "SignRound7Message" then
    getProof msg "PdlwSlackPf" PDLwSlackProof_UnmarshalJSON (fun proof =>
    getNumber msg "K1RX" (fun k1rx => getNumber msg "K1RY" (fun k1ry =>
    Ok (Some (SignRound7Message srm (Some k1rx) (Some k1ry) (Some proof))))))
  else if String.eqb ty "SignRound8Message" then
    getProof msg "STpf" STProof_UnmarshalJSON (fun proof =>
    getNumber msg "S1X" (fun s1x => getNumber msg "S1Y" (fun s1y =>
    Ok (Some (SignRound8Message srm (Some s1x) (Some s1y) (Some proof))))))
  else if String.eqb ty "SignRound9Message" then
    getNumber msg "Us1" (fun us1 => Ok (Some (SignRound9Message srm (Some us1))))
  else Ok None.

(** and before them the rounds 1 to 4. *)
Definition signReal (msg : smap) (srm : SignRoundMessage) : res (option SignMessage) :=
  let ty := mget msg "Type" in
  if String.eqb ty "SignRound1Message" then
    getNumber msg "C11" (fun c11 => getNumber msg "ComWiC" (fun wic =>
    Ok (Some (SignRound1Message srm (Some c11) (Some wic)))))
  else if String.eqb ty "SignRound2Message" then
    getProof msg "U1u1MtAZK1Proof" MtARangeProof_UnmarshalJSON (fun proof =>
    Ok (Some (SignRound2Message srm (Some proof))))
  else if String.eqb ty "SignRound3Message" then
    getNumber msg "Kc" (fun kc => getNumbers msg "ComWiD" (fun dtmp =>
    Ok (Some (SignRound3Message srm (Some kc) (Some <$> dtmp)))))
  else if String.eqb ty "SignRound4Message" then
    getProof msg "U1u1MtAZK2Proof" MtARespZKProof_UnmarshalJSON (fun proof =>
    getNumber msg "U1KGamma1Cipher" (fun cipher =>
    Ok (Some (SignRound4Message srm (Some cipher) (Some proof)))))
  else if String.eqb ty "SignRound4Message1" then
    getProof msg "U1u1MtAZK3Proof" MtAwcRespZKProof_UnmarshalJSON (fun proof =>
    getNumber msg "U1Kw1Cipher" (fun cipher =>
    Ok (Some (SignRound4Message1 srm (Some cipher) (Some proof)))))
  else signRealLate msg srm.

Definition SignGetRealMessage (msg : smap) : res (option SignMessage) :=
  let from := mget msg "FromID" in
  if String.eqb from "" then Ok None else
  let v := mget msg "ToID" in
  let to := if String.eqb v "" then [] else Split colon v in
  match Atoi (mget msg "FromIndex") with
  | Ok index => signReal msg (mkHeader from index to)
  | _ => Ok None
  end.
End real.

(** * Messages survive the wire *)

Section wire.
Context `{J : JsonLaws}.

Definition signHeaderOk (m : SignMessage) : Prop :=
  FromID (signHeader m) <> "" /\ - 2 ^ 63 <= FromIndex (signHeader m) < 2 ^ 63 /\
  if signIsBroadcast m then ToID (signHeader m) = []
  else Forall (fun s => s <> "" /\ noSep colon s = true) (ToID (signHeader m)).

(** No field is nil, in the proofs neither. *)
Definition signBodyOk (m : SignMessage) : Prop :=
  match m with
  | SignRound1Message _ (Some _) (Some _) => True
  | SignRound2Message _ (Some pf) =>
      MtARangeProof_UnmarshalJSON (MtARangeProof_MarshalJSON pf) = Ok pf
  | SignRound3Message _ (Some _) d => intsOk d
  | SignRound4Message _ (Some _) (Some pf) =>
      MtARespZKProof_UnmarshalJSON (MtARespZKProof_MarshalJSON pf) = Ok pf
  | SignRound4Message1 _ (Some _) (Some pf) =>
      MtAwcRespZKProof_UnmarshalJSON (MtAwcRespZKProof_MarshalJSON pf) = Ok pf
  | SignRound5Message _ (Some _) (Some _) (Some _) (Some pf) =>
      TProof_UnmarshalJSON (TProof_MarshalJSON pf) = Ok pf
  | SignRound6Message _ d (Some zk) =>
      intsOk d /\ Schnorr_UnmarshalJSON (Schnorr_MarshalJSON zk) = Ok zk
  | SignRound7Message _ (Some _) (Some _) (Some pf) =>
      PDLwSlackProof_UnmarshalJSON (PDLwSlackProof_MarshalJSON pf) = Ok pf
  | SignRound8Message _ (Some _) (Some _) (Some pf) =>
      STProof_UnmarshalJSON (STProof_MarshalJSON pf) = Ok pf
  | SignRound9Message _ (Some _) => True
  | _ => False
  end.

Lemma SignGetRealMessage_header m o msg : o ⊆ msg ->
  (forall k v, signHeaderMap m !! k = Some v -> o !! k = Some v) -> signHeaderOk m ->
  SignGetRealMessage msg = signReal msg (signHeader m) /\ mget msg "Type" = signMsgType m.
Proof.
  intros Hs Ho (Hf & Hi & Ht). unfold SignGetRealMessage.
  rewrite !(mget_sub o msg "FromID" (signFromID m)), (mget_sub o msg "FromIndex" (Itoa (signFromIndex m))),
    !(mget_sub o msg "ToID" (if signIsBroadcast m then "" else Join colon (signToID m))),
    (mget_sub o msg "Type" (signMsgType m)) by (assumption || (apply Ho; unfold signHeaderMap; map_look)).
  split; [|done]. unfold signFromID, signFromIndex. rewrite (eqb_nonempty _ Hf). rewrite Atoi_Itoa by assumption.
  assert (Hto : (if String.eqb (if signIsBroadcast m then "" else Join colon (signToID m)) "" then []
    else Split colon (if signIsBroadcast m then "" else Join colon (signToID m))) = ToID (signHeader m)).
  { destruct (signIsBroadcast m); [now rewrite Ht|]. unfold signToID in *.
    now apply receivers_read_back. }
  rewrite Hto. now destruct (signHeader m).
Qed.

Lemma SignOutMap_header m o : SignOutMap m = Ok o ->
  forall k v, signHeaderMap m !! k = Some v -> o !! k = Some v.
Proof.
  intros Ho k v Hk.
  assert (Hin : k = "Type" \/ k = "ToID" \/ k = "FromIndex" \/ k = "FromID").
  { unfold signHeaderMap in Hk. rewrite !lookup_insert_Some, lookup_empty in Hk. naive_solver. }
  destruct m as [| ? [] | | ? ? [] | ? ? [] | ? ? ? ? [] | ? ? [] | ? ? ? [] | ? ? ? [] | ];
    cbn [SignOutMap SignOutMap1 SignOutMap2 SignOutMap3 SignOutMap4 SignOutMap41 SignOutMap5 SignOutMap6
      SignOutMap7 SignOutMap8 SignOutMap9 deref mbind res_bind] in Ho; try discriminate; injection Ho as <-;
    repeat (rewrite lookup_insert_ne by naive_solver); exact Hk.
Qed.

(** Reading an entry that is there. *)
Lemma getNumber_sub (o msg : smap) k z f : o ⊆ msg -> o !! k = Some (Sprintf_v (Some z)) ->
  getNumber msg k f = f z.
Proof.
  intros Hs Hk. unfold getNumber. rewrite (mgetInt_sub o msg k z), (mget_sub o msg k _ Hs Hk) by assumption.
  now rewrite (eqb_nonempty _ (Sprintf_nonempty _)).
Qed.

Lemma getProof_sub {A} (o msg : smap) k obj (dec : string -> res A) a f : o ⊆ msg ->
  o !! k = Some (json_Marshal obj) -> dec (json_Marshal obj) = Ok a -> getProof msg k dec f = f a.
Proof.
  intros Hs Hk Hd. unfold getProof. rewrite (mget_sub o msg k _ Hs Hk), Hd.
  now rewrite (eqb_nonempty _ (json_nonempty _)).
Qed.

Lemma getNumbers_sub (o msg : smap) k zs f : o ⊆ msg -> o !! k = Some (joinInts (Some <$> zs)) -> zs <> [] ->
  getNumbers msg k f = f zs.
Proof.
  intros Hs Hk Hz. unfold getNumbers. rewrite (mget_sub o msg k _ Hs Hk), splitInts_join by assumption.
  now rewrite (eqb_nonempty _ (joinInts_nonempty zs Hz)).
Qed.
End wire.

(** * Claims *)

(** Every signing message a node sends reaches the receiver unchanged. *)
Theorem sign_message_roundtrip `{J : JsonLaws} m : signHeaderOk m -> signBodyOk m ->
  exists o, SignOutMap m = Ok o /\ forall msg, o ⊆ msg -> SignGetRealMessage msg = Ok (Some m).
Proof.
  intros Hh Hb. assert (Hex : exists o, SignOutMap m = Ok o).
  { destruct m as [| ? [] | ? [] | ? [] [] | ? [] [] | ? [] [] [] [] | ? ? [] | ? [] [] [] | ? [] [] [] | ];
      cbn in Hb |- *; try done; eauto. }
  destruct Hex as [o Ho]. exists o. split; [done|]. intros msg Hs.
  destruct (SignGetRealMessage_header m o msg Hs (SignOutMap_header m o Ho) Hh) as [-> HT].
  unfold signReal, signRealLate. rewrite HT.
  destruct m as [srm [c|] [w|] | srm [pf|] | srm [kc|] d | srm [c|] [pf|] | srm [c|] [pf|]
    | srm [dl|] [x|] [y|] [pf|] | srm d [zk|] | srm [x|] [y|] [pf|] | srm [x|] [y|] [pf|] | srm [us|] ];
    cbn in Hb; try done.
  all: cbn [signMsgType String.eqb Ascii.eqb Bool.eqb signHeader].
  all: cbn [SignOutMap SignOutMap1 SignOutMap2 SignOutMap3 SignOutMap4 SignOutMap41 SignOutMap5 SignOutMap6
      SignOutMap7 SignOutMap8 SignOutMap9 deref mbind res_bind] in Ho; injection Ho as <-.
  all: lazymatch type of Hb with
       | _ /\ _ => destruct Hb as [(zs & -> & Hz) Hb]
       | intsOk _ => destruct Hb as (zs & -> & Hz)
       | _ => idtac
       end.
  all: repeat first [ erewrite getNumber_sub by (exact Hs || map_look)
                    | erewrite getProof_sub by (exact Hs || map_look || exact Hb)
                    | erewrite getNumbers_sub by (exact Hs || map_look || assumption) ].
  all: done.
Qed.

Lemma sign_message_roundtrip_witness :
  let m := SignRound3Message (mkHeader "31" 0 []) (Some 15723) [Some 3; Some (-2); Some 34] in
  exists o, SignOutMap m = Ok o /\ SignGetRealMessage (<["Sig" := "00"]> o) = Ok (Some m).
Proof.
  intros m. destruct (sign_message_roundtrip m) as (o & Ho & HG).
  - split; [discriminate|]. split; [split; [discriminate|reflexivity]|reflexivity].
  - exists [3; -2; 34]. split; [reflexivity|discriminate].
  - exists o. split; [exact Ho|]. apply HG, insert_subseteq. injection Ho as <-. reflexivity.
Defined.
