(* ===== verification/Signing.v ===== *)
(** A party of ECDSA signing, [smpc-lib/ecdsa/signing]: its state
    ([local_dnode.go]), the bookkeeping of the rounds ([rounds.go]), the nine
    rounds of the pre-signature ([round_1.go] to [round_9.go]) and the two that
    finish a signature ([round_10.go], [round_11.go]).

    As in [Keygen], the rounds share one [base], a [SignDNode] holds it beside the
    data it points to, and a send on a channel appends to a log. *)

From Stdlib Require Import ZArith Lia.
From stdpp Require Import gmap strings.
From S2P Require Import Prelude GoBig Random Text Hex IntGo Secp256k1 Vss2 Commit Paillier Schnorr Ntilde.
From S2P Require Import Json MtA Common Gg20Zk DNode KgMessage KgSave SgMessage.

#[local] Open Scope Z_scope.

(** * Data *)

(** [signRound1Messages] and so on. *)
Inductive signSlot := R1 | R2 | R3 | R4 | R41 | R5 | R6 | R7 | R8 | R9.

#[export] Instance signSlot_eq_dec : EqDecision signSlot.
Proof. solve_decision. Defined.

Definition signSlotOf (m : SignMessage) : signSlot :=
  match m with
  | SignRound1Message _ _ _ => R1
  | SignRound2Message _ _ => R2
  | SignRound3Message _ _ _ => R3
  | SignRound4Message _ _ _ => R4
  | SignRound4Message1 _ _ _ => R41
  | SignRound5Message _ _ _ _ _ => R5
  | SignRound6Message _ _ _ => R6
  | SignRound7Message _ _ _ _ => R7
  | SignRound8Message _ _ _ _ => R8
  | SignRound9Message _ _ => R9
  end.

(** Pre-signature: [R] is the [x]-coordinate of the nonce's point. *)
Record PrePubData := mkPrePub { K1 : bigint; ppR : bigint; Ry : bigint; Sigma1 : bigint }.

Record signTemp := mkSignTemp {
  (* round 1 *)
  w1 : bigint; u1K : bigint; u1Gamma : bigint;
  commitU1GammaG : option Commitment; commitwiG : option Commitment;
  (* round 2 *)
  ukc : bigint; ukc2 : bigint;
  (* round 4 *)
  betaU1Star : list Z; betaU1 : list Z; vU1Star : list Z; vU1 : list Z;
  (* round 5: [t1] is [(t1X, t1Y)] *)
  alpha1 : list bigint; uu1 : list bigint; delta1 : bigint; sigma1 : bigint; t1 : gpoint; l1 : bigint;
  (* round 6 *)
  deltaSum : bigint;
  (* round 7: [(deltaGammaGx, deltaGammaGy)] *)
  deltaGammaG : gpoint }.

Definition emptySignTemp : signTemp :=
  mkSignTemp None None None None None None None [] [] [] [] [] [] None None nilpt None None nilpt.

Definition setW1 (x0 : bigint) (t : signTemp) : signTemp :=
  mkSignTemp x0 (u1K t) (u1Gamma t) (commitU1GammaG t) (commitwiG t) (ukc t) (ukc2 t) (betaU1Star t) (betaU1 t) (vU1Star t) (vU1 t) (alpha1 t) (uu1 t) (delta1 t) (sigma1 t) (t1 t) (l1 t) (deltaSum t) (deltaGammaG t).
Definition setRound1 (x0 : option Commitment) (x1 : bigint) (x2 : bigint) (x3 : option Commitment) (t : signTemp) : signTemp :=
  mkSignTemp (w1 t) x1 x2 x3 x0 (ukc t) (ukc2 t) (betaU1Star t) (betaU1 t) (vU1Star t) (vU1 t) (alpha1 t) (uu1 t) (delta1 t) (sigma1 t) (t1 t) (l1 t) (deltaSum t) (deltaGammaG t).
Definition setUkc (x0 : bigint) (x1 : bigint) (t : signTemp) : signTemp :=
  mkSignTemp (w1 t) (u1K t) (u1Gamma t) (commitU1GammaG t) (commitwiG t) x0 x1 (betaU1Star t) (betaU1 t) (vU1Star t) (vU1 t) (alpha1 t) (uu1 t) (delta1 t) (sigma1 t) (t1 t) (l1 t) (deltaSum t) (deltaGammaG t).
Definition setMasks (x0 : list Z) (x1 : list Z) (x2 : list Z) (x3 : list Z) (t : signTemp) : signTemp :=
  mkSignTemp (w1 t) (u1K t) (u1Gamma t) (commitU1GammaG t) (commitwiG t) (ukc t) (ukc2 t) x0 x1 x2 x3 (alpha1 t) (uu1 t) (delta1 t) (sigma1 t) (t1 t) (l1 t) (deltaSum t) (deltaGammaG t).
Definition setAlphas (x0 : list bigint) (x1 : list bigint) (t : signTemp) : signTemp :=
  mkSignTemp (w1 t) (u1K t) (u1Gamma t) (commitU1GammaG t) (commitwiG t) (ukc t) (ukc2 t) (betaU1Star t) (betaU1 t) (vU1Star t) (vU1 t) x0 x1 (delta1 t) (sigma1 t) (t1 t) (l1 t) (deltaSum t) (deltaGammaG t).
Definition setDelta1 (x0 : bigint) (t : signTemp) : signTemp :=
  mkSignTemp (w1 t) (u1K t) (u1Gamma t) (commitU1GammaG t) (commitwiG t) (ukc t) (ukc2 t) (betaU1Star t) (betaU1 t) (vU1Star t) (vU1 t) (alpha1 t) (uu1 t) x0 (sigma1 t) (t1 t) (l1 t) (deltaSum t) (deltaGammaG t).
Definition setSigma1 (x0 : bigint) (t : signTemp) : signTemp :=
  mkSignTemp (w1 t) (u1K t) (u1Gamma t) (commitU1GammaG t) (commitwiG t) (ukc t) (ukc2 t) (betaU1Star t) (betaU1 t) (vU1Star t) (vU1 t) (alpha1 t) (uu1 t) (delta1 t) x0 (t1 t) (l1 t) (deltaSum t) (deltaGammaG t).
Definition setT1 (x0 : gpoint) (x1 : bigint) (t : signTemp) : signTemp :=
  mkSignTemp (w1 t) (u1K t) (u1Gamma t) (commitU1GammaG t) (commitwiG t) (ukc t) (ukc2 t) (betaU1Star t) (betaU1 t) (vU1Star t) (vU1 t) (alpha1 t) (uu1 t) (delta1 t) (sigma1 t) x0 x1 (deltaSum t) (deltaGammaG t).
Definition setDeltaSum (x0 : bigint) (t : signTemp) : signTemp :=
  mkSignTemp (w1 t) (u1K t) (u1Gamma t) (commitU1GammaG t) (commitwiG t) (ukc t) (ukc2 t) (betaU1Star t) (betaU1 t) (vU1Star t) (vU1 t) (alpha1 t) (uu1 t) (delta1 t) (sigma1 t) (t1 t) (l1 t) x0 (deltaGammaG t).
Definition setDeltaGammaG (x0 : gpoint) (t : signTemp) : signTemp :=
  mkSignTemp (w1 t) (u1K t) (u1Gamma t) (commitU1GammaG t) (commitwiG t) (ukc t) (ukc2 t) (betaU1Star t) (betaU1 t) (vU1Star t) (vU1 t) (alpha1 t) (uu1 t) (delta1 t) (sigma1 t) (t1 t) (l1 t) (deltaSum t) x0.

(** [base], without the pointers to the party's own data. *)
Record signBase := mkSignBase {
  gOk : list bool; gStarted : bool; gNumber : Z; gKgid : string; gThreshold : nat;
  gPaillierkeylength : Z; gPredata : option PrePubData; gTxhash : bigint }.

Record SignDNode := mkSignNode {
  sRnd : option (nat * signBase);
  sID : string; sThresHold : nat; sPaillierKeyLength : Z;
  sMsgs : signSlot -> list (option SignMessage);
  sTemp : signTemp;
  sSave : LocalDNodeSaveData;
  idsign : list bigint;
  sOut : list SignMessage;
  sEnd : list PrePubData;
  sFinalize : bool; sPredata : option PrePubData; sTxhash : bigint;
  sFinalizeend : list Z }.

Abbreviation sg := (act SignDNode).

(** * Assignments *)

Definition sWithRnd r (s : SignDNode) := mkSignNode r (sID s) (sThresHold s) (sPaillierKeyLength s) (sMsgs s)
  (sTemp s) (sSave s) (idsign s) (sOut s) (sEnd s) (sFinalize s) (sPredata s) (sTxhash s) (sFinalizeend s).
Definition sWithID id (s : SignDNode) := mkSignNode (sRnd s) id (sThresHold s) (sPaillierKeyLength s) (sMsgs s)
  (sTemp s) (sSave s) (idsign s) (sOut s) (sEnd s) (sFinalize s) (sPredata s) (sTxhash s) (sFinalizeend s).
Definition sWithMsgs m (s : SignDNode) := mkSignNode (sRnd s) (sID s) (sThresHold s) (sPaillierKeyLength s) m
  (sTemp s) (sSave s) (idsign s) (sOut s) (sEnd s) (sFinalize s) (sPredata s) (sTxhash s) (sFinalizeend s).
Definition sWithTemp t (s : SignDNode) := mkSignNode (sRnd s) (sID s) (sThresHold s) (sPaillierKeyLength s)
  (sMsgs s) t (sSave s) (idsign s) (sOut s) (sEnd s) (sFinalize s) (sPredata s) (sTxhash s) (sFinalizeend s).
Definition sWithOut o (s : SignDNode) := mkSignNode (sRnd s) (sID s) (sThresHold s) (sPaillierKeyLength s)
  (sMsgs s) (sTemp s) (sSave s) (idsign s) o (sEnd s) (sFinalize s) (sPredata s) (sTxhash s) (sFinalizeend s).
Definition sWithEnd e (s : SignDNode) := mkSignNode (sRnd s) (sID s) (sThresHold s) (sPaillierKeyLength s)
  (sMsgs s) (sTemp s) (sSave s) (idsign s) (sOut s) e (sFinalize s) (sPredata s) (sTxhash s) (sFinalizeend s).
Definition sWithFinalizeend e (s : SignDNode) := mkSignNode (sRnd s) (sID s) (sThresHold s)
  (sPaillierKeyLength s) (sMsgs s) (sTemp s) (sSave s) (idsign s) (sOut s) (sEnd s) (sFinalize s) (sPredata s)
  (sTxhash s) e.

Definition signSetSlot (f : signSlot -> list (option SignMessage)) (sl : signSlot) l
  : signSlot -> list (option SignMessage) := fun sl' => if decide (sl' = sl) then l else f sl'.

Definition signSetTemp (f : signTemp -> signTemp) : sg unit := modify (fun s => sWithTemp (f (sTemp s)) s).

(** Slices indexed by an [int]; an index out of range panics. *)
Definition signInBounds {A} (l : list A) (i : Z) : bool := (0 <=? i) && (i <? Z.of_nat (length l)).

Definition signPutMsg (sl : signSlot) (i : Z) (m : SignMessage) : sg unit :=
  s ← getS;
  if signInBounds (sMsgs s sl) i
  then modify (sWithMsgs (signSetSlot (sMsgs s) sl (<[Z.to_nat i := Some m]> (sMsgs s sl))))
  else crash.

Definition signGetMsg (sl : signSlot) (k : nat) : sg (option SignMessage) :=
  s ← getS; calls (index (sMsgs s sl) k).

Definition at_ {A} (l : list A) (i : Z) : res A := if 0 <=? i then index l (Z.to_nat i) else Panic.

(** [round.out <- m]. *)
Definition signSend (m : SignMessage) : sg unit := modify (fun s => sWithOut (sOut s ++ [m]) s).

Definition signMyHeader (b : signBase) (i : Z) : SignRoundMessage := mkHeader (gKgid b) i [].

(** The header with the receiver [v] appended. *)
Definition signHeaderTo (b : signBase) (i : Z) (v : bigint) : SignRoundMessage :=
  AppendToID (signMyHeader b i) (EncodeToString (Sprintf_v v)).

(** * rounds.go *)

Definition signTheBase : sg signBase :=
  s ← getS; match sRnd s with Some (_, b) => mret b | None => crash end.

Definition signSetBase (f : signBase -> signBase) : sg unit :=
  modify (fun s => match sRnd s with Some (k, b) => sWithRnd (Some (k, f b)) s | None => s end).

Definition gWithOk ok (b : signBase) := mkSignBase ok (gStarted b) (gNumber b) (gKgid b) (gThreshold b)
  (gPaillierkeylength b) (gPredata b) (gTxhash b).
Definition gWithStarted st (b : signBase) := mkSignBase (gOk b) st (gNumber b) (gKgid b) (gThreshold b)
  (gPaillierkeylength b) (gPredata b) (gTxhash b).
Definition gWithNumber k (b : signBase) := mkSignBase (gOk b) (gStarted b) k (gKgid b) (gThreshold b)
  (gPaillierkeylength b) (gPredata b) (gTxhash b).

Definition sign_CanProceed (s : SignDNode) : bool :=
  match sRnd s with
  | Some (_, b) => gStarted b && forallb (fun ok : bool => ok) (gOk b)
  | None => false
  end.

Definition sign_ResetOK : sg unit := signSetBase (fun b => gWithOk ((fun _ => false) <$> gOk b) b).

(** [for k, v := range l { if v.Cmp(x) == 0 { return k } }]. *)
Definition findID (l : list bigint) (x : bigint) : res (option Z) :=
  forRange l (fun k v => b ← CmpEq v x; Ok (if b : bool then Some (Z.of_nat k) else None)) 0.

Definition signIndexOf (ids : list bigint) (id : string) : res Z :=
  if String.eqb id "" then Ok (-1) else
  uidtmp ← DecodeString id;
  let idtmp := SetString 10 uidtmp in
  found ← findID ids idtmp;
  match found with
  | Some k => Ok k
  | None => Err "get dnode index fail,no found in kgRound0Messages"
  end.

Definition signGetDNodeIDIndex (id : string) : sg Z := s ← getS; calls (signIndexOf (idsign s) id).

(** The first lines of every [Start]. *)
Definition signBegin (k : Z) : sg signBase :=
  b ← signTheBase;
  if gStarted b then fail "round already started" else
  _ ← signSetBase (fun b => gWithStarted true (gWithNumber k b));
  _ ← sign_ResetOK;
  signTheBase.

(** The position in the key's group of a node, of this node; -1 when missing. *)
Definition saveIndex (save : LocalDNodeSaveData) (v : bigint) : res Z :=
  found ← findID (IDs save) v; Ok (default (-1) found).
Definition oldIndex (save : LocalDNodeSaveData) : res Z := saveIndex save (CurDNodeID save).

(** [for k, v := range round.idsign]. *)
Definition signers (s : SignDNode) : list (nat * bigint) := zip (seq 0 (length (idsign s))) (idsign s).

(** * The rounds *)

Section rounds.
Context `{E : Curve} `{G : GoLib} `{H : Sha256Lib}.

(** ** Round 1 *)

(** One factor of the Lagrange coefficient. *)
Definition lambdaStep (curIndex self : Z) (k : nat) (v : bigint) (lambda1 : Z) : res Z :=
  if Z.of_nat k =? curIndex then Ok lambda1 else
  v ← deref v;
  let sub := v - self in
  match ModInverse sub (cN S256) with
  | None => Err "calc times fail"
  | Some subInverse =>
      let times := subInverse * v in
      let lambda1 := lambda1 * times in
      Mod lambda1 (cN S256)
  end.

(** [w1], the additive share of the private key among the signers. *)
Definition calcW1 (ids : list bigint) (curIndex : Z) (skU1 : bigint) : res Z :=
  let self := if 0 <=? curIndex then default None (ids !! Z.to_nat curIndex) else None in
  match self with
  | None => Err "round start fail,self uid is nil"
  | Some self =>
      lambda1 ← foldRange ids (lambdaStep curIndex self) 0 1;
      skU1 ← deref skU1;
      let w1 := lambda1 * skU1 in
      Mod w1 (cN S256)
  end.

Definition sign_round1_Start : sg unit :=
  b ← signBegin 1;
  curIndex ← signGetDNodeIDIndex (gKgid b);
  s ← getS;
  w1 ← calls (calcW1 (idsign s) curIndex (SkU1 (sSave s)));
  _ ← signSetTemp (setW1 (Some w1));
  u1K ← call (GetRandomIntFromZn (cN S256));
  u1Gamma ← call (GetRandomIntFromZn (cN S256));
  u1GammaG ← calls (ScalarBaseMult (Bytes u1Gamma));
  commitU1GammaG ← call (Commit [u1GammaG.1; u1GammaG.2]);
  match commitU1GammaG with
  | None => fail " Error generating commitment data in signing round 1"
  | Some comGamma =>
      wiG ← calls (ScalarBaseMult (Bytes w1));
      commitwiG ← call (Commit [wiG.1; wiG.2]);
      match commitwiG with
      | None => fail " Error generating commitment data for wi"
      | Some comWi =>
          _ ← signSetTemp (setRound1 (Some comWi) (Some u1K) (Some u1Gamma) (Some comGamma));
          let srm := SignRound1Message (signMyHeader b curIndex) (comC comGamma) (comC comWi) in
          _ ← signPutMsg R1 curIndex srm;
          signSend srm
      end
  end.

(** ** Round 2 *)

(** The range proof for one signer. *)
Definition rangeFor (b : signBase) (curIndex : Z) (pk : PublicKey) (k : nat) (v : bigint) : sg unit :=
  s ← getS;
  index ← calls (saveIndex (sSave s) v);
  nt ← calls (at_ (U1NtildeH1H2 (sSave s)) index);
  c ← calls (deref (ukc (sTemp s)));
  m ← calls (deref (u1K (sTemp s)));
  r ← calls (deref (ukc2 (sTemp s)));
  nt ← calls (deref nt);
  proof ← call (MtARangeProofProve c m r pk nt);
  if curIndex =? Z.of_nat k
  then signPutMsg R2 curIndex (SignRound2Message (signMyHeader b curIndex) (Some proof))
  else signSend (SignRound2Message (signHeaderTo b curIndex v) (Some proof)).

Definition sign_round2_Start : sg unit :=
  b ← signBegin 2;
  curIndex ← signGetDNodeIDIndex (gKgid b);
  s ← getS;
  oldindex ← calls (oldIndex (sSave s));
  if oldindex =? -1 then fail "error old index" else
  u1PaillierPk ← calls (at_ (U1PaillierPk (sSave s)) oldindex);
  match u1PaillierPk with
  | None => fail "error paillier pk for current node"
  | Some pk =>
      '(u1KCipher, u1R) ← unchecked (Encrypt pk (u1K (sTemp s)));
      _ ← signSetTemp (setUkc (Some u1KCipher) (Some u1R));
      forEach (signers s) (fun '(k, v) => rangeFor b curIndex pk k v)
  end.

(** ** Round 3 *)

Definition sign_round3_Start : sg unit :=
  b ← signBegin 3;
  curIndex ← signGetDNodeIDIndex (gKgid b);
  s ← getS;
  comWi ← calls (deref (commitwiG (sTemp s)));
  let srm := SignRound3Message (signMyHeader b curIndex) (ukc (sTemp s)) (comD comWi) in
  _ ← signPutMsg R3 curIndex srm;
  signSend srm.

(** ** Round 4 *)

(** The first loop: the range proof and the commitment of one signer.  The proof
    of this node was made for its own parameters, the others' for this node's. *)
Definition checkRange (curIndex oldindex : Z) (k : nat) (v : bigint) : sg unit :=
  s ← getS;
  index ← calls (saveIndex (sSave s) v);
  msg2 ← signGetMsg R2 k;
  msg3 ← signGetMsg R3 k;
  pk ← calls (at_ (U1PaillierPk (sSave s)) index);
  nt ← calls (at_ (U1NtildeH1H2 (sSave s)) (if Z.of_nat k =? curIndex then index else oldindex));
  match msg2, msg3 with
  | Some (SignRound2Message _ proof), Some (SignRound3Message _ kc comWiD) =>
      u1rlt1 ← calls (MtARangeProofVerify proof kc pk nt);
      if negb u1rlt1 then fail "verify mtazk1 proof fail" else
      msg1 ← signGetMsg R1 k;
      match msg1 with
      | Some (SignRound1Message _ _ comWiC) =>
          ok ← calls (Verify (mkCommitment comWiC comWiD));
          if ok : bool then mret tt else fail "verify commit for wi fail"
      | _ => crash
      end
  | _, _ => crash
  end.

(** The bound of the masks. *)
Definition maskBound (paillierkeylength : Z) : res Z :=
  let bits := paillierkeylength - Z.quot paillierkeylength 10 in
  if bits <? 0 then Panic else
  let NSalt := Z.shiftl 1 bits in
  let NSubN2 := cN S256 * cN S256 in
  Ok (NSalt - NSubN2).

(** [Enc(k) * secret + mask], under the key of the signer: the key, the ciphertext
    received, the one to send and the randomness of the mask. *)
Definition homoRespond (k : nat) (v : bigint) (secret : bigint) (mask : list Z)
  : sg (PublicKey * bigint * Z * Z * Z) :=
  s ← getS;
  index ← calls (saveIndex (sSave s) v);
  pk ← calls (at_ (U1PaillierPk (sSave s)) index);
  msg3 ← signGetMsg R3 k;
  match msg3 with
  | Some (SignRound3Message _ kc _) =>
      c ← calls (HomoMul pk kc secret);
      mask ← calls (Prelude.index mask k);
      pk ← calls (deref pk);
      '(cb, r) ← unchecked (Encrypt pk (Some mask));
      c ← calls (HomoAdd (Some pk) c (Some cb));
      c ← calls (deref c);
      mret (pk, kc, c, mask, r)
  | _ => crash
  end.

(** The statement of the respondent's proof: this node's own instance is proved for
    its ciphertext and key, the others for the received ones. *)
Definition respondent (curIndex oldindex : Z) (k : nat) (pk : PublicKey) (kc : bigint)
  : sg (Z * PublicKey * NtildeH1H2) :=
  s ← getS;
  let c1 := if Z.of_nat k =? curIndex then ukc (sTemp s) else kc in
  pk ← calls (if Z.of_nat k =? curIndex
              then pk ← at_ (U1PaillierPk (sSave s)) oldindex; deref pk else Ok pk);
  nt ← calls (at_ (U1NtildeH1H2 (sSave s)) oldindex);
  c1 ← calls (deref c1);
  nt ← calls (deref nt);
  mret (c1, pk, nt).

(** The second loop: [k * gamma]. *)
Definition gammaFor (b : signBase) (curIndex oldindex : Z) (k : nat) (v : bigint) : sg unit :=
  s ← getS;
  '(pk, kc, cipher, beta, r) ← homoRespond k v (u1Gamma (sTemp s)) (betaU1Star (sTemp s));
  '(c1, pk, nt) ← respondent curIndex oldindex k pk kc;
  gamma ← calls (deref (u1Gamma (sTemp s)));
  proof ← call (MtARespZKProofProve gamma beta r c1 cipher pk nt);
  if Z.of_nat k =? curIndex
  then signPutMsg R4 curIndex (SignRound4Message (signMyHeader b curIndex) (Some cipher) (Some proof))
  else signSend (SignRound4Message (signHeaderTo b curIndex v) (Some cipher) (Some proof)).

(** The third loop: [k * w]. *)
Definition wFor (b : signBase) (curIndex oldindex : Z) (k : nat) (v : bigint) : sg unit :=
  s ← getS;
  '(pk, kc, cipher, vstar, r) ← homoRespond k v (w1 (sTemp s)) (vU1Star (sTemp s));
  '(c1, pk, nt) ← respondent curIndex oldindex k pk kc;
  w ← calls (deref (w1 (sTemp s)));
  proof ← call (MtAwcRespZKProofProve w vstar r c1 cipher pk nt);
  if Z.of_nat k =? curIndex
  then signPutMsg R41 curIndex (SignRound4Message1 (signMyHeader b curIndex) (Some cipher) (Some proof))
  else signSend (SignRound4Message1 (signHeaderTo b curIndex v) (Some cipher) (Some proof)).

Definition sign_round4_Start : sg unit :=
  b ← signBegin 4;
  curIndex ← signGetDNodeIDIndex (gKgid b);
  s ← getS;
  oldindex ← calls (oldIndex (sSave s));
  _ ← forEach (signers s) (fun '(k, v) => checkRange curIndex oldindex k v);
  NSubN2 ← calls (maskBound (gPaillierkeylength b));
  betaU1Star ← call (rndRepeat (gThreshold b) (GetRandomIntFromZn NSubN2));
  let betaU1 := (fun x => -1 * x) <$> betaU1Star in
  vU1Star ← call (rndRepeat (gThreshold b) (GetRandomIntFromZn NSubN2));
  let vU1 := (fun x => -1 * x) <$> vU1Star in
  _ ← signSetTemp (setMasks betaU1Star betaU1 vU1Star vU1);
  _ ← forEach (signers s) (fun '(k, v) => gammaFor b curIndex oldindex k v);
  forEach (signers s) (fun '(k, v) => wFor b curIndex oldindex k v).

(** ** Round 5 *)

Definition signPut {A} (l : list A) (k : nat) (x : A) : res (list A) :=
  if Nat.ltb k (length l) then Ok (<[k := x]> l) else Panic.

(** The first loop: the two proofs of each signer, then its two ciphertexts.  An
    error of [Decrypt] is dropped, its result is nil. *)
Definition openShare (oldindex : Z) (k : nat) (v : bigint) : sg (bigint * bigint) :=
  s ← getS;
  index ← calls (saveIndex (sSave s) v);
  pk ← calls (at_ (U1PaillierPk (sSave s)) oldindex);
  nt ← calls (at_ (U1NtildeH1H2 (sSave s)) index);
  msg4 ← signGetMsg R4 k;
  match msg4 with
  | Some (SignRound4Message _ cipher proof) =>
      rlt111 ← calls (MtARespZKProofVerify proof (ukc (sTemp s)) cipher pk nt);
      if negb rlt111 then fail "verify mkg fail" else
      msg1 ← signGetMsg R1 k;
      msg3 ← signGetMsg R3 k;
      match msg1, msg3 with
      | Some (SignRound1Message _ _ comWiC), Some (SignRound3Message _ _ comWiD) =>
          '(_, xG) ← calls (DeCommit (mkCommitment comWiC comWiD));
          msg41 ← signGetMsg R41 k;
          match msg41 with
          | Some (SignRound4Message1 _ cipher1 proof1) =>
              rlt112 ← calls (MtAwcRespZKProofVefify proof1 xG (ukc (sTemp s)) cipher1 pk nt);
              if negb rlt112 then fail "verify mkw fail" else
              alpha1U1 ← attempt (calls (Decrypt (U1PaillierSk (sSave s)) cipher));
              u1U1 ← attempt (calls (Decrypt (U1PaillierSk (sSave s)) cipher1));
              mret (alpha1U1, u1U1)
          | _ => crash
          end
      | _, _ => crash
      end
  | _ => crash
  end.

Fixpoint openShares (oldindex : Z) (ks : list (nat * bigint)) (alpha1 uu1 : list bigint)
  : sg (list bigint * list bigint) :=
  match ks with
  | [] => mret (alpha1, uu1)
  | (k, v) :: ks' =>
      '(a, u) ← openShare oldindex k v;
      alpha1 ← calls (signPut alpha1 k a);
      uu1 ← calls (signPut uu1 k u);
      openShares oldindex ks' alpha1 uu1
  end.

(** [new(big.Int).Add(acc, x)]. *)
Definition addNil (x acc : bigint) : res bigint :=
  a ← deref acc; b ← deref x; Ok (Some (a + b)).

(** [delta1] and [sigma1]: the received shares and the own masks. *)
Definition sumShares (threshold : nat) (shares : list bigint) (masks : list Z) : res Z :=
  d ← index shares 0;
  d ← foldRange (seq 1 (threshold - 1)) (fun _ i d => x ← index shares i; addNil x d) 0 d;
  d ← foldRange (seq 0 threshold) (fun _ i d => x ← index masks i; addNil (Some x) d) 0 d;
  d ← deref d;
  Mod d (cN S256).

Definition sign_round5_Start : sg unit :=
  b ← signBegin 5;
  curIndex ← signGetDNodeIDIndex (gKgid b);
  s ← getS;
  oldindex ← calls (oldIndex (sSave s));
  '(alpha1, uu1) ← openShares oldindex (signers s) (replicate (gThreshold b) None) (replicate (gThreshold b) None);
  _ ← signSetTemp (setAlphas alpha1 uu1);
  delta1 ← calls (sumShares (gThreshold b) alpha1 (betaU1 (sTemp s)));
  _ ← signSetTemp (setDelta1 (Some delta1));
  sigma1 ← calls (sumShares (gThreshold b) uu1 (vU1 (sTemp s)));
  _ ← signSetTemp (setSigma1 (Some sigma1));
  l1 ← call (GetRandomIntFromZn (cN S256));
  h ← calls CalcHPoint;
  l1G ← calls (ScalarMult h (Bytes l1));
  sigmaG ← calls (ScalarBaseMult (Bytes sigma1));
  t1 ← calls (Add S256 sigmaG l1G);
  tProof ← call (TProve t1 h (Some sigma1) (Some l1));
  match tProof with
  | None => fail "prove Ti proof fail"
  | Some tpf =>
      _ ← signSetTemp (setT1 t1 (Some l1));
      let srm := SignRound5Message (signMyHeader b curIndex) (Some delta1) t1.1 t1.2 (Some tpf) in
      _ ← signPutMsg R5 curIndex srm;
      signSend srm
  end.

(** ** Round 6 *)

(** A number of signer [k]'s message; a missing message panics. *)
Definition messageNumber (sl : signSlot) (number : SignMessage -> option bigint) (k : nat) : sg bigint :=
  msg ← signGetMsg sl k;
  match msg ≫= number with Some d => mret d | None => crash end.

Fixpoint addMessages (sl : signSlot) (number : SignMessage -> option bigint) (ks : list nat) (d : bigint) : sg bigint :=
  match ks with
  | [] => mret d
  | k :: ks' =>
      d' ← messageNumber sl number k;
      d ← calls (addNil d' d);
      addMessages sl number ks' d
  end.

(** The sum over the signers, from the number of signer 0. *)
Definition sumMessages (sl : signSlot) (number : SignMessage -> option bigint) : sg Z :=
  d ← messageNumber sl number 0;
  s ← getS;
  d ← addMessages sl number (seq 1 (length (idsign s) - 1)) d;
  d ← calls (deref d);
  calls (Mod d (cN S256)).

Definition delta1Of (m : SignMessage) : option bigint :=
  match m with SignRound5Message _ delta _ _ _ => Some delta | _ => None end.

Definition sign_round6_Start : sg unit :=
  b ← signBegin 6;
  curIndex ← signGetDNodeIDIndex (gKgid b);
  deltaSum ← sumMessages R5 delta1Of;
  _ ← signSetTemp (setDeltaSum (Some deltaSum));
  s ← getS;
  u1GammaZKProof ← call (ZkUProve (u1Gamma (sTemp s)));
  comGamma ← calls (deref (commitU1GammaG (sTemp s)));
  let srm := SignRound6Message (signMyHeader b curIndex) (comD comGamma) (Some u1GammaZKProof) in
  _ ← signPutMsg R6 curIndex srm;
  signSend srm.

(** ** Round 7 *)

(** The committed [gamma*G] of a signer. *)
Definition gammaCommitment (k : nat) : sg (Commitment * option ZkUProof) :=
  msg1 ← signGetMsg R1 k;
  msg6 ← signGetMsg R6 k;
  match msg1, msg6 with
  | Some (SignRound1Message _ c11 _), Some (SignRound6Message _ commU1D zk) => mret (mkCommitment c11 commU1D, zk)
  | _, _ => crash
  end.

Definition pointOf (l : list bigint) : res gpoint := x ← index l 0; y ← index l 1; Ok (x, y).

(** The first loop; returns the point of signer 0. *)
Fixpoint checkGammas (ks : list nat) (sum : gpoint) : sg gpoint :=
  match ks with
  | [] => mret sum
  | k :: ks' =>
      '(deCommit, zk) ← gammaCommitment k;
      ok ← calls (Verify deCommit);
      if negb ok then fail "verify commit fail" else
      '(_, u1GammaG) ← calls (DeCommit deCommit);
      ok ← calls (ZkUVerify u1GammaG zk);
      if negb ok then fail "verify zkuproof fail" else
      sum ← (if Nat.eqb k 0 then calls (pointOf u1GammaG) else mret sum);
      checkGammas ks' sum
  end.

(** The second loop. *)
Fixpoint addGammas (ks : list nat) (sum : gpoint) : sg gpoint :=
  match ks with
  | [] => mret sum
  | k :: ks' =>
      '(deCommit, _) ← gammaCommitment k;
      '(_, u1GammaG) ← calls (DeCommit deCommit);
      p ← calls (pointOf u1GammaG);
      sum ← calls (Add S256 sum p);
      addGammas ks' sum
  end.

(** The statement of the proof that [k1R] and the ciphertext agree. *)
Definition pdlStatementOf (pk : PublicKey) (nt : NtildeH1H2) (kc : bigint) (k1R R : gpoint) : PDLwSlackStatement :=
  mkPDLSt kc (Some pk) k1R R (ntH1 nt) (ntH2 nt) (ntNtilde nt).

Definition sign_round7_Start : sg unit :=
  b ← signBegin 7;
  curIndex ← signGetDNodeIDIndex (gKgid b);
  s ← getS;
  gamma0 ← checkGammas (seq 0 (length (idsign s))) nilpt;
  gammaGSum ← addGammas (seq 1 (length (idsign s) - 1)) gamma0;
  deltaSum ← calls (deref (deltaSum (sTemp s)));
  match ModInverse deltaSum (cN S256) with
  | None => fail "calc deltaSum Inverse fail"
  | Some deltaSumInverse =>
      dG ← calls (ScalarMult gammaGSum (Bytes deltaSumInverse));
      r ← calls (deref dG.1);
      if r =? 0 then fail "r == 0" else
      match dG.2 with
      | None => fail "calc r fail"
      | Some _ =>
          _ ← signSetTemp (setDeltaGammaG dG);
          u1K ← calls (deref (u1K (sTemp s)));
          bigRK1G ← calls (ScalarMult dG (Bytes u1K));
          oldindex ← calls (oldIndex (sSave s));
          if oldindex =? -1 then fail "error old index" else
          pk ← calls (at_ (U1PaillierPk (sSave s)) oldindex);
          match pk with
          | None => fail "error paillier pk for current node"
          | Some pk =>
              nt ← calls (at_ (U1NtildeH1H2 (sSave s)) oldindex);
              match nt with
              | None => fail "error ntilde for current node"
              | Some nt =>
                  let st := pdlStatementOf pk nt (ukc (sTemp s)) bigRK1G dG in
                  let wit := mkPDLWit (Some u1K) (ukc2 (sTemp s)) (U1PaillierSk (sSave s)) in
                  pf ← call (NewPDLwSlackProof (Some wit) (Some st));
                  match pf with
                  | None => fail "compute ZK proof of consistency between R_i and E_i(k_i) fail"
                  | Some pf =>
                      let srm := SignRound7Message (signMyHeader b curIndex) bigRK1G.1 bigRK1G.2 (Some pf) in
                      _ ← signPutMsg R7 curIndex srm;
                      signSend srm
                  end
              end
          end
      end
  end.

(** ** Round 8 *)

(** Signer [k]'s point [k1*R], after its proof. *)
Definition checkK1R (k : nat) (v : bigint) : sg gpoint :=
  s ← getS;
  index ← calls (saveIndex (sSave s) v);
  if index =? -1 then fail "get node uid error" else
  pk ← calls (at_ (U1PaillierPk (sSave s)) index);
  match pk with
  | None => fail "get paillier public key fail"
  | Some pk =>
      nt ← calls (at_ (U1NtildeH1H2 (sSave s)) index);
      match nt with
      | None => fail "get ntilde fail"
      | Some nt =>
          msg7 ← signGetMsg R7 k;
          msg3 ← signGetMsg R3 k;
          match msg3, msg7 with
          | Some (SignRound3Message _ kc _), Some (SignRound7Message _ x y pf) =>
              ok ← calls (PDLwSlackVerify (Some (pdlStatementOf pk nt kc (x, y) (deltaGammaG (sTemp s)))) pf);
              if ok : bool then mret (x, y)
              else fail ("failed to verify ZK proof of consistency between R_i and E_i(k_i) for Uid " +:+ Sprintf_v v
                        +:+ ",k = " +:+ Itoa (Z.of_nat k))
          | _, _ => crash
          end
      end
  end.

(** The sum of the points of [check], starting from the one of signer 0. *)
Fixpoint sumChecked (check : nat -> bigint -> sg gpoint) (ks : list (nat * bigint)) (sum : gpoint) : sg gpoint :=
  match ks with
  | [] => mret sum
  | (k, v) :: ks' =>
      p ← check k v;
      sum ← (if Nat.eqb k 0 then mret p else calls (Add S256 sum p));
      sumChecked check ks' sum
  end.

Definition sign_round8_Start : sg unit :=
  b ← signBegin 8;
  curIndex ← signGetDNodeIDIndex (gKgid b);
  s ← getS;
  k1R ← sumChecked checkK1R (signers s) nilpt;
  same ← calls (samePoint k1R (Some (cGx S256), Some (cGy S256)));
  if negb same then fail "consistency check failed: g != R products" else
  sigma1 ← calls (deref (sigma1 (sTemp s)));
  S1 ← calls (ScalarMult (deltaGammaG (sTemp s)) (Bytes sigma1));
  h ← calls CalcHPoint;
  stProof ← call (NewSTProof (t1 (sTemp s)) S1 (deltaGammaG (sTemp s)) h (Some sigma1) (l1 (sTemp s)));
  match stProof with
  | None => fail "new stproof fail"
  | Some pf =>
      let srm := SignRound8Message (signMyHeader b curIndex) S1.1 S1.2 (Some pf) in
      _ ← signPutMsg R8 curIndex srm;
      signSend srm
  end.

(** ** Round 9 *)

(** Signer [k]'s point [sigma*R], after its proof. *)
Definition checkS1 (h : gpoint) (k : nat) (_ : bigint) : sg gpoint :=
  msg8 ← signGetMsg R8 k;
  msg5 ← signGetMsg R5 k;
  s ← getS;
  match msg8, msg5 with
  | Some (SignRound8Message _ x y pf), Some (SignRound5Message _ _ t1x t1y _) =>
      ok ← calls (STVerify (x, y) (t1x, t1y) (deltaGammaG (sTemp s)) h pf);
      if ok : bool then mret (x, y) else fail "STProof verify fail"
  | _, _ => crash
  end.

Definition sign_round9_Start : sg unit :=
  _ ← signBegin 9;
  h ← calls CalcHPoint;
  s ← getS;
  s1 ← sumChecked (checkS1 h) (signers s) nilpt;
  same ← calls (samePoint s1 (Pkx (sSave s), Pky (sSave s)));
  if negb same then fail "consistency check failed; pubkey != products" else
  modify (fun s => sWithEnd (sEnd s ++ [mkPrePub (u1K (sTemp s)) (deltaGammaG (sTemp s)).1
                                          (deltaGammaG (sTemp s)).2 (sigma1 (sTemp s))]) s).

(** ** Rounds 10 and 11 *)

Definition sign_round10_Start : sg unit :=
  b ← signBegin 10;
  curIndex ← signGetDNodeIDIndex (gKgid b);
  txhash ← calls (deref (gTxhash b));
  pre ← calls (deref (gPredata b));
  k1 ← calls (deref (K1 pre));
  let mk1 := txhash * k1 in
  r ← calls (deref (ppR pre));
  sig ← calls (deref (Sigma1 pre));
  let rSigma1 := r * sig in
  let us1 := mk1 + rSigma1 in
  us1 ← calls (Mod us1 (cN S256));
  let srm := SignRound9Message (signMyHeader b curIndex) (Some us1) in
  _ ← signPutMsg R9 curIndex srm;
  signSend srm.

Definition us1Of (m : SignMessage) : option bigint :=
  match m with SignRound9Message _ us1 => Some us1 | _ => None end.

Definition sign_round11_Start : sg unit :=
  _ ← signBegin 11;
  s ← sumMessages R9 us1Of;
  modify (fun st => sWithFinalizeend (sFinalizeend st ++ [s]) st).
End rounds.

(** * Rounds as a whole *)

(** [CanAccept] of the round [k]. *)
Definition signCanAccept (k : nat) (m : SignMessage) : bool :=
  match k, signSlotOf m with
  | 1%nat, R1 | 3%nat, R3 | 5%nat, R5 | 6%nat, R6 | 7%nat, R7 | 8%nat, R8 | 10%nat, R9 => signIsBroadcast m
  | 2%nat, R2 | 4%nat, R4 | 4%nat, R41 => negb (signIsBroadcast m)
  | _, _ => false
  end.

(** The slice [Update] walks over and the one it reads beside it; nothing in the
    last rounds. *)
Definition signUpdSlots (k : nat) : option (signSlot * list signSlot) :=
  match k with
  | 1%nat => Some (R1, [])
  | 2%nat => Some (R2, [])
  | 3%nat => Some (R3, [])
  | 4%nat => Some (R4, [R41])
  | 5%nat => Some (R5, [])
  | 6%nat => Some (R6, [])
  | 7%nat => Some (R7, [])
  | 8%nat => Some (R8, [])
  | 10%nat => Some (R9, [])
  | _ => None
  end.

Definition signAccepts (k : nat) (msg : option SignMessage) : bool :=
  match msg with Some m => signCanAccept k m | None => false end.

Fixpoint signBesideOk (k j : nat) (f : signSlot -> list (option SignMessage)) (sls : list signSlot) : res bool :=
  match sls with
  | [] => Ok true
  | sl :: sls' =>
      m ← index (f sl) j;
      if signAccepts k m then signBesideOk k j f sls' else Ok false
  end.

Fixpoint signUpdLoop (k : nat) (beside : list signSlot) (l : list (option SignMessage)) (j : nat) : sg bool :=
  match l with
  | [] => mret true
  | msg :: l' =>
      b ← signTheBase;
      okj ← calls (index (gOk b) j);
      if okj : bool then signUpdLoop k beside l' (S j) else
      if negb (signAccepts k msg) then mret false else
      s ← getS;
      ok ← calls (signBesideOk k j (sMsgs s) beside);
      if negb ok then mret false else
      _ ← signSetBase (fun b => gWithOk (<[j := true]> (gOk b)) b);
      signUpdLoop k beside l' (S j)
  end.

Definition sign_Update : sg bool :=
  s ← getS;
  match sRnd s with
  | None => crash
  | Some (k, _) =>
      match signUpdSlots k with
      | Some (sl, beside) => signUpdLoop k beside (sMsgs s sl) 0
      | None => mret false
      end
  end.

(** The rounds without a next one: the end of the pre-signature and of the
    signature. *)
Definition signLast (k : nat) : bool := Nat.eqb k 9 || Nat.leb 11 k.

(** [p.rnd = p.rnd.NextRound()]. *)
Definition signNextRound : sg unit :=
  s ← getS;
  match sRnd s with
  | None => crash
  | Some (k, b) =>
      if signLast k then modify (sWithRnd None)
      else modify (sWithRnd (Some (S k, gWithStarted false b)))
  end.

(** * local_dnode.go *)

Definition signNewLocalDNode (save : LocalDNodeSaveData) (ids : list bigint) (kgid : bigint) (threshold : nat)
    (paillierkeylength : Z) (finalize : bool) (predata : option PrePubData) (txhash : bigint) : SignDNode :=
  mkSignNode None (Sprintf_v kgid) threshold paillierkeylength (fun _ => replicate threshold None)
    emptySignTemp save ids [] [] finalize predata txhash [].

Definition signSetDNodeID (id : string) (s : SignDNode) : SignDNode := sWithID (EncodeToString id) s.

(** [p.rnd = p.FirstRound()] and [p.rnd = p.FinalizeRound()]. *)
Definition signFirstRound (s : SignDNode) : SignDNode :=
  sWithRnd (Some (1%nat, mkSignBase (replicate (sThresHold s) false) false 0 (sID s) (sThresHold s)
                           (sPaillierKeyLength s) None None)) s.

Definition signFinalizeRound (s : SignDNode) : SignDNode :=
  sWithRnd (Some (10%nat, mkSignBase (replicate (sThresHold s) false) false 0 (sID s) (sThresHold s)
                            (sPaillierKeyLength s) (sPredata s) (sTxhash s))) s.

Definition signCheckFull (msg : list (option SignMessage)) : bool :=
  match msg with
  | [] => false
  | _ => forallb (fun v => match v with Some _ => true | None => false end) msg
  end.

Definition signFind (l : list (option SignMessage)) (msg : SignMessage) : bool :=
  existsb (fun v => match v with
    | None => false
    | Some v => String.eqb (signMsgType v) (signMsgType msg) && String.eqb (signFromID v) (signFromID msg)
    end) l.

Definition signDulMessage (s : SignDNode) (msg : SignMessage) : bool := signFind (sMsgs s (signSlotOf msg)) msg.

(** [len(l) == p.ThresHold && CheckFull(l)]. *)
Definition signSlotFull (s : SignDNode) (sl : signSlot) : bool :=
  Nat.eqb (length (sMsgs s sl)) (sThresHold s) && signCheckFull (sMsgs s sl).

Section store.
Context `{E : Curve} `{G : GoLib} `{H : Sha256Lib}.

(** The check of a round 5 message before it is stored. *)
Definition checkT (t1 : gpoint) (tpf : option TProof) : sg unit :=
  h ← calls CalcHPoint;
  ok ← calls (TVerify t1 h tpf);
  if ok : bool then mret tt else fail "verify tproof fail".

Definition sign_StoreMessage (msg : SignMessage) : sg bool :=
  s ← getS;
  if signFind (sMsgs s (signSlotOf msg)) msg then mret false else
  _ ← (match msg with
       | SignRound5Message _ _ t1x t1y tpf => checkT (t1x, t1y) tpf
       | _ => mret tt
       end);
  _ ← signPutMsg (signSlotOf msg) (signFromIndex msg) msg;
  s ← getS;
  mret (signSlotFull s (signSlotOf msg)).

(** * The party *)

Definition signRound_Start : sg unit :=
  s ← getS;
  match sRnd s with
  | Some (1%nat, _) => sign_round1_Start
  | Some (2%nat, _) => sign_round2_Start
  | Some (3%nat, _) => sign_round3_Start
  | Some (4%nat, _) => sign_round4_Start
  | Some (5%nat, _) => sign_round5_Start
  | Some (6%nat, _) => sign_round6_Start
  | Some (7%nat, _) => sign_round7_Start
  | Some (8%nat, _) => sign_round8_Start
  | Some (9%nat, _) => sign_round9_Start
  | Some (10%nat, _) => sign_round10_Start
  | Some (_, _) => sign_round11_Start
  | None => crash
  end.

Definition signDNode : DNode SignDNode SignMessage := {|
  DNodeID := sID;
  Finalize := sFinalize;
  hasRound := fun s => match sRnd s with Some _ => true | None => false end;
  setFirstRound := signFirstRound;
  setFinalizeRound := signFinalizeRound;
  StoreMessage := sign_StoreMessage;
  Start := signRound_Start;
  Update := sign_Update;
  CanProceed := sign_CanProceed;
  advance := signNextRound;
  ResetOK := sign_ResetOK
|}.

(** [p.Start()]. *)
Definition signing_Start : sg unit := BaseStart (P := signDNode).

(** [p.Update(msg)]; the recursion is at most thirteen deep. *)
Definition signing_Update (msg : SignMessage) : sg bool :=
  BaseUpdate (P := signDNode) (fun _ _ => Hang) 13 msg.
End store.
