(* ===== verification/SgLife.v ===== *)
(** The life cycle of a signing party: termination of [Update], and what is stored
    of the messages that arrive. *)

From Stdlib Require Import ZArith Lia.
From stdpp Require Import gmap strings.
From S2P Require Import Prelude GoBig Random Text Hex IntGo Secp256k1 ToyCurve Vss2 Commit Paillier Schnorr.
From S2P Require Import MtA Common Gg20Zk DNode KgMessage KgSave SgMessage Signing.

#[local] Open Scope Z_scope.

(** * Termination of Update *)

(** The rounds that remain. *)
Definition signRank (s : SignDNode) : nat :=
  match sRnd s with Some (k, _) => S (11 - k) | None => 0 end.

Section ranked.
Context `{E : Curve} `{G : GoLib} `{H : Sha256Lib}.

Lemma keeps_signSetBase f : keeps signRank (signSetBase f).
Proof. apply keeps_modify. intros s. unfold signRank. now destruct (sRnd s) as [[k b]|] eqn:Er; [|rewrite Er]. Qed.

Lemma keeps_signBegin z : keeps signRank (signBegin z).
Proof. pose proof keeps_signSetBase. unfold signBegin, sign_ResetOK. keeps; auto. Qed.

Lemma keeps_signPut sl i m : keeps signRank (signPutMsg sl i m).
Proof. keeps. Qed.

Lemma keeps_signIndex id : keeps signRank (signGetDNodeIDIndex id).
Proof. keeps. Qed.

Lemma quiet_openShares oldindex ks : forall a u, quiet (openShares oldindex ks a u).
Proof. induction ks as [|[k v] ks IH]; intros a u; cbn [openShares]; quiet; apply IH. Qed.

Lemma quiet_addMessages sl number ks : forall d, quiet (addMessages sl number ks d).
Proof. induction ks as [|k ks IH]; intros d; cbn [addMessages]; quiet; apply IH. Qed.

Lemma quiet_sumMessages sl number : quiet (sumMessages sl number).
Proof. unfold sumMessages. quiet. apply quiet_addMessages. Qed.

Lemma quiet_checkGammas ks : forall sum, quiet (checkGammas ks sum).
Proof. induction ks as [|k ks IH]; intros sum; cbn [checkGammas]; quiet; apply IH. Qed.

Lemma quiet_addGammas ks : forall sum, quiet (addGammas ks sum).
Proof. induction ks as [|k ks IH]; intros sum; cbn [addGammas]; quiet; apply IH. Qed.

Lemma quiet_sumChecked check ks : (forall k v, quiet (check k v)) -> forall sum, quiet (sumChecked check ks sum).
Proof. intros Hc. induction ks as [|[k v] ks IH]; intros sum; cbn [sumChecked]; quiet; auto. Qed.

Lemma quiet_checkK1R k v : quiet (checkK1R k v).
Proof. quiet. Qed.

Lemma quiet_checkS1 h k v : quiet (checkS1 h k v).
Proof. quiet. Qed.

Lemma keeps_signStart : keeps signRank signRound_Start.
Proof.
  pose proof keeps_signBegin. pose proof keeps_signPut. pose proof keeps_signIndex.
  assert (forall o ks a u, keeps signRank (openShares o ks a u)) by (intros; apply keeps_quiet, quiet_openShares).
  assert (forall sl n, keeps signRank (sumMessages sl n)) by (intros; apply keeps_quiet, quiet_sumMessages).
  assert (forall ks p, keeps signRank (checkGammas ks p)) by (intros; apply keeps_quiet, quiet_checkGammas).
  assert (forall ks p, keeps signRank (addGammas ks p)) by (intros; apply keeps_quiet, quiet_addGammas).
  assert (forall ks p, keeps signRank (sumChecked checkK1R ks p))
    by (intros; apply keeps_quiet, quiet_sumChecked, quiet_checkK1R).
  assert (forall h ks p, keeps signRank (sumChecked (checkS1 h) ks p))
    by (intros; apply keeps_quiet, quiet_sumChecked, quiet_checkS1).
  apply keeps_bind; [apply keeps_quiet, quiet_getS|]. intros s.
  destruct (sRnd s) as [[k b]|]; [|apply keeps_quiet, quiet_crash].
  do 11 (destruct k as [|k]; [keeps|]). keeps.
Qed.

Lemma keeps_signUpdLoop k beside l : forall j, keeps signRank (signUpdLoop k beside l j).
Proof. pose proof keeps_signSetBase. induction l as [|msg l IH]; intros j; cbn [signUpdLoop]; keeps. Qed.

(** [Update] of a round returns no error. *)
Lemma signBesideOk_no_error k j f sls e : signBesideOk k j f sls <> Err e.
Proof.
  induction sls as [|sl sls IH]; [discriminate|]. cbn [signBesideOk]. unfold index.
  destruct (f sl !! j) as [m|]; cbn; [|discriminate]. now destruct (signAccepts k m).
Qed.

Lemma signUpdLoop_no_error k beside l : forall j s t e s' t', signUpdLoop k beside l j s t <> Fail e s' t'.
Proof.
  induction l as [|msg l IH]; intros j s t e s' t'; cbn [signUpdLoop]; [discriminate|].
  cbv [mbind act_bind signTheBase getS mret act_ret]. destruct (sRnd s) as [[? b]|]; [|discriminate].
  unfold calls at 1, call at 1, lift, index. destruct (gOk b !! j) as [[]|]; cbn; [apply IH| |discriminate].
  destruct (negb (signAccepts k msg)); [discriminate|]. unfold calls, call, lift.
  pose proof (signBesideOk_no_error k j (sMsgs s) beside) as Hb.
  destruct (signBesideOk k j (sMsgs s) beside) as [ok|e0| |]; cbn; [|now destruct (Hb e0)|discriminate..].
  destruct (negb ok); [discriminate|]. apply IH.
Qed.

Lemma signUpdate_no_error s t e s' t' : sign_Update s t <> Fail e s' t'.
Proof.
  unfold sign_Update, mbind, act_bind, getS. destruct (sRnd s) as [[k b]|]; [|discriminate].
  destruct (signUpdSlots k) as [[sl beside]|]; [apply signUpdLoop_no_error|discriminate].
Qed.

(** So an attempt of it is a call of it. *)
Lemma attempt_signUpdate s t o s' t' : attempt sign_Update s t = Ret o s' t' ->
  exists r, o = Some r /\ sign_Update s t = Ret r s' t'.
Proof.
  unfold attempt. destruct (sign_Update s t) as [u s1 t1|e s1 t1| |] eqn:Eu; [|now apply signUpdate_no_error in Eu|done..].
  intros [= <- <- <-]. eauto.
Qed.

Lemma keeps_signUpdate : keeps signRank (attempt sign_Update).
Proof.
  intros n s t a s' t' Hs (r & -> & Hu)%attempt_signUpdate. revert Hu.
  assert (Hk : keeps signRank sign_Update) by (pose proof keeps_signUpdLoop; unfold sign_Update; keeps).
  now apply Hk.
Qed.

Lemma keeps_signStore msg : keeps signRank (sign_StoreMessage msg).
Proof. pose proof keeps_signPut. unfold sign_StoreMessage. keeps. Qed.

#[export] Instance signRanked : Ranked SignDNode SignMessage signDNode.
Proof.
  refine {| rank := signRank |}.
  - apply keeps_signStore.
  - apply keeps_signStart.
  - apply keeps_signUpdate.
  - apply keeps_signSetBase.
  - intros n. apply hoare_getS_bind. intros s <-. cbn [rank]. unfold signRank at 2.
    destruct (sRnd s) as [[k b]|]; [|apply hoare_crash].
    destruct (signLast k) eqn:Ek; apply hoare_modify; intros s' ->; unfold signRank; cbn; [lia|].
    unfold signLast in Ek. apply orb_false_iff in Ek as [_ Ek%Nat.leb_gt]. lia.
Defined.
End ranked.

(** * Well-formed states *)

(** Every slice has one place per signer, a slot holds only messages of its type,
    and the rounds are those of the protocol. *)
Definition sign_wf (n : nat) (s : SignDNode) : Prop :=
  sThresHold s = n /\ (forall sl, length (sMsgs s sl) = n) /\
  (forall sl i m, sMsgs s sl !! i = Some (Some m) -> signSlotOf m = sl) /\
  match sRnd s with
  | Some (k, b) => (1 <= k <= 11)%nat /\ length (gOk b) = n /\ gThreshold b = n
  | None => True
  end.

Section wf.
Context `{E : Curve} `{G : GoLib} `{H : Sha256Lib} (n : nat).
Abbreviation I := (sign_wf n).

Lemma wf_modify f : (forall s, sMsgs (f s) = sMsgs s /\ sRnd (f s) = sRnd s /\ sThresHold (f s) = sThresHold s) ->
  stable I (modify f).
Proof.
  intros Hf. apply stable_modify. intros s Hs. destruct (Hf s) as (H1 & H2 & H3). unfold sign_wf in *.
  now rewrite H1, H2, H3.
Qed.

Lemma wf_signSetBase f : (forall b, length (gOk (f b)) = length (gOk b) /\ gThreshold (f b) = gThreshold b) ->
  stable I (signSetBase f).
Proof.
  intros Hf. apply stable_modify. intros s (H1 & H2 & H3 & H4). unfold sign_wf.
  destruct (sRnd s) as [[k b]|] eqn:Er; cbn; [|rewrite Er; auto].
  destruct (Hf b) as [-> ->]. auto.
Qed.

Lemma wf_ResetOK : stable I sign_ResetOK.
Proof. apply wf_signSetBase. intros b. cbn. now rewrite length_fmap. Qed.

Lemma wf_signBegin z : stable I (signBegin z).
Proof.
  pose proof wf_ResetOK. unfold signBegin.
  assert (stable I (signSetBase (fun b => gWithStarted true (gWithNumber z b)))) by now apply wf_signSetBase.
  stable.
Qed.

Lemma wf_put sl i m : signSlotOf m = sl -> stable I (signPutMsg sl i m).
Proof.
  intros Hm. apply stable_getS_bind. intros s t (H1 & H2 & H3 & H4).
  destruct (signInBounds (sMsgs s sl) i); [|done]. cbn. unfold sign_wf, signSetSlot. cbn.
  split; [done|]. split; [|split; [|done]].
  - intros sl'. destruct (decide (sl' = sl)) as [->|]; [rewrite length_insert|]; apply H2.
  - intros sl' j m'. destruct (decide (sl' = sl)) as [->|]; [|apply H3].
    intros [(_ & [= <-] & _)|[_ Hj]]%list_lookup_insert_Some; [done|]. now apply (H3 _ j).
Qed.

Lemma wf_temp f : stable I (signSetTemp f).
Proof. now apply wf_modify. Qed.

Lemma wf_send m : stable I (signSend m).
Proof. now apply wf_modify. Qed.

Lemma wf_openShares oldindex ks : forall a u, stable I (openShares oldindex ks a u).
Proof. induction ks as [|[k v] ks IH]; intros a u; cbn [openShares]; stable. Qed.

Lemma wf_addMessages sl number ks : forall d, stable I (addMessages sl number ks d).
Proof. induction ks as [|k ks IH]; intros d; cbn [addMessages]; stable. Qed.

Lemma wf_checkGammas ks : forall sum, stable I (checkGammas ks sum).
Proof. induction ks as [|k ks IH]; intros sum; cbn [checkGammas]; stable. Qed.

Lemma wf_addGammas ks : forall sum, stable I (addGammas ks sum).
Proof. induction ks as [|k ks IH]; intros sum; cbn [addGammas]; stable. Qed.

Lemma wf_sumChecked check ks : (forall k v, stable I (check k v)) -> forall sum, stable I (sumChecked check ks sum).
Proof. intros Hc. induction ks as [|[k v] ks IH]; intros sum; cbn [sumChecked]; stable. Qed.

Lemma wf_start : stable I signRound_Start.
Proof.
  pose proof wf_signBegin. pose proof wf_put. pose proof wf_temp. pose proof wf_send. pose proof wf_openShares.
  pose proof wf_addMessages. pose proof wf_checkGammas. pose proof wf_addGammas. pose proof wf_sumChecked.
  apply stable_bind; [apply stable_getS|]. intros s.
  destruct (sRnd s) as [[k b]|]; [|apply stable_crash].
  pose proof wf_modify as Hmod. do 11 (destruct k as [|k]; [stable; try done; intros; stable|]). stable; done.
Qed.

Lemma wf_updLoop k beside l : forall j, stable I (signUpdLoop k beside l j).
Proof.
  induction l as [|msg l IH]; intros j; cbn [signUpdLoop];
    assert (stable I (signSetBase (fun b => gWithOk (<[j := true]> (gOk b)) b)))
      by (apply wf_signSetBase; intros b; cbn; now rewrite length_insert); stable.
Qed.

#[export] Instance signStable : Stable SignDNode SignMessage signDNode I.
Proof.
  split.
  - intros s (H1 & H2 & H3 & _). unfold sign_wf. cbn. rewrite length_replicate. repeat split; auto; lia.
  - intros s (H1 & H2 & H3 & _). unfold sign_wf. cbn. rewrite length_replicate. repeat split; auto; lia.
  - intros m. pose proof wf_put. change (stable I (sign_StoreMessage m)). stable. done.
  - apply wf_start.
  - pose proof wf_updLoop. change (stable I sign_Update). stable.
  - apply stable_getS_bind. intros s t (H1 & H2 & H3 & H4). destruct (sRnd s) as [[k b]|] eqn:Er; [|done].
    destruct (signLast k) eqn:Ek; cbn; unfold sign_wf; cbn; [auto|].
    unfold signLast in Ek. apply orb_false_iff in Ek as [_ Ek%Nat.leb_gt]. repeat split; auto; lia.
  - apply wf_ResetOK.
Qed.
End wf.

(** * Claims *)

(** C25: [Update] of a signing party terminates: its recursion is never deeper than
    thirteen calls, whatever the state and the message. *)
Theorem signing_Update_terminates `{E : Curve} `{G : GoLib} `{H : Sha256Lib} stuck extra msg s t :
  BaseUpdate (P := signDNode) stuck (13 + extra) msg s t = signing_Update msg s t.
Proof.
  assert (Hr : (rank (P := signDNode) s < 13)%nat).
  { change (signRank s < 13)%nat. unfold signRank. destruct (sRnd s) as [[k b]|]; lia. }
  apply BaseUpdate_fuel; [lia|exact Hr].
Qed.

(** What storing a message does.  A duplicate (same type, same sender) is
    ignored; a round 5 message is stored only if its proof of [T = sigma*G + l*H]
    verifies and is otherwise reported with the state unchanged; every message is
    stored at the index it names, an index out of range panics; the result says
    whether the round's messages are now complete. *)
Theorem signing_StoreMessage_cases `{E : Curve} `{G : GoLib} `{H : Sha256Lib} msg h s t :
  let sl := signSlotOf msg in let i := signFromIndex msg in
  CalcHPoint = Ok h ->
  (forall srm d x y pf, msg = SignRound5Message srm d x y pf -> exists b, TVerify (x, y) h pf = Ok b) ->
  sign_StoreMessage msg s t =
  if signDulMessage s msg then Ret false s t else
  if negb (match msg with
           | SignRound5Message _ _ x y pf => match TVerify (x, y) h pf with Ok b => b | _ => false end
           | _ => true
           end) then Fail "verify tproof fail" s t
  else if signInBounds (sMsgs s sl) i then
    let s' := sWithMsgs (signSetSlot (sMsgs s) sl (<[Z.to_nat i := Some msg]> (sMsgs s sl))) s in
    Ret (signSlotFull s' sl) s' t
  else Crash.
Proof.
  intros sl i Hh H5. unfold sign_StoreMessage, signDulMessage. rewrite (act_bind_run _ _ _ _ s s t) by done.
  fold sl. destruct (signFind _ _); [done|].
  assert (Hput : (_ ← signPutMsg sl i msg; s0 ← getS; mret (signSlotFull s0 sl)) s t =
    if signInBounds (sMsgs s sl) i then
      let s' := sWithMsgs (signSetSlot (sMsgs s) sl (<[Z.to_nat i := Some msg]> (sMsgs s sl))) s in
      Ret (signSlotFull s' sl) s' t
    else Crash).
  { unfold signPutMsg, mbind, act_bind, getS. now destruct (signInBounds (sMsgs s sl) i). }
  destruct msg; try exact Hput. destruct (H5 _ _ _ _ _ eq_refl) as [b Eb]. rewrite Eb.
  assert (Hc : checkT (T1X, T1Y) Tpf s t = if b then Ret tt s t else Fail "verify tproof fail" s t).
  { unfold checkT. rewrite (act_bind_run _ _ _ _ h s t) by now apply calls_run.
    rewrite (act_bind_run _ _ _ _ b s t) by now apply calls_run. now destruct b. }
  destruct b; [now rewrite (act_bind_run _ _ _ _ tt s t Hc)|]. unfold mbind at 1, act_bind at 1. now rewrite Hc.
Qed.

(** A round 5 message whose proof is missing is refused; a round 9 message is
    stored. *)
Lemma signing_StoreMessage_cases_witness :
  let s := signNewLocalDNode (NewLocalDNodeSaveData 3) [Some 1; Some 2] (Some 1) 2 2048 false None None in
  let bad := SignRound5Message (mkHeader "32" 1 []) (Some 5) (Some 2) (Some 34) None in
  let good := SignRound9Message (mkHeader "32" 1 []) (Some 5) in
  sign_StoreMessage bad s [] = Fail "verify tproof fail" s [] /\
  match sign_StoreMessage good s [] with Ret ok s' _ => ok = false /\ sMsgs s' R9 = [None; Some good] | _ => False end.
Proof.
  intros s bad good. split.
  - rewrite (signing_StoreMessage_cases bad (mkpt (2, 34)) s []); [reflexivity|vm_compute; reflexivity|].
    intros srm d x y pf [= <- <- <- <- <-]. exists false. reflexivity.
  - rewrite (signing_StoreMessage_cases good (mkpt (2, 34)) s []); [split; reflexivity|vm_compute; reflexivity|].
    intros srm d x y pf [=].
Defined.

(** C23: the type invariant of a signing party.  A new party is well formed; [Start]
    and [Update] keep it so for every message, also when they return an error: every
    slice has one place per signer, every stored message has the type of its slice
    (the type assertions of the rounds succeed on it), and the round is one of the
    eleven. *)
Theorem signing_well_formed `{E : Curve} `{G : GoLib} `{H : Sha256Lib} n :
  (forall save ids kgid len fin pre tx, sign_wf n (signNewLocalDNode save ids kgid n len fin pre tx)) /\
  (forall id s, sign_wf n s -> sign_wf n (signSetDNodeID id s)) /\
  stable (sign_wf n) signing_Start /\
  (forall msg, stable (sign_wf n) (signing_Update msg)).
Proof.
  split_and!.
  - intros. split; [done|]. split; [intros sl; apply length_replicate|]. split; [|done].
    intros sl i m Hm. apply lookup_replicate in Hm as [[=] _].
  - intros id s Hs. exact Hs.
  - apply BaseStart_stable, _.
  - intros msg. apply BaseUpdate_stable; [apply _|]. now intros s t _.
Qed.

(** Signer 2 of the group 2, 5 starts: its round 1 message is in its slot. *)
Definition startState : SignDNode :=
  let save := mkSave None None None (Some 13) None [None; None] None [None; None] [Some 2; Some 5] (Some 2) in
  signSetDNodeID "2" (signNewLocalDNode save [Some 2; Some 5] (Some 2) 2 2048 false None None).

Lemma signing_well_formed_witness :
  match signing_Start startState (Some <$> seqZ 20 40) with
  | Ret _ s' _ => signCheckFull (take 1 (sMsgs s' R1)) = true /\ sign_wf 2 s'
  | _ => False
  end.
Proof.
  destruct (signing_well_formed 2) as (Hnew & Hid & Hstart & _).
  specialize (Hstart startState (Some <$> seqZ 20 40) (Hid "2" _ (Hnew _ _ _ _ _ _ _))).
  assert (Hr : match signing_Start startState (Some <$> seqZ 20 40) with
               | Ret _ s' _ => signCheckFull (take 1 (sMsgs s' R1)) = true | _ => False end)
    by (vm_compute; reflexivity).
  destruct (signing_Start startState (Some <$> seqZ 20 40)); [split; assumption|contradiction..].
Defined.
