(* ===== verification/SgSig.v ===== *)
(** The correctness of ECDSA signing: the additive key shares of round 1, the
    multiplicative-to-additive exchange of rounds 4 and 5, the consistency checks of
    rounds 8 and 9, and the signature of rounds 10 and 11. *)

From Stdlib Require Import ZArith Lia Zcong Zdivisibility.
From stdpp Require Import gmap strings.
From S2P Require Import Prelude NumTheory Primality GoBig Random Text Hex IntGo Secp256k1 CurveFacts CurveLaws ToyCurve.
From S2P Require Import Lagrange Json Vss2 Commit Paillier Schnorr Ntilde MtA Common Gg20Zk DNode KgMessage KgSave.
From S2P Require Import SgMessage Signing SgLife.

#[local] Open Scope Z_scope.

(** * Additive shares of the key *)

Lemma foldRange_ext {A S} (l : list A) (f g : nat -> A -> S -> res S) :
  (forall k x s, f k x s = g k x s) -> forall k s, foldRange l f k s = foldRange l g k s.
Proof.
  intros H. induction l as [|x l IH]; intros k s; [done|]. cbn [foldRange]. rewrite H.
  destruct (g k x s); cbn; auto.
Qed.

Section additive.
Context `{E : Curve} (HN : Z.prime (cN S256)).
Abbreviation q := (cN S256).

(** A factor of the Lagrange coefficient is the one [Combine2] multiplies by. *)
Lemma lambdaStep_combine i x k v l : lambdaStep (Z.of_nat i) x k v l = combineStep i (Some x) k v l.
Proof.
  unfold lambdaStep, combineStep.
  replace (Z.of_nat k =? Z.of_nat i) with (Nat.eqb k i) by (destruct (Nat.eqb_spec k i); lia).
  destruct (Nat.eqb k i); [done|]. destruct v as [v|]; [|done]. cbn [deref mbind res_bind].
  destruct (ModInverse (v - x) q) as [w|]; [|done]. now rewrite (Z.mul_comm w v).
Qed.

Lemma calcW1_eval ids i x sk : ids !! i = Some x ->
  calcW1 (Some <$> ids) (Z.of_nat i) (Some sk) =
  (l ← foldRange (Some <$> ids) (combineStep i (Some x)) 0 1; Mod (l * sk) q).
Proof.
  intros Hi. unfold calcW1. destruct (Z.leb_spec 0 (Z.of_nat i)); [|lia].
  rewrite Nat2Z.id, list_lookup_fmap, Hi. cbn.
  rewrite (foldRange_ext _ (lambdaStep (Z.of_nat i) x) (combineStep i (Some x))) by apply lambdaStep_combine. done.
Qed.

(** The share of a signer, the interpolation coefficient times its key share. *)
Lemma calcW1_ok ids i x sk : distinct q ids -> ids !! i = Some x ->
  exists w, calcW1 (Some <$> ids) (Z.of_nat i) (Some sk) = Ok w /\ 0 <= w < q /\
            [mod q] w == sk * lam q ids x.
Proof.
  intros Hd Hi. pose proof (prime_pos _ HN). rewrite (calcW1_eval ids i x) by assumption.
  destruct (combineTimes_ok HN ids 0 i x 1) as (t & -> & Ht).
  { intros j y Hj Hne. cbn in Hne. eapply (proj1 (distinct_alt ids) Hd); eauto. }
  { intros j y Hj <-. cbn in Hi. congruence. }
  cbn [mbind res_bind]. rewrite Mod_pos by lia. eexists. split; [reflexivity|]. split.
  - apply Z.mod_pos_bound. lia.
  - rewrite eqm_mod, Ht, Z.mul_1_l. now rewrite Z.mul_comm.
Qed.

(** Two signers with the same identifier modulo the order. *)
Lemma calcW1_err ids i j x y sk : ids !! i = Some x -> ids !! j = Some y -> i <> j -> (y - x) mod q = 0 ->
  calcW1 (Some <$> ids) (Z.of_nat i) (Some sk) = Err "calc times fail".
Proof.
  intros Hi Hj Hne Hd. rewrite (calcW1_eval ids i x) by assumption.
  rewrite (combineTimes_err HN ids i x j y) by (assumption || cbn; lia). done.
Qed.

(** The shares of a list of signers, each with its key share. *)
Lemma calcW1_all ids sks : distinct q ids -> length sks = length ids ->
  exists ws, Forall2 (fun '(i, sk) w => calcW1 (Some <$> ids) (Z.of_nat i) (Some sk) = Ok w)
                     (zip (seq 0 (length ids)) sks) ws /\
    Forall (fun w => 0 <= w < q) ws /\
    [mod q] zsum id ws == zsum (fun '(x, sk) => sk * lam q ids x) (zip ids sks).
Proof.
  intros Hd. enough (Hgen : forall l sks k, (forall j, l !! j = ids !! (k + j)%nat) -> length sks = length l ->
    exists ws, Forall2 (fun '(i, sk) w => calcW1 (Some <$> ids) (Z.of_nat i) (Some sk) = Ok w)
                     (zip (seq k (length l)) sks) ws /\
      Forall (fun w => 0 <= w < q) ws /\
      [mod q] zsum id ws == zsum (fun '(x, sk) => sk * lam q ids x) (zip l sks)) by (intros; now apply Hgen).
  clear sks. induction l as [|x l IH]; intros [|sk sks] k Hl Hlen; try discriminate.
  - exists []. cbn. repeat constructor. done.
  - destruct (calcW1_ok ids k x sk Hd) as (w & Ew & Hw & Hm).
    { rewrite <- (Nat.add_0_r k), <- Hl. done. }
    destruct (IH sks (S k)) as (ws & Hws & Hr & Hs).
    { intros j. rewrite Nat.add_succ_comm. apply (Hl (S j)). } { now injection Hlen. }
    exists (w :: ws). split; [|split].
    + cbn. constructor; assumption.
    + now constructor.
    + cbn [zip_with zip]. rewrite !zsum_cons, Hs. unfold id at 1. now rewrite Hm.
Qed.
(** Shares on a polynomial with at most as many coefficients as signers. *)
Lemma calcW1_sum ids sks cs : ids <> [] -> distinct q ids -> length sks = length ids -> (length cs <= length ids)%nat ->
  (forall i x sk, ids !! i = Some x -> sks !! i = Some sk -> [mod q] sk == peval cs x) ->
  exists ws, Forall2 (fun '(i, sk) w => calcW1 (Some <$> ids) (Z.of_nat i) (Some sk) = Ok w)
                     (zip (seq 0 (length ids)) sks) ws /\
    Forall (fun w => 0 <= w < q) ws /\ [mod q] zsum id ws == peval cs 0.
Proof.
  intros Hne Hd Hlen Hcs Hsk.
  destruct (calcW1_all ids sks Hd Hlen) as (ws & Hws & Hr & Hs). exists ws. split_and!; [assumption..|].
  rewrite Hs, <- (lagrange_at_0 _ HN ids cs Hne Hd Hcs). clear Hs Hws Hr.
  enough (Hg : forall (f : Z -> Z) l l', length l' = length l ->
    (forall i x sk, l !! i = Some x -> l' !! i = Some sk -> [mod q] sk == peval cs x) ->
    [mod q] zsum (fun '(x, sk) => sk * f x) (zip l l') == zsum (fun x => peval cs x * f x) l)
    by (now apply Hg).
  intros f. induction l as [|x l IH]; intros [|sk l'] Hl Hk; try discriminate; [done|].
  cbn [zip_with zip]. rewrite !zsum_cons. rewrite (Hk 0%nat x sk) by done.
  rewrite IH; [done|now injection Hl|]. intros i. apply (Hk (S i)).
Qed.
End additive.

(** * From products to sums *)

Section products.
Context `{E : Curve} `{G : GoLib} `{H : Sha256Lib} (HN : Z.prime (cN S256)).
Abbreviation q := (cN S256).

(** The answer to an encrypted nonce share: it is computed, and the owner of the
    key decrypts it to [k*secret + mask]. *)
Lemma homoRespond_run (s : SignDNode) i v idx p p' pk sk srm kc d k secret masks mask r t :
  saveIndex (sSave s) v = Ok idx -> at_ (U1PaillierPk (sSave s)) idx = Ok (Some pk) -> keyPair p p' pk sk ->
  sMsgs s R3 !! i = Some (Some (SignRound3Message srm (Some kc) d)) -> encrypts (p * p') kc k ->
  masks !! i = Some mask -> mask <= p * p' ->
  1 <= r < p * p' -> Z.coprime r (p * p') -> r < 2 ^ BitLen (p * p') - 1 ->
  exists c, homoRespond i v (Some secret) masks s (Some r :: t) = Ret (pk, Some kc, c, mask, r) s t /\
            Decrypt (Some sk) (Some c) = Ok ((k * secret + mask) mod (p * p')).
Proof.
  intros Hidx Hpk HK H3 Hkc Hmask Hle Hr Hcr Hd. unfold homoRespond.
  rewrite (act_bind_run _ _ _ _ s s (Some r :: t)) by done.
  rewrite (act_bind_run _ _ _ _ idx s (Some r :: t)) by now apply calls_run.
  rewrite (act_bind_run _ _ _ _ (Some pk) s (Some r :: t)) by now apply calls_run.
  rewrite (act_bind_run _ _ _ _ (Some (SignRound3Message srm (Some kc) d)) s (Some r :: t)).
  2: { unfold signGetMsg. rewrite (act_bind_run _ _ _ _ s s (Some r :: t)) by done.
       apply calls_run. unfold index. now rewrite H3. }
  destruct (HomoMul_encrypts HK kc k secret Hkc) as (c1 & E1 & Hc1 & Henc1).
  destruct (Encrypt_run HK mask r t Hle Hr Hcr Hd) as (cb & Ecb).
  destruct (Encrypt_encrypts HK mask _ _ _ _ Ecb) as (_ & _ & _ & _ & Hcb).
  destruct (HomoAdd_encrypts HK c1 cb (k * secret) mask) as (c & E2 & Hc & Henc);
    [assumption|now exists r|].
  rewrite (act_bind_run _ _ _ _ (Some c1) s (Some r :: t)) by now apply calls_run.
  rewrite (act_bind_run _ _ _ _ mask s (Some r :: t)) by (apply calls_run; unfold index; now rewrite Hmask).
  rewrite (act_bind_run _ _ _ _ pk s (Some r :: t)) by now apply calls_run.
  rewrite (act_bind_run _ _ _ _ (cb, r) s t) by (unfold unchecked; now rewrite Ecb).
  rewrite (act_bind_run _ _ _ _ (Some c) s t) by now apply calls_run.
  rewrite (act_bind_run _ _ _ _ c s t) by now apply calls_run.
  exists c. split; [done|]. apply (Decrypt_encrypts HK); [lia|assumption].
Qed.

(** The masks leave room for the product: no reduction modulo the Paillier
    modulus. *)
Lemma maskBound_room L bound k secret mask M : maskBound L = Ok bound ->
  0 <= k < q -> 0 <= secret < q -> 0 <= mask < bound -> 2 ^ (L - Z.quot L 10) <= M ->
  0 <= k * secret + mask < M.
Proof.
  unfold maskBound. destruct (Z.ltb_spec (L - Z.quot L 10) 0) as [|Hb]; [discriminate|].
  rewrite Z.shiftl_mul_pow2, Z.mul_1_l by assumption. intros [= <-] Hk Hs Hm HM.
  assert (k * secret <= q * q) by nia. nia.
Qed.

Lemma addShares (shares : list bigint) (ks : list nat) (a : list Z) : forall n d,
  Forall2 (fun i x => shares !! i = Some (Some x)) ks a ->
  foldRange ks (fun _ i d => x ← index shares i; addNil x d) n (Some d) = Ok (Some (d + zsum id a)).
Proof.
  intros n d HF. revert n d. induction HF as [|i x ks a Hi HF IH]; intros n d; cbn [foldRange].
  - cbn. do 2 f_equal. lia.
  - assert (Ex : index shares i = Ok (Some x)) by (unfold index; now rewrite Hi). rewrite Ex.
    cbn [deref mbind res_bind addNil]. rewrite IH, zsum_cons.
    unfold id. do 2 f_equal. lia.
Qed.

Lemma index_seq {A B} (l : list B) (f : B -> A) : forall k (l0 : list B), length l0 = k ->
  Forall2 (fun i x => (f <$> (l0 ++ l)) !! i = Some x) (seq k (length l)) (f <$> l).
Proof.
  induction l as [|x l IH]; intros k l0 Hk; [constructor|]. cbn [length seq fmap list_fmap]. constructor.
  - rewrite list_lookup_fmap, lookup_app_r, Hk, Nat.sub_diag by lia. done.
  - specialize (IH (S k) (l0 ++ [x])). rewrite <- app_assoc in IH. apply IH. rewrite length_app. cbn. lia.
Qed.

(** The sum of the opened shares and of the node's own masks. *)
Lemma sumShares_ok a masks : a <> [] -> length masks = length a ->
  sumShares (length a) (Some <$> a) masks = Ok ((zsum id a + zsum id masks) mod q).
Proof.
  intros Hne Hm. pose proof (prime_pos _ HN). destruct a as [|x a]; [done|]. unfold sumShares.
  cbn [index lookup fmap list_fmap list_lookup deref mbind res_bind length].
  replace (S (length a) - 1)%nat with (length a) by lia.
  rewrite (addShares _ _ a) with (d := x).
  2: { pose proof (index_seq a Some 1 [x] eq_refl) as HF. cbn [app] in HF.
       apply Forall2_fmap_r in HF. exact HF. }
  cbn [mbind res_bind].
  assert (Em : forall d, foldRange (seq 0 (S (length a))) (fun _ i d => x ← index masks i; addNil (Some x) d) 0 (Some d)
                 = Ok (Some (d + zsum id masks))).
  { intros d. rewrite <- (addShares (Some <$> masks) (seq 0 (S (length a))) masks 0 d).
    - apply foldRange_ext. intros k i o. unfold index. rewrite list_lookup_fmap. now destruct (masks !! i).
    - cbn [length] in Hm. rewrite <- Hm. pose proof (index_seq masks Some 0 [] eq_refl) as HF.
      apply Forall2_fmap_r in HF. exact HF. }
  rewrite Em. cbn [mbind res_bind deref]. rewrite Mod_pos by lia. now rewrite zsum_cons.
Qed.
End products.

Section exchange.
Context `{E : Curve} `{G : GoLib} `{H : Sha256Lib} (HN : Z.prime (cN S256)).
Abbreviation q := (cN S256).

(** Whatever answer was returned, the owner of the key opens it to
    [k*secret + mask]. *)
Lemma homoRespond_opens i v secret masks s t pk kc c mask r s' t' p p' sk k :
  homoRespond i v (Some secret) masks s t = Ret (pk, Some kc, c, mask, r) s' t' ->
  keyPair p p' pk sk -> encrypts (p * p') kc k ->
  Decrypt (Some sk) (Some c) = Ok ((k * secret + mask) mod (p * p')).
Proof.
  unfold homoRespond. intros Hrun HK Hkc. inv_act.
  match goal with H : match ?m with _ => _ end _ _ = Ret _ _ _ |- _ => destruct m as [[]|]; try discriminate H end.
  inv_act. match goal with H : (let '(_, _) := ?cr in _) _ _ = _ |- _ => destruct cr as [cb r'] end.
  inv_act. subst.
  match goal with H : unchecked (Encrypt _ _) ?t0 ?t1 = _ |- _ => rename H into Hu end.
  unfold unchecked in Hu. destruct (Encrypt pk (Some mask) _) as [[cr t1]| | |] eqn:Ecb; try discriminate Hu.
  injection Hu as -> _ _.
  destruct (HomoMul_encrypts HK kc k secret Hkc) as (c1 & E1 & Hc1 & Henc1).
  destruct (Encrypt_encrypts HK mask _ _ _ _ Ecb) as (_ & _ & _ & Hr & Hcb).
  destruct (HomoAdd_encrypts HK c1 cb (k * secret) mask) as (c2 & E2 & Hc & Henc);
    [assumption|now exists r|]. assert (x = Some c1) as -> by congruence.
  assert (c2 = c) as -> by congruence. apply (Decrypt_encrypts HK); [lia|assumption].
Qed.

(** The sums of the shares over all the nodes. *)
Lemma zsum_map {A B} (f : A -> B) (g : B -> Z) l : zsum g (f <$> l) = zsum (fun x => g (f x)) l.
Proof. induction l as [|x l IH]; [done|]. rewrite fmap_cons, !zsum_cons. now rewrite IH. Qed.

Lemma zsum_shares (k g : nat -> Z) (beta : nat -> nat -> Z) l :
  zsum (fun i => zsum (fun j => k i * g j + beta j i) l + zsum (fun j => -1 * beta i j) l) l
  = zsum k l * zsum g l.
Proof.
  rewrite zsum_add.
  replace (zsum (fun i => zsum (fun j => k i * g j + beta j i) l) l)
    with (zsum (fun i => zsum g l * k i) l + zsum (fun i => zsum (fun j => beta j i) l) l).
  2: { rewrite <- zsum_add. apply zsum_ext. intros i _. rewrite zsum_add, zsum_mul. lia. }
  rewrite zsum_mul, (zsum_swap (fun i j => beta j i)).
  rewrite (zsum_ext (fun i => zsum (fun j => -1 * beta i j) l) (fun i => -1 * zsum (beta i) l)), zsum_mul.
  - rewrite (zsum_ext (fun y => zsum (fun x => beta y x) l) (fun i => zsum (beta i) l)) by done. lia.
  - intros i _. apply zsum_mul.
Qed.
End exchange.

(** * The consistency checks *)

(** What [signBegin] leaves as it is. *)
Lemma signBegin_inv k s t b s' t' : signBegin k s t = Ret b s' t' ->
  t' = t /\ sMsgs s' = sMsgs s /\ sTemp s' = sTemp s /\ sSave s' = sSave s /\ idsign s' = idsign s /\
  sOut s' = sOut s /\ sEnd s' = sEnd s /\ sFinalizeend s' = sFinalizeend s /\
  exists k0 b0, sRnd s = Some (k0, b0) /\ gKgid b = gKgid b0 /\ gPredata b = gPredata b0 /\ gTxhash b = gTxhash b0.
Proof.
  unfold signBegin, signTheBase, signSetBase, sign_ResetOK, signSetBase, mbind, act_bind, getS, modify.
  destruct (sRnd s) as [[k0 b0]|] eqn:Er; [|discriminate]. cbn [mret act_ret].
  destruct (gStarted b0); [discriminate|]. rewrite Er. cbn. intros [= <- <- <-]. cbn. repeat split. now exists k0, b0.
Qed.

Lemma signGetMsg_inv sl k s t m s' t' : signGetMsg sl k s t = Ret m s' t' ->
  sMsgs s sl !! k = Some m /\ s' = s /\ t' = t.
Proof.
  unfold signGetMsg. intros (s1 & s2 & t2 & [= <- <- <-] & (Hi & -> & ->)%calls_Ret)%act_bind_Ret.
  unfold index in Hi. destruct (sMsgs s sl !! k); [|discriminate]. cbn in Hi. now injection Hi as <-.
Qed.

Lemma signers_cons s k v ks : signers s = (k, v) :: ks ->
  k = 0%nat /\ ks.*1 = seq 1 (length (idsign s) - 1).
Proof.
  unfold signers. destruct (idsign s) as [|x ids]; [discriminate|]. cbn. intros [= <- <- <-].
  split; [done|]. rewrite fst_zip by (rewrite length_seq; lia). now rewrite Nat.sub_0_r.
Qed.

Section consistency.
Context `{L : CurveLaws} `{G : GoLib} `{H : Sha256Lib}.
Abbreviation q := (cN S256).

(** A sum of points that was computed: nil, or the multiple by the sum.  A nil
    summand panics. *)
Lemma Add_gp_inv a b p : Add S256 (gp a) (gp b) = Ok p ->
  p = nilpt \/ p = gp (a + b).
Proof.
  destruct (Z.eq_dec (b mod q) 0) as [Hb|Hb].
  - rewrite (gp_0 b) by assumption. unfold Add. destruct (gp a) as [[x|] [y|]]; discriminate.
  - rewrite Add_gp by assumption. destruct (a mod q =? 0); [discriminate|]. intros [= <-].
    destruct ((a - b) mod q =? 0); auto.
Qed.

Lemma Add_nil_l p : Add S256 nilpt p = Panic.
Proof. done. Qed.

Lemma sumChecked_rest check (a : nat -> Z) ks : (forall k v, quiet (check k v)) ->
  forall s sum c t p s' t', Forall (fun k => k <> 0%nat) ks.*1 ->
  (forall k v t p s' t', k ∈ ks.*1 -> check k v s t = Ret p s' t' -> p = gp (a k)) ->
  sum = nilpt \/ sum = gp c ->
  sumChecked check ks sum s t = Ret p s' t' -> p = nilpt \/ p = gp (c + zsum a ks.*1).
Proof.
  intros Hq. induction ks as [|[k v] ks IH]; intros s sum c t p s' t' Hks Hc Hsum; cbn [sumChecked].
  - intros [= <- _ _]. cbn. now rewrite Z.add_0_r.
  - intros (pk & s1 & t1 & Hk & Hr)%act_bind_Ret. pose proof (Hq _ _ _ _ _ _ _ Hk) as ->.
    apply Forall_cons in Hks as [Hk0 Hks]. apply act_bind_Ret in Hr as (sum' & s2 & t2 & Hadd & Hr).
    destruct (Nat.eqb_spec k 0) as [->|_]; [done|]. apply calls_Ret in Hadd as (Hadd & -> & ->).
    rewrite (Hc k v _ _ _ _ ltac:(constructor) Hk) in Hadd.
    cbn [fmap list_fmap fst]. rewrite zsum_cons, Z.add_assoc.
    eapply IH; [exact Hks| | |exact Hr].
    + intros k' v' t3 p' s3 t4 Hin. apply Hc. now constructor.
    + destruct Hsum as [->| ->]; [discriminate|]. now apply Add_gp_inv.
Qed.

(** The sum over the signers. *)
Lemma sumChecked_sum check (a : nat -> Z) s t p s' t' : (forall k v, quiet (check k v)) ->
  (forall k v t p s' t', (k < length (idsign s))%nat -> check k v s t = Ret p s' t' -> p = gp (a k)) ->
  sumChecked check (signers s) nilpt s t = Ret p s' t' ->
  s' = s /\ (p = nilpt \/ p = gp (zsum a (seq 0 (length (idsign s))))).
Proof.
  intros Hq Hc Hr. split; [eapply quiet_sumChecked; eauto|]. destruct (signers s) as [|[k v] ks] eqn:Es.
  { injection Hr as <- _ _. now left. }
  apply signers_cons in Es as Hs. destruct Hs as [-> Hks].
  assert (Hn : (0 < length (idsign s))%nat) by (unfold signers in Es; destruct (idsign s); cbn; [discriminate|lia]).
  cbn [sumChecked] in Hr. apply act_bind_Ret in Hr as (p0 & s1 & t1 & H0 & Hr).
  pose proof (Hq _ _ _ _ _ _ _ H0) as ->. cbn [Nat.eqb] in Hr.
  apply act_bind_Ret in Hr as (sum & s2 & t2 & [= <- <- <-] & Hr).
  replace (seq 0 (length (idsign s))) with (0%nat :: ks.*1)
    by (rewrite Hks; destruct (length (idsign s)); [lia|]; cbn; now rewrite Nat.sub_0_r).
  rewrite zsum_cons. eapply sumChecked_rest; [exact Hq| | |right; eapply Hc; eauto|exact Hr].
  - rewrite Hks. apply Forall_forall. intros k Hk%elem_of_seq. lia.
  - intros k v' t2 p2 s2 t3 Hk. apply Hc. rewrite Hks in Hk. apply elem_of_seq in Hk. lia.
Qed.

Lemma samePoint_inv a b p : b mod q <> 0 -> p = nilpt \/ p = gp a -> samePoint p (gp b) = Ok true -> [mod q] a == b.
Proof.
  intros Hb [->| ->] Hs; [rewrite (gp_ne0 b Hb) in Hs; discriminate|].
  destruct (Z.eq_dec (a mod q) 0) as [Ha|Ha]; [rewrite (gp_0 a Ha), (gp_ne0 b Hb) in Hs; discriminate|].
  rewrite samePoint_gp in Hs by assumption. injection Hs as Hs%Z.eqb_eq%eqm_0_mod.
  rewrite <- (Z.sub_add b a), Hs. now rewrite Z.add_0_l.
Qed.

Lemma checkK1R_point srm x y pf k v s t p s' t' : sMsgs s R7 !! k = Some (Some (SignRound7Message srm x y pf)) ->
  checkK1R k v s t = Ret p s' t' -> p = (x, y).
Proof.
  intros Hm. unfold checkK1R. intros Hr. inv_act.
  repeat (match goal with H : match ?m with _ => _ end _ _ = Ret _ _ _ |- _ => destruct m eqn:?; try discriminate H end; inv_act).
  repeat match goal with H : signGetMsg _ _ _ _ = _ |- _ => apply signGetMsg_inv in H as (? & -> & ->) end.
  repeat (match goal with H : match ?m with _ => _ end _ _ = Ret _ _ _ |- _ => destruct m eqn:?; try discriminate H end; inv_act).
  congruence.
Qed.
End consistency.

(** The points of the rounds 7 and 8 a node holds: signer [i]'s is [a i * G]. *)
Definition heldK1R `{CurveLaws} (s : SignDNode) (a : nat -> Z) : Prop :=
  forall i, (i < length (idsign s))%nat ->
  exists srm pf, sMsgs s R7 !! i = Some (Some (SignRound7Message srm (gp (a i)).1 (gp (a i)).2 pf)).

Definition heldS1 `{CurveLaws} (s : SignDNode) (a : nat -> Z) : Prop :=
  forall i, (i < length (idsign s))%nat ->
  exists srm pf, sMsgs s R8 !! i = Some (Some (SignRound8Message srm (gp (a i)).1 (gp (a i)).2 pf)).

(** The partial signatures a node holds. *)
Definition heldUs1 (s : SignDNode) (us : nat -> Z) : Prop :=
  forall i, (i < length (idsign s))%nat ->
  exists srm, sMsgs s R9 !! i = Some (Some (SignRound9Message srm (Some (us i)))).

(** Ready for round 10: a party at a round that has not started, with the message hash
    [m], its pre-signature, and its own place among the signers. *)
Definition ready10 (s : SignDNode) (m k r sigma : Z) : Prop :=
  exists k0 b0 Ry i, sRnd s = Some (k0, b0) /\ gStarted b0 = false /\ gTxhash b0 = Some m /\
    gPredata b0 = Some (mkPrePub (Some k) (Some r) Ry (Some sigma)) /\
    signIndexOf (idsign s) (gKgid b0) = Ok i /\ signInBounds (sMsgs s R9) i = true.

Section rounds8to11.
Context `{L : CurveLaws} `{G : GoLib} `{H : Sha256Lib}.
Abbreviation q := (cN S256).

Lemma checkS1_point h srm x y pf k v s t p s' t' : sMsgs s R8 !! k = Some (Some (SignRound8Message srm x y pf)) ->
  checkS1 h k v s t = Ret p s' t' -> p = (x, y).
Proof.
  intros Hm. unfold checkS1. intros Hr. inv_act.
  repeat match goal with H : signGetMsg _ _ _ _ = _ |- _ => apply signGetMsg_inv in H as (? & -> & ->) end.
  repeat (match goal with H : match ?m with _ => _ end _ _ = Ret _ _ _ |- _ => destruct m eqn:?; try discriminate H end; inv_act).
  congruence.
Qed.

(** The sum of the nonce points is the base point. *)
Lemma round8_sum a s t s' t' : heldK1R s a -> sign_round8_Start s t = Ret tt s' t' ->
  [mod q] zsum a (seq 0 (length (idsign s))) == 1.
Proof.
  intros Hh Hr. unfold sign_round8_Start in Hr.
  apply act_bind_Ret in Hr as (b & s1 & t1 & Hb & Hr).
  apply signBegin_inv in Hb as (-> & Hmsg & _ & _ & Hids & _).
  apply act_bind_Ret in Hr as (ci & s2 & t2 & Hci & Hr).
  assert (Hq : quiet (signGetDNodeIDIndex (gKgid b))) by quiet. apply Hq in Hci as ->.
  apply act_bind_Ret in Hr as (s0 & s3 & t3 & [= <- <- <-] & Hr).
  apply act_bind_Ret in Hr as (p & s4 & t4 & Hp & Hr).
  apply (sumChecked_sum _ a) in Hp as (-> & Hp); [|apply quiet_checkK1R|].
  2: { intros k v t5 p5 s5 t6 Hk. rewrite Hids in Hk. destruct (Hh k Hk) as (srm & pf & Hm).
       rewrite <- Hmsg in Hm. intros Hc. rewrite (checkK1R_point _ _ _ _ _ _ _ _ _ _ _ Hm Hc).
       now rewrite <- surjective_pairing. }
  apply act_bind_Ret in Hr as (same & s5 & t5 & (Hs & -> & ->)%calls_Ret & Hr).
  destruct same; [|discriminate]. rewrite <- Hids. pose proof N_ge2.
  assert (H1 : 1 mod q <> 0) by (rewrite Z.mod_small; lia).
  eapply samePoint_inv; [exact H1|exact Hp|]. rewrite gp_ne0, pt_G by assumption. exact Hs.
Qed.

(** The sum of the key points is the public key, and the pre-signature goes out. *)
Lemma round9_sum a x s t s' t' : heldS1 s a -> x mod q <> 0 -> (Pkx (sSave s), Pky (sSave s)) = gp x ->
  sign_round9_Start s t = Ret tt s' t' ->
  [mod q] zsum a (seq 0 (length (idsign s))) == x /\
  sEnd s' = sEnd s ++ [mkPrePub (u1K (sTemp s)) (deltaGammaG (sTemp s)).1 (deltaGammaG (sTemp s)).2 (sigma1 (sTemp s))].
Proof.
  intros Hh Hx Hpk Hr. unfold sign_round9_Start in Hr.
  apply act_bind_Ret in Hr as (b & s1 & t1 & Hb & Hr).
  apply signBegin_inv in Hb as (-> & Hmsg & Htemp & Hsave & Hids & _ & Hend & _).
  apply act_bind_Ret in Hr as (h & s2 & t2 & (_ & -> & ->)%calls_Ret & Hr).
  apply act_bind_Ret in Hr as (s0 & s3 & t3 & [= <- <- <-] & Hr).
  apply act_bind_Ret in Hr as (p & s4 & t4 & Hp & Hr).
  apply (sumChecked_sum _ a) in Hp as (-> & Hp); [|intros; apply quiet_checkS1|].
  2: { intros k v t5 p5 s5 t6 Hk. rewrite Hids in Hk. destruct (Hh k Hk) as (srm & pf & Hm).
       rewrite <- Hmsg in Hm. intros Hc. rewrite (checkS1_point _ _ _ _ _ _ _ _ _ _ _ _ Hm Hc).
       now rewrite <- surjective_pairing. }
  apply act_bind_Ret in Hr as (same & s5 & t5 & (Hs & -> & ->)%calls_Ret & Hr).
  destruct same; [|discriminate]. cbn [negb] in Hr. injection Hr as <- _.
  rewrite <- Hids. split.
  - eapply samePoint_inv; [exact Hx|exact Hp|]. rewrite <- Hpk, <- Hsave. exact Hs.
  - cbn. now rewrite Hend, Htemp.
Qed.

(** Round 10 sends the partial signature. *)
(** A round that has not started begins. *)
Lemma signBegin_run k s t k0 b0 : sRnd s = Some (k0, b0) -> gStarted b0 = false -> exists b s1, signBegin k s t = Ret b s1 t.
Proof.
  intros Hrnd Hst. unfold signBegin, signTheBase, signSetBase, sign_ResetOK, signSetBase, mbind, act_bind, getS, modify.
  rewrite Hrnd. cbn [mret act_ret]. rewrite Hst. cbn. rewrite Hrnd. cbn. eauto.
Qed.

Lemma round10_sends s t m k r sigma : ready10 s m k r sigma ->
  exists s' srm, sign_round10_Start s t = Ret tt s' t /\
    sOut s' = sOut s ++ [SignRound9Message srm (Some ((m * k + r * sigma) mod q))].
Proof.
  intros (k0 & b0 & Ry & i & Hrnd & Hst & Hm & Hp & Hi & Hin). pose proof N_ge2. unfold sign_round10_Start.
  destruct (signBegin_run 10 s t k0 b0 Hrnd Hst) as (b & s1 & Hb). rewrite (act_bind_run _ _ _ _ b s1 t Hb).
  apply signBegin_inv in Hb as (_ & Hmsg & _ & _ & Hids & Hout & _ & _ & k1 & b1 & Hr1 & Hkg & Hpre & Htx).
  rewrite Hrnd in Hr1. injection Hr1 as <- <-. rewrite Hm in Htx. rewrite Hp in Hpre. rewrite Htx, Hpre, Hkg.
  rewrite (act_bind_run _ _ _ _ i s1 t).
  2: { unfold signGetDNodeIDIndex. rewrite (act_bind_run _ _ _ _ s1 s1 t) by done. apply calls_run. now rewrite Hids. }
  do 5 (erewrite act_bind_run by (apply calls_run; reflexivity)).
  erewrite act_bind_run by (apply calls_run, Mod_pos; lia).
  rewrite (act_bind_run _ _ _ _ tt (sWithMsgs (signSetSlot (sMsgs s1) R9
    (<[Z.to_nat i := Some (SignRound9Message (signMyHeader b i) (Some ((m * k + r * sigma) mod q)))]> (sMsgs s1 R9))) s1) t).
  2: { unfold signPutMsg. rewrite (act_bind_run _ _ _ _ s1 s1 t) by done. now rewrite Hmsg, Hin. }
  eexists _, _. split; [reflexivity|]. cbn. now rewrite Hout.
Qed.

Lemma addMessages_run sl number (a : nat -> Z) s t ks : forall d,
  (forall k, k ∈ ks -> messageNumber sl number k s t = Ret (Some (a k)) s t) ->
  addMessages sl number ks (Some d) s t = Ret (Some (d + zsum a ks)) s t.
Proof.
  induction ks as [|k ks IH]; intros d Hk; cbn [addMessages].
  - cbn. now rewrite Z.add_0_r.
  - rewrite (act_bind_run _ _ _ _ (Some (a k)) s t) by (apply Hk; constructor).
    rewrite (act_bind_run _ _ _ _ (Some (d + a k)) s t) by now apply calls_run.
    rewrite IH by (intros; apply Hk; now constructor). now rewrite zsum_cons, Z.add_assoc.
Qed.

Lemma sumMessages_run sl number (a : nat -> Z) s t : idsign s <> [] ->
  (forall k, (k < length (idsign s))%nat -> messageNumber sl number k s t = Ret (Some (a k)) s t) ->
  sumMessages sl number s t = Ret (zsum a (seq 0 (length (idsign s))) mod q) s t.
Proof.
  intros Hne Hk. pose proof N_ge2. unfold sumMessages.
  assert (Hn : (0 < length (idsign s))%nat) by (destruct (idsign s); cbn; [done|lia]).
  rewrite (act_bind_run _ _ _ _ (Some (a 0%nat)) s t) by now apply Hk.
  rewrite (act_bind_run _ _ _ _ s s t) by done.
  rewrite (act_bind_run _ _ _ _ (Some (a 0%nat + zsum a (seq 1 (length (idsign s) - 1)))) s t).
  2: { apply addMessages_run. intros k Hin%elem_of_seq. apply Hk. lia. }
  rewrite (act_bind_run _ _ _ _ (a 0%nat + zsum a (seq 1 (length (idsign s) - 1))) s t) by now apply calls_run.
  apply calls_run. rewrite Mod_pos by lia.
  destruct (length (idsign s)) as [|n]; [lia|]. cbn [seq]. rewrite zsum_cons. now replace (S n - 1)%nat with n by lia.
Qed.

(** Round 11 adds the partial signatures up. *)
Lemma round11_sum us s t k0 b0 : sRnd s = Some (k0, b0) -> gStarted b0 = false -> idsign s <> [] -> heldUs1 s us ->
  exists s', sign_round11_Start s t = Ret tt s' t /\
    sFinalizeend s' = sFinalizeend s ++ [zsum us (seq 0 (length (idsign s))) mod q].
Proof.
  intros Hrnd Hst Hne Hh. unfold sign_round11_Start.
  destruct (signBegin_run 11 s t k0 b0 Hrnd Hst) as (b & s1 & Hb). rewrite (act_bind_run _ _ _ _ b s1 t Hb).
  apply signBegin_inv in Hb as (_ & Hmsg & _ & _ & Hids & _ & _ & Hfin & _).
  rewrite (act_bind_run _ _ _ _ (zsum us (seq 0 (length (idsign s))) mod q) s1 t).
  2: { rewrite <- Hids. apply sumMessages_run; [congruence|]. intros k Hk. rewrite Hids in Hk.
       destruct (Hh k Hk) as (srm & Hm). unfold messageNumber, signGetMsg.
       rewrite (act_bind_run _ _ _ _ (Some (SignRound9Message srm (Some (us k)))) s1 t); [done|].
       rewrite (act_bind_run _ _ _ _ s1 s1 t) by done. apply calls_run. unfold index. now rewrite Hmsg, Hm. }
  eexists. split; [reflexivity|]. cbn. now rewrite Hfin.
Qed.
End rounds8to11.

(** * Claims *)

(** C16: round 1 turns polynomial shares of the key into additive ones.  For signers
    with identifiers distinct modulo the order and key shares on a polynomial with at
    most as many coefficients as there are signers, every [w1] is computed, is
    reduced, and the [w1]s add up to the key; a repeated identifier is an error. *)
Theorem calcW1_additive `{E : Curve} ids sks cs : Z.prime (cN S256) -> ids <> [] ->
  distinct (cN S256) ids -> length sks = length ids -> (length cs <= length ids)%nat ->
  (forall i x sk, ids !! i = Some x -> sks !! i = Some sk -> [mod cN S256] sk == peval cs x) ->
  (exists ws, Forall2 (fun '(i, sk) w => calcW1 (Some <$> ids) (Z.of_nat i) (Some sk) = Ok w)
                      (zip (seq 0 (length ids)) sks) ws /\
     Forall (fun w => 0 <= w < cN S256) ws /\ [mod cN S256] zsum id ws == peval cs 0) /\
  (forall ids' i j x y sk, ids' !! i = Some x -> ids' !! j = Some y -> i <> j -> (y - x) mod cN S256 = 0 ->
     calcW1 (Some <$> ids') (Z.of_nat i) (Some sk) = Err "calc times fail").
Proof.
  intros HN Hne Hd Hlen Hcs Hsk. split; [now apply calcW1_sum|intros; eapply calcW1_err; eauto].
Qed.

(** The polynomial [7 + 3X]; signers 2 and 5 on the small curve. *)
Lemma calcW1_additive_witness : exists w1 w2,
  calcW1 [Some 2; Some 5] 0 (Some 13) = Ok w1 /\ calcW1 [Some 2; Some 5] 1 (Some 22) = Ok w2 /\
  [mod 139] w1 + w2 == 7.
Proof.
  destruct (calcW1_additive [2; 5] [13; 22] [7; 3]) as [(ws & Hws & _ & Hs) _].
  - apply toy_laws.
  - discriminate.
  - apply (bool_decide_unpack (distinct 139 [2; 5])). vm_compute. exact I.
  - reflexivity.
  - cbn. lia.
  - intros [|[|i]] x sk Hx Hk; cbn in Hx, Hk; [| |discriminate];
      injection Hx as <-; injection Hk as <-; apply eqm_iff; reflexivity.
  - cbn in Hws. apply Forall2_cons_inv_l in Hws as (w1 & ws1 & H1 & Hws & ->).
    apply Forall2_cons_inv_l in Hws as (w2 & ws2 & H2 & Hws & ->). apply Forall2_nil_inv_l in Hws as ->.
    exists w1, w2. split; [exact H1|]. split; [exact H2|]. cbn in Hs. unfold id in Hs. now rewrite Z.add_0_r in Hs.
Defined.

(** C15: rounds 4 and 5 turn a product into a sum.  Let signer [i]'s ciphertext hold
    its nonce share [k i], let [c j i] be signer [j]'s answer to it with its secret
    [g j] and mask [beta j i] drawn below the bound of round 4, and let [i] decrypt it
    to [alpha i j].  When the Paillier moduli have at least [9/10] of the configured
    length, each node's [sumShares] returns and the results add up, modulo the order,
    to the product of the sums of the [k]s and of the [g]s. *)
Theorem signing_products `{E : Curve} `{G : GoLib} `{H : Sha256Lib} n (k g : nat -> Z) (beta alpha c : nat -> nat -> Z)
    (pk : nat -> PublicKey) (sk : nat -> PrivateKey) (p p' kc : nat -> Z) L bound : Z.prime (cN S256) ->
  (0 < n)%nat -> maskBound L = Ok bound ->
  (forall i, (i < n)%nat -> 0 <= k i < cN S256 /\ 0 <= g i < cN S256 /\
     keyPair (p i) (p' i) (pk i) (sk i) /\ 2 ^ (L - Z.quot L 10) <= p i * p' i /\
     encrypts (p i * p' i) (kc i) (k i)) ->
  (forall i j, (i < n)%nat -> (j < n)%nat -> 0 <= beta j i < bound /\
     (exists v masks s t r s' t',
        homoRespond i v (Some (g j)) masks s t = Ret (pk i, Some (kc i), c j i, beta j i, r) s' t') /\
     Decrypt (Some (sk i)) (Some (c j i)) = Ok (alpha i j)) ->
  exists ds, Forall2 (fun i d => sumShares n ((fun j => Some (alpha i j)) <$> seq 0 n)
                                   ((fun j => -1 * beta i j) <$> seq 0 n) = Ok d) (seq 0 n) ds /\
    [mod cN S256] zsum id ds == zsum k (seq 0 n) * zsum g (seq 0 n).
Proof.
  intros HN Hn Hb Hi Hij.
  assert (Ha : forall i j, (i < n)%nat -> (j < n)%nat -> alpha i j = k i * g j + beta j i).
  { intros i j Hin Hjn. destruct (Hi i Hin) as (Hk & _ & HK & HM & He). destruct (Hi j Hjn) as (_ & Hg & _).
    destruct (Hij i j Hin Hjn) as (Hbeta & (v & masks & s & t & r & s' & t' & Hr) & Hd).
    rewrite (homoRespond_opens _ _ _ _ _ _ _ _ _ _ _ _ _ _ _ _ _ Hr HK He) in Hd. injection Hd as <-.
    apply Z.mod_small. now apply (maskBound_room L bound). }
  exists ((fun i => (zsum (alpha i) (seq 0 n) + zsum (fun j => -1 * beta i j) (seq 0 n)) mod cN S256) <$> seq 0 n).
  split.
  - apply Forall2_fmap_r, Forall2_same_length_lookup. split; [done|]. intros a i i' Hi1 Hi2. simplify_eq.
    replace ((fun j => Some (alpha i j)) <$> seq 0 n) with (Some <$> (alpha i <$> seq 0 n))
      by (symmetry; apply (list_fmap_compose (alpha i) Some)).
    pose proof (sumShares_ok HN (alpha i <$> seq 0 n) ((fun j => -1 * beta i j) <$> seq 0 n)) as Hs.
    rewrite !length_fmap, length_seq in Hs. rewrite Hs; [now rewrite !zsum_map| |done].
    destruct n; [lia|discriminate].
  - rewrite zsum_map, <- (zsum_shares k g beta). apply zsum_eqm. intros i [_ Hin]%elem_of_seq. unfold id.
    rewrite eqm_mod. rewrite (zsum_ext (alpha i) (fun j => k i * g j + beta j i)); [done|].
    intros j [_ Hjn]%elem_of_seq. now apply Ha.
Qed.

(** Two signers who share the key [191*193]: nonce shares 10 and 20, secrets 30 and
    40. *)
Definition mtaKey : PublicKey * PrivateKey :=
  let pk := mkPublicKey (Itoa 16) (Some 36863) (Some 36864) (Some 1358880769) in
  (pk, mkPrivateKey (Itoa 16) pk (Some 36480) (Some 24447)).

Lemma mtaKey_pair : keyPair 191 193 mtaKey.1 mtaKey.2.
Proof. split; [small_prime|small_prime|lia|]. exists 16. vm_compute. reflexivity. Defined.

Lemma Encrypt_gives {p q pk sk} (HK : keyPair p q pk sk) m t c r t' :
  Encrypt pk (Some m) t = Ok ((c, r), t') -> encrypts (p * q) c m.
Proof. intros He. apply (Encrypt_encrypts HK) in He as (_ & _ & _ & Hr & Hc). now exists r. Qed.

(** A state that holds the two ciphertexts. *)
Definition mtaState : SignDNode :=
  let save := mkSave None None None None None [Some mtaKey.1; Some mtaKey.1] None [None; None] [Some 1; Some 2] None in
  let msg kc := Some (SignRound3Message (mkHeader "31" 0 []) (Some kc) []) in
  sWithMsgs (fun _ => [msg 205254673; msg 803075292])
    (signNewLocalDNode save [Some 1; Some 2] (Some 1) 2 16 false None None).

Lemma signing_products_witness : exists d1 d2,
  sumShares 2 [Some 1300; Some 2400] [-1000; -1001] = Ok d1 /\
  sumShares 2 [Some 1601; Some 2801] [-2000; -2001] = Ok d2 /\ [mod 139] d1 + d2 == 30 * 70.
Proof.
  destruct (signing_products 2 (fun i => nth i [10; 20] 0) (fun i => nth i [30; 40] 0)
    (fun j i => 1000 * Z.of_nat (S j) + Z.of_nat i)
    (fun i j => nth i [10; 20] 0 * nth j [30; 40] 0 + (1000 * Z.of_nat (S j) + Z.of_nat i))
    (fun j i => nth i (nth j [[913127064; 546988324]; [1754711; 827481770]] []) 0)
    (fun _ => mtaKey.1) (fun _ => mtaKey.2) (fun _ => 191) (fun _ => 193)
    (fun i => nth i [205254673; 803075292] 0) 16 13447) as (ds & Hd & Hs).
  - apply toy_laws.
  - lia.
  - reflexivity.
  - intros [|[|i]] Hi; [| |lia]; (split; [vm_compute; split; congruence|]);
      (split; [vm_compute; split; congruence|]); (split; [apply mtaKey_pair|]); (split; [vm_compute; congruence|]).
    + refine (Encrypt_gives mtaKey_pair 10 [Some 7] 205254673 7 [] _). vm_compute. reflexivity.
    + refine (Encrypt_gives mtaKey_pair 20 [Some 8] 803075292 8 [] _). vm_compute. reflexivity.
  - intros [|[|i]] [|[|j]] Hi Hj; try lia; (split; [cbn; lia|]); (split; [|vm_compute; reflexivity]).
    + exists (Some 1), [1000; 1001], mtaState, [Some 11], 11. eexists _, _. vm_compute. reflexivity.
    + exists (Some 1), [2000; 2001], mtaState, [Some 11], 11. eexists _, _. vm_compute. reflexivity.
    + exists (Some 2), [1000; 1001], mtaState, [Some 11], 11. eexists _, _. vm_compute. reflexivity.
    + exists (Some 2), [2000; 2001], mtaState, [Some 11], 11. eexists _, _. vm_compute. reflexivity.
  - cbn in Hd. apply Forall2_cons_inv_l in Hd as (d1 & ds1 & H1 & Hd & ->).
    apply Forall2_cons_inv_l in Hd as (d2 & ds2 & H2 & Hd & ->). apply Forall2_nil_inv_l in Hd as ->.
    exists d1, d2. split; [exact H1|]. split; [exact H2|]. cbn in Hs. unfold id in Hs. now rewrite Z.add_0_r in Hs.
Defined.

(** C3: what the consistency checks of the pre-signature establish.  Let [R] be
    [rho*G] and the points of the signers be [k i * R] (round 7) and [sigma i * R]
    (round 8), for any numbers.  A round 8 that returns without error shows that [rho]
    inverts the sum of the [k]s; a round 9 that does shows that [rho] times the sum of
    the [sigma]s is the private key of the public key of the save data, and puts out
    this node's pre-signature. *)
Theorem presign_consistent `{L : CurveLaws} `{G : GoLib} `{H : Sha256Lib} rho (k sigma : nat -> Z) x :
  (forall s t s' t', heldK1R s (fun i => rho * k i) -> sign_round8_Start s t = Ret tt s' t' ->
     [mod cN S256] rho * zsum k (seq 0 (length (idsign s))) == 1) /\
  (forall s t s' t', heldS1 s (fun i => rho * sigma i) -> x mod cN S256 <> 0 ->
     (Pkx (sSave s), Pky (sSave s)) = gp x -> sign_round9_Start s t = Ret tt s' t' ->
     [mod cN S256] rho * zsum sigma (seq 0 (length (idsign s))) == x /\
     sEnd s' = sEnd s ++ [mkPrePub (u1K (sTemp s)) (deltaGammaG (sTemp s)).1 (deltaGammaG (sTemp s)).2
                            (sigma1 (sTemp s))]).
Proof.
  split.
  - intros s t s' t' Hh Hr. rewrite <- zsum_mul. now apply (round8_sum _ s t s' t').
  - intros s t s' t' Hh Hx Hpk Hr. rewrite <- zsum_mul. now apply (round9_sum _ x s t s' t').
Qed.

(** C2: the signature is valid.  Let the signers hold nonce shares [k i] and key
    shares [sigma i] that pass the consistency checks for [R = rho*G], whose
    [x]-coordinate is [r] below the order, and the key [x].  When each of them is ready
    for round 10 with the message hash [m], round 10 of every signer returns and sends
    its partial signature; and round 11 of every node that holds these returns and puts
    out a number [s] with [s*rho = m + r*x] modulo the order, which [smpc.Verify2]
    accepts for the public key [x*G] when [s], [m] and [m - r*x] are not zero. *)
Theorem signature_valid `{L : CurveLaws} `{G : GoLib} `{H : Sha256Lib} n (node : nat -> SignDNode) (k sigma : nat -> Z)
    rho x r message m :
  [mod cN S256] rho * zsum k (seq 0 n) == 1 -> [mod cN S256] rho * zsum sigma (seq 0 n) == x ->
  r = (pt rho).1 -> 0 < r < cN S256 -> x mod cN S256 <> 0 -> (pt x).1 <> 0 -> SetString 16 message = Some m -> (0 < n)%nat ->
  (forall i, (i < n)%nat -> ready10 (node i) m (k i) r (sigma i)) ->
  let us i := (m * k i + r * sigma i) mod cN S256 in
  (forall i t, (i < n)%nat -> exists s' srm, sign_round10_Start (node i) t = Ret tt s' t /\
     sOut s' = sOut (node i) ++ [SignRound9Message srm (Some (us i))]) /\
  (forall s11 t11 k11 b11, sRnd s11 = Some (k11, b11) -> gStarted b11 = false -> length (idsign s11) = n -> heldUs1 s11 us ->
   exists s' s, sign_round11_Start s11 t11 = Ret tt s' t11 /\ sFinalizeend s' = sFinalizeend s11 ++ [s] /\
     0 <= s < cN S256 /\ [mod cN S256] s * rho == m + r * x /\
     (s <> 0 -> m mod cN S256 <> 0 -> (m - r * x) mod cN S256 <> 0 ->
      VerifySignature (Some r) (Some s) message (Some (pt x).1) (Some (pt x).2) = Ok true)).
Proof.
  intros Hk Hs Er Hr Hx Hx0 Hm Hn H10 us. split; [intros i t Hi; now apply round10_sends, H10|].
  intros s11 t11 k11 b11 Hrnd Hst Hids Hh. pose proof N_ge2. pose proof N_prime as HN.
  destruct (round11_sum us s11 t11 k11 b11) as (s' & E11 & Hfin); try assumption.
  { intros He. rewrite He in Hids. cbn in Hids. lia. }
  rewrite Hids in Hfin. set (s := zsum us (seq 0 n) mod cN S256) in *. exists s', s.
  assert (Hus : [mod cN S256] s == m * zsum k (seq 0 n) + r * zsum sigma (seq 0 n)).
  { unfold s. rewrite eqm_mod, <- !zsum_mul, <- zsum_add. apply zsum_eqm. intros i _. unfold us. apply eqm_mod. }
  assert (Heq : [mod cN S256] s * rho == m + r * x).
  { rewrite Hus, <- Hs. transitivity (m * (rho * zsum k (seq 0 n)) + r * (rho * zsum sigma (seq 0 n))).
    - apply eq_subrelation; [apply _|]. ring.
    - rewrite Hk. now rewrite Z.mul_1_r. }
  assert (Hsr : 0 <= s < cN S256) by (apply Z.mod_pos_bound; lia).
  split_and!; [assumption..| | |assumption|]; [lia|lia|].
  intros Hs0 Hm0 Hd. assert (Hs1 : 0 < s < cN S256) by lia.
  destruct (sig_inverse r s x Hx Hr Hs1) as (_ & Hw & _).
  assert (Hw0 : Z.invmod s (cN S256) mod cN S256 <> 0).
  { apply coprime_mod_ne0; [lia|]. apply (eqm_1_coprime _ _ s). now rewrite Z.mul_comm. }
  apply (VerifySignature_accepts r s message x m rho); try assumption.
  - intros Hz%eqm_0_mod. rewrite Hz, Z.mul_0_l in Hk. apply eqm_iff in Hk.
    rewrite Z.mod_0_l, Z.mod_small in Hk; lia.
  - rewrite <- Er. symmetry. apply Z.mod_small. lia.
  - now apply prime_mul_ne0.
  - replace (m * Z.invmod s (cN S256) - x * (r * Z.invmod s (cN S256))) with ((m - r * x) * Z.invmod s (cN S256)) by ring.
    now apply prime_mul_ne0.
Qed.

(** Two signers, key 5, nonce point [7*G]: nonce shares 8 and 12, key shares 40 and
    60, message hash 16. *)
Definition sigParty (i : nat) : SignDNode :=
  let pre := mkPrePub (Some (nth i [8; 12] 0)) (Some (toy_pt 7).1) None (Some (nth i [40; 60] 0)) in
  signFinalizeRound (signSetDNodeID (nth i ["1"; "2"]%string "")
    (signNewLocalDNode (NewLocalDNodeSaveData 2) [Some 1; Some 2] (Some 1) 2 2048 true (Some pre) (Some 16))).

Definition sigShare (i : nat) : Z := nth i [(16 * 8 + (toy_pt 7).1 * 40) mod 139; (16 * 12 + (toy_pt 7).1 * 60) mod 139] 0.

Definition sigParty11 : SignDNode :=
  let msg i := Some (SignRound9Message (mkHeader "31" (Z.of_nat i) []) (Some (sigShare i))) in
  sWithMsgs (fun _ => [msg 0%nat; msg 1%nat]) (sigParty 0).

Lemma signature_valid_witness : exists s' s, sign_round11_Start sigParty11 [] = Ret tt s' [] /\ sFinalizeend s' = [s] /\
  VerifySignature (Some (toy_pt 7).1) (Some s) "10" (Some (toy_pt 5).1) (Some (toy_pt 5).2) = Ok true.
Proof.
  destruct (signature_valid (L := toy_laws) 2 sigParty (fun i => nth i [8; 12] 0) (fun i => nth i [40; 60] 0) 7 5
    (toy_pt 7).1 "10" 16) as [_ H11].
  1, 2: apply eqm_iff; vm_compute; reflexivity.
  1: reflexivity.
  1: vm_compute; split; reflexivity.
  1, 2: vm_compute; discriminate.
  1: reflexivity.
  1: lia.
  1: { intros [|[|i]] Hi; [| |lia]; eexists _, _, _, _; (split; [reflexivity|]); (split; [reflexivity|]);
       (split; [reflexivity|]); (split; [reflexivity|]); (split; vm_compute; reflexivity). }
  destruct (H11 sigParty11 [] 10%nat (mkSignBase [false; false] false 0 "31" 2 2048
    (Some (mkPrePub (Some 8) (Some (toy_pt 7).1) None (Some 40))) (Some 16))) as (s' & s & E1 & E2 & _ & _ & Ev).
  1, 2, 3: reflexivity.
  1: { intros [|[|i]] Hi; [| |cbn in Hi; lia]; eexists; reflexivity. }
  exists s', s. split; [exact E1|]. split; [exact E2|].
  vm_compute in E1. injection E1 as <-. vm_compute in E2. injection E2 as <-.
  apply Ev; vm_compute; discriminate.
Defined.

(** One signer with nonce share 87 and key share 18 on the nonce point [8*G], the
    public key [5*G]; its messages hold the proofs it made in rounds 7 and 8. *)
Definition presignState : SignDNode :=
  let proofOf {A} (r : res (option A * tape)) := match r with Ok (pf, _) => pf | _ => None end in
  let nt := mkNtilde (Some 253) (Some 4) (Some 192) in
  let pk := mkPublicKey "8" (Some 187) (Some 188) (Some 34969) in
  let save := mkSave (gp 5).1 (gp 5).2 None None None [Some pk] None [Some nt] [Some 1] (Some 1) in
  let srm := mkHeader "31" 0 [] in
  let pdl := proofOf (NewPDLwSlackProof (Some (mkPDLWit (Some 87) (Some 9) None))
               (Some (pdlStatementOf pk nt (Some 30309) (gp (8 * 87)) (gp 8))) [Some 7; Some 21; Some 9; Some 6]) in
  let st := proofOf (NewSTProof (gp 21) (gp (8 * 18)) (gp 8) (gp 1) (Some 18) (Some 3) [Some 20; Some 30]) in
  let msgs sl := match sl with
    | R3 => [Some (SignRound3Message srm (Some 30309) [])]
    | R5 => [Some (SignRound5Message srm None (gp 21).1 (gp 21).2 None)]
    | R7 => [Some (SignRound7Message srm (gp (8 * 87)).1 (gp (8 * 87)).2 pdl)]
    | R8 => [Some (SignRound8Message srm (gp (8 * 18)).1 (gp (8 * 18)).2 st)]
    | _ => [None] end in
  let temp := setDeltaGammaG (gp 8) (setT1 (gp 21) (Some 3)
                (setSigma1 (Some 18) (setRound1 None (Some 87) None None emptySignTemp))) in
  sWithRnd (Some (8%nat, mkSignBase [false] false 7 "31" 1 2048 None None))
    (sWithTemp temp (sWithMsgs msgs (signNewLocalDNode save [Some 1] (Some 1) 1 2048 false None None))).

Lemma presign_consistent_witness :
  [mod 139] 8 * zsum (fun _ => 87) (seq 0 1) == 1 /\ [mod 139] 8 * zsum (fun _ => 18) (seq 0 1) == 5.
Proof.
  destruct (presign_consistent (L := toy_laws) 8 (fun _ => 87) (fun _ => 18) 5) as [H8 H9].
  assert (E8 : exists s' t', sign_round8_Start presignState [Some 20; Some 30] = Ret tt s' t')
    by (eexists _, _; vm_compute; reflexivity).
  assert (E9 : exists s' t', sign_round9_Start presignState [] = Ret tt s' t')
    by (eexists _, _; vm_compute; reflexivity).
  destruct E8 as (s8 & t8 & E8), E9 as (s9 & t9 & E9). split.
  - eapply (H8 presignState); [|exact E8]. intros [|i] Hi; [eexists _, _; reflexivity|cbn in Hi; lia].
  - refine (proj1 (H9 presignState _ _ _ _ _ _ E9)).
    + intros [|i] Hi; [eexists _, _; reflexivity|cbn in Hi; lia].
    + discriminate.
    + vm_compute. reflexivity.
Defined.
