(* ===== verification/ReMessage.v ===== *)
(** The messages of ECDSA resharing, [smpc-lib/ecdsa/reshare/message.go], and their
    decoding on arrival, [ReshareGetRealMessage] of [smpc/reshare.go]. *)

From Stdlib Require Import ZArith Lia.
From stdpp Require Import gmap strings.
From S2P Require Import Prelude Text Json IntGo Paillier Ntilde KgMessage.

#[local] Open Scope Z_scope.

(** The same structure as the header of the key generation messages. *)
Definition ReRoundMessage : Type := KGRoundMessage.

Inductive ReMessage :=
| ReRound0Message (re : ReRoundMessage)
| ReRound1Message (re : ReRoundMessage) (ComC : bigint)
| ReRound2Message (re : ReRoundMessage) (ID Share : bigint)
| ReRound2Message1 (re : ReRoundMessage) (ComD : list bigint) (SkP1PolyG : list (list bigint))
| ReRound3Message (re : ReRoundMessage) (U1PaillierPk : option PublicKey)
| ReRound4Message (re : ReRoundMessage) (U1NtildeH1H2 : option NtildeH1H2)
    (NtildeProof1 NtildeProof2 : option NtildeProof)
| ReRound5Message (re : ReRoundMessage) (NewSkOk : string).

Definition reHeader (m : ReMessage) : ReRoundMessage :=
  match m with
  | ReRound0Message re | ReRound1Message re _ | ReRound2Message re _ _ | ReRound2Message1 re _ _
  | ReRound3Message re _ | ReRound4Message re _ _ _ | ReRound5Message re _ => re
  end.

Definition reFromID (m : ReMessage) : string := FromID (reHeader m).
Definition reFromIndex (m : ReMessage) : Z := FromIndex (reHeader m).
Definition reToID (m : ReMessage) : list string := ToID (reHeader m).

Definition reIsBroadcast (m : ReMessage) : bool := match m with ReRound2Message _ _ _ => false | _ => true end.

Definition reMsgType (m : ReMessage) : string :=
  match m with
  | ReRound0Message _ => "ReRound0Message"
  | ReRound1Message _ _ => "ReRound1Message"
  | ReRound2Message _ _ _ => "ReRound2Message"
  | ReRound2Message1 _ _ _ => "ReRound2Message1"
  | ReRound3Message _ _ => "ReRound3Message"
  | ReRound4Message _ _ _ _ => "ReRound4Message"
  | ReRound5Message _ _ => "ReRound5Message"
  end.

(** * Encoding *)

Section outmap.
Context `{J : JsonLib}.

(** The entry ["Type"] of [OutMap]: the one of the round 5 message names round 4. *)
Definition reOutType (m : ReMessage) : string :=
  match m with ReRound5Message _ _ => "ReRound4Message" | _ => reMsgType m end.

Definition reHeaderMap (m : ReMessage) : smap :=
  <["Type" := reOutType m]> (
  <["ToID" := if reIsBroadcast m then "" else Join colon (reToID m)]> (
  <["FromIndex" := Itoa (reFromIndex m)]> (
  <["FromID" := reFromID m]> ∅))).

Definition ReOutMap1 (h : smap) (ComC : bigint) : res smap := Ok (<["ComC" := Sprintf_v ComC]> h).

Definition ReOutMap2 (h : smap) (ID Share : bigint) : res smap :=
  Ok (<["Share" := Sprintf_v Share]> (<["ID" := Sprintf_v ID]> h)).

Definition ReOutMap21 (h : smap) (ComD : list bigint) (SkP1PolyG : list (list bigint)) : res smap :=
  Ok (<["SkP1PolyG" := Join bar (joinInts <$> SkP1PolyG)]> (<["ComD" := joinInts ComD]> h)).

Definition ReOutMap3 (h : smap) (pk : option PublicKey) : res smap :=
  pk ← deref pk; Ok (<["U1PaillierPk" := PublicKey_MarshalJSON pk]> h).

Definition ReOutMap4 (h : smap) (nt : option NtildeH1H2) (pf1 pf2 : option NtildeProof) : res smap :=
  nt ← deref nt; pf1 ← deref pf1; pf2 ← deref pf2;
  Ok (<["NtildeProof2" := NtildeProof_MarshalJSON pf2]> (
      <["NtildeProof1" := NtildeProof_MarshalJSON pf1]> (
      <["U1NtildeH1H2" := NtildeH1H2_MarshalJSON nt]> h))).

Definition ReOutMap5 (h : smap) (NewSkOk : string) : res smap := Ok (<["NewSkOk" := NewSkOk]> h).

Definition ReOutMap (m : ReMessage) : res smap :=
  let h := reHeaderMap m in
  match m with
  | ReRound0Message _ => Ok h
  | ReRound1Message _ ComC => ReOutMap1 h ComC
  | ReRound2Message _ ID Share => ReOutMap2 h ID Share
  | ReRound2Message1 _ ComD SkP1PolyG => ReOutMap21 h ComD SkP1PolyG
  | ReRound3Message _ pk => ReOutMap3 h pk
  | ReRound4Message _ nt pf1 pf2 => ReOutMap4 h nt pf1 pf2
  | ReRound5Message _ ok => ReOutMap5 h ok
  end.
End outmap.

(** * Decoding *)

Section real.
Context `{J : JsonLib}.

(** A decoding error does not end the function: control reaches the last lines,
    which build a round 0 message. *)
Definition reOrElse {A} (r : res A) (k : A -> res (option ReMessage)) (rest : res (option ReMessage))
  : res (option ReMessage) :=
  match r with Ok a => k a | Err _ => rest | Panic => Panic | Starve => Starve end.

(** The rows of the committed polynomial; nil when a row or a number is empty. *)
Definition splitRows (s : string) : option (list (list Z)) :=
  allSome ((fun v => if String.eqb v "" then None else splitInts v) <$> Split bar s).

(** One [if] per message type, in the order of the code. *)
Definition reReal (msg : smap) (re re0 : ReRoundMessage) : res (option ReMessage) :=
  let ty := mget msg "Type" in
  let round0 := Ok (Some (ReRound0Message re0)) in
  if String.eqb ty "ReRound1Message" then
    if String.eqb (mget msg "ComC") "" then Ok None else
    match mgetInt msg "ComC" with
    | Some comc => Ok (Some (ReRound1Message re (Some comc)))
    | None => Ok None
    end
  else if String.eqb ty "ReRound2Message" then
    if String.eqb (mget msg "ID") "" || String.eqb (mget msg "Share") "" then Ok None else
    Ok (Some (ReRound2Message re (mgetInt msg "ID") (mgetInt msg "Share")))
  else if String.eqb ty "ReRound2Message1" then
    if String.eqb (mget msg "ComD") "" || String.eqb (mget msg "SkP1PolyG") "" then Ok None else
    match splitInts (mget msg "ComD"), splitRows (mget msg "SkP1PolyG") with
    | Some comd, Some ugg =>
        Ok (Some (ReRound2Message1 re (Some <$> comd) ((fun r : list Z => Some <$> r) <$> ugg)))
    | _, _ => Ok None
    end
  else if String.eqb ty "ReRound3Message" then
    if String.eqb (mget msg "U1PaillierPk") "" then Ok None else
    reOrElse (PublicKey_UnmarshalJSON (mget msg "U1PaillierPk")) (fun pub =>
      Ok (Some (ReRound3Message re (Some pub)))) round0
  else if String.eqb ty "ReRound4Message" then
    if String.eqb (mget msg "U1NtildeH1H2") "" || String.eqb (mget msg "NtildeProof1") ""
       || String.eqb (mget msg "NtildeProof2") "" then Ok None else
    reOrElse (NtildeH1H2_UnmarshalJSON (mget msg "U1NtildeH1H2")) (fun nti =>
      reOrElse (NtildeProof_UnmarshalJSON (mget msg "NtildeProof1")) (fun pf1 =>
        reOrElse (NtildeProof_UnmarshalJSON (mget msg "NtildeProof2")) (fun pf2 =>
          Ok (Some (ReRound4Message re (Some nti) (Some pf1) (Some pf2)))) round0) round0) round0
  else if String.eqb ty "ReRound5Message" then
    if String.eqb (mget msg "NewSkOk") "" then Ok None else
    Ok (Some (ReRound5Message re (mget msg "NewSkOk")))
  else round0.

Definition ReshareGetRealMessage (msg : smap) : res (option ReMessage) :=
  let from := mget msg "FromID" in
  if String.eqb from "" then Ok None else
  let v := mget msg "ToID" in
  let to := if String.eqb v "" then [] else Split colon v in
  match Atoi (mget msg "FromIndex") with
  | Ok index => reReal msg (mkHeader from index to) (mkHeader from (-1) to)
  | _ => Ok None
  end.
End real.

(** * Messages on the wire *)

Section wire.
Context `{J : JsonLaws}.

Definition reHeaderOk (m : ReMessage) : Prop :=
  FromID (reHeader m) <> "" /\ - 2 ^ 63 <= FromIndex (reHeader m) < 2 ^ 63 /\
  if reIsBroadcast m then ToID (reHeader m) = []
  else Forall (fun s => s <> "" /\ noSep colon s = true) (ToID (reHeader m)).

(** No field is nil; the round 5 message is left out. *)
Definition reBodyOk (m : ReMessage) : Prop :=
  match m with
  | ReRound0Message re => FromIndex re = -1
  | ReRound1Message _ (Some _) => True
  | ReRound2Message _ (Some _) (Some _) => True
  | ReRound2Message1 _ d g => intsOk d /\ g <> [] /\ Forall intsOk g
  | ReRound3Message _ (Some pk) => PublicKey_UnmarshalJSON (PublicKey_MarshalJSON pk) = Ok pk
  | ReRound4Message _ (Some nt) (Some pf1) (Some pf2) =>
      NtildeH1H2_UnmarshalJSON (NtildeH1H2_MarshalJSON nt) = Ok nt /\
      NtildeProof_UnmarshalJSON (NtildeProof_MarshalJSON pf1) = Ok pf1 /\
      NtildeProof_UnmarshalJSON (NtildeProof_MarshalJSON pf2) = Ok pf2
  | _ => False
  end.

Lemma ReGetRealMessage_header m o msg : o ⊆ msg ->
  (forall k v, reHeaderMap m !! k = Some v -> o !! k = Some v) -> reHeaderOk m ->
  ReshareGetRealMessage msg =
    reReal msg (reHeader m) (mkHeader (FromID (reHeader m)) (-1) (ToID (reHeader m))) /\
  mget msg "Type" = reOutType m.
Proof.
  intros Hs Ho (Hf & Hi & Ht). unfold ReshareGetRealMessage.
  rewrite !(mget_sub o msg "FromID" (reFromID m)), (mget_sub o msg "FromIndex" (Itoa (reFromIndex m))),
    !(mget_sub o msg "ToID" (if reIsBroadcast m then "" else Join colon (reToID m))),
    (mget_sub o msg "Type" (reOutType m)) by (assumption || (apply Ho; unfold reHeaderMap; map_look)).
  split; [|done]. unfold reFromID, reFromIndex. rewrite (eqb_nonempty _ Hf), Atoi_Itoa by assumption.
  assert (Hto : (if String.eqb (if reIsBroadcast m then "" else Join colon (reToID m)) "" then []
    else Split colon (if reIsBroadcast m then "" else Join colon (reToID m))) = ToID (reHeader m)).
  { destruct (reIsBroadcast m); [now rewrite Ht|]. unfold reToID in *. now apply receivers_read_back. }
  rewrite Hto. now destruct (reHeader m).
Qed.

Lemma ReOutMap_header m o : ReOutMap m = Ok o -> forall k v, reHeaderMap m !! k = Some v -> o !! k = Some v.
Proof.
  intros Ho k v Hk.
  assert (Hin : k = "Type" \/ k = "ToID" \/ k = "FromIndex" \/ k = "FromID").
  { unfold reHeaderMap in Hk. rewrite !lookup_insert_Some, lookup_empty in Hk. naive_solver. }
  destruct m as [| | | | ? [] | ? [] [] [] | ];
    cbn [ReOutMap ReOutMap1 ReOutMap2 ReOutMap21 ReOutMap3 ReOutMap4 ReOutMap5 deref mbind res_bind] in Ho;
    try discriminate; injection Ho as <-; repeat (rewrite lookup_insert_ne by naive_solver); exact Hk.
Qed.

Lemma splitRows_eq s gz :
  allSome (splitInts <$> Split bar s) = Some gz -> splitRows s = Some gz.
Proof.
  intros Hg. unfold splitRows. apply allSome_Some in Hg. apply allSome_Some. rewrite <- Hg.
  apply list_fmap_ext. intros i v Hv. destruct (String.eqb_spec v "") as [->|]; [|done].
  exfalso. assert (Hi : (splitInts <$> Split bar s) !! i = Some (splitInts "")) by now rewrite list_lookup_fmap, Hv.
  rewrite Hg, list_lookup_fmap in Hi. destruct (gz !! i) as [r|] eqn:Er; [|discriminate].
  cbn in Hi. discriminate.
Qed.
End wire.

(** * Claims *)

(** Every resharing message up to round 4 reaches the receiver unchanged, from
    any map that holds the sender's entries. *)
Theorem re_message_roundtrip `{J : JsonLaws} m : reHeaderOk m -> reBodyOk m ->
  exists o, ReOutMap m = Ok o /\ forall msg, o ⊆ msg -> ReshareGetRealMessage msg = Ok (Some m).
Proof.
  intros Hh Hb. assert (Hex : exists o, ReOutMap m = Ok o).
  { destruct m as [| ? [] | ? [] [] | | ? [] | ? [] [] [] | ]; cbn in Hb |- *; try done; eauto. }
  destruct Hex as [o Ho]. exists o. split; [done|]. intros msg Hs.
  destruct (ReGetRealMessage_header m o msg Hs (ReOutMap_header m o Ho) Hh) as [-> HT]. unfold reReal. rewrite HT.
  destruct m as [re | re [c|] | re [id|] [sh|] | re d g | re [pk|] | re [nt|] [pf1|] [pf2|] | re ok];
    cbn in Hb; try done.
  all: cbn [reOutType reMsgType String.eqb Ascii.eqb Bool.eqb reHeader].
  all: cbn [ReOutMap ReOutMap1 ReOutMap2 ReOutMap21 ReOutMap3 ReOutMap4 deref mbind res_bind] in Ho; injection Ho as <-.
  - destruct re. cbn in Hb |- *. now subst.
  - read Hs. now nonempty.
  - read Hs. now nonempty.
  - destruct Hb as ((ds & -> & Hd) & Hg & HF). destruct (split_rows g Hg HF) as (gz & -> & HG & HJ). read Hs.
    rewrite (eqb_nonempty _ (joinInts_nonempty ds Hd)), (eqb_nonempty _ HJ). cbn [orb].
    rewrite splitInts_join by assumption. now rewrite (splitRows_eq _ gz HG).
  - read Hs. now rewrite (eqb_nonempty (PublicKey_MarshalJSON pk) (json_nonempty _)), Hb.
  - destruct Hb as (Hn & H1 & H2). read Hs.
    rewrite (eqb_nonempty (NtildeH1H2_MarshalJSON nt) (json_nonempty _)),
      (eqb_nonempty (NtildeProof_MarshalJSON pf1) (json_nonempty _)),
      (eqb_nonempty (NtildeProof_MarshalJSON pf2) (json_nonempty _)). cbn [orb].
    rewrite Hn. cbn [reOrElse]. rewrite H1. cbn [reOrElse]. now rewrite H2.
Qed.

Lemma re_message_roundtrip_witness :
  let m := ReRound2Message1 (mkHeader "31" 0 []) [Some 3; Some (-2)] [[Some 1; Some 2]; [Some 4; Some 5]] in
  exists o, ReOutMap m = Ok o /\ ReshareGetRealMessage (<["Sig" := "00"]> o) = Ok (Some m).
Proof.
  intros m. destruct (re_message_roundtrip m) as (o & Ho & HG).
  - split; [discriminate|]. split; [split; [discriminate|reflexivity]|reflexivity].
  - split; [exists [3; -2]; split; [reflexivity|discriminate]|]. split; [discriminate|].
    repeat constructor; [exists [1; 2]|exists [4; 5]]; (split; [reflexivity|discriminate]).
  - exists o. split; [exact Ho|]. apply HG, insert_subseteq. injection Ho as <-. reflexivity.
Defined.

(** C21: the last message of resharing never arrives.  Its [OutMap] names the type
    of round 4, so the receiver looks for the entries of round 4, finds none and
    drops it, whatever the transport adds beside the message's own entries. *)
Theorem re_round5_lost `{J : JsonLaws} re ok : FromID re <> "" -> - 2 ^ 63 <= FromIndex re < 2 ^ 63 -> ToID re = [] ->
  exists o, ReOutMap (ReRound5Message re ok) = Ok o /\
  forall msg, o ⊆ msg -> msg !! "U1NtildeH1H2" = None -> ReshareGetRealMessage msg = Ok None.
Proof.
  intros Hf Hi Ht. eexists. split; [reflexivity|]. intros msg Hs Hn.
  destruct (ReGetRealMessage_header (ReRound5Message re ok) _ msg Hs) as [-> HT].
  - apply ReOutMap_header. reflexivity.
  - split; [assumption|]. split; assumption.
  - unfold reReal. rewrite HT. cbn [reOutType String.eqb Ascii.eqb Bool.eqb].
    unfold mget at 1. rewrite Hn. reflexivity.
Qed.

Lemma re_round5_lost_witness : exists o,
  ReOutMap (ReRound5Message (mkHeader "31" 0 []) "TRUE") = Ok o /\
  ReshareGetRealMessage (<["Sig" := "00"]> o) = Ok None.
Proof.
  destruct (re_round5_lost (mkHeader "31" 0 []) "TRUE") as (o & Ho & HG).
  - discriminate.
  - split; [discriminate|reflexivity].
  - reflexivity.
  - exists o. split; [exact Ho|]. injection Ho as <-. apply HG; [apply insert_subseteq|]; reflexivity.
Defined.
