(* ===== verification/Reshare.v ===== *)
(** A party of ECDSA resharing, [smpc-lib/ecdsa/reshare]: its state
    ([local_dnode.go]), the bookkeeping of the rounds ([rounds.go]), the seven rounds
    ([round_0.go] to [round_6.go]), and the way [smpc/reshare.go] feeds a message to
    it.

    As in [Keygen], the rounds share one [base], a [ReDNode] holds it beside the data
    it points to, and a send on a channel appends to a log.  The loops that are the
    same as in key generation and in signing are used from there. *)

From Stdlib Require Import ZArith Lia.
From stdpp Require Import gmap strings.
From S2P Require Import Prelude GoBig Random Text Hex IntGo Json Secp256k1 Vss2 Commit Paillier Ntilde.
From S2P Require Import Gg20Zk Common DNode KgMessage KgSave Keygen SgMessage Signing ReMessage.

#[local] Open Scope Z_scope.

(** * Data *)

(** [reshareRound0Messages] and so on. *)
Inductive reSlot := Q0 | Q1 | Q2 | Q21 | Q3 | Q4 | Q5.

#[export] Instance reSlot_eq_dec : EqDecision reSlot.
Proof. solve_decision. Defined.

Definition reSlotOf (m : ReMessage) : reSlot :=
  match m with
  | ReRound0Message _ => Q0
  | ReRound1Message _ _ => Q1
  | ReRound2Message _ _ _ => Q2
  | ReRound2Message1 _ _ _ => Q21
  | ReRound3Message _ _ => Q3
  | ReRound4Message _ _ _ _ => Q4
  | ReRound5Message _ _ => Q5
  end.

Record reTemp := mkReTemp {
  (* round 1 *)
  qW1 : bigint; qComd : list bigint; skP1Poly : option PolyStruct2; skP1PolyG : list (list bigint);
  (* round 2 *)
  skP1Shares : list ShareStruct2;
  (* round 3: [(pkx, pky)] *)
  qPk : gpoint; newskU1 : bigint; qPaillierSk : option PrivateKey; qPaillierPk : option PublicKey;
  (* round 4 *)
  qNtilde : option NtildeH1H2; qNtildePriv : option NtildePrivData }.

Definition emptyReTemp : reTemp := mkReTemp None [] None [] [] nilpt None None None None None.

(** [base], without the pointers to the party's own data. *)
Record reBase := mkReBase {
  qOk : list bool; qStarted : bool; qNumber : Z; qDnodeid : string; qDnodecount : nat; qThreshold : nat;
  qPaillierkeylength : Z; qOldnode : bool; qOldindex : Z; idreshare : list bigint }.

Record ReDNode := mkReNode {
  reRnd : option (nat * reBase);
  reID : string; reCount : nat; reThresHold : nat; rePaillierKeyLength : Z; reOldnode : bool; reOldindex : Z;
  reMsgs : reSlot -> list (option ReMessage);
  reTmp : reTemp;
  reSave : LocalDNodeSaveData;
  reOut : list ReMessage;
  reEnd : list LocalDNodeSaveData;
  (** the package's channel of safe primes *)
  rePrimes : primeQueue }.

Abbreviation rs := (act ReDNode).

(** * Assignments *)

Definition rWithRnd r (s : ReDNode) := mkReNode r (reID s) (reCount s) (reThresHold s) (rePaillierKeyLength s)
  (reOldnode s) (reOldindex s) (reMsgs s) (reTmp s) (reSave s) (reOut s) (reEnd s) (rePrimes s).
Definition rWithID id (s : ReDNode) := mkReNode (reRnd s) id (reCount s) (reThresHold s) (rePaillierKeyLength s)
  (reOldnode s) (reOldindex s) (reMsgs s) (reTmp s) (reSave s) (reOut s) (reEnd s) (rePrimes s).
Definition rWithMsgs m (s : ReDNode) := mkReNode (reRnd s) (reID s) (reCount s) (reThresHold s)
  (rePaillierKeyLength s) (reOldnode s) (reOldindex s) m (reTmp s) (reSave s) (reOut s) (reEnd s) (rePrimes s).
Definition rWithTemp t (s : ReDNode) := mkReNode (reRnd s) (reID s) (reCount s) (reThresHold s)
  (rePaillierKeyLength s) (reOldnode s) (reOldindex s) (reMsgs s) t (reSave s) (reOut s) (reEnd s) (rePrimes s).
Definition rWithSave d (s : ReDNode) := mkReNode (reRnd s) (reID s) (reCount s) (reThresHold s)
  (rePaillierKeyLength s) (reOldnode s) (reOldindex s) (reMsgs s) (reTmp s) d (reOut s) (reEnd s) (rePrimes s).
Definition rWithOut o (s : ReDNode) := mkReNode (reRnd s) (reID s) (reCount s) (reThresHold s)
  (rePaillierKeyLength s) (reOldnode s) (reOldindex s) (reMsgs s) (reTmp s) (reSave s) o (reEnd s) (rePrimes s).
Definition rWithEnd e (s : ReDNode) := mkReNode (reRnd s) (reID s) (reCount s) (reThresHold s)
  (rePaillierKeyLength s) (reOldnode s) (reOldindex s) (reMsgs s) (reTmp s) (reSave s) (reOut s) e (rePrimes s).
Definition rWithPrimes ch (s : ReDNode) := mkReNode (reRnd s) (reID s) (reCount s) (reThresHold s)
  (rePaillierKeyLength s) (reOldnode s) (reOldindex s) (reMsgs s) (reTmp s) (reSave s) (reOut s) (reEnd s) ch.

Definition tSetRound1 w comd poly polyG (t : reTemp) := mkReTemp w comd poly polyG (skP1Shares t) (qPk t)
  (newskU1 t) (qPaillierSk t) (qPaillierPk t) (qNtilde t) (qNtildePriv t).
Definition tSetW1 w (t : reTemp) := tSetRound1 w (qComd t) (skP1Poly t) (skP1PolyG t) t.
Definition tSetShares l (t : reTemp) := mkReTemp (qW1 t) (qComd t) (skP1Poly t) (skP1PolyG t) l (qPk t)
  (newskU1 t) (qPaillierSk t) (qPaillierPk t) (qNtilde t) (qNtildePriv t).
Definition tSetKey pk sk (t : reTemp) := mkReTemp (qW1 t) (qComd t) (skP1Poly t) (skP1PolyG t) (skP1Shares t) pk
  sk (qPaillierSk t) (qPaillierPk t) (qNtilde t) (qNtildePriv t).
Definition tSetPaillier sk pk (t : reTemp) := mkReTemp (qW1 t) (qComd t) (skP1Poly t) (skP1PolyG t) (skP1Shares t)
  (qPk t) (newskU1 t) sk pk (qNtilde t) (qNtildePriv t).
Definition tSetNtilde nt pr (t : reTemp) := mkReTemp (qW1 t) (qComd t) (skP1Poly t) (skP1PolyG t) (skP1Shares t)
  (qPk t) (newskU1 t) (qPaillierSk t) (qPaillierPk t) nt pr.

Definition reSetSlot (f : reSlot -> list (option ReMessage)) (sl : reSlot) l : reSlot -> list (option ReMessage) :=
  fun sl' => if decide (sl' = sl) then l else f sl'.

Definition reSetTemp (f : reTemp -> reTemp) : rs unit := modify (fun s => rWithTemp (f (reTmp s)) s).
Definition reSetSave (f : LocalDNodeSaveData -> LocalDNodeSaveData) : rs unit :=
  modify (fun s => rWithSave (f (reSave s)) s).

(** Slices indexed by an [int]; an index out of range panics. *)
Definition rePutMsg (sl : reSlot) (i : Z) (m : ReMessage) : rs unit :=
  s ← getS;
  if inBounds (reMsgs s sl) i
  then modify (rWithMsgs (reSetSlot (reMsgs s) sl (<[Z.to_nat i := Some m]> (reMsgs s sl))))
  else crash.

Definition rePutPk (i : Z) (pk : option PublicKey) : rs unit :=
  s ← getS;
  let l := U1PaillierPk (reSave s) in
  if inBounds l i then reSetSave (withPks (<[Z.to_nat i := pk]> l)) else crash.

Definition rePutNtilde (i : Z) (nt : option NtildeH1H2) : rs unit :=
  s ← getS;
  let l := U1NtildeH1H2 (reSave s) in
  if inBounds l i then reSetSave (withNtildes (<[Z.to_nat i := nt]> l)) else crash.

Definition reGetMsg (sl : reSlot) (k : nat) : rs (option ReMessage) :=
  s ← getS; calls (index (reMsgs s sl) k).

(** [round.out <- m]. *)
Definition reSend (m : ReMessage) : rs unit := modify (fun s => rWithOut (reOut s ++ [m]) s).

Definition reMyHeader (b : reBase) (i : Z) : ReRoundMessage := mkHeader (qDnodeid b) i [].

(** * rounds.go *)

Definition reTheBase : rs reBase :=
  s ← getS; match reRnd s with Some (_, b) => mret b | None => crash end.

Definition reSetBase (f : reBase -> reBase) : rs unit :=
  modify (fun s => match reRnd s with Some (k, b) => rWithRnd (Some (k, f b)) s | None => s end).

Definition qWithOk ok (b : reBase) := mkReBase ok (qStarted b) (qNumber b) (qDnodeid b) (qDnodecount b)
  (qThreshold b) (qPaillierkeylength b) (qOldnode b) (qOldindex b) (idreshare b).
Definition qWithStarted st (b : reBase) := mkReBase (qOk b) st (qNumber b) (qDnodeid b) (qDnodecount b)
  (qThreshold b) (qPaillierkeylength b) (qOldnode b) (qOldindex b) (idreshare b).
Definition qWithNumber k (b : reBase) := mkReBase (qOk b) (qStarted b) k (qDnodeid b) (qDnodecount b)
  (qThreshold b) (qPaillierkeylength b) (qOldnode b) (qOldindex b) (idreshare b).
Definition qWithIds ids (b : reBase) := mkReBase (qOk b) (qStarted b) (qNumber b) (qDnodeid b) (qDnodecount b)
  (qThreshold b) (qPaillierkeylength b) (qOldnode b) (qOldindex b) ids.

Definition re_CanProceed (s : ReDNode) : bool :=
  match reRnd s with
  | Some (_, b) => qStarted b && forallb (fun ok : bool => ok) (qOk b)
  | None => false
  end.

Definition re_ResetOK : rs unit := reSetBase (fun b => qWithOk ((fun _ => false) <$> qOk b) b).

(** [GetIDs], of the messages of round 0. *)
Definition reIdsOf (msgs : list (option ReMessage)) : res (list bigint) :=
  ids ← mapRange (fun v =>
    v ← deref v;
    uidtmp ← DecodeString (reFromID v);
    Ok (SetString 10 uidtmp)) msgs;
  sortIDs ids.

Definition reGetIDs : rs (list bigint) := s ← getS; calls (reIdsOf (reMsgs s Q0)).

(** [GetDNodeIDIndex], the same lines as in signing on [round.idreshare]. *)
Definition reGetDNodeIDIndex (id : string) : rs Z :=
  b ← reTheBase; calls (signIndexOf (idreshare b) id).

(** The first lines of every [Start]. *)
Definition reBegin (k : Z) : rs reBase :=
  b ← reTheBase;
  if qStarted b then fail "round already started" else
  _ ← reSetBase (fun b => qWithStarted true (qWithNumber k b));
  _ ← re_ResetOK;
  reTheBase.

(** * The rounds *)

Definition re_round0_Start : rs unit :=
  b ← reBegin 0;
  let re := ReRound0Message (reMyHeader b (-1)) in
  _ ← modify (fun s => rWithMsgs (reSetSlot (reMsgs s) Q0 (reMsgs s Q0 ++ [Some re])) s);
  reSend re.

Section rounds.
Context `{E : Curve} `{G : GoLib}.

(** ** Round 1 *)

Definition re_round1_Start : rs unit :=
  b ← reBegin 1;
  if negb (qOldnode b) then mret tt else
  if Nat.leb (qThreshold b) 1 || Nat.ltb (qDnodecount b) (qThreshold b) then fail "threshold value error" else
  index ← reGetDNodeIDIndex (qDnodeid b);
  s ← getS;
  w1 ← calls (calcW1 (idreshare b) index (SkU1 (reSave s)));
  _ ← reSetTemp (tSetW1 (Some w1));
  '(poly, polyG) ← unchecked (Vss2Init (Some w1) (Z.of_nat (qThreshold b)));
  skP1G ← calls (ScalarBaseMult (Bytes w1));
  u1CommitValues ← calls (commitSecrets skP1G polyG);
  commitSkP1G ← call (Commit u1CommitValues);
  match commitSkP1G with
  | None => fail " Error generating commitment data in reshare round 1"
  | Some com =>
      _ ← reSetTemp (tSetRound1 (Some w1) (comD com) (Some poly) (PolyG polyG));
      let re := ReRound1Message (reMyHeader b index) (comC com) in
      _ ← rePutMsg Q1 index re;
      reSend re
  end.

(** ** Round 2 *)

(** The inner loop: the share of the node [id]. *)
Fixpoint reSendShare (b : reBase) (curIndexReshare curIndex : Z) (k : nat) (id : bigint)
    (shares : list ShareStruct2) : rs unit :=
  match shares with
  | [] => mret tt
  | v :: rest =>
      match GetSharesID (Some v) with
      | None => reSendShare b curIndexReshare curIndex k id rest
      | Some vv =>
          idv ← calls (deref id);
          if vv =? idv then
            let header := reMyHeader b curIndexReshare in
            if Z.of_nat k =? curIndex
            then rePutMsg Q2 curIndexReshare (ReRound2Message header (ID v) (Share v))
            else reSend (ReRound2Message (AppendToID header (EncodeToString (Sprintf_v id))) (ID v) (Share v))
          else reSendShare b curIndexReshare curIndex k id rest
      end
  end.

Definition re_round2_Start : rs unit :=
  b ← reBegin 2;
  ids ← reGetIDs;
  _ ← reSetSave (withIDs ids (SetString 10 (qDnodeid b)));
  if negb (qOldnode b) then mret tt else
  dul ← attempt (calls (ContainsDuplicate ids));
  if (match dul with Some d => d | None => true end) || Nat.ltb (qDnodecount b) (length ids)
  then fail "node id error" else
  s ← getS;
  poly ← calls (deref (skP1Poly (reTmp s)));
  shares ← calls (Vss2 poly ids);
  _ ← reSetTemp (tSetShares shares);
  curIndexReshare ← reGetDNodeIDIndex (qDnodeid b);
  s ← getS;
  curIndex ← calls (oldIndex (reSave s));
  if curIndex <? 0 then fail "get current node index fail" else
  _ ← forEach (zip (seq 0 (length ids)) ids) (fun '(k, id) => reSendShare b curIndexReshare curIndex k id shares);
  let re := ReRound2Message1 (reMyHeader b curIndexReshare) (qComd (reTmp s)) (skP1PolyG (reTmp s)) in
  _ ← rePutMsg Q21 curIndexReshare re;
  reSend re.

(** ** Round 3 *)

(** The checks of the dealer [k]. *)
Definition reCheckShare (k : nat) : rs unit :=
  msg2 ← reGetMsg Q2 k;
  match msg2 with
  | Some (ReRound2Message _ ID Share) =>
      msg21 ← reGetMsg Q21 k;
      match msg21 with
      | Some (ReRound2Message1 _ comd polyG) =>
          ok ← calls (Verify2 (mkShare ID Share) {| PolyG := polyG |});
          if negb ok then fail "verify share data fail" else
          msg1 ← reGetMsg Q1 k;
          match msg1 with
          | Some (ReRound1Message _ comc) =>
              ok ← calls (Verify (mkCommitment comc comd));
              if ok : bool then mret tt else fail "verify commitment fail"
          | _ => fail "round.Start get round1 msg fail"
          end
      | _ => fail "round.Start get round2-1 msg fail"
      end
  | _ => fail "round.Start get round2 msg fail"
  end.

(** The point and the share of the dealer [k]. *)
Definition reContribution (k : nat) : rs (gpoint * bigint) :=
  msg21 ← reGetMsg Q21 k;
  msg1 ← reGetMsg Q1 k;
  msg2 ← reGetMsg Q2 k;
  match msg21, msg1, msg2 with
  | Some (ReRound2Message1 _ comd _), Some (ReRound1Message _ comc), Some (ReRound2Message _ _ share) =>
      '(_, u1G) ← calls (DeCommit (mkCommitment comc comd));
      x ← calls (index u1G 0);
      y ← calls (index u1G 1);
      mret ((x, y), share)
  | _, _, _ => crash
  end.

Fixpoint reSumContributions (ks : list nat) (pk : gpoint) (newsk : bigint) : rs (gpoint * bigint) :=
  match ks with
  | [] => mret (pk, newsk)
  | k :: ks' =>
      '(u1G, share) ← reContribution k;
      pk' ← calls (Add S256 pk u1G);
      newsk' ← calls (addNil share newsk);
      reSumContributions ks' pk' newsk'
  end.

(** The public key and the new share, from the [n] dealers. *)
Definition reCombineKey (n : nat) : rs (gpoint * Z) :=
  '(pk, newsk) ← (match n with
    | O => mret (nilpt, None)
    | S n' => '(pk, newsk) ← reContribution 0; reSumContributions (seq 1 n') pk newsk
    end);
  newsk ← calls (deref newsk);
  newsk ← calls (Mod newsk (cN S256));
  mret (pk, newsk).

(** The first half of round 3: the checks, then the key. *)
Definition reVerifyAndCombine (n : nat) : rs (gpoint * Z) :=
  _ ← forEach (seq 0 n) reCheckShare;
  reCombineKey n.

(** The position of the node in [Save.IDs]: its identifier is read as a decimal
    number. *)
Definition reCurIndex : rs Z :=
  b ← reTheBase;
  match SetString 10 (qDnodeid b) with
  | None => fail "get id big number fail"
  | Some idtmp =>
      s ← getS;
      curIndex ← calls (saveIndex (reSave s) (Some idtmp));
      if curIndex <? 0 then fail "get cur index fail" else mret curIndex
  end.

(** [ec2.GenerateKeyPair], on the package's channel of safe primes. *)
Definition reGenKeyPair (length : Z) : rs (option (PublicKey * PrivateKey * Z * Z)) :=
  s ← getS;
  '(o, ch) ← calls (GenerateKeyPair length (rePrimes s));
  _ ← modify (rWithPrimes ch);
  mret o.

(** The Paillier keys: an old node keeps its own. *)
Definition rePaillier : rs (option PrivateKey * option PublicKey) :=
  b ← reTheBase;
  s ← getS;
  if qOldnode b && negb (qOldindex b =? -1) then
    pk ← calls (at_ (U1PaillierPk (reSave s)) (qOldindex b));
    mret (U1PaillierSk (reSave s), pk)
  else
    keys ← reGenKeyPair (qPaillierkeylength b);
    mret (match keys with Some (pk, sk, _, _) => (Some sk, Some pk) | None => (None, None) end).

Definition re_round3_Start : rs unit :=
  b ← reBegin 3;
  s ← getS;
  '(pk, newsk) ← reVerifyAndCombine (length (reMsgs s Q1));
  _ ← reSetSave (fun d => withKey (Some newsk) pk.1 pk.2 (sC d) d);
  _ ← reSetTemp (tSetKey pk (Some newsk));
  curIndex ← reCurIndex;
  '(sk, ppk) ← rePaillier;
  _ ← reSetTemp (tSetPaillier sk ppk);
  let re := ReRound3Message (reMyHeader b curIndex) ppk in
  _ ← rePutMsg Q3 curIndex re;
  reSend re.

(** ** Round 4 *)

Definition reGenNtilde (length : Z) : rs (option (NtildeH1H2 * Z * Z * (Z * Z) * (Z * Z))) :=
  s ← getS;
  '(o, ch) ← call (GenerateNtildeH1H2 length (rePrimes s));
  _ ← modify (rWithPrimes ch);
  mret o.

(** The auxiliary parameters with [alpha], [beta], [p] and [q]: an old node keeps
    its own. *)
Definition reNtilde : rs (NtildeH1H2 * Z * Z * Z * Z) :=
  b ← reTheBase;
  s ← getS;
  if qOldnode b && negb (qOldindex b =? -1) then
    nt ← calls (at_ (U1NtildeH1H2 (reSave s)) (qOldindex b));
    priv ← calls (deref (U1NtildePrivData (reSave s)));
    nt ← calls (deref nt);
    alpha ← calls (deref (npAlpha priv));
    beta ← calls (deref (npBeta priv));
    p ← calls (deref (npQ1 priv));
    q ← calls (deref (npQ2 priv));
    mret (nt, alpha, beta, p, q)
  else
    nt ← reGenNtilde 2048;
    match nt with
    | None => fail "gen ntilde h1 h2 fail"
    | Some (nt, alpha, beta, (p, q), _) => mret (nt, alpha, beta, p, q)
    end.

Definition re_round4_Start : rs unit :=
  b ← reBegin 4;
  curIndex ← reCurIndex;
  '(nt, alpha, beta, p, q) ← reNtilde;
  h1 ← calls (deref (ntH1 nt));
  h2 ← calls (deref (ntH2 nt));
  N ← calls (deref (ntNtilde nt));
  ntildeProof1 ← call (NewNtildeProof h1 h2 alpha p q N);
  ntildeProof2 ← call (NewNtildeProof h2 h1 beta p q N);
  let re := ReRound4Message (reMyHeader b curIndex) (Some nt) (Some ntildeProof1) (Some ntildeProof2) in
  _ ← reSetTemp (tSetNtilde (Some nt) (Some (mkNtildePriv (Some alpha) (Some beta) (Some p) (Some q))));
  _ ← rePutMsg Q4 curIndex re;
  reSend re.

(** ** Rounds 5 and 6 *)

Definition re_round5_Start : rs unit :=
  b ← reBegin 5;
  curIndex ← reCurIndex;
  let re := ReRound5Message (reMyHeader b curIndex) "TRUE" in
  _ ← rePutMsg Q5 curIndex re;
  reSend re.

Definition re_round6_Start : rs unit :=
  _ ← reBegin 6;
  curIndex ← reCurIndex;
  s ← getS;
  let t := reTmp s in
  _ ← reSetSave (fun d => withSk (qPaillierSk t) (withKey (newskU1 t) (qPk t).1 (qPk t).2 (sC d) d));
  _ ← rePutPk curIndex (qPaillierPk t);
  _ ← rePutNtilde curIndex (qNtilde t);
  _ ← reSetSave (withPriv (qNtildePriv t));
  modify (fun s => rWithEnd (reEnd s ++ [reSave s]) s).
End rounds.

(** * Rounds as a whole *)

(** [CanAccept] of the round [k]. *)
Definition reCanAccept (k : nat) (m : ReMessage) : bool :=
  match k, reSlotOf m with
  | 0%nat, Q0 | 1%nat, Q1 | 2%nat, Q21 | 3%nat, Q3 | 4%nat, Q4 | 5%nat, Q5 => reIsBroadcast m
  | 2%nat, Q2 => negb (reIsBroadcast m)
  | _, _ => false
  end.

(** The slice [Update] walks over and the ones it reads beside it. *)
Definition reUpdSlots (k : nat) : option (reSlot * list reSlot) :=
  match k with
  | 0%nat => Some (Q0, [])
  | 1%nat => Some (Q1, [])
  | 2%nat => Some (Q2, [Q21])
  | 3%nat => Some (Q3, [])
  | 4%nat => Some (Q4, [])
  | 5%nat => Some (Q5, [])
  | _ => None
  end.

Definition reAccepts (k : nat) (msg : option ReMessage) : bool :=
  match msg with Some m => reCanAccept k m | None => false end.

Fixpoint reBesideOk (k j : nat) (f : reSlot -> list (option ReMessage)) (sls : list reSlot) : res bool :=
  match sls with
  | [] => Ok true
  | sl :: sls' =>
      m ← index (f sl) j;
      if reAccepts k m then reBesideOk k j f sls' else Ok false
  end.

(** After round 0 the last message of the slice marks the whole group: the slices
    of the rounds 1 and 2 have one place per old node. *)
Fixpoint reUpdLoop (k : nat) (beside : list reSlot) (l : list (option ReMessage)) (j : nat) : rs bool :=
  match l with
  | [] => mret true
  | msg :: l' =>
      b ← reTheBase;
      okj ← calls (index (qOk b) j);
      if okj : bool then reUpdLoop k beside l' (S j) else
      if negb (reAccepts k msg) then mret false else
      s ← getS;
      ok ← calls (reBesideOk k j (reMsgs s) beside);
      if negb ok then mret false else
      _ ← reSetBase (fun b => qWithOk (<[j := true]> (qOk b)) b);
      _ ← (match k, l' with
           | S _, [] => reSetBase (fun b => qWithOk ((fun _ => true) <$> qOk b) b)
           | _, _ => mret tt
           end);
      reUpdLoop k beside l' (S j)
  end.

Definition re_Update : rs bool :=
  s ← getS;
  match reRnd s with
  | None => crash
  | Some (k, _) =>
      match reUpdSlots k with
      | Some (sl, beside) => reUpdLoop k beside (reMsgs s sl) 0
      | None => mret false
      end
  end.

(** [p.rnd = p.rnd.NextRound()]. *)
Definition reNextRound : rs unit :=
  s ← getS;
  match reRnd s with
  | None => crash
  | Some (k, b) =>
      if Nat.ltb k 6 then modify (rWithRnd (Some (S k, qWithStarted false b)))
      else modify (rWithRnd None)
  end.

(** * local_dnode.go *)

Definition reNewLocalDNode (count threshold : nat) (paillierkeylength : Z) (sd : option LocalDNodeSaveData)
    (oldnode : bool) (oldindex : Z) (ch : primeQueue) `{Curve} : rnd ReDNode :=
  id ← (match sd with
        | Some sd => mret (Sprintf_v (CurDNodeID sd))
        | None => uid ← GetRandomIntFromZn (cN S256); mret (Sprintf_v (Some uid))
        end);
  let sd := default (NewLocalDNodeSaveData count) sd in
  mret (mkReNode None id count threshold paillierkeylength oldnode oldindex
          (fun sl => match sl with
                     | Q0 => []
                     | Q1 | Q2 | Q21 => replicate threshold None
                     | Q3 | Q4 | Q5 => replicate count None
                     end)
          emptyReTemp sd [] [] ch).

Definition reSetDNodeID (id : string) (s : ReDNode) : ReDNode := rWithID (EncodeToString id) s.

(** [p.rnd = p.FirstRound()]. *)
Definition reFirstRound (s : ReDNode) : ReDNode :=
  rWithRnd (Some (0%nat, mkReBase (replicate (reCount s) false) false 0 (reID s) (reCount s) (reThresHold s)
                           (rePaillierKeyLength s) (reOldnode s) (reOldindex s) [])) s.

Definition reCheckFull (msg : list (option ReMessage)) : bool :=
  match msg with
  | [] => false
  | _ => forallb (fun v => match v with Some _ => true | None => false end) msg
  end.

Definition reFind (l : list (option ReMessage)) (msg : ReMessage) : bool :=
  existsb (fun v => match v with
    | None => false
    | Some v => String.eqb (reMsgType v) (reMsgType msg) && String.eqb (reFromID v) (reFromID msg)
    end) l.

Definition reDulMessage (s : ReDNode) (msg : ReMessage) : bool := reFind (reMsgs s (reSlotOf msg)) msg.

(** The length the slice must have to be full. *)
Definition reSlotLen (s : ReDNode) (sl : reSlot) : nat :=
  match sl with Q1 | Q2 | Q21 => reThresHold s | _ => reCount s end.

Definition reSlotFull (s : ReDNode) (sl : reSlot) : bool :=
  Nat.eqb (length (reMsgs s sl)) (reSlotLen s sl) && reCheckFull (reMsgs s sl).

Section store.
Context `{E : Curve} `{G : GoLib}.

(** The check of a round 4 message before it is stored. *)
Definition reCheckNtilde (nt : option NtildeH1H2) (pf1 pf2 : option NtildeProof) : rs unit :=
  nt ← calls (deref nt);
  same ← calls (CmpEq (ntH1 nt) (ntH2 nt));
  if same : bool then fail "h1 and h2 were equal for this mpc node" else
  ok1 ← calls (NtildeProof_Verify pf1 (ntH1 nt) (ntH2 nt) (ntNtilde nt));
  ok2 ← (if ok1 : bool then calls (NtildeProof_Verify pf2 (ntH2 nt) (ntH1 nt) (ntNtilde nt)) else mret false);
  if ok2 : bool then mret tt else fail "ntilde zk proof check fail".

(** The assignments of the message's [case]. *)
Definition reStoreAt (msg : ReMessage) : rs unit :=
  let index := reFromIndex msg in
  match msg with
  | ReRound3Message _ pk => _ ← rePutMsg Q3 index msg; rePutPk index pk
  | ReRound4Message _ nt pf1 pf2 =>
      _ ← reCheckNtilde nt pf1 pf2;
      _ ← rePutMsg Q4 index msg;
      rePutNtilde index nt
  | _ => rePutMsg (reSlotOf msg) index msg
  end.

(** Every node reports success. *)
Definition newSkOk (l : list (option ReMessage)) : bool :=
  forallb (fun v => match v with Some (ReRound5Message _ ok) => String.eqb ok "TRUE" | _ => false end) l.

Definition re_StoreMessage (msg : ReMessage) : rs bool :=
  s ← getS;
  match msg with
  | ReRound0Message _ =>
      if reFind (reMsgs s Q0) msg then mret false else
      _ ← (if Nat.ltb (length (reMsgs s Q0)) (reCount s)
           then modify (rWithMsgs (reSetSlot (reMsgs s) Q0 (reMsgs s Q0 ++ [Some msg])))
           else mret tt);
      s ← getS;
      mret (Nat.eqb (length (reMsgs s Q0)) (reCount s))
  | _ =>
      if reFind (reMsgs s (reSlotOf msg)) msg then mret false else
      _ ← reStoreAt msg;
      s ← getS;
      if negb (reSlotFull s (reSlotOf msg)) then mret false else
      match msg with
      | ReRound5Message _ _ => if newSkOk (reMsgs s Q5) then mret true else fail "check newsk ok fail"
      | _ => mret true
      end
  end.

(** [CheckReshareMsg0]. *)
Definition CheckReshareMsg0 (msg : ReMessage) : rs bool :=
  match msg with
  | ReRound0Message _ =>
      s ← getS;
      _ ← (if Z.of_nat (length (reMsgs s Q0)) =? Z.of_nat (reCount s) - 1
           then modify (rWithMsgs (reSetSlot (reMsgs s) Q0 (reMsgs s Q0 ++ [Some msg])))
           else mret tt);
      s ← getS;
      mret (Nat.eqb (length (reMsgs s Q0)) (reCount s))
  | _ => mret false
  end.

(** [SetIDReshare]: the first round shares its [base] with the later ones. *)
Definition SetIDReshare (ids : list bigint) : rs unit := reSetBase (qWithIds ids).

(** * The party *)

Definition reRound_Start : rs unit :=
  s ← getS;
  match reRnd s with
  | Some (0%nat, _) => re_round0_Start
  | Some (1%nat, _) => re_round1_Start
  | Some (2%nat, _) => re_round2_Start
  | Some (3%nat, _) => re_round3_Start
  | Some (4%nat, _) => re_round4_Start
  | Some (5%nat, _) => re_round5_Start
  | Some (_, _) => re_round6_Start
  | None => crash
  end.

Definition reshareDNode : DNode ReDNode ReMessage := {|
  DNodeID := reID;
  Finalize := fun _ => false;
  hasRound := fun s => match reRnd s with Some _ => true | None => false end;
  setFirstRound := reFirstRound;
  setFinalizeRound := rWithRnd None;
  StoreMessage := re_StoreMessage;
  Start := reRound_Start;
  Update := re_Update;
  CanProceed := re_CanProceed;
  advance := reNextRound;
  ResetOK := re_ResetOK
|}.

(** [p.Start()]. *)
Definition reshare_Start : rs unit := BaseStart (P := reshareDNode).

(** [p.Update(msg)]; the recursion is at most eight deep. *)
Definition reshare_Update (msg : ReMessage) : rs bool :=
  BaseUpdate (P := reshareDNode) (fun _ _ => Hang) 8 msg.

(** What [ReshareProcessInboundMessages] does with a decoded message of the group;
    [idsReshare] are the identifiers of the old nodes. *)
Definition reshareInbound (idsReshare : list bigint) (msg : ReMessage) : rs bool :=
  all ← CheckReshareMsg0 msg;
  _ ← (if all : bool then SetIDReshare idsReshare else mret tt);
  reshare_Update msg.
End store.
