(* ===== verification/ReLife.v ===== *)
(** The life cycle of a resharing party: termination of [Update], the type invariant
    of its state, and what the inbound handler makes of the first messages. *)

From Stdlib Require Import ZArith Lia.
From stdpp Require Import gmap strings.
From S2P Require Import Prelude GoBig Random Text Hex IntGo Json Secp256k1 ToyCurve Vss2 Commit Paillier Ntilde.
From S2P Require Import Gg20Zk Common DNode KgMessage KgSave Keygen SgMessage Signing ReMessage Reshare.

#[local] Open Scope Z_scope.

(** * Termination of Update *)

(** The rounds that remain. *)
Definition reRank (s : ReDNode) : nat := match reRnd s with Some (k, _) => S (6 - k) | None => 0 end.

Section ranked.
Context `{E : Curve} `{G : GoLib}.

Lemma keeps_reSetBase f : keeps reRank (reSetBase f).
Proof. apply keeps_modify. intros s. unfold reRank. now destruct (reRnd s) as [[k b]|] eqn:Er; [|rewrite Er]. Qed.

Lemma keeps_reBegin z : keeps reRank (reBegin z).
Proof. pose proof keeps_reSetBase. unfold reBegin, re_ResetOK. keeps; auto. Qed.

Lemma quiet_reSum ks : forall pk sk, quiet (reSumContributions ks pk sk).
Proof. induction ks as [|k ks IH]; intros pk sk; cbn [reSumContributions]; quiet; apply IH. Qed.

Lemma keeps_reSendShare b ci cj k id l : keeps reRank (reSendShare b ci cj k id l).
Proof. induction l as [|v l IH]; cbn [reSendShare]; keeps. Qed.

Lemma keeps_reStart : keeps reRank reRound_Start.
Proof.
  pose proof keeps_reBegin. pose proof keeps_reSendShare.
  assert (forall ks pk sk, keeps reRank (reSumContributions ks pk sk)) by (intros; apply keeps_quiet, quiet_reSum).
  apply keeps_bind; [apply keeps_quiet, quiet_getS|]. intros s.
  destruct (reRnd s) as [[k b]|]; [|apply keeps_quiet, quiet_crash].
  do 6 (destruct k as [|k]; [keeps|]). keeps.
Qed.

Lemma keeps_reUpdLoop k beside l : forall j, keeps reRank (reUpdLoop k beside l j).
Proof. pose proof keeps_reSetBase. induction l as [|msg l IH]; intros j; cbn [reUpdLoop]; keeps. Qed.

(** [Update] of a round returns no error. *)
Lemma reBesideOk_no_error k j f sls e : reBesideOk k j f sls <> Err e.
Proof.
  induction sls as [|sl sls IH]; [discriminate|]. cbn [reBesideOk]. unfold index.
  destruct (f sl !! j) as [m|]; cbn; [|discriminate]. now destruct (reAccepts k m).
Qed.

Lemma reUpdLoop_no_error k beside l : forall j s t e s' t', reUpdLoop k beside l j s t <> Fail e s' t'.
Proof.
  induction l as [|msg l IH]; intros j s t e s' t'; cbn [reUpdLoop]; [discriminate|].
  cbv [mbind act_bind reTheBase getS mret act_ret]. destruct (reRnd s) as [[? b]|]; [|discriminate].
  unfold calls at 1, call at 1, lift, index. destruct (qOk b !! j) as [[]|]; cbn; [apply IH| |discriminate].
  destruct (negb (reAccepts k msg)); [discriminate|]. unfold calls, call, lift.
  pose proof (reBesideOk_no_error k j (reMsgs s) beside) as Hb.
  destruct (reBesideOk k j (reMsgs s) beside) as [ok|e0| |]; cbn; [|now destruct (Hb e0)|discriminate..].
  destruct (negb ok); [discriminate|]. destruct k, l; apply IH.
Qed.

Lemma keeps_reUpdate : keeps reRank (attempt re_Update).
Proof.
  intros n s t a s' t' Hs Ha. unfold attempt in Ha.
  destruct (re_Update s t) as [u s1 t1|e s1 t1| |] eqn:Eu; try discriminate Ha.
  - injection Ha as _ <- _. assert (Hk : keeps reRank re_Update) by (pose proof keeps_reUpdLoop; unfold re_Update; keeps).
    exact (Hk _ _ _ _ _ _ Hs Eu).
  - exfalso. revert Eu. unfold re_Update, mbind, act_bind, getS. destruct (reRnd s) as [[k b]|]; [|discriminate].
    destruct (reUpdSlots k) as [[sl beside]|]; [apply reUpdLoop_no_error|discriminate].
Qed.

Lemma keeps_reStore msg : keeps reRank (re_StoreMessage msg).
Proof. unfold re_StoreMessage, reStoreAt, reCheckNtilde. keeps. Qed.

#[export] Instance reRanked : Ranked ReDNode ReMessage reshareDNode.
Proof.
  refine {| rank := reRank |}.
  - apply keeps_reStore.
  - apply keeps_reStart.
  - apply keeps_reUpdate.
  - apply keeps_reSetBase.
  - intros n. apply hoare_getS_bind. intros s <-. cbn [rank]. unfold reRank at 2.
    destruct (reRnd s) as [[k b]|]; [|apply hoare_crash].
    destruct (Nat.ltb_spec k 6); apply hoare_modify; intros s' ->; unfold reRank; cbn; lia.
Defined.
End ranked.

(** * Well-formed states *)

(** The slices have their lengths (round 0 grows up to one message per node), a
    slot holds only messages of its type, and the rounds are those of the protocol. *)
Definition re_wf (n t : nat) (s : ReDNode) : Prop :=
  reCount s = n /\ reThresHold s = t /\
  (forall sl, sl <> Q0 -> length (reMsgs s sl) = match sl with Q1 | Q2 | Q21 => t | _ => n end) /\
  (forall sl i m, reMsgs s sl !! i = Some (Some m) -> reSlotOf m = sl) /\
  match reRnd s with
  | Some (k, b) => (k <= 6)%nat /\ length (qOk b) = n /\ qDnodecount b = n /\ qThreshold b = t
  | None => True
  end.

Section wf.
Context `{E : Curve} `{G : GoLib} (n t : nat).
Abbreviation I := (re_wf n t).

Lemma rwf_modify f :
  (forall s, reMsgs (f s) = reMsgs s /\ reRnd (f s) = reRnd s /\ reCount (f s) = reCount s /\ reThresHold (f s) = reThresHold s) ->
  stable I (modify f).
Proof.
  intros Hf. apply stable_modify. intros s Hs. destruct (Hf s) as (H1 & H2 & H3 & H4). unfold re_wf in *.
  now rewrite H1, H2, H3, H4.
Qed.

Lemma rwf_setBase f :
  (forall b, length (qOk (f b)) = length (qOk b) /\ qDnodecount (f b) = qDnodecount b /\ qThreshold (f b) = qThreshold b) ->
  stable I (reSetBase f).
Proof.
  intros Hf. apply stable_modify. intros s (H1 & H2 & H3 & H4 & H5). unfold re_wf.
  destruct (reRnd s) as [[k b]|] eqn:Er; cbn; [|rewrite Er; auto].
  destruct (Hf b) as (-> & -> & ->). auto.
Qed.

Lemma rwf_ResetOK : stable I re_ResetOK.
Proof. apply rwf_setBase. intros b. cbn. now rewrite length_fmap. Qed.

Lemma rwf_begin z : stable I (reBegin z).
Proof.
  pose proof rwf_ResetOK. unfold reBegin.
  assert (stable I (reSetBase (fun b => qWithStarted true (qWithNumber z b)))) by now apply rwf_setBase.
  stable.
Qed.

Lemma rwf_put sl i m : reSlotOf m = sl -> stable I (rePutMsg sl i m).
Proof.
  intros Hm. apply stable_getS_bind. intros s tp (H1 & H2 & H3 & H4 & H5).
  destruct (inBounds (reMsgs s sl) i); [|done]. cbn. unfold re_wf, reSetSlot. cbn.
  split; [done|]. split; [done|]. split; [|split; [|done]].
  - intros sl' Hsl. destruct (decide (sl' = sl)) as [->|]; [rewrite length_insert|]; now apply H3.
  - intros sl' j m'. destruct (decide (sl' = sl)) as [->|]; [|apply H4].
    intros [(_ & [= <-] & _)|[_ Hj]]%list_lookup_insert_Some; [done|]. now apply (H4 _ j).
Qed.

(** Round 0 messages are appended. *)
Lemma rwf_append m (s : ReDNode) : reSlotOf m = Q0 -> I s ->
  I (rWithMsgs (reSetSlot (reMsgs s) Q0 (reMsgs s Q0 ++ [Some m])) s).
Proof.
  intros Hm (H1 & H2 & H3 & H4 & H5). unfold re_wf, reSetSlot. cbn.
  split; [done|]. split; [done|]. split; [|split; [|done]].
  - intros sl Hsl. destruct (decide (sl = Q0)) as [->|]; [done|]. now apply H3.
  - intros sl j m'. destruct (decide (sl = Q0)) as [->|]; [|apply H4].
    intros [Hj|[_ Hj]]%lookup_app_Some; [now apply (H4 _ j)|].
    apply list_lookup_singleton_Some in Hj as [_ [= <-]]. done.
Qed.

Lemma rwf_sum ks : forall pk sk, stable I (reSumContributions ks pk sk).
Proof. induction ks as [|k ks IH]; intros pk sk; cbn [reSumContributions]; stable. Qed.

Lemma rwf_sendShare b ci cj k id l : stable I (reSendShare b ci cj k id l).
Proof.
  pose proof rwf_put. pose proof rwf_modify. induction l as [|v l IH]; cbn [reSendShare]; stable; done.
Qed.

Lemma rwf_start : stable I reRound_Start.
Proof.
  pose proof rwf_begin. pose proof rwf_put. pose proof rwf_sendShare. pose proof rwf_sum.
  apply stable_bind; [apply stable_getS|]. intros s. destruct (reRnd s) as [[k b]|]; [|apply stable_crash].
  assert (Happ : forall m, reSlotOf m = Q0 ->
    stable I (modify (fun s => rWithMsgs (reSetSlot (reMsgs s) Q0 (reMsgs s Q0 ++ [Some m])) s)))
    by (intros m Hm; apply stable_modify; intros s'; now apply rwf_append).
  destruct k as [|k].
  { apply stable_bind; [apply rwf_begin|]. intros b'. cbv zeta. apply stable_bind; [now apply Happ|].
    intros _. now apply rwf_modify. }
  pose proof rwf_modify as Hmod. do 5 (destruct k as [|k]; [stable; done|]). stable; done.
Qed.

Lemma rwf_updLoop k beside l : forall j, stable I (reUpdLoop k beside l j).
Proof.
  assert (Hall : stable I (reSetBase (fun b => qWithOk ((fun _ => true) <$> qOk b) b)))
    by (apply rwf_setBase; intros b; cbn; now rewrite length_fmap).
  induction l as [|msg l IH]; intros j; cbn [reUpdLoop];
    assert (stable I (reSetBase (fun b => qWithOk (<[j := true]> (qOk b)) b)))
      by (apply rwf_setBase; intros b; cbn; now rewrite length_insert); stable.
Qed.

Lemma rwf_store m : stable I (re_StoreMessage m).
Proof.
  pose proof rwf_put. pose proof rwf_modify.
  assert (Hm : forall m, stable I (_ ← reStoreAt m; s ← getS;
    if negb (reSlotFull s (reSlotOf m)) then mret false else
    match m with
    | ReRound5Message _ _ => if newSkOk (reMsgs s Q5) then mret true else fail "check newsk ok fail"
    | _ => mret true
    end)) by (intros m'; stable; done).
  destruct m; try (apply stable_bind; [apply stable_getS|]; intros s;
    destruct (reFind _ _); [apply stable_ret|apply Hm]).
  apply stable_getS_bind. intros s tp Hs. destruct (reFind _ _); [exact Hs|].
  destruct (Nat.ltb _ _); [|exact Hs]. now apply (rwf_append (ReRound0Message re)).
Qed.

#[export] Instance reStable : Stable ReDNode ReMessage reshareDNode I.
Proof.
  split.
  - intros s (H1 & H2 & H3 & H4 & _). unfold re_wf. cbn. rewrite length_replicate. repeat split; auto; lia.
  - intros s (H1 & H2 & H3 & H4 & _). unfold re_wf. cbn. auto.
  - apply rwf_store.
  - apply rwf_start.
  - pose proof rwf_updLoop. change (stable I re_Update). stable.
  - apply stable_getS_bind. intros s tp (H1 & H2 & H3 & H4 & H5). destruct (reRnd s) as [[k b]|] eqn:Er; [|done].
    destruct (Nat.ltb_spec k 6); cbn; unfold re_wf; cbn; [|auto]. repeat split; auto; lia.
  - apply rwf_ResetOK.
Qed.

Lemma rwf_inbound ids msg : stable I (reshareInbound ids msg).
Proof.
  unfold reshareInbound. apply stable_bind; [|intros all; apply stable_bind; [|intros _]].
  - destruct msg; try apply stable_ret. apply stable_getS_bind. intros s tp Hs.
    destruct (_ =? _); [|exact Hs]. now apply (rwf_append (ReRound0Message re)).
  - destruct all; [|apply stable_ret]. now apply rwf_setBase.
  - apply BaseUpdate_stable; [apply _|]. now intros s tp _.
Qed.
End wf.

(** * The messages of round 0 *)

(** The party waits in round 0 with the messages of [froms]; what it has put out so
    far is [out]. *)
Definition waiting (n : nat) (froms : list string) (out : list ReMessage) (s : ReDNode) : Prop :=
  reCount s = n /\ reOut s = out /\ reEnd s = [] /\
  (exists b, reRnd s = Some (0%nat, b) /\ qStarted b = true) /\
  exists hs, reMsgs s Q0 = (fun h => Some (ReRound0Message h)) <$> hs /\ FromID <$> hs = froms.

Section round0.
Context `{E : Curve} `{G : GoLib}.

Lemma reFind_round0 hs re :
  reFind ((fun h => Some (ReRound0Message h)) <$> hs) (ReRound0Message re) =
  bool_decide (FromID re ∈ FromID <$> hs).
Proof.
  induction hs as [|h hs IH]; [done|]. cbn [fmap list_fmap reFind existsb]. unfold reFind in IH.
  rewrite IH. cbn [reMsgType]. rewrite String.eqb_refl. cbn [andb reFromID reHeader].
  change (reFromID (ReRound0Message h)) with (FromID h). change (reFromID (ReRound0Message re)) with (FromID re).
  destruct (String.eqb_spec (FromID h) (FromID re)) as [Hh|Hh]; cbn [orb].
  - symmetry. apply bool_decide_eq_true. rewrite Hh. constructor.
  - apply bool_decide_ext. rewrite elem_of_cons. split; [auto|]. intros [Hc|]; [now destruct Hh|assumption].
Qed.

(** A message of a new sender is stored, and the party stays where it is: the last
    one is stored before [Update] looks for duplicates. *)
Lemma inbound_round0 n froms out ids re s t : waiting n froms out s -> (length froms < n)%nat -> FromID re ∉ froms ->
  exists s', reshareInbound ids (ReRound0Message re) s t = Ret false s' t /\ waiting n (froms ++ [FromID re]) out s'.
Proof.
  intros (Hn & Ho & He & (b & Hb & Hst) & (hs & Hms & Hfr)) Hlt Hnew.
  assert (Hlen : length (reMsgs s Q0) = length froms) by (rewrite Hms, <- Hfr, !length_fmap; done).
  set (s1 := rWithMsgs (reSetSlot (reMsgs s) Q0 (reMsgs s Q0 ++ [Some (ReRound0Message re)])) s).
  assert (H0 : reMsgs s1 Q0 = (fun h => Some (ReRound0Message h)) <$> (hs ++ [re]))
    by (unfold s1, reSetSlot; cbn; rewrite Hms, fmap_app; done).
  assert (Hf1 : FromID <$> (hs ++ [re]) = froms ++ [FromID re]) by now rewrite fmap_app, Hfr.
  unfold reshareInbound, CheckReshareMsg0.
  destruct (Z.eqb_spec (Z.of_nat (length (reMsgs s Q0))) (Z.of_nat (reCount s) - 1)) as [Hl|Hl].
  - (* the last one *)
    set (s2 := rWithRnd (Some (0%nat, qWithIds ids b)) s1).
    assert (Hcheck : forall tp, (x ← (s ← getS;
      _ ← (if Z.of_nat (length (reMsgs s Q0)) =? Z.of_nat (reCount s) - 1
           then modify (rWithMsgs (reSetSlot (reMsgs s) Q0 (reMsgs s Q0 ++ [Some (ReRound0Message re)])))
           else mret tt);
      s0 ← getS; mret (Nat.eqb (length (reMsgs s0 Q0)) (reCount s0)));
      _ ← (if x : bool then SetIDReshare ids else mret tt); reshare_Update (ReRound0Message re)) s tp =
      reshare_Update (ReRound0Message re) s2 tp).
    { intros tp. unfold mbind at 1 2 3 4 5, act_bind at 1 2 3 4 5, getS at 1 2.
      replace (Z.of_nat (length (reMsgs s Q0)) =? Z.of_nat (reCount s) - 1) with true by (symmetry; now apply Z.eqb_eq).
      unfold modify at 1. fold s1. cbn [mret act_ret].
      replace (Nat.eqb (length (reMsgs s1 Q0)) (reCount s1)) with true.
      2: { symmetry. apply Nat.eqb_eq. rewrite H0, length_fmap, length_app. change (reCount s1) with (reCount s).
           rewrite Hms, length_fmap in Hl. cbn. lia. }
      unfold SetIDReshare, reSetBase, modify. change (reRnd s1) with (reRnd s). rewrite Hb. done. }
    rewrite Hcheck. exists s2.
    split; [|split; [done|]; split; [done|]; split; [done|]; split; [now exists (qWithIds ids b)|now exists (hs ++ [re])]].
    unfold reshare_Update. cbn [BaseUpdate]. unfold mbind at 1 2, act_bind at 1 2, getS at 1. cbn [hasRound reshareDNode negb reRnd s2 rWithRnd].
    cbn [StoreMessage reshareDNode]. unfold re_StoreMessage, mbind at 1, act_bind at 1, getS at 1.
    change (reMsgs s2 Q0) with (reMsgs s1 Q0). rewrite H0, reFind_round0.
    rewrite bool_decide_eq_true_2 by (rewrite Hf1; set_solver). done.
  - exists s1. split.
    2: { split; [done|]. split; [done|]. split; [done|]. split; [now exists b|]. now exists (hs ++ [re]). }
    unfold mbind at 1 2 3 4 5, act_bind at 1 2 3 4 5, getS at 1 2.
    replace (Z.of_nat (length (reMsgs s Q0)) =? Z.of_nat (reCount s) - 1) with false by (symmetry; now apply Z.eqb_neq).
    cbn [mret act_ret].
    replace (Nat.eqb (length (reMsgs s Q0)) (reCount s)) with false by (symmetry; apply Nat.eqb_neq; lia).
    cbn [mret act_ret]. unfold reshare_Update. cbn [BaseUpdate]. unfold mbind at 1 2, act_bind at 1 2, getS at 1.
    cbn [hasRound reshareDNode]. rewrite Hb. cbn [negb StoreMessage reshareDNode].
    unfold re_StoreMessage, mbind at 1 2 3, act_bind at 1 2 3, getS at 1 2.
    replace (reFind (reMsgs s Q0) (ReRound0Message re)) with false
      by (rewrite Hms, reFind_round0; symmetry; apply bool_decide_eq_false_2; now rewrite Hfr).
    replace (Nat.ltb (length (reMsgs s Q0)) (reCount s)) with true by (symmetry; apply Nat.ltb_lt; lia).
    unfold modify at 1. fold s1. cbn [mret act_ret].
    replace (Nat.eqb (length (reMsgs s1 Q0)) (reCount s1)) with false; [done|].
    symmetry. apply Nat.eqb_neq. rewrite H0, length_fmap, length_app. change (reCount s1) with (reCount s).
    rewrite Hms, length_fmap in Hl. rewrite <- Hfr, length_fmap in Hlt. cbn. lia.
Qed.

Lemma deliver_round0 n out ids res : forall froms s t, waiting n froms out s -> (length froms + length res <= n)%nat ->
  NoDup (froms ++ (FromID <$> res)) ->
  exists s', forEach res (fun re => _ ← reshareInbound ids (ReRound0Message re); mret tt) s t = Ret tt s' t /\
    waiting n (froms ++ (FromID <$> res)) out s'.
Proof.
  induction res as [|re res IH]; intros froms s t Hw Hlen Hnd; cbn [forEach fmap list_fmap] in *.
  - exists s. rewrite app_nil_r in *. done.
  - destruct (inbound_round0 n froms out ids re s t Hw) as (s1 & H1 & Hw1).
    { cbn in Hlen. lia. }
    { apply NoDup_app in Hnd as (_ & Hnd & _). intros Hin. apply (Hnd _ Hin). constructor. }
    destruct (IH (froms ++ [FromID re]) s1 t Hw1) as (s' & H2 & Hw2).
    { rewrite length_app. cbn in *. lia. }
    { rewrite <- app_assoc. exact Hnd. }
    exists s'. rewrite <- app_assoc in Hw2. split; [|exact Hw2].
    rewrite (act_bind_run _ _ _ _ tt s1 t); [exact H2|]. rewrite (act_bind_run _ _ _ _ false s1 t H1). done.
Qed.
End round0.

(** * Claims *)

(** [Update] of a resharing party terminates: its recursion is never deeper than
    eight calls, whatever the state and the message. *)
Theorem reshare_Update_terminates `{E : Curve} `{G : GoLib} stuck extra msg s t :
  BaseUpdate (P := reshareDNode) stuck (8 + extra) msg s t = reshare_Update msg s t.
Proof.
  assert (Hr : (rank (P := reshareDNode) s < 8)%nat).
  { change (reRank s < 8)%nat. unfold reRank. destruct (reRnd s) as [[k b]|]; lia. }
  apply BaseUpdate_fuel; [lia|exact Hr].
Qed.

(** C20: the type invariant of a resharing party.  A new party is well formed, and
    [Start] and the inbound handler keep it so for every message, also when they
    return an error: the slices keep their lengths (one place per old node in the
    rounds 1 and 2, one per node afterwards) and hold only messages of their type. *)
Theorem reshare_well_formed `{E : Curve} `{G : GoLib} n th :
  (forall len sd old oi ch t s t', reNewLocalDNode n th len sd old oi ch t = Ok (s, t') -> re_wf n th s) /\
  (forall id s, re_wf n th s -> re_wf n th (reSetDNodeID id s)) /\
  stable (re_wf n th) reshare_Start /\
  (forall ids msg, stable (re_wf n th) (reshareInbound ids msg)).
Proof.
  split_and!.
  - intros len sd old oi ch t s t' H. unfold reNewLocalDNode in H.
    apply rnd_bind_Ok in H as (id & t1 & _ & [= <- _]).
    split; [done|]. split; [done|]. split; [|split; [|done]].
    + intros [] Hsl; cbn; try apply length_replicate. done.
    + intros [] i m Hm; cbn in Hm; try apply lookup_replicate in Hm as [[=] _]. discriminate.
  - intros id s Hs. exact Hs.
  - apply BaseStart_stable, _.
  - apply rwf_inbound.
Qed.

(** A node of a group of 3 with 2 old nodes starts and receives a message that names
    no slot. *)
Definition reParty : ReDNode :=
  match reNewLocalDNode 3 2 2048 (Some (NewLocalDNodeSaveData 3)) true 0 [] [] with
  | Ok (s, _) => reSetDNodeID "1" s
  | _ => mkReNode None "" 0 0 0 false 0 (fun _ => []) emptyReTemp (NewLocalDNodeSaveData 0) [] [] []
  end.

Lemma reshare_well_formed_witness :
  match reshare_Start reParty [] with
  | Ret _ s' _ => length (reMsgs s' Q0) = 1%nat /\ re_wf 3 2 s'
  | _ => False
  end.
Proof.
  destruct (reshare_well_formed 3 2) as (Hnew & Hid & Hstart & _).
  specialize (Hstart reParty [] (Hid "1" _ (Hnew 2048 (Some (NewLocalDNodeSaveData 3)) true 0 [] [] _ [] eq_refl))).
  assert (Hr : match reshare_Start reParty [] with Ret _ s' _ => length (reMsgs s' Q0) = 1%nat | _ => False end)
    by (vm_compute; reflexivity).
  destruct (reshare_Start reParty []); [split; assumption|contradiction..].
Defined.

(** C18: resharing does not get past round 0.  The handler of inbound messages stores
    the last round 0 message itself, and [Update] then takes it for a duplicate: a
    party that has started, and receives the round 0 messages of the other nodes of
    its group in any order, has put out nothing but its own and is still in round 0
    with all the messages there. *)
Theorem reshare_stalls `{E : Curve} `{G : GoLib} n ids me hs s t :
  reCount s = n -> reID s = me -> me <> "" -> reRnd s = None -> reMsgs s Q0 = [] -> reOut s = [] -> reEnd s = [] ->
  length hs = (n - 1)%nat -> (0 < n)%nat -> NoDup (me :: (FromID <$> hs)) ->
  exists s1 s2,
    reshare_Start s t = Ret tt s1 t /\
    forEach hs (fun h => _ ← reshareInbound ids (ReRound0Message h); mret tt) s1 t = Ret tt s2 t /\
    waiting n (me :: (FromID <$> hs)) [ReRound0Message (mkHeader me (-1) [])] s2 /\
    length (reMsgs s2 Q0) = n.
Proof.
  intros Hn Hid Hme Hrnd Hm Hout Hend Hlen Hpos Hnd.
  set (own := mkHeader me (-1) []).
  assert (Hstart : exists s1, reshare_Start s t = Ret tt s1 t /\ waiting n [me] [ReRound0Message own] s1).
  { unfold reshare_Start, BaseStart, setRound, mbind, act_bind, getS. cbn [DNodeID hasRound reshareDNode Finalize].
    rewrite Hid, (proj2 (String.eqb_neq _ _) Hme), Hrnd. cbn. rewrite Hrnd. cbn.
    cbv [reRound_Start re_round0_Start reBegin reTheBase reSetBase re_ResetOK mbind act_bind getS modify mret act_ret reSend]. cbn.
    eexists. split; [reflexivity|]. split; [exact Hn|]. cbn. rewrite Hout, Hend, Hid.
    split; [done|]. split; [done|]. split; [eexists; split; reflexivity|].
    exists [own]. unfold reSetSlot. cbn. rewrite Hm. done. }
  destruct Hstart as (s1 & H1 & Hw1). exists s1.
  destruct (deliver_round0 n [ReRound0Message own] ids hs [me] s1 t Hw1) as (s2 & H2 & Hw2).
  { cbn. lia. } { exact Hnd. }
  exists s2. split; [exact H1|]. split; [exact H2|]. split; [exact Hw2|].
  destruct Hw2 as (_ & _ & _ & _ & (hs' & -> & E')). rewrite length_fmap.
  apply (f_equal length) in E'. rewrite length_fmap in E'. etransitivity; [exact E'|]. 
  assert (El : length (me :: (FromID <$> hs)) = S (length hs)) by (cbn; f_equal; apply length_fmap).
  etransitivity; [exact El|]. lia.
Qed.

(** Node 1 of three nodes. *)
Lemma reshare_stalls_witness : exists s1 s2,
  reshare_Start reParty [] = Ret tt s1 [] /\
  forEach [mkHeader "32" (-1) []; mkHeader "33" (-1) []]
    (fun h => _ ← reshareInbound [Some 1; Some 2] (ReRound0Message h); mret tt) s1 [] = Ret tt s2 [] /\
  waiting 3 ["31"; "32"; "33"] [ReRound0Message (mkHeader "31" (-1) [])] s2 /\ length (reMsgs s2 Q0) = 3%nat.
Proof.
  refine (reshare_stalls 3 [Some 1; Some 2] "31" [mkHeader "32" (-1) []; mkHeader "33" (-1) []] reParty [] _ _ _ _ _ _ _ _ _ _).
  1, 2: vm_compute; reflexivity.
  1: discriminate.
  1-5: vm_compute; reflexivity.
  1: lia.
  apply (bool_decide_unpack (NoDup ["31"; "32"; "33"]%string)). vm_compute. exact I.
Defined.
