(* ===== verification/ReKey.v ===== *)
(** The key that resharing produces: the new shares belong to the old key; and what
    becomes of a node's own identifier. *)

From Stdlib Require Import ZArith Lia Ascii Zcong Zdivisibility.
From stdpp Require Import gmap strings sorting.
From S2P Require Import Prelude NumTheory Primality GoBig Random Text Hex IntGo Json Secp256k1 CurveFacts CurveLaws ToyCurve.
From S2P Require Import Lagrange Vss2 Commit Paillier Ntilde Common DNode KgMessage KgSave Keygen KgLife KgKey.
From S2P Require Import SgMessage Signing SgSig ReMessage Reshare ReLife.

#[local] Open Scope Z_scope.

Section round3.
Context `{L : CurveLaws}.
Abbreviation q := (cN S256).

(** A dealer whose points are on the curve; the chain code of the record plays no
    role in resharing. *)
Definition reGoodDealer (d : dealer) : Prop :=
  du d mod q <> 0 /\ Forall (fun p => IsOnCurve S256 p.1 p.2 = true) (drest d).

(** The state holds the messages of the old node [d], number [k], with the share
    [sh] at the identifier [x]. *)
Definition reReceived (s : ReDNode) (k : nat) (d : dealer) (x sh : Z) : Prop :=
  (exists h, reMsgs s Q1 !! k = Some (Some (ReRound1Message h
     (Some (commitHash (commitMessage (dr d) (coords (keyPoints d)))))))) /\
  (exists h, reMsgs s Q2 !! k = Some (Some (ReRound2Message h (Some x) (Some sh)))) /\
  (exists h, reMsgs s Q21 !! k = Some (Some (ReRound2Message1 h
     (Some <$> (dr d :: coords (keyPoints d))) (points (dc0 d :: dcs d))))).

Lemma reGetMsg_run s sl k m t : reMsgs s sl !! k = Some m -> reGetMsg sl k s t = Ret m s t.
Proof. intros Hm. unfold reGetMsg. erewrite act_bind_run by reflexivity. apply calls_run. unfold index. now rewrite Hm. Qed.

Section node.
Context (s : ReDNode) (k : nat) (d : dealer) (x sh : Z).
Context (Hd : reGoodDealer d) (Hr : reReceived s k d x sh).

Lemma re_open :
  let com := mkCommitment (Some (commitHash (commitMessage (dr d) (coords (keyPoints d)))))
               (Some <$> (dr d :: coords (keyPoints d))) in
  Verify com = Ok true /\ DeCommit com = Ok (true, Some <$> coords (keyPoints d)).
Proof. destruct Hd as (Hu & HF). apply open_points; [done|]. constructor; [now apply IsOnCurve_pt|assumption]. Qed.

Lemma reCheckShare_spec t : 0 < x < q -> nondegenerate x (dc0 d) x (dcs d) -> 0 < sh < q ->
  reCheckShare k s t =
  if sh =? peval (dc0 d :: dcs d) x mod q then Ret tt s t else Fail "verify share data fail" s t.
Proof.
  intros Hx Hnd Hsh. destruct Hr as ((h1 & H1) & (h2 & H2) & (h21 & H21)).
  unfold reCheckShare. run (apply reGetMsg_run, H2). run (apply reGetMsg_run, H21).
  run (apply calls_run, Verify2_spec; assumption).
  destruct (sh =? _); cbn [negb]; [|done].
  run (apply reGetMsg_run, H1). run (apply calls_run, re_open). done.
Qed.

Lemma reContribution_spec t : reContribution k s t = Ret (gp (du d), Some sh) s t.
Proof.
  destruct Hr as ((h1 & H1) & (h2 & H2) & (h21 & H21)). unfold reContribution.
  run (apply reGetMsg_run, H21). run (apply reGetMsg_run, H1). run (apply reGetMsg_run, H2).
  run (apply calls_run, re_open).
  run (apply calls_run; reflexivity). run (apply calls_run; reflexivity).
  rewrite gp_ne0 by apply Hd. done.
Qed.
End node.

(** The old nodes and the shares they gave to the node [x]. *)
Definition reDealt (s : ReDNode) (a : nat) (x : Z) (ds : list (dealer * Z)) : Prop :=
  forall i d sh, ds !! i = Some (d, sh) -> reGoodDealer d /\ reReceived s (a + i) d x sh.

Lemma reDealt_cons s a x d sh ds : reDealt s a x ((d, sh) :: ds) ->
  reGoodDealer d /\ reReceived s a d x sh /\ reDealt s (S a) x ds.
Proof.
  intros HF. destruct (HF 0%nat d sh eq_refl) as [Hg Hr]. rewrite Nat.add_0_r in Hr. split_and!; [done..|].
  intros i d' sh' Hi. rewrite Nat.add_succ_comm. now apply (HF (S i)).
Qed.

Lemma reSum_spec s x t ds : forall a acc sk, reDealt s a x ds -> sumsOk acc ((fun p => du p.1) <$> ds) ->
  reSumContributions (seq a (length ds)) (gp acc) (Some sk) s t =
  Ret (gp (acc + zsum (fun p => du p.1) ds), Some (sk + zsum snd ds)) s t.
Proof.
  induction ds as [|[d sh] ds IH]; intros a acc sk HF Hs; cbn [length seq reSumContributions].
  - cbn. now rewrite !Z.add_0_r.
  - apply reDealt_cons in HF as (Hg & Hr & HF).
    rewrite fmap_cons in Hs. cbn [sumsOk fst] in Hs. destruct Hs as (H0 & Hne & Hs).
    run (apply (reContribution_spec s a d x sh Hg Hr)).
    run (apply calls_run; rewrite Add_gp by apply Hg;
         rewrite (proj2 (Z.eqb_neq _ _) H0), (proj2 (Z.eqb_neq _ _) Hne); reflexivity).
    run (apply calls_run; reflexivity).
    rewrite IH by assumption. rewrite !zsum_cons. cbn [fst snd]. now rewrite !Z.add_assoc.
Qed.

Lemma reCheckShares_spec s x t ds : 0 < x < q -> forall a, reDealt s a x ds -> Forall (regular x) ds ->
  forEach (seq a (length ds)) reCheckShare s t =
  if forallb (onPolynomial x) ds then Ret tt s t else Fail "verify share data fail" s t.
Proof.
  intros Hx. induction ds as [|[d sh] ds IH]; intros a HF Hp; [done|]. cbn [length seq forEach forallb].
  apply reDealt_cons in HF as (Hg & Hr & HF).
  apply Forall_cons_1 in Hp as [[Hn Hsh] Hp]. cbn [fst snd] in Hn, Hsh.
  unfold mbind, act_bind. rewrite (reCheckShare_spec s a d x sh Hg Hr) by assumption.
  unfold onPolynomial at 1. cbn [fst snd]. destruct (sh =? _); [cbn [andb]|done]. now apply IH.
Qed.

Lemma reVerifyAndCombine_spec s x d sh ds t : 0 < x < q -> let all := (d, sh) :: ds in
  reDealt s 0 x all -> Forall (regular x) all -> sumsOk (du d) ((fun p => du p.1) <$> ds) ->
  reVerifyAndCombine (length all) s t =
  if forallb (onPolynomial x) all
  then Ret (gp (zsum (fun p => du p.1) all), zsum snd all mod q) s t
  else Fail "verify share data fail" s t.
Proof.
  intros Hx all HF Hp Hs. pose proof N_ge2. unfold reVerifyAndCombine, mbind at 1, act_bind at 1.
  rewrite (reCheckShares_spec s x t all Hx 0) by assumption.
  destruct (forallb _ all); [|done]. apply reDealt_cons in HF as (Hg & Hr & HF).
  unfold reCombineKey, all. cbn [length]. erewrite act_bind_run.
  2:{ run (apply (reContribution_spec s 0 d x sh Hg Hr)). now apply (reSum_spec s x t ds 1). }
  cbv beta iota. run (apply calls_run; reflexivity). run (apply calls_run, Mod_pos; lia).
  rewrite !zsum_cons. done.
Qed.

(** Every new node holds the messages of the old nodes. *)
Definition reGroup (st : Z -> ReDNode) (d : dealer) (ds : list dealer) (xs : list Z) : Prop :=
  sumsOk (du d) (du <$> ds) /\
  forall x, x ∈ xs -> 0 < x < q /\ reDealt (st x) 0 x (sharesFor (d :: ds) x) /\
                      Forall (regular x) (sharesFor (d :: ds) x).

Lemma reGroup_round3 st d ds xs x t : reGroup st d ds xs -> x ∈ xs ->
  reVerifyAndCombine (S (length ds)) (st x) t = Ret (gp (zsum du (d :: ds)), keyShare (d :: ds) x) (st x) t.
Proof.
  intros [Hs Hg] Hx. destruct (Hg x Hx) as (Hx0 & Hd & Hr). unfold sharesFor in Hd, Hr. rewrite fmap_cons in Hd, Hr.
  pose proof (reVerifyAndCombine_spec (st x) x d _ _ t Hx0 Hd Hr) as H. cbn [length] in H. rewrite length_fmap in H.
  rewrite H; clear H.
  - unfold keyShare, sharesFor. rewrite fmap_cons. rewrite !zsum_cons, !zsum_fmap. cbn [fst snd].
    replace (forallb _ _) with true; [done|]. symmetry. apply forallb_forall.
    intros p [[= ->]|Hp]%list_elem_of_In%elem_of_cons; [apply Z.eqb_refl|].
    apply list_elem_of_fmap in Hp as (d' & -> & _). apply Z.eqb_refl.
  - rewrite <- list_fmap_compose. exact Hs.
Qed.
End round3.

(** * The identifier of a node

    The rounds 2 to 6 read the node's identifier, the hexadecimal text of a decimal
    numeral, as a decimal number: each digit [d] becomes the two digits [3d]. *)

Lemma hexDigit_pretty d : (d < 10)%N ->
  digit 10 (hexDigit (N_of_ascii (pretty_N_char d) / 16)%N) = Some 3 /\
  digit 10 (hexDigit (N_of_ascii (pretty_N_char d) mod 16)%N) = Some (Z.of_N d).
Proof.
  intros H. destruct d as [|p]; [done|].
  do 4 (destruct p as [p|p|]; try (exfalso; lia); try done).
Qed.

Lemma digits_hex n s a a' : 3 * (a + 1) ^ 2 <= 10 * a' \/ (a = 0 /\ a' = 0) -> 0 <= a -> (0 < n)%N ->
  exists v v', 3 * (v + 1) ^ 2 <= 10 * v' /\ 0 <= v /\
    digits 10 (pretty_N_go n s) a = digits 10 s v /\
    digits 10 (EncodeToString (pretty_N_go n s)) a' = digits 10 (EncodeToString s) v'.
Proof.
  intros Ha Ha0. revert s. induction (N.lt_wf_0 n) as [n _ IH]; intros s Hn.
  rewrite pretty_N_go_step by lia.
  assert (Hdig : forall d s, (d < 10)%N -> forall v',
    digits 10 (EncodeToString (String (pretty_N_char d) s)) v' = digits 10 (EncodeToString s) (v' * 100 + 30 + Z.of_N d)).
  { intros d s0 Hd v'. destruct (hexDigit_pretty d Hd) as [H1 H2].
    cbn [EncodeToString digits]. rewrite H1. cbn [mbind option_bind]. rewrite H2. cbn [mbind option_bind].
    f_equal. lia. }
  pose proof (N.mod_lt n 10 ltac:(lia)) as Hm.
  set (dn := (n mod 10)%N) in *. set (d := Z.of_N dn) in *. assert (0 <= d <= 9) by lia.
  destruct (N.eq_dec (n / 10)%N 0%N) as [E|E].
  - rewrite E, pretty_N_go_0. exists (a * 10 + d), (a' * 100 + 30 + d).
    split; [|split; [|split]].
    + destruct Ha as [Ha|[-> ->]]; [|assert (0 <= (9 - d) * d) by nia; nia].
      assert (0 <= (9 - d) * (2 * (10 * a) + 11 + d)) by nia. nia.
    + lia.
    + cbn. now rewrite pretty_char_digit by exact Hm.
    + now apply Hdig.
  - destruct (IH (n / 10)%N ltac:(apply N.div_lt; lia) (String (pretty_N_char dn) s) (proj1 (N.neq_0_lt_0 _) E))
      as (v & v' & Hv & Hv0 & -> & ->).
    exists (v * 10 + d), (v' * 100 + 30 + d).
    split; [|split; [lia|split; [cbn; now rewrite pretty_char_digit by exact Hm|now apply Hdig]]].
    assert (0 <= (9 - d) * (2 * (10 * v) + 11 + d)) by nia. nia.
Qed.

Lemma hexDigit_plain n : (n < 16)%N -> Ascii.eqb (hexDigit n) "-" = false /\ Ascii.eqb (hexDigit n) "+" = false.
Proof.
  intros H. destruct n as [|p]; [done|].
  do 4 (destruct p as [p|p|]; try (exfalso; lia); try done).
Qed.

(** The number the rounds read is about the square of the identifier. *)
Lemma SetString_hex z : 0 < z ->
  exists z', SetString 10 (EncodeToString (Sprintf_v (Some z))) = Some z' /\ 3 * (z + 1) ^ 2 <= 10 * z'.
Proof.
  intros Hz. destruct z as [|p|p]; try lia.
  assert (Hp : Sprintf_v (Some (Z.pos p)) = pretty_N_go (N.pos p) "").
  { cbn [Sprintf_v]. change (pretty (Z.pos p)) with (pretty (N.pos p)). unfold pretty, pretty_N.
    destruct (decide _); [lia|done]. }
  destruct (digits_hex (N.pos p) "" 0 0) as (v & v' & Hv & _ & E & E'); [lia..|].
  assert (v = Z.pos p).
  { pose proof (digits_go (N.pos p) "" 0) as (k & Ek & _). rewrite Ek in E. cbn in E. injection E as E. lia. }
  subst v. exists v'. split; [|exact Hv]. rewrite <- Hp in E'.
  rewrite Hp in *. destruct (pretty_N_go_head (N.pos p) "" ltac:(lia)) as (c & s' & Ec & _). rewrite Ec in *.
  cbn [EncodeToString] in *. unfold SetString. 
  pose proof (hexDigit_plain (N_of_ascii c / 16)%N) as [-> ->].
  { pose proof (N_ascii_bounded c). apply N.Div0.div_lt_upper_bound. lia. }
  unfold unsigned. rewrite E'. done.
Qed.

(** A list of identifiers at most as large as [z] does not hold that number. *)
Definition upTo (z : Z) (ids : list bigint) : Prop := Forall (fun x => exists v, x = Some v /\ v <= z) ids.

Definition hexID (z : Z) : string := EncodeToString (Sprintf_v (Some z)).

Lemma findID_hex z ids : 2 <= z -> upTo z ids ->
  exists z', SetString 10 (hexID z) = Some z' /\ findID ids (Some z') = Ok None.
Proof.
  intros Hz Hids. destruct (SetString_hex z) as (z' & Ez & Hz'); [lia|]. exists z'. split; [done|].
  unfold findID. generalize 0%nat. induction Hids as [|x ids (v & -> & Hv) _ IH]; intros k; [done|].
  cbn. destruct (Z.eqb_spec v z') as [->|_]; [nia|]. apply IH.
Qed.

Section lost.
Context `{E : Curve} `{G : GoLib} (z : Z) (Hz : 2 <= z).

(** The base names the node [z], and the node's data holds no larger identifier. *)
Definition known (s : ReDNode) : Prop :=
  (exists k b, reRnd s = Some (k, b) /\ qDnodeid b = hexID z) /\ upTo z (IDs (reSave s)).

(** A call that does not return in a known state. *)
Definition lost {A} (m : rs A) : Prop := forall s t, known s -> forall a s' t', m s t <> Ret a s' t'.

Lemma lost_bind {A B} (m : rs A) (f : A -> rs B) : stable known m -> (forall a, lost (f a)) -> lost (m ≫= f).
Proof.
  intros Hm Hf s t Hs a s' t' H. specialize (Hm s t Hs). unfold mbind, act_bind in H.
  destruct (m s t) as [b s1 t1| | |]; try discriminate. now apply (Hf b s1 t1 Hm) in H.
Qed.

Lemma lost_first {A B} (m : rs A) (f : A -> rs B) : lost m -> lost (m ≫= f).
Proof.
  intros Hm s t Hs a s' t' H. unfold mbind, act_bind in H.
  destruct (m s t) as [b s1 t1| | |] eqn:Em; try discriminate. now apply (Hm s t Hs) in Em.
Qed.

Lemma reCurIndex_fails s t : known s -> reCurIndex s t = Fail "get cur index fail" s t.
Proof.
  intros ((k & b & Hb & Hid) & Hids). destruct (findID_hex z _ Hz Hids) as (z' & Ez & Ef).
  unfold reCurIndex, reTheBase. erewrite act_bind_run by (unfold mbind, act_bind, getS; rewrite Hb; reflexivity).
  rewrite Hid, Ez. erewrite act_bind_run by reflexivity.
  erewrite act_bind_run by (apply calls_run; unfold saveIndex; rewrite Ef; reflexivity). done.
Qed.

Lemma lost_curIndex : lost reCurIndex.
Proof. intros s t Hs a s' t'. now rewrite reCurIndex_fails. Qed.

Lemma known_modify f : (forall s, reRnd (f s) = reRnd s /\ IDs (reSave (f s)) = IDs (reSave s)) -> stable known (modify f).
Proof. intros Hf. apply stable_modify. intros s. destruct (Hf s) as [H1 H2]. unfold known. now rewrite H1, H2. Qed.

Lemma known_setBase f : (forall b, qDnodeid (f b) = qDnodeid b) -> stable known (reSetBase f).
Proof.
  intros Hf. apply stable_modify. intros s ((k & b & Hb & Hid) & Hids). rewrite Hb. split; [|exact Hids].
  exists k, (f b). now rewrite Hf.
Qed.

Lemma known_begin n : stable known (reBegin n).
Proof.
  unfold reBegin, re_ResetOK. pose proof (known_setBase (fun b => qWithOk ((fun _ => false) <$> qOk b) b) (fun _ => eq_refl)).
  pose proof (known_setBase (fun b => qWithStarted true (qWithNumber n b)) (fun _ => eq_refl)). stable.
Qed.

Lemma known_sum ks : forall pk sk, stable known (reSumContributions ks pk sk).
Proof. induction ks as [|k ks IH]; intros pk sk; cbn [reSumContributions]; stable. Qed.

(** Rounds 3 to 6 do not return. *)
Lemma lost_rounds : lost re_round3_Start /\ lost re_round4_Start /\ lost re_round5_Start /\ lost re_round6_Start.
Proof.
  pose proof known_begin. pose proof known_sum. split_and!.
  - apply lost_bind; [apply known_begin|intros b]. apply lost_bind; [apply stable_getS|intros s].
    apply lost_bind; [unfold reVerifyAndCombine, reCheckShare, reCombineKey, reContribution; stable|intros [pk newsk]].
    apply lost_bind; [now apply known_modify|intros _]. apply lost_bind; [now apply known_modify|intros _].
    apply lost_first, lost_curIndex.
  - apply lost_bind; [apply known_begin|intros b]. apply lost_first, lost_curIndex.
  - apply lost_bind; [apply known_begin|intros b]. apply lost_first, lost_curIndex.
  - apply lost_bind; [apply known_begin|intros b]. apply lost_first, lost_curIndex.
Qed.
End lost.

(** * Claims *)

(** C17: resharing keeps the key.  Let the old nodes' shares lie on a polynomial of at
    most as many coefficients as there are old nodes, and let every old node deal the
    additive share that [calcW1] gives it.  When every new node holds the dealers'
    messages, the key part of round 3 ([reVerifyAndCombine]: the share checks and the
    sums, before the node looks up its own index) returns at each of them, all of them
    compute the public key of the old private key, and the new shares of any more than
    [t] nodes recombine with [Combine2] to that key. *)
Theorem reshare_keeps_key `{L : CurveLaws} st d ds xs nodes t olds sks cs :
  reGroup st d ds xs ->
  olds <> [] -> distinct (cN S256) olds -> length sks = length olds -> (length cs <= length olds)%nat ->
  (forall i x sk, olds !! i = Some x -> sks !! i = Some sk -> [mod cN S256] sk == peval cs x) ->
  Forall2 (fun '(i, sk) d => calcW1 (Some <$> olds) (Z.of_nat i) (Some sk) = Ok (dc0 d))
    (zip (seq 0 (length olds)) sks) (d :: ds) ->
  Forall (fun d => [mod cN S256] du d == dc0 d) (d :: ds) ->
  nodes ⊆ xs -> distinct (cN S256) nodes -> (t < length nodes)%nat ->
  Forall (fun d => (length (dcs d) <= t)%nat) (d :: ds) ->
  exists sk,
    (forall x tape, x ∈ xs ->
       reVerifyAndCombine (S (length ds)) (st x) tape = Ret (gp (peval cs 0), sk x) (st x) tape) /\
    Combine2 ((fun x => mkShare (Some x) (Some (sk x))) <$> nodes) = Ok (Some (peval cs 0 mod cN S256)).
Proof.
  intros Hg Hne Hdo Hlen Hcs Hsk Hw Hu Hn Hd Hlt Ht.
  destruct (calcW1_sum N_prime olds sks cs Hne Hdo Hlen Hcs Hsk) as (ws & Hws & _ & Hsum).
  assert (Hc : [mod cN S256] zsum dc0 (d :: ds) == peval cs 0).
  { rewrite <- Hsum. replace ws with (dc0 <$> (d :: ds)); [now rewrite zsum_fmap|].
    clear -Hw Hws. revert ws Hws. induction Hw as [|[i sk] d' l l' H _ IH]; intros ws Hws.
    - now apply Forall2_nil_inv_l in Hws as ->.
    - apply Forall2_cons_inv_l in Hws as (w & ws' & H' & Hws & ->). rewrite fmap_cons. f_equal; [congruence|]. now apply IH. }
  exists (keyShare (d :: ds)). split.
  - intros x tape Hx. rewrite (reGroup_round3 st d ds xs x tape Hg Hx). f_equal. f_equal. apply gp_proper.
    rewrite <- Hc. apply zsum_eqm. rewrite Forall_forall in Hu. exact Hu.
  - rewrite (keyShares_combine (d :: ds) nodes t Hd) by (assumption || (intros ->; cbn in Hlt; lia)).
    do 2 f_equal. now apply eqm_mod_eq.
Qed.

(** C19: the largest node gets lost.  The rounds 3 to 6 look the node's identifier up
    as a decimal number, but it is the hexadecimal text of one: the node [z] whose
    identifier is the largest of the group does not find itself, and none of these
    rounds returns at it, whatever it holds and whatever it draws. *)
Theorem reshare_loses_node `{E : Curve} `{G : GoLib} z s k b : 2 <= z ->
  reRnd s = Some (k, b) -> qDnodeid b = EncodeToString (Sprintf_v (Some z)) -> (3 <= k <= 6)%nat ->
  Forall (fun x => exists v, x = Some v /\ v <= z) (IDs (reSave s)) ->
  (forall tape, reCurIndex s tape = Fail "get cur index fail" s tape) /\
  (forall tape a s' tape', reRound_Start s tape <> Ret a s' tape').
Proof.
  intros Hz Hb Hid Hk Hids. assert (Hs : known z s) by (split; [now exists k, b|exact Hids]).
  split; [intros tape; now apply (reCurIndex_fails z)|]. intros tape a s' tape'.
  destruct (lost_rounds z Hz) as (H3 & H4 & H5 & H6). unfold reRound_Start, mbind, act_bind, getS. rewrite Hb.
  do 3 (destruct k as [|k]; [lia|]). do 4 (destruct k as [|k]; [eauto|]). lia.
Qed.

(** ** A group on the small curve

    The old nodes 2 and 5 share the key 7 on the polynomial [7 + 3X] and deal to the
    new nodes 1 and 2. *)

Definition reDealState (shares : list (dealer * Z)) (x : Z) : ReDNode :=
  let h := mkHeader "31" 0 [] in
  let at_ (f : dealer * Z -> ReMessage) := (fun p => Some (f p)) <$> shares in
  mkReNode None "31" 2 2 2048 true 0 (fun sl =>
    match sl with
    | Q1 => at_ (fun p => ReRound1Message h (Some (commitHash (commitMessage (dr p.1) (coords (keyPoints p.1))))))
    | Q2 => at_ (fun p => ReRound2Message h (Some x) (Some p.2))
    | Q21 => at_ (fun p => ReRound2Message1 h (Some <$> (dr p.1 :: coords (keyPoints p.1)))
                             (points (dc0 p.1 :: dcs p.1)))
    | _ => []
    end) emptyReTemp (NewLocalDNodeSaveData 2) [] [] [].

Lemma reDealState_received shares x k d sh : shares !! k = Some (d, sh) -> reReceived (reDealState shares x) k d x sh.
Proof.
  intros H. split; [|split]; eexists; cbn [reMsgs reDealState]; rewrite list_lookup_fmap, H; reflexivity.
Qed.

Definition oldA : dealer := mkDealer 68 [] 11 0 [] 0 68 [9].
Definition oldB : dealer := mkDealer 78 [] 13 0 [] 0 78 [30].

Lemma reDealState_group : reGroup (fun x => reDealState (sharesFor [oldA; oldB] x) x) oldA [oldB] [1; 2].
Proof.
  split; [vm_compute; repeat split; discriminate|].
  intros x Hx. assert (Hx' : x = 1 \/ x = 2) by set_solver. split; [destruct Hx' as [->| ->]; vm_compute; split; reflexivity|].
  split.
  - intros k d sh Hk. split; [|now apply reDealState_received].
    assert (Hd : d = oldA \/ d = oldB).
    { apply list_elem_of_lookup_2 in Hk. unfold sharesFor in Hk. apply list_elem_of_fmap in Hk as (d' & [= -> _] & Hd).
      set_solver. }
    destruct Hd as [->| ->]; (split; [vm_compute; discriminate|constructor]).
  - destruct Hx' as [->| ->]; repeat constructor; vm_compute; (discriminate || reflexivity).
Qed.

Lemma reshare_keeps_key_witness :
  exists sk,
    (forall x tape, x ∈ [1; 2] ->
       reVerifyAndCombine 2 (reDealState (sharesFor [oldA; oldB] x) x) tape
       = Ret (gp 7, sk x) (reDealState (sharesFor [oldA; oldB] x) x) tape) /\
    Combine2 ((fun x => mkShare (Some x) (Some (sk x))) <$> [1; 2]) = Ok (Some 7).
Proof.
  refine (reshare_keeps_key (L := toy_laws) _ oldA [oldB] [1; 2] [1; 2] 1 [2; 5] [13; 22] [7; 3]
    reDealState_group _ _ _ _ _ _ _ _ _ _ _).
  - discriminate.
  - refine (bool_decide_eq_true_1 _ _). vm_compute. reflexivity.
  - reflexivity.
  - cbn. lia.
  - intros [|[|i]] x sk Hx Hk; cbn in Hx, Hk; [| |discriminate];
      injection Hx as <-; injection Hk as <-; apply eqm_iff; reflexivity.
  - repeat constructor; vm_compute; reflexivity.
  - repeat constructor; now apply eqm_iff.
  - done.
  - refine (bool_decide_eq_true_1 _ _). vm_compute. reflexivity.
  - cbn. lia.
  - repeat constructor.
Defined.

(** Node 7 of the nodes 2, 5 and 7, about to report success in round 5. *)
Definition reLostState : ReDNode :=
  let b := mkReBase [true; true; true] false 4 "37" 3 2 2048 true 0 [] in
  mkReNode (Some (5%nat, b)) "37" 3 2 2048 true 0 (fun _ => replicate 3 None) emptyReTemp
    (withIDs [Some 2; Some 5; Some 7] (Some 7) (NewLocalDNodeSaveData 3)) [] [] [].

Lemma reshare_loses_node_witness :
  match reRound_Start reLostState [] with Ret _ _ _ => False | _ => True end.
Proof.
  pose proof (proj2 (reshare_loses_node 7 reLostState 5 (mkReBase [true; true; true] false 4 "37" 3 2 2048 true 0 [])
    ltac:(lia) eq_refl eq_refl ltac:(lia) ltac:(repeat constructor; eexists; (split; [reflexivity|lia])))) as Hlost.
  destruct (reRound_Start reLostState []) as [a s' t'| | |] eqn:Hr; [exact (Hlost [] a s' t' Hr)|exact I..].
Defined.
