(* ===== verification/EdWords.v ===== *)
(** Machine words and byte arrays of [smpc-lib/crypto/ed/edwards25519.go]: the
    wrap-around of [int32] and [int64], little-endian loads, and the arithmetic behind
    splitting a number into limbs and bytes. *)

From Stdlib Require Import ZArith Lia.
From stdpp Require Import list.
From S2P Require Import Prelude GoBig.

#[local] Open Scope Z_scope.

(** * Machine integers *)

(** The value of an [int64] after an operation. *)
Definition i64 (z : Z) : Z := (z + 2 ^ 63) mod 2 ^ 64 - 2 ^ 63.

Lemma i64_id z : - 2 ^ 63 <= z < 2 ^ 63 -> i64 z = z.
Proof. intros H. unfold i64. rewrite Z.mod_small; lia. Qed.

(** The value of an [int32] after an operation. *)
Definition i32 (z : Z) : Z := (z + 2 ^ 31) mod 2 ^ 32 - 2 ^ 31.

Lemma i32_id z : - 2 ^ 31 <= z < 2 ^ 31 -> i32 z = z.
Proof. intros H. unfold i32. rewrite Z.mod_small; lia. Qed.

(** [byte(z)]. *)
Definition byte (z : Z) : Z := z mod 256.

(** [[32]byte] and [[64]byte]. *)
Definition isBytes (n : nat) (b : list Z) : Prop := length b = n /\ Forall (fun x => 0 <= x < 256) b.

Definition limb (s : list Z) (k : nat) : Z := nth k s 0.

Definition load3 (b : list Z) : Z :=
  Z.lor (Z.lor (limb b 0) (i64 (limb b 1 ≪ 8))) (i64 (limb b 2 ≪ 16)).

Definition load4 (b : list Z) : Z :=
  Z.lor (Z.lor (Z.lor (limb b 0) (i64 (limb b 1 ≪ 8))) (i64 (limb b 2 ≪ 16))) (i64 (limb b 3 ≪ 24)).

(** * Loads *)

Lemma lor_add a b k : 0 <= k -> 0 <= a < 2 ^ k -> Z.lor a (b ≪ k) = a + b * 2 ^ k.
Proof.
  intros Hk Ha. rewrite <- Z.add_nocarry_lor; [rewrite Z.shiftl_mul_pow2 by lia; ring|].
  apply Z.bits_inj'. intros n Hn. rewrite Z.land_spec, Z.bits_0. destruct (Z.lt_ge_cases n k).
  - rewrite (Z.shiftl_spec_low b) by lia. apply andb_false_r.
  - destruct (Z.eq_dec a 0) as [->|]; [now rewrite Z.bits_0|].
    rewrite (Z.bits_above_log2 a) by (try (assert (Z.log2 a < k) by (apply Z.log2_lt_pow2; lia)); lia). done.
Qed.

Lemma le_value_bound l : Forall (fun x => 0 <= x < 256) l -> 0 <= le_value l < 256 ^ Z.of_nat (length l).
Proof.
  induction 1 as [|b l Hb _ IH]; [cbn; lia|]. cbn [le_value foldr length]. fold (le_value l).
  rewrite Nat2Z.inj_succ, Z.pow_succ_r by lia. lia.
Qed.

Lemma le_value_drop l : forall j, Forall (fun x => 0 <= x < 256) l -> le_value (drop j l) = le_value l / 256 ^ Z.of_nat j.
Proof.
  induction l as [|b l IH]; intros [|j] H; cbn [drop].
  - now rewrite Z.div_1_r.
  - cbn. now rewrite Z.div_0_l by (apply Z.pow_nonzero; lia).
  - now rewrite Z.div_1_r.
  - apply Forall_cons in H as [Hb H]. rewrite IH by assumption. cbn [le_value foldr]. fold (le_value l).
    rewrite Nat2Z.inj_succ, Z.pow_succ_r by lia. rewrite <- Z.div_div by (try apply Z.pow_pos_nonneg; lia).
    f_equal. apply Z.div_unique with b; lia.
Qed.

Lemma le_value_take l : forall n, Forall (fun x => 0 <= x < 256) l -> le_value (take n l) = le_value l mod 256 ^ Z.of_nat n.
Proof.
  induction l as [|b l IH]; intros [|n] H; cbn [take].
  - now rewrite Z.mod_1_r.
  - cbn. now rewrite Z.mod_0_l by (apply Z.pow_nonzero; lia).
  - now rewrite Z.mod_1_r.
  - apply Forall_cons in H as [Hb H]. cbn [le_value foldr]. fold (le_value l) (le_value (take n l)). rewrite IH by assumption.
    rewrite Nat2Z.inj_succ, Z.pow_succ_r by lia. pose proof (Z.pow_pos_nonneg 256 (Z.of_nat n) ltac:(lia) ltac:(lia)).
    pose proof (Z.mod_pos_bound (le_value l) (256 ^ Z.of_nat n) ltac:(lia)).
    apply Z.mod_unique with (le_value l / 256 ^ Z.of_nat n); [lia|].
    rewrite (Z.div_mod (le_value l) (256 ^ Z.of_nat n)) at 1 by lia. ring.
Qed.

Lemma load3_value b : (3 <= length b)%nat -> Forall (fun x => 0 <= x < 256) b -> load3 b = le_value b mod 2 ^ 24.
Proof.
  intros Hl Hb. change (2 ^ 24) with (256 ^ Z.of_nat 3). rewrite <- (le_value_take b 3) by assumption.
  destruct b as [|b0 [|b1 [|b2 b]]]; cbn in Hl; try lia. rewrite !Forall_cons in Hb. destruct Hb as (H0 & H1 & H2 & _).
  unfold load3, limb. cbn [nth]. rewrite !i64_id by (rewrite Z.shiftl_mul_pow2 by lia; lia).
  rewrite (lor_add b0 b1), lor_add by lia. rewrite !firstn_cons, take_0. cbn [le_value foldr]. lia.
Qed.

Lemma load4_value b : (4 <= length b)%nat -> Forall (fun x => 0 <= x < 256) b -> load4 b = le_value b mod 2 ^ 32.
Proof.
  intros Hl Hb. change (2 ^ 32) with (256 ^ Z.of_nat 4). rewrite <- (le_value_take b 4) by assumption.
  destruct b as [|b0 [|b1 [|b2 [|b3 b]]]]; cbn in Hl; try lia. rewrite !Forall_cons in Hb.
  destruct Hb as (H0 & H1 & H2 & H3 & _).
  unfold load4, limb. cbn [nth]. rewrite !i64_id by (rewrite Z.shiftl_mul_pow2 by lia; lia).
  rewrite (lor_add b0 b1), (lor_add _ b2), lor_add by lia. rewrite !firstn_cons, take_0. cbn [le_value foldr]. lia.
Qed.

(** Digits of a remainder are digits of the number. *)
Lemma mod_div_mod x m r n : 0 <= r -> 0 <= n -> r + n <= m -> (x mod 2 ^ m / 2 ^ r) mod 2 ^ n = (x / 2 ^ r) mod 2 ^ n.
Proof.
  intros Hr Hn Hm. rewrite <- !Z.land_ones, <- !Z.shiftr_div_pow2 by lia.
  apply Z.bits_inj'. intros i Hi. rewrite !Z.land_spec, !Z.shiftr_spec, Z.land_spec by lia.
  destruct (Z.lt_ge_cases i n).
  - rewrite (Z.ones_spec_low m) by lia. now rewrite andb_true_r.
  - rewrite (Z.ones_spec_high n) by lia. now rewrite !andb_false_r.
Qed.

(** The bits of a load: [(loadN(b[j:]) >> r) mod 2^n]. *)
Lemma load3_bits b j r n : (j + 3 <= length b)%nat -> Forall (fun x => 0 <= x < 256) b -> 0 <= r -> 0 <= n -> r + n <= 24 ->
  (load3 (drop j b) ≫ r) mod 2 ^ n = (le_value b / 2 ^ (8 * Z.of_nat j + r)) mod 2 ^ n.
Proof.
  intros Hl Hb Hr Hn H. rewrite load3_value by (rewrite ?length_drop; try lia; now apply Forall_drop).
  rewrite Z.shiftr_div_pow2, mod_div_mod, le_value_drop by (assumption || lia).
  rewrite Z.pow_add_r, Z.pow_mul_r by lia. change (2 ^ 8) with 256.
  rewrite Z.div_div by (try apply Z.pow_nonzero; try apply Z.pow_pos_nonneg; lia). done.
Qed.

Lemma load4_bits b j r n : (j + 4 <= length b)%nat -> Forall (fun x => 0 <= x < 256) b -> 0 <= r -> 0 <= n -> r + n <= 32 ->
  (load4 (drop j b) ≫ r) mod 2 ^ n = (le_value b / 2 ^ (8 * Z.of_nat j + r)) mod 2 ^ n.
Proof.
  intros Hl Hb Hr Hn H. rewrite load4_value by (rewrite ?length_drop; try lia; now apply Forall_drop).
  rewrite Z.shiftr_div_pow2, mod_div_mod, le_value_drop by (assumption || lia).
  rewrite Z.pow_add_r, Z.pow_mul_r by lia. change (2 ^ 8) with 256.
  rewrite Z.div_div by (try apply Z.pow_nonzero; try apply Z.pow_pos_nonneg; lia). done.
Qed.
