(* ===== verification/EdScalar.v ===== *)
(** Scalars of Ed25519, [smpc-lib/crypto/ed/edwards25519.go]: the 21-bit limb
    arithmetic modulo the group order of [ScMulAdd], [ScMulSub] and [ScReduce], and
    the helpers around it.

    Limbs are [int64] and every operation wraps around.  The straight-line code is a
    list of [scOp], one constructor per repeated group of statements; an interval
    analysis, executed by the kernel, shows that no statement of the code overflows. *)

From Stdlib Require Import ZArith Lia.
From stdpp Require Import list.
From S2P Require Import Prelude NumTheory Lagrange GoBig EdWords.

#[local] Open Scope Z_scope.

(** * Limbs *)

Definition mask21 : Z := 2097151.

(** The twelve limbs of a 32-byte scalar. *)
Definition limbs12 (a : list Z) : list Z :=
  [ Z.land mask21 (load3 a);
    Z.land mask21 (load4 (drop 2 a) ≫ 5);
    Z.land mask21 (load3 (drop 5 a) ≫ 2);
    Z.land mask21 (load4 (drop 7 a) ≫ 7);
    Z.land mask21 (load4 (drop 10 a) ≫ 4);
    Z.land mask21 (load3 (drop 13 a) ≫ 1);
    Z.land mask21 (load4 (drop 15 a) ≫ 6);
    Z.land mask21 (load3 (drop 18 a) ≫ 3);
    Z.land mask21 (load3 (drop 21 a));
    Z.land mask21 (load4 (drop 23 a) ≫ 5);
    Z.land mask21 (load3 (drop 26 a) ≫ 2);
    load4 (drop 28 a) ≫ 7 ].

(** The 24 limbs of a 64-byte number. *)
Definition limbs24 (s : list Z) : list Z :=
  [ Z.land mask21 (load3 s);
    Z.land mask21 (load4 (drop 2 s) ≫ 5);
    Z.land mask21 (load3 (drop 5 s) ≫ 2);
    Z.land mask21 (load4 (drop 7 s) ≫ 7);
    Z.land mask21 (load4 (drop 10 s) ≫ 4);
    Z.land mask21 (load3 (drop 13 s) ≫ 1);
    Z.land mask21 (load4 (drop 15 s) ≫ 6);
    Z.land mask21 (load3 (drop 18 s) ≫ 3);
    Z.land mask21 (load3 (drop 21 s));
    Z.land mask21 (load4 (drop 23 s) ≫ 5);
    Z.land mask21 (load3 (drop 26 s) ≫ 2);
    Z.land mask21 (load4 (drop 28 s) ≫ 7);
    Z.land mask21 (load4 (drop 31 s) ≫ 4);
    Z.land mask21 (load3 (drop 34 s) ≫ 1);
    Z.land mask21 (load4 (drop 36 s) ≫ 6);
    Z.land mask21 (load3 (drop 39 s) ≫ 3);
    Z.land mask21 (load3 (drop 42 s));
    Z.land mask21 (load4 (drop 44 s) ≫ 5);
    Z.land mask21 (load3 (drop 47 s) ≫ 2);
    Z.land mask21 (load4 (drop 49 s) ≫ 7);
    Z.land mask21 (load4 (drop 52 s) ≫ 4);
    Z.land mask21 (load3 (drop 55 s) ≫ 1);
    Z.land mask21 (load4 (drop 57 s) ≫ 6);
    load4 (drop 60 s) ≫ 3 ].

(** The limb [k] of the product: [a0*bk + a1*b(k-1) + ... + ak*b0], with the indices
    that exist.  One wrap-around stands for those of the sums and products of the
    statement. *)
Definition column (a b : list Z) (k : nat) : Z :=
  zsum (fun i => limb a i * limb b (k - i)) (seq (k - 11) (Nat.min k 11 - (k - 11) + 1)).

Definition productPlus (a b c : list Z) : list Z :=
  ((fun k => i64 (limb c k + column a b k)) <$> seq 0 12) ++ ((fun k => i64 (column a b k)) <$> seq 12 11) ++ [0].

Definition productMinus (a b c : list Z) : list Z :=
  ((fun k => i64 (i64 (- limb c k) + column a b k)) <$> seq 0 12) ++ ((fun k => i64 (column a b k)) <$> seq 12 11) ++ [0].

(** ** The statements of the reduction *)

Inductive scOp :=
| Round (k : nat)  (** [carry[k] = (sk + (1 << 20)) >> 21; s(k+1) += carry[k]; sk -= carry[k] << 21] *)
| Floor (k : nat)  (** [carry[k] = sk >> 21; s(k+1) += carry[k]; sk -= carry[k] << 21] *)
| Fold (k : nat).  (** [s(k-12) += sk * 666643; ...; s(k-7) -= sk * 683901; sk = 0] *)

(** [sk = v]. *)
Definition set_ (k : nat) (v : Z) (s : list Z) : list Z := <[k := v]> s.

Definition carryInto (k : nat) (c : Z) (s : list Z) : list Z :=
  let s := set_ (S k) (i64 (limb s (S k) + c)) s in
  set_ k (i64 (limb s k - i64 (c ≪ 21))) s.

Definition addMul (j k : nat) (m : Z) (s : list Z) : list Z :=
  set_ j (i64 (limb s j + i64 (limb s k * m))) s.

(** What multiplies a limb that is folded twelve limbs down. *)
Definition foldFactors : list Z := [666643; 470296; 654183; -997805; 136657; -683901].

Definition scExec (op : scOp) (s : list Z) : list Z :=
  match op with
  | Round k => carryInto k (i64 (limb s k + i64 (1 ≪ 20)) ≫ 21) s
  | Floor k => carryInto k (limb s k ≫ 21) s
  | Fold k => set_ k 0 (foldl (fun s '(i, m) => addMul (k - 12 + i) k m s) s (zip (seq 0 6) foldFactors))
  end.

Definition scRun (ops : list scOp) (s : list Z) : list Z := foldl (fun s op => scExec op s) s ops.

(** The carries after the product. *)
Definition productCarries : list scOp :=
  (Round <$> [0; 2; 4; 6; 8; 10; 12; 14; 16; 18; 20; 22]%nat) ++
  (Round <$> [1; 3; 5; 7; 9; 11; 13; 15; 17; 19; 21]%nat).

(** From 24 limbs to twelve and a carry. *)
Definition reduceOps : list scOp :=
  (Fold <$> [23; 22; 21; 20; 19; 18]%nat) ++
  (Round <$> [6; 8; 10; 12; 14; 16]%nat) ++ (Round <$> [7; 9; 11; 13; 15]%nat) ++
  (Fold <$> [17; 16; 15; 14; 13; 12]%nat) ++
  (Round <$> [0; 2; 4; 6; 8; 10]%nat) ++ (Round <$> [1; 3; 5; 7; 9; 11]%nat) ++
  [Fold 12].

(** The last passes. *)
Definition floorOps : list scOp := Floor <$> seq 0 12.
Definition lastOps : list scOp := Fold 12 :: (Floor <$> seq 0 11).

(** [s[0] = byte(s0 >> 0)] and so on. *)
Definition scBytes (s : list Z) : list Z :=
  let lo k r := byte (limb s k ≫ r) in
  let both k r l := byte (Z.lor (limb s k ≫ r) (i64 (limb s (S k) ≪ l))) in
  [ lo 0%nat 0; lo 0%nat 8; both 0%nat 16 5; lo 1%nat 3; lo 1%nat 11; both 1%nat 19 2; lo 2%nat 6; both 2%nat 14 7;
    lo 3%nat 1; lo 3%nat 9; both 3%nat 17 4; lo 4%nat 4; lo 4%nat 12; both 4%nat 20 1; lo 5%nat 7; both 5%nat 15 6;
    lo 6%nat 2; lo 6%nat 10; both 6%nat 18 3; lo 7%nat 5; lo 7%nat 13; lo 8%nat 0; lo 8%nat 8; both 8%nat 16 5;
    lo 9%nat 3; lo 9%nat 11; both 9%nat 19 2; lo 10%nat 6; both 10%nat 14 7; lo 11%nat 1; lo 11%nat 9; lo 11%nat 17 ].

Definition ScMulAdd (a b c : list Z) : list Z :=
  scBytes (scRun (productCarries ++ reduceOps ++ floorOps ++ lastOps)
                 (productPlus (limbs12 a) (limbs12 b) (limbs12 c))).

Definition ScMulSub (a b c : list Z) : list Z :=
  scBytes (scRun (productCarries ++ reduceOps ++ floorOps ++ lastOps)
                 (productMinus (limbs12 a) (limbs12 b) (limbs12 c))).

Definition ScReduce (s : list Z) : list Z :=
  scBytes (scRun (reduceOps ++ floorOps ++ lastOps) (limbs24 s)).

(** ** Helpers *)

(** [order]. *)
Definition orderWords : list Z := [0x5812631a5cf5d3ed; 0x14def9dea2f79cd6; 0; 0x1000000000000000].

(** [binary.LittleEndian.Uint64(scalar[i*8:])]. *)
Definition word64 (scalar : list Z) (i : nat) : Z := le_value (take 8 (drop (i * 8) scalar)).

(** [ScMinimal]: the loop counts down from 3. *)
Fixpoint minimalFrom (scalar : list Z) (i : nat) : bool :=
  let v := word64 scalar i in
  if limb orderWords i <? v then false
  else if v <? limb orderWords i then true
  else match i with O => false | S i' => minimalFrom scalar i' end.

Definition ScMinimal (scalar : list Z) : bool := minimalFrom scalar 3.

Definition GetBigIntOrder : Z := (1 ≪ 252) + (0x14def9dea2f79cd6 ≪ 64) + 0x5812631a5cf5d3ed.

(** [ScReverse]: the swaps from both ends reverse the array. *)
Definition ScReverse (s : list Z) : list Z := reverse s.

(** [copy(r[32-len(b):], b)] on a zero array. *)
Definition leftPad32 (b : list Z) : list Z := replicate (32 - length b) 0 ++ b.

Definition GetBytesOrder : list Z := ScReverse (leftPad32 (Bytes GetBigIntOrder)).

(** [ScModInverse]: the argument [order] is reversed and never used. *)
Definition ScModInverse (a order : list Z) : list Z :=
  let aBigInt := SetBytes (ScReverse a) in
  match ModInverse aBigInt GetBigIntOrder with
  | None => replicate 32 0
  | Some aInvBigInt => ScReverse (leftPad32 (Bytes aInvBigInt))
  end.

Definition zero32 : list Z := replicate 32 0.
Definition one32 : list Z := 1 :: replicate 31 0.

Definition ScMul (a b : list Z) : list Z := ScMulAdd a b zero32.
Definition ScAdd (a b : list Z) : list Z := ScMulAdd a one32 b.
Definition ScSub (a b : list Z) : list Z := ScMulSub a one32 b.

(** * Values of limbs *)

Definition L : Z := 2 ^ 252 + 27742317777372353535851937790883648493.

Definition lval (s : list Z) : Z := foldr (fun x acc => x + 2 ^ 21 * acc) 0 s.

Lemma lval_cons x s : lval (x :: s) = x + 2 ^ 21 * lval s.
Proof. done. Qed.

Lemma pow21_S k : 2 ^ (21 * Z.of_nat (S k)) = 2 ^ 21 * 2 ^ (21 * Z.of_nat k).
Proof. rewrite <- Z.pow_add_r by lia. f_equal. lia. Qed.

Lemma lval_set s k v : (k < length s)%nat -> lval (set_ k v s) = lval s + (v - limb s k) * 2 ^ (21 * Z.of_nat k).
Proof.
  revert k. induction s as [|x s IH]; intros [|k] Hk; cbn [length] in Hk; try lia.
  - unfold set_, limb. cbn [insert list_insert nth]. rewrite !lval_cons. change (2 ^ (21 * Z.of_nat 0)) with 1. ring.
  - unfold set_, limb in *. cbn [insert list_insert nth]. rewrite !lval_cons. change (list_insert k v s) with (<[k := v]> s).
    rewrite IH by lia. rewrite pow21_S. ring.
Qed.

Lemma limb_set s j v i : (j < length s)%nat -> limb (set_ j v s) i = if decide (i = j) then v else limb s i.
Proof.
  revert i j. induction s as [|x s IH]; intros i j Hj; [cbn in Hj; lia|]. unfold set_, limb in *.
  destruct j as [|j], i as [|i]; cbn [insert list_insert nth]; try done.
  change (list_insert j v s) with (<[j := v]> s). rewrite IH by (cbn in Hj; lia).
  destruct (decide (i = j)), (decide (S i = S j)); congruence || lia.
Qed.

Lemma length_set s j v : length (set_ j v s) = length s.
Proof. apply length_insert. Qed.

(** ** Reading a scalar *)

Definition digit21 (x : Z) (k : nat) : Z := (x / 2 ^ (21 * Z.of_nat k)) mod 2 ^ 21.

Lemma lval_digits x n : forall a,
  lval ((digit21 x <$> seq a n) ++ [x / 2 ^ (21 * Z.of_nat (a + n))]) = x / 2 ^ (21 * Z.of_nat a).
Proof.
  induction n as [|n IH]; intros a; cbn [seq fmap list_fmap app].
  - rewrite Nat.add_0_r. rewrite lval_cons. cbn. lia.
  - rewrite lval_cons. replace (a + S n)%nat with (S a + n)%nat by lia. rewrite IH. unfold digit21.
    rewrite pow21_S, (Z.mul_comm (2 ^ 21) (2 ^ _)). rewrite <- Z.div_div by (try apply Z.pow_nonzero; try apply Z.pow_pos_nonneg; lia).
    rewrite Z.add_comm. symmetry. apply Z.div_mod. lia.
Qed.

Lemma land_mask21 y : Z.land mask21 y = y mod 2 ^ 21.
Proof. rewrite Z.land_comm. now rewrite <- Z.land_ones by lia. Qed.

Section read.
Context (b : list Z) (Hb : Forall (fun x => 0 <= x < 256) b).

Lemma mask3 j r k : (j + 3 <= length b)%nat -> 0 <= r <= 3 -> 8 * Z.of_nat j + r = 21 * Z.of_nat k ->
  Z.land mask21 (load3 (drop j b) ≫ r) = digit21 (le_value b) k.
Proof. intros Hj Hr E. rewrite land_mask21, load3_bits by (assumption || lia). unfold digit21. now rewrite E. Qed.

Lemma mask4 j r k : (j + 4 <= length b)%nat -> 0 <= r <= 11 -> 8 * Z.of_nat j + r = 21 * Z.of_nat k ->
  Z.land mask21 (load4 (drop j b) ≫ r) = digit21 (le_value b) k.
Proof. intros Hj Hr E. rewrite land_mask21, load4_bits by (assumption || lia). unfold digit21. now rewrite E. Qed.

(** The last limb is not masked. *)
Lemma last4 j r k : length b = (j + 4)%nat -> 0 <= r <= 31 -> 8 * Z.of_nat j + r = 21 * Z.of_nat k ->
  load4 (drop j b) ≫ r = le_value b / 2 ^ (21 * Z.of_nat k).
Proof.
  intros Hj Hr E. pose proof (le_value_bound b Hb) as Hx. rewrite Hj in Hx.
  assert (H1 : 0 <= le_value b / 256 ^ Z.of_nat j < 2 ^ 32).
  { split; [apply Z.div_pos; [lia|apply Z.pow_pos_nonneg; lia]|]. apply Z.div_lt_upper_bound; [apply Z.pow_pos_nonneg; lia|].
    rewrite Nat2Z.inj_add, Z.pow_add_r in Hx by lia. change (256 ^ Z.of_nat 4) with (2 ^ 32) in Hx. lia. }
  rewrite load4_value by (rewrite ?length_drop; try lia; now apply Forall_drop).
  rewrite le_value_drop, Z.mod_small, Z.shiftr_div_pow2 by (assumption || lia).
  rewrite Z.div_div by (try apply Z.pow_nonzero; try apply Z.pow_pos_nonneg; lia).
  rewrite <- E, Z.pow_add_r, Z.pow_mul_r by lia. done.
Qed.
End read.

Ltac read_limbs Hb := first
  [ reflexivity
  | apply (mask3 _ Hb); [lia|lia|reflexivity] | apply (mask4 _ Hb); [lia|lia|reflexivity]
  | rewrite <- (Z.shiftr_0_r (load3 _)); apply (mask3 _ Hb); [lia|lia|reflexivity]
  | apply (last4 _ Hb); [lia|lia|reflexivity] ].

Lemma limbs12_digits a : isBytes 32 a ->
  limbs12 a = (digit21 (le_value a) <$> seq 0 11) ++ [le_value a / 2 ^ (21 * Z.of_nat 11)].
Proof.
  intros [Hl Hb]. unfold limbs12. cbn [seq fmap list_fmap app].
  replace (load3 a) with (load3 (drop 0 a)) by done.
  repeat (apply f_equal2; [read_limbs Hb|]). done.
Qed.

Lemma limbs24_digits a : isBytes 64 a ->
  limbs24 a = (digit21 (le_value a) <$> seq 0 23) ++ [le_value a / 2 ^ (21 * Z.of_nat 23)].
Proof.
  intros [Hl Hb]. unfold limbs24. cbn [seq fmap list_fmap app].
  replace (load3 a) with (load3 (drop 0 a)) by done.
  repeat (apply f_equal2; [read_limbs Hb|]). done.
Qed.

(** * The interval analysis

    [absRun ops b] bounds the limbs after [ops] when they were within [b] before, and
    is [None] when a statement could leave the range of [int64]. *)

Abbreviation ival := (Z * Z)%type.

Definition fits (i : ival) : bool := (- 2 ^ 63 <=? i.1) && (i.2 <? 2 ^ 63).
Definition guard (i : ival) : option ival := if fits i then Some i else None.

Definition iadd (i j : ival) : ival := (i.1 + j.1, i.2 + j.2).
Definition iscale (m : Z) (i : ival) : ival := if 0 <=? m then (m * i.1, m * i.2) else (m * i.2, m * i.1).
Definition ishr (i : ival) : ival := (i.1 ≫ 21, i.2 ≫ 21).

Definition bound (b : list ival) (k : nat) : ival := nth k b (0, 0).

(** A carry [c] out of limb [k], which leaves [rest] there. *)
Definition absCarry (k : nat) (c rest : ival) (b : list ival) : option (list ival) :=
  n ← guard (iadd (bound b (S k)) c);
  _ ← guard (iscale (2 ^ 21) c);
  if Nat.ltb (S k) (length b) then Some (<[k := rest]> (<[S k := n]> b)) else None.

Definition absAddMul (j k : nat) (m : Z) (b : list ival) : option (list ival) :=
  p ← guard (iscale m (bound b k));
  n ← guard (iadd (bound b j) p);
  if Nat.ltb j k && Nat.ltb k (length b) then Some (<[j := n]> b) else None.

Definition absExec (op : scOp) (b : list ival) : option (list ival) :=
  match op with
  | Round k =>
      i ← guard (iadd (bound b k) (2 ^ 20, 2 ^ 20));
      absCarry k (ishr i) (- 2 ^ 20, 2 ^ 20 - 1) b
  | Floor k => absCarry k (ishr (bound b k)) (0, 2 ^ 21 - 1) b
  | Fold k =>
      if Nat.ltb k 12 || Nat.leb (length b) k then None else
      b' ← foldl (fun ob '(i, m) => b ← ob; absAddMul (k - 12 + i) k m b) (Some b) (zip (seq 0 6) foldFactors);
      Some (<[k := (0, 0)]> b')
  end.

Definition absRun (ops : list scOp) (b : list ival) : option (list ival) :=
  foldl (fun ob op => b ← ob; absExec op b) (Some b) ops.

(** ** It is sound *)

Definition within (x : Z) (i : ival) : Prop := i.1 <= x <= i.2.
Definition bounded (s : list Z) (b : list ival) : Prop := Forall2 within s b.

Lemma guard_Some i j : guard i = Some j -> j = i /\ (forall x, within x i -> i64 x = x).
Proof.
  unfold guard, fits, within. destruct (Z.leb_spec (- 2 ^ 63) i.1), (Z.ltb_spec i.2 (2 ^ 63)); try discriminate.
  intros [= <-]. split; [done|]. intros x Hx. apply i64_id. lia.
Qed.

Lemma within_add x y i j : within x i -> within y j -> within (x + y) (iadd i j).
Proof. unfold within, iadd. cbn. lia. Qed.

Lemma within_scale m x i : within x i -> within (x * m) (iscale m i).
Proof. unfold within, iscale. intros H. destruct (Z.leb_spec 0 m); cbn; nia. Qed.

Lemma within_shr x i : within x i -> within (x ≫ 21) (ishr i).
Proof. unfold within, ishr. intros H. cbn. rewrite !Z.shiftr_div_pow2 by lia. split; apply Z.div_le_mono; lia. Qed.

Lemma bounded_at s b k : bounded s b -> (k < length b)%nat -> within (limb s k) (bound b k).
Proof.
  intros H Hk. unfold limb, bound. revert k Hk. induction H as [|x i s b Hx _ IH]; intros [|k] Hk; cbn in *; try lia; [done|].
  apply IH. lia.
Qed.

Lemma bounded_set s b k v i : bounded s b -> within v i -> bounded (set_ k v s) (<[k := i]> b).
Proof. intros. now apply Forall2_insert. Qed.

Lemma absCarry_length k c rest b b' : absCarry k c rest b = Some b' -> (k < length b)%nat.
Proof.
  intros H. unfold absCarry in H. apply bind_Some in H as (n & _ & H). apply bind_Some in H as (n' & _ & H).
  destruct (Nat.ltb_spec (S k) (length b)); [lia|discriminate].
Qed.

Lemma carry_sound k c i rest s b b' : bounded s b -> absCarry k i rest b = Some b' -> within c i ->
  within (limb s k - c * 2 ^ 21) rest -> fits rest = true ->
  bounded (carryInto k c s) b' /\ lval (carryInto k c s) = lval s.
Proof.
  intros Hs H Hc Hr Hf. pose proof (Forall2_length _ _ _ Hs) as Hlen.
  unfold absCarry in H. apply bind_Some in H as (n & [-> Hn]%guard_Some & H).
  apply bind_Some in H as (n' & [-> Hc']%guard_Some & H).
  destruct (Nat.ltb_spec (S k) (length b)); [|discriminate]. injection H as <-.
  assert (E1 : i64 (limb s (S k) + c) = limb s (S k) + c) by (apply Hn, within_add; [apply bounded_at; assumption|done]).
  assert (E2 : i64 (c ≪ 21) = c * 2 ^ 21) by (rewrite Z.shiftl_mul_pow2 by lia; apply Hc', within_scale, Hc).
  assert (E3 : i64 (limb s k - c * 2 ^ 21) = limb s k - c * 2 ^ 21).
  { apply (guard_Some rest rest); [unfold guard; now rewrite Hf|exact Hr]. }
  unfold carryInto. rewrite E1, E2, limb_set by lia. destruct (decide (k = S k)); [lia|]. rewrite E3. split.
  - apply bounded_set; [apply bounded_set|]; auto. apply within_add; [apply bounded_at; assumption|done].
  - rewrite lval_set by (rewrite length_set; lia). rewrite lval_set, limb_set by lia.
    destruct (decide (k = S k)); [lia|]. rewrite pow21_S. ring.
Qed.

Lemma addMul_sound j k m s b b' : bounded s b -> absAddMul j k m b = Some b' ->
  bounded (addMul j k m s) b' /\ lval (addMul j k m s) = lval s + limb s k * m * 2 ^ (21 * Z.of_nat j) /\
  limb (addMul j k m s) k = limb s k /\ (j < k < length s)%nat.
Proof.
  intros Hs H. pose proof (Forall2_length _ _ _ Hs) as Hlen.
  unfold absAddMul in H. apply bind_Some in H as (p & [-> Hp]%guard_Some & H).
  apply bind_Some in H as (n & [-> Hn]%guard_Some & H).
  destruct (Nat.ltb_spec j k), (Nat.ltb_spec k (length b)); try discriminate. injection H as <-.
  assert (Hk : within (limb s k * m) (iscale m (bound b k))) by (apply within_scale, bounded_at; assumption).
  assert (Hj : within (limb s j + limb s k * m) (iadd (bound b j) (iscale m (bound b k))))
    by (apply within_add; [apply bounded_at; [assumption|lia]|assumption]).
  unfold addMul. rewrite (Hp _ Hk), (Hn _ Hj). split; [now apply bounded_set|]. rewrite lval_set, limb_set by lia.
  destruct (decide (k = j)); [lia|]. split; [ring|]. split; [done|]. lia.
Qed.

Lemma fold_sound k s b b' ms : forall i, bounded s b ->
  foldl (fun ob '(i, m) => b ← ob; absAddMul (k - 12 + i) k m b) (Some b) (zip (seq i (length ms)) ms) = Some b' ->
  let s' := foldl (fun s '(i, m) => addMul (k - 12 + i) k m s) s (zip (seq i (length ms)) ms) in
  bounded s' b' /\ limb s' k = limb s k /\
  lval s' = lval s + limb s k * 2 ^ (21 * Z.of_nat (k - 12 + i)) * lval ms.
Proof.
  revert s b. induction ms as [|m ms IH]; intros s b i Hs H; cbn [length seq zip_with zip foldl] in *.
  - injection H as <-. split; [done|]. split; [done|]. change (lval []) with 0. ring.
  - cbn [mbind option_bind] in H. destruct (absAddMul (k - 12 + i) k m b) as [b1|] eqn:E1.
    2:{ exfalso. revert H. generalize (zip (seq (S i) (length ms)) ms). intros l. clear.
        induction l as [|[a c] l IH]; intros H; [discriminate H|exact (IH H)]. }
    destruct (addMul_sound _ _ _ _ _ _ Hs E1) as (Hs1 & Hv1 & Hk1 & _).
    destruct (IH _ _ (S i) Hs1 H) as (Hs' & Hk' & Hv'). split; [exact Hs'|]. split; [congruence|].
    rewrite Hv', Hv1, Hk1, lval_cons, Nat.add_succ_r, pow21_S. ring.
Qed.

Lemma foldl_addMul_length k l : forall s, length (foldl (fun s '(i, m) => addMul (k - 12 + i) k m s) s l) = length s.
Proof. induction l as [|[i m] l IH]; intros s; [done|]. cbn [foldl]. rewrite IH. apply length_set. Qed.

(** What a statement group adds to the value, in multiples of the order. *)
Definition foldQuotient (op : scOp) (s : list Z) : Z :=
  match op with Fold k => limb s k * 2 ^ (21 * Z.of_nat (k - 12)) | _ => 0 end.

Lemma exec_sound op s b b' : bounded s b -> absExec op b = Some b' ->
  bounded (scExec op s) b' /\ lval (scExec op s) = lval s - foldQuotient op s * L.
Proof.
  intros Hs H. destruct op as [k|k|k]; cbn [absExec scExec foldQuotient] in *.
  - apply bind_Some in H as (i & [-> Hi]%guard_Some & H). rewrite Z.sub_0_r.
    pose proof (absCarry_length _ _ _ _ _ H) as Hk.
    assert (Hw : within (limb s k + 2 ^ 20) (iadd (bound b k) (2 ^ 20, 2 ^ 20)))
      by (apply within_add; [now apply bounded_at|unfold within; cbn; lia]).
    change (i64 (1 ≪ 20)) with (2 ^ 20). rewrite (Hi _ Hw).
    eapply carry_sound; [exact Hs|exact H|now apply within_shr| |reflexivity].
    rewrite Z.shiftr_div_pow2 by lia. unfold within. cbn [fst snd].
    pose proof (Z.div_mod (limb s k + 2 ^ 20) (2 ^ 21)). pose proof (Z.mod_pos_bound (limb s k + 2 ^ 20) (2 ^ 21)). lia.
  - rewrite Z.sub_0_r.
    pose proof (absCarry_length _ _ _ _ _ H) as Hk.
    eapply carry_sound; [exact Hs|exact H|now apply within_shr, bounded_at| |reflexivity].
    rewrite Z.shiftr_div_pow2 by lia. unfold within. cbn [fst snd].
    pose proof (Z.div_mod (limb s k) (2 ^ 21)). pose proof (Z.mod_pos_bound (limb s k) (2 ^ 21)). lia.
  - destruct (Nat.ltb_spec k 12) as [|Hk], (Nat.leb_spec (length b) k) as [|Hk2]; try discriminate. cbn [orb] in H.
    apply bind_Some in H as (b1 & H1 & [= <-]).
    destruct (fold_sound k s b b1 foldFactors 0 Hs H1) as (Hs' & Hk' & Hv').
    change (length foldFactors) with 6%nat in *. set (s' := foldl _ s _) in *.
    assert (Hlen : length s' = length s) by apply foldl_addMul_length.
    rewrite <- (Forall2_length _ _ _ Hs) in Hk2.
    split; [apply bounded_set; [exact Hs'|unfold within; cbn; lia]|].
    rewrite lval_set, Hv', Hk', Nat.add_0_r by lia.
    replace (21 * Z.of_nat k) with (21 * Z.of_nat (k - 12) + 252) by lia. rewrite Z.pow_add_r by lia.
    change (lval foldFactors) with (2 ^ 252 - L). ring.
Qed.

(** ** Sequences of statements *)

Lemma absRun_cons op ops b b' : absRun (op :: ops) b = Some b' ->
  exists b1, absExec op b = Some b1 /\ absRun ops b1 = Some b'.
Proof.
  unfold absRun. cbn [foldl mbind option_bind]. destruct (absExec op b) as [b1|] eqn:E1; [eauto|].
  intros H. exfalso. revert H. clear. induction ops as [|op' ops IH]; [discriminate|exact IH].
Qed.

Lemma absRun_app ops1 ops2 b b' : absRun (ops1 ++ ops2) b = Some b' ->
  exists b1, absRun ops1 b = Some b1 /\ absRun ops2 b1 = Some b'.
Proof.
  revert b. induction ops1 as [|op ops1 IH]; intros b H; [now exists b|].
  apply absRun_cons in H as (b0 & H0 & H). apply IH in H as (b1 & H1 & H). exists b1. split; [|exact H].
  unfold absRun in *. cbn [foldl mbind option_bind]. now rewrite H0.
Qed.

Lemma scRun_cons op ops s : scRun (op :: ops) s = scRun ops (scExec op s).
Proof. done. Qed.

Lemma scRun_app ops1 ops2 s : scRun (ops1 ++ ops2) s = scRun ops2 (scRun ops1 s).
Proof. apply foldl_app. Qed.

Lemma run_sound ops : forall s b b', bounded s b -> absRun ops b = Some b' ->
  bounded (scRun ops s) b' /\ [mod L] lval (scRun ops s) == lval s.
Proof.
  induction ops as [|op ops IH]; intros s b b' Hs H; [now injection H as <-|].
  apply absRun_cons in H as (b1 & H1 & H). destruct (exec_sound op s b b1 Hs H1) as [Hs1 Hv].
  destruct (IH _ _ _ Hs1 H) as [Hs' Hv']. split; [exact Hs'|]. rewrite scRun_cons.
  rewrite Hv', Hv. replace (lval s - foldQuotient op s * L) with (lval s + - foldQuotient op s * L) by ring. apply eqm_add_mul.
Qed.

(** Carries alone keep the value. *)
Lemma floor_sound l : forall s b b', bounded s b -> absRun (Floor <$> l) b = Some b' ->
  bounded (scRun (Floor <$> l) s) b' /\ lval (scRun (Floor <$> l) s) = lval s.
Proof.
  induction l as [|k l IH]; intros s b b' Hs H; [now injection H as <-|]. rewrite fmap_cons in *.
  apply absRun_cons in H as (b1 & H1 & H). destruct (exec_sound (Floor k) s b b1 Hs H1) as [Hs1 Hv].
  destruct (IH _ _ _ Hs1 H) as [Hs' Hv']. split; [exact Hs'|].
  rewrite scRun_cons.
  rewrite Hv', Hv. cbn [foldQuotient]. ring.
Qed.

(** ** The last passes *)

Lemma lval_app s1 s2 : lval (s1 ++ s2) = lval s1 + 2 ^ (21 * Z.of_nat (length s1)) * lval s2.
Proof.
  induction s1 as [|x s1 IH]; cbn [app length]; [change (2 ^ (21 * Z.of_nat 0)) with 1; cbn [lval foldr]; ring|].
  rewrite !lval_cons, IH, pow21_S. ring.
Qed.

Lemma lval_bound s : Forall (fun x => 0 <= x < 2 ^ 21) s -> 0 <= lval s < 2 ^ (21 * Z.of_nat (length s)).
Proof. induction 1 as [|x s Hx _ IH]; [cbn; lia|]. rewrite lval_cons. cbn [length]. rewrite pow21_S. lia. Qed.

(** The first [n] limbs are digits, those after the next one are zero. *)
Definition digitsThen (n : nat) (b : list ival) : bool :=
  bool_decide (take n b = replicate n (0, 2 ^ 21 - 1) /\ drop (S n) b = replicate (23 - n) (0, 0) /\ length b = 24%nat).

Lemma digitsThen_limbs n s b : (n < 24)%nat -> bounded s b -> digitsThen n b = true ->
  exists ds, s = ds ++ limb s n :: replicate (23 - n) 0 /\ length ds = n /\ Forall (fun x => 0 <= x < 2 ^ 21) ds.
Proof.
  intros Hn Hs H. apply bool_decide_eq_true in H as (Ht & Hd & Hl).
  pose proof (Forall2_length _ _ _ Hs) as Hlen. exists (take n s). split_and!.
  - rewrite <- (take_drop n s) at 1. f_equal. rewrite (drop_S s (limb s n) n).
    + f_equal. pose proof (Forall2_drop _ _ _ (S n) Hs) as H2. rewrite Hd in H2. 
      clear -H2. remember (23 - n)%nat as m eqn:Em. clear Em. revert H2. generalize (drop (S n) s). clear.
      induction m as [|m IH]; intros l H; cbn [replicate] in *.
      * now apply Forall2_nil_inv_r in H.
      * apply Forall2_cons_inv_r in H as (x & l' & Hx & H & ->). unfold within in Hx. cbn in Hx.
        f_equal; [lia|]. now apply IH.
    + unfold limb. destruct (nth_lookup_or_length s n 0); [assumption|lia].
  - rewrite length_take. lia.
  - pose proof (Forall2_take _ _ _ n Hs) as H2. rewrite Ht in H2. apply Forall_forall. intros x Hx.
    apply list_elem_of_lookup in Hx as (i & Hi). destruct (Forall2_lookup_l _ _ _ _ _ H2 Hi) as (j & Hj & Hw).
    apply lookup_replicate in Hj as [-> _]. unfold within in Hw. cbn in Hw. lia.
Qed.

(** The value of a state with [n] digits. *)
Lemma digitsThen_value n s b : (n < 24)%nat -> bounded s b -> digitsThen n b = true ->
  0 <= lval s - limb s n * 2 ^ (21 * Z.of_nat n) < 2 ^ (21 * Z.of_nat n).
Proof.
  intros Hn Hs H. destruct (digitsThen_limbs n s b Hn Hs H) as (ds & E & Hl & Hd).
  pose proof (lval_bound ds Hd) as Hb. rewrite Hl in Hb. apply (f_equal lval) in E. rewrite lval_app, lval_cons, Hl in E. rewrite E.
  replace (lval (replicate (23 - n) 0)) with 0; [|symmetry].
  { generalize dependent (2 ^ (21 * Z.of_nat n)). intros P HP. rewrite Z.mul_0_r, Z.add_0_r, (Z.mul_comm P). lia. }
  clear. induction (23 - n)%nat as [|m IH]; [done|]. cbn [replicate]. now rewrite lval_cons, IH.
Qed.

Definition loSum (b : list ival) : Z := lval (fst <$> b).
Definition hiSum (b : list ival) : Z := lval (snd <$> b).

Lemma bounded_lval s b : bounded s b -> loSum b <= lval s <= hiSum b.
Proof.
  unfold loSum, hiSum. induction 1 as [|x i s b Hx _ IH]; [done|]. rewrite !fmap_cons, !lval_cons. unfold within in Hx. lia.
Qed.

(** What the analysis must find for [ops] and the last passes. *)
Definition reduces (ops : list scOp) (b : list ival) : bool :=
  match absRun ops b with
  | None => false
  | Some b1 =>
      (- 2 ^ 252 <=? loSum b1) && (hiSum b1 <? 2 ^ 252) &&
      match absRun floorOps b1 with
      | None => false
      | Some b2 =>
          digitsThen 12 b2 &&
          match absRun lastOps b2 with Some b3 => digitsThen 11 b3 | None => false end
      end
  end.

#[local] Opaque scRun absRun.
Lemma reduce_sound ops s b : bounded s b -> reduces ops b = true ->
  let s' := scRun (ops ++ floorOps ++ lastOps) s in
  lval s' = lval s mod L /\
  exists ds, s' = ds ++ limb s' 11 :: replicate 12 0 /\ length ds = 11%nat /\ Forall (fun x => 0 <= x < 2 ^ 21) ds.
Proof.
  intros Hs H. unfold reduces in H. destruct (absRun ops b) as [b1|] eqn:E1; [|discriminate].
  apply andb_true_iff in H as [[Hlo%Z.leb_le Hhi%Z.ltb_lt]%andb_true_iff H].
  destruct (absRun floorOps b1) as [b2|] eqn:E2; [|discriminate]. apply andb_true_iff in H as [H12 H].
  destruct (absRun lastOps b2) as [b3|] eqn:E3; [|discriminate].
  destruct (run_sound ops s b b1 Hs E1) as [Hs1 Hv1]. pose proof (bounded_lval _ _ Hs1) as HV.
  destruct (floor_sound _ _ _ _ Hs1 E2) as [Hs2 Hv2]. fold floorOps in Hs2, Hv2.
  pose proof (digitsThen_value 12 _ _ ltac:(lia) Hs2 H12) as Hd. change (2 ^ (21 * Z.of_nat 12)) with (2 ^ 252) in Hd.
  apply absRun_cons in E3 as (b2' & E3 & E4). destruct (exec_sound _ _ _ _ Hs2 E3) as [Hs3 Hv3].
  destruct (floor_sound _ _ _ _ Hs3 E4) as [Hs4 Hv4].
  assert (Es : scRun (ops ++ floorOps ++ lastOps) s =
    scRun (Floor <$> seq 0 11) (scExec (Fold 12) (scRun floorOps (scRun ops s)))).
  { rewrite !scRun_app. unfold lastOps at 1. apply scRun_cons. }
  cbv zeta. rewrite Es. split; [|exact (digitsThen_limbs 11 _ _ ltac:(lia) Hs4 H)].
  rewrite Hv4, Hv3. cbn [foldQuotient]. change (2 ^ (21 * Z.of_nat (12 - 12))) with 1.
  set (c := limb (scRun floorOps (scRun ops s)) 12) in *. rewrite Hv2 in *. rewrite <- (eqm_mod_eq _ _ _ Hv1).
  assert (HL : 2 ^ 252 < L < 2 ^ 253) by (split; reflexivity).
  clearbody c. revert HV Hd Hlo Hhi HL. generalize (lval (scRun ops s)) (loSum b1) (hiSum b1) L. clear.
  intros V lo hi l HV Hd Hlo Hhi HL. apply Z.mod_unique with c; [|ring].
  left. assert (c = 0 \/ c = -1) as [-> | ->] by lia; lia.
Qed.
#[local] Transparent scRun absRun.

(** ** Products *)

(** The largest limbs of a 32-byte number. *)
Definition topLimbs : list Z := replicate 11 (2 ^ 21 - 1) ++ [2 ^ 25 - 1].

Definition prodBounds : list ival :=
  ((fun k => (- limb topLimbs k, limb topLimbs k + column topLimbs topLimbs k)) <$> seq 0 12) ++
  ((fun k => (0, column topLimbs topLimbs k)) <$> seq 12 11) ++ [(0, 0)].

Definition readBounds : list ival := replicate 23 (0, 2 ^ 21 - 1) ++ [(0, 2 ^ 29 - 1)].

(** The analysis succeeds on everything the three functions start with. *)
Lemma product_reduces : reduces (productCarries ++ reduceOps) prodBounds = true.
Proof. vm_compute. reflexivity. Qed.

Lemma read_reduces : reduces reduceOps readBounds = true.
Proof. vm_compute. reflexivity. Qed.

Lemma products_fit : forallb fits prodBounds = true.
Proof. vm_compute. reflexivity. Qed.

(** Limbs as [limbs12] yields them. *)
Definition goodLimbs (a : list Z) : Prop := Forall2 (fun x t => 0 <= x <= t) a topLimbs.

Lemma limbs12_good a : isBytes 32 a -> goodLimbs (limbs12 a) /\ lval (limbs12 a) = le_value a.
Proof.
  intros Ha. rewrite limbs12_digits by assumption. destruct Ha as [Hl Hb].
  pose proof (le_value_bound a Hb) as Hx. rewrite Hl in Hx. split.
  - apply Forall2_app; [|constructor; [|constructor]].
    + change (replicate 11 (2 ^ 21 - 1)) with ((fun _ : nat => 2 ^ 21 - 1) <$> seq 0 11).
      apply Forall2_fmap, Forall2_same_length_lookup. split; [done|]. intros i x y _ _.
      unfold digit21. pose proof (Z.mod_pos_bound (le_value a / 2 ^ (21 * Z.of_nat x)) (2 ^ 21)). lia.
    + split; [apply Z.div_pos; lia|]. assert (le_value a / 2 ^ (21 * Z.of_nat 11) < 2 ^ 25); [|lia].
      apply Z.div_lt_upper_bound; [lia|]. change (256 ^ Z.of_nat 32) with (2 ^ (21 * Z.of_nat 11) * 2 ^ 25) in Hx. lia.
  - etransitivity; [exact (lval_digits (le_value a) 11 0)|]. now rewrite Z.div_1_r.
Qed.

Lemma goodLimbs_at a k : goodLimbs a -> 0 <= limb a k <= limb topLimbs k.
Proof.
  intros H. unfold limb. revert k. induction H as [|x t a l Hx _ IH]; intros [|k]; cbn [nth]; try lia. apply IH.
Qed.

Lemma column_bound a b k : goodLimbs a -> goodLimbs b -> 0 <= column a b k <= column topLimbs topLimbs k.
Proof.
  intros Ha Hb. unfold column. generalize (seq (k - 11) (Nat.min k 11 - (k - 11) + 1)). intros l.
  induction l as [|i l IH]; [done|]. rewrite !zsum_cons.
  pose proof (goodLimbs_at a i Ha). pose proof (goodLimbs_at b (k - i) Hb).
  assert (0 <= limb a i * limb b (k - i) <= limb topLimbs i * limb topLimbs (k - i)) by nia. lia.
Qed.

Lemma limbs_split a : length a = 12%nat -> a = limb a <$> seq 0 12.
Proof. intros H. do 12 (destruct a as [|? a]; [discriminate H|]). destruct a; [reflexivity|discriminate H]. Qed.

Lemma goodLimbs_length a : goodLimbs a -> length a = 12%nat.
Proof. apply Forall2_length. Qed.

(** The product without the wrap-around. *)
Definition exactProduct (sg : Z) (a b c : list Z) : list Z :=
  ((fun k => sg * limb c k + column a b k) <$> seq 0 12) ++ ((fun k => column a b k) <$> seq 12 11) ++ [0].

Lemma exactProduct_value sg a b c : length a = 12%nat -> length b = 12%nat -> length c = 12%nat ->
  lval (exactProduct sg a b c) = lval a * lval b + sg * lval c.
Proof.
  intros Ha Hb Hc. rewrite (limbs_split a Ha), (limbs_split b Hb), (limbs_split c Hc).
  cbn [seq fmap list_fmap]. generalize (limb a). generalize (limb b). generalize (limb c). intros fc fb fa.
  cbv [exactProduct column limb zsum lval seq fmap list_fmap app foldr nth Nat.sub Nat.add Nat.min]. ring.
Qed.

Lemma exactProduct_bounded sg a b c : sg = 1 \/ sg = -1 -> goodLimbs a -> goodLimbs b -> goodLimbs c ->
  bounded (exactProduct sg a b c) prodBounds.
Proof.
  intros Hsg Ha Hb Hc. apply Forall2_app; [|apply Forall2_app; [|constructor; [|constructor]]].
  - apply Forall2_fmap, Forall2_same_length_lookup. split; [done|]. intros i x y Hx Hy.
    replace y with x by congruence. pose proof (column_bound a b x Ha Hb). pose proof (goodLimbs_at c x Hc).
    unfold within. cbn [fst snd]. destruct Hsg as [->| ->]; lia.
  - apply Forall2_fmap, Forall2_same_length_lookup. split; [done|]. intros i x y Hx Hy.
    replace y with x by congruence. pose proof (column_bound a b x Ha Hb). unfold within. cbn [fst snd]. lia.
  - unfold within. cbn. lia.
Qed.

Lemma bounded_i64 s b : bounded s b -> forallb fits b = true -> i64 <$> s = s.
Proof.
  induction 1 as [|x i s b Hx _ IH]; [done|]. cbn [forallb]. intros [Hi H]%andb_true_iff.
  rewrite fmap_cons, IH by assumption. f_equal. apply (guard_Some i i); [unfold guard; now rewrite Hi|exact Hx].
Qed.

Lemma productPlus_exact a b c : goodLimbs a -> goodLimbs b -> goodLimbs c -> productPlus a b c = exactProduct 1 a b c.
Proof.
  intros Ha Hb Hc. rewrite <- (bounded_i64 (exactProduct 1 a b c) prodBounds)
    by (apply exactProduct_bounded || apply products_fit; auto).
  unfold productPlus, exactProduct. rewrite !fmap_app, <- !list_fmap_compose. f_equal.
  apply list_fmap_ext. intros i k _. cbn [compose]. now rewrite Z.mul_1_l.
Qed.

Lemma productMinus_exact a b c : goodLimbs a -> goodLimbs b -> goodLimbs c ->
  productMinus a b c = exactProduct (-1) a b c.
Proof.
  intros Ha Hb Hc. rewrite <- (bounded_i64 (exactProduct (-1) a b c) prodBounds)
    by (apply exactProduct_bounded || apply products_fit; auto).
  unfold productMinus, exactProduct. rewrite !fmap_app, <- !list_fmap_compose. f_equal.
  apply list_fmap_ext. intros i k Hk. cbn [compose]. rewrite (i64_id (- limb c k)); [f_equal; ring|].
  pose proof (goodLimbs_at c k Hc). enough (limb topLimbs k <= 2 ^ 25) by lia.
  assert (Hk' : (k < 12)%nat) by (apply lookup_seq in Hk; lia).
  do 12 (destruct k as [|k]; [vm_compute; discriminate|]). lia.
Qed.

(** ** Writing bytes *)

Section write.
Context (s ds : list Z) (top : Z) (rest : list Z).
Context (Es : s = ds ++ top :: rest) (Hrest : lval rest = 0).
Context (Hd : Forall (fun x => 0 <= x < 2 ^ 21) ds) (Ht : 0 <= top < 2 ^ 25).

Lemma lval_drop k : (k <= length ds)%nat -> lval s / 2 ^ (21 * Z.of_nat k) = lval (drop k s).
Proof.
  intros Hk. rewrite <- (take_drop k s) at 1. rewrite lval_app.
  assert (Hlt : length (take k s) = k) by (rewrite length_take, Es, length_app; lia). rewrite Hlt.
  assert (HF : Forall (fun x => 0 <= x < 2 ^ 21) (take k s)).
  { rewrite Es, take_app_le by lia. now apply Forall_take. }
  pose proof (lval_bound _ HF) as Hb. rewrite Hlt in Hb.
  rewrite Z.mul_comm, Z.div_add by lia. rewrite Z.div_small by lia. lia.
Qed.

Lemma limb_lookup k : (k <= length ds)%nat -> drop k s = limb s k :: drop (S k) s.
Proof.
  intros Hk. apply drop_S. unfold limb. destruct (nth_lookup_or_length s k 0); [assumption|].
  rewrite Es, length_app in l. cbn in l. lia.
Qed.

Lemma limb_range k : (k < length ds)%nat -> 0 <= limb s k < 2 ^ 21.
Proof.
  intros Hk. unfold limb. rewrite Es, app_nth1 by lia. rewrite Forall_forall in Hd. apply Hd.
  destruct (nth_lookup_or_length ds k 0) as [E|]; [|lia]. now apply list_elem_of_lookup_2 in E.
Qed.

Lemma limb_top : limb s (length ds) = top /\ lval (drop (S (length ds)) s) = 0.
Proof.
  unfold limb. rewrite Es, app_nth2, Nat.sub_diag by lia. split; [done|].
  rewrite drop_app_ge by lia. replace (S (length ds) - length ds)%nat with 1%nat by lia. exact Hrest.
Qed.

(** The bits of the number from [21*k+r] on. *)
Lemma bits_from k r : (k <= length ds)%nat -> 0 <= r <= 21 ->
  lval s / 2 ^ (21 * Z.of_nat k + r) = limb s k / 2 ^ r + 2 ^ (21 - r) * lval (drop (S k) s).
Proof.
  intros Hk Hr. rewrite Z.pow_add_r, <- Z.div_div by (try apply Z.pow_nonzero; try apply Z.pow_pos_nonneg; lia).
  rewrite lval_drop, limb_lookup, lval_cons by assumption.
  replace (2 ^ 21) with (2 ^ (21 - r) * 2 ^ r) by (rewrite <- Z.pow_add_r by lia; f_equal; lia).
  replace (2 ^ (21 - r) * 2 ^ r * lval (drop (S k) s)) with (2 ^ (21 - r) * lval (drop (S k) s) * 2 ^ r) by ring.
  apply Z.div_add. apply Z.pow_nonzero; lia.
Qed.

Lemma mod256_add x m y : 8 <= m -> (x + 2 ^ m * y) mod 256 = x mod 256.
Proof.
  intros Hm. replace (2 ^ m * y) with (2 ^ (m - 8) * y * 256); [apply Z.mod_add; lia|].
  replace m with (m - 8 + 8) at 2 by lia. rewrite Z.pow_add_r by lia. ring.
Qed.

Definition byteOf (i : nat) : Z := (lval s / 2 ^ (8 * Z.of_nat i)) mod 256.

Lemma byte_lo i k r : (k <= length ds)%nat -> 0 <= r <= 13 -> 8 * Z.of_nat i = 21 * Z.of_nat k + r ->
  byte (limb s k ≫ r) = byteOf i.
Proof.
  intros Hk Hr E. unfold byte, byteOf. rewrite E, bits_from, mod256_add, Z.shiftr_div_pow2 by lia. done.
Qed.

Lemma byte_top i r : 0 <= r <= 21 -> 8 * Z.of_nat i = 21 * Z.of_nat (length ds) + r ->
  byte (limb s (length ds) ≫ r) = byteOf i.
Proof.
  intros Hr E. unfold byte, byteOf. rewrite E, bits_from by lia. rewrite (proj2 limb_top), Z.mul_0_r, Z.add_0_r.
  now rewrite Z.shiftr_div_pow2 by lia.
Qed.

Lemma byte_both i k r l : (k < length ds)%nat -> 0 <= r -> 0 <= l <= 8 -> r + l = 21 ->
  8 * Z.of_nat i = 21 * Z.of_nat k + r ->
  byte (Z.lor (limb s k ≫ r) (i64 (limb s (S k) ≪ l))) = byteOf i.
Proof.
  intros Hk Hr Hl Hrl E. unfold byte, byteOf. rewrite E, bits_from by lia. replace (21 - r) with l by lia.
  rewrite limb_lookup, lval_cons by lia. 
  assert (Hn : 0 <= limb s (S k) < 2 ^ 25).
  { destruct (decide (S k = length ds)) as [->|]; [rewrite (proj1 limb_top); lia|].
    pose proof (limb_range (S k) ltac:(lia)). lia. }
  assert (Hp : 2 ^ l <= 2 ^ 8) by (apply Z.pow_le_mono_r; lia). pose proof (Z.pow_pos_nonneg 2 l).
  rewrite i64_id by (rewrite Z.shiftl_mul_pow2 by lia; nia).
  assert (Hh : 0 <= limb s k ≫ r < 2 ^ l).
  { rewrite Z.shiftr_div_pow2 by lia. pose proof (limb_range k Hk). pose proof (Z.pow_pos_nonneg 2 r).
    split; [apply Z.div_pos; lia|]. apply Z.div_lt_upper_bound; [lia|]. rewrite <- Z.pow_add_r by lia.
    replace (r + l) with 21 by lia. lia. }
  rewrite lor_add by lia. rewrite Z.shiftr_div_pow2 by lia.
  replace (limb s k / 2 ^ r + 2 ^ l * (limb s (S k) + 2 ^ 21 * lval (drop (S (S k)) s)))
    with (limb s k / 2 ^ r + limb s (S k) * 2 ^ l + 2 ^ (l + 21) * lval (drop (S (S k)) s))
    by (rewrite (Z.pow_add_r 2 l 21) by lia; ring).
  rewrite mod256_add by lia. done.
Qed.
End write.

Lemma le_value_bytes x n : forall a,
  le_value ((fun i => (x / 2 ^ (8 * Z.of_nat i)) mod 256) <$> seq a n) = (x / 2 ^ (8 * Z.of_nat a)) mod 2 ^ (8 * Z.of_nat n).
Proof.
  induction n as [|n IH]; intros a; cbn [seq fmap list_fmap].
  - symmetry. apply Z.mod_1_r.
  - cbn [le_value foldr]. fold (le_value ((fun i => (x / 2 ^ (8 * Z.of_nat i)) mod 256) <$> seq (S a) n)). rewrite IH.
    replace (8 * Z.of_nat (S a)) with (8 * Z.of_nat a + 8) by lia. replace (8 * Z.of_nat (S n)) with (8 + 8 * Z.of_nat n) by lia.
    rewrite !Z.pow_add_r by lia. rewrite <- Z.div_div by (try apply Z.pow_nonzero; try apply Z.pow_pos_nonneg; lia).
    change (2 ^ 8) with 256. rewrite Z.rem_mul_r by (try apply Z.pow_nonzero; try apply Z.pow_pos_nonneg; lia). done.
Qed.

Lemma scBytes_value s ds top rest : s = ds ++ top :: rest -> lval rest = 0 -> length ds = 11%nat ->
  Forall (fun x => 0 <= x < 2 ^ 21) ds -> 0 <= top < 2 ^ 25 ->
  isBytes 32 (scBytes s) /\ le_value (scBytes s) = lval s.
Proof.
  intros Es Hrest Hl Hd Ht.
  assert (E : scBytes s = (fun i => (lval s / 2 ^ (8 * Z.of_nat i)) mod 256) <$> seq 0 32).
  { unfold scBytes. cbv zeta. cbn [seq fmap list_fmap].
    assert (Hlo : forall i k r, (k <= 11)%nat -> 0 <= r <= 13 -> 8 * Z.of_nat i = 21 * Z.of_nat k + r ->
      byte (limb s k ≫ r) = byteOf s i) by (intros; eapply byte_lo; rewrite ?Hl; eauto).
    assert (Hboth : forall i k r l, (k < 11)%nat -> 0 <= r -> 0 <= l <= 8 -> r + l = 21 ->
      8 * Z.of_nat i = 21 * Z.of_nat k + r ->
      byte (Z.lor (limb s k ≫ r) (i64 (limb s (S k) ≪ l))) = byteOf s i)
      by (intros; eapply byte_both; rewrite ?Hl; eauto).
    assert (Htop : forall i r, 0 <= r <= 21 -> 8 * Z.of_nat i = 21 * 11 + r -> byte (limb s 11 ≫ r) = byteOf s i)
      by (intros; rewrite <- Hl; eapply byte_top; rewrite ?Hl; eauto).
    repeat (apply f_equal2; [first [ apply Hlo; [lia|lia|reflexivity]
      | apply Hboth; [lia|lia|lia|reflexivity|reflexivity] | apply Htop; [lia|reflexivity] ]|]). done. }
  rewrite E. split.
  - split; [done|]. apply Forall_fmap, Forall_forall. intros i _. cbn. apply Z.mod_pos_bound. lia.
  - rewrite le_value_bytes. rewrite Z.div_1_r. apply Z.mod_small.
    rewrite Es, lval_app, lval_cons, Hrest, Hl. pose proof (lval_bound ds Hd) as Hb. rewrite Hl in Hb.
    change (2 ^ (8 * Z.of_nat 32)) with (2 ^ (21 * Z.of_nat 11) * 2 ^ 25). lia.
Qed.

Lemma lval_zeros n : lval (replicate n 0) = 0.
Proof. induction n as [|n IH]; [done|]. cbn [replicate]. now rewrite lval_cons, IH. Qed.

(** The three functions: what the analysis says of their last passes. *)
Lemma reduced_bytes ops s b : bounded s b -> reduces ops b = true ->
  let r := scBytes (scRun (ops ++ floorOps ++ lastOps) s) in
  isBytes 32 r /\ le_value r = lval s mod L.
Proof.
  intros Hs H. destruct (reduce_sound ops s b Hs H) as (Hv & ds & E & Hl & Hd). cbv zeta. rewrite <- Hv.
  set (s' := scRun _ _) in *. clearbody s'.
  assert (HL : 0 < L < 2 ^ 253) by (split; reflexivity).
  pose proof (Z.mod_pos_bound (lval s) L ltac:(lia)) as Hm. rewrite <- Hv in Hm.
  pose proof (lval_bound ds Hd) as Hb. rewrite Hl in Hb.
  assert (Hval : lval s' = lval ds + 2 ^ 231 * limb s' 11).
  { rewrite E at 1. rewrite lval_app, lval_cons, lval_zeros, Hl. change (2 ^ (21 * Z.of_nat 11)) with (2 ^ 231). ring. }
  change (2 ^ (21 * Z.of_nat 11)) with (2 ^ 231) in Hb.
  apply (scBytes_value s' ds (limb s' 11) (replicate 12 0) E (lval_zeros 12) Hl Hd). lia.
Qed.

(** * What the functions compute *)

Lemma ScMulAdd_spec a b c : isBytes 32 a -> isBytes 32 b -> isBytes 32 c ->
  isBytes 32 (ScMulAdd a b c) /\ le_value (ScMulAdd a b c) = (le_value a * le_value b + le_value c) mod L.
Proof.
  intros Ha Hb Hc. destruct (limbs12_good a Ha) as [Ga <-], (limbs12_good b Hb) as [Gb <-], (limbs12_good c Hc) as [Gc <-].
  unfold ScMulAdd. rewrite productPlus_exact, app_assoc by assumption.
  rewrite <- (Z.mul_1_l (lval (limbs12 c))), <- exactProduct_value by now apply goodLimbs_length.
  apply (reduced_bytes (productCarries ++ reduceOps) _ prodBounds); [apply exactProduct_bounded; auto|exact product_reduces].
Qed.

Lemma ScMulSub_spec a b c : isBytes 32 a -> isBytes 32 b -> isBytes 32 c ->
  isBytes 32 (ScMulSub a b c) /\ le_value (ScMulSub a b c) = (le_value a * le_value b - le_value c) mod L.
Proof.
  intros Ha Hb Hc. destruct (limbs12_good a Ha) as [Ga <-], (limbs12_good b Hb) as [Gb <-], (limbs12_good c Hc) as [Gc <-].
  unfold ScMulSub. rewrite productMinus_exact, app_assoc by assumption.
  replace (lval (limbs12 a) * lval (limbs12 b) - lval (limbs12 c))
    with (lval (limbs12 a) * lval (limbs12 b) + -1 * lval (limbs12 c)) by ring.
  rewrite <- exactProduct_value by now apply goodLimbs_length.
  apply (reduced_bytes (productCarries ++ reduceOps) _ prodBounds); [apply exactProduct_bounded; auto|exact product_reduces].
Qed.

Lemma ScReduce_spec s : isBytes 64 s -> isBytes 32 (ScReduce s) /\ le_value (ScReduce s) = le_value s mod L.
Proof.
  intros Hs. unfold ScReduce.
  assert (Hv : lval (limbs24 s) = le_value s).
  { rewrite limbs24_digits by assumption. etransitivity; [exact (lval_digits (le_value s) 23 0)|]. now rewrite Z.div_1_r. }
  rewrite <- Hv. apply (reduced_bytes reduceOps _ readBounds); [|exact read_reduces].
  rewrite limbs24_digits by assumption. destruct Hs as [Hl Hb]. pose proof (le_value_bound s Hb) as Hx. rewrite Hl in Hx.
  apply Forall2_app; [|constructor; [|constructor]].
  - change (replicate 23 (0, 2 ^ 21 - 1)) with ((fun _ : nat => (0, 2 ^ 21 - 1)) <$> seq 0 23).
    apply Forall2_fmap, Forall2_same_length_lookup. split; [done|]. intros i x y _ _. unfold digit21, within. cbn [fst snd].
    pose proof (Z.mod_pos_bound (le_value s / 2 ^ (21 * Z.of_nat x)) (2 ^ 21)). lia.
  - unfold within. cbn [fst snd]. split; [apply Z.div_pos; lia|].
    assert (le_value s / 2 ^ (21 * Z.of_nat 23) < 2 ^ 29); [|lia].
    apply Z.div_lt_upper_bound; [lia|]. change (256 ^ Z.of_nat 64) with (2 ^ (21 * Z.of_nat 23) * 2 ^ 29) in Hx. lia.
Qed.

Lemma zero32_bytes : isBytes 32 zero32.
Proof. split; [done|]. repeat constructor; lia. Qed.

Lemma one32_bytes : isBytes 32 one32.
Proof. split; [done|]. repeat constructor; lia. Qed.

Lemma ScMul_spec a b : isBytes 32 a -> isBytes 32 b ->
  isBytes 32 (ScMul a b) /\ le_value (ScMul a b) = (le_value a * le_value b) mod L.
Proof.
  intros Ha Hb. destruct (ScMulAdd_spec a b zero32 Ha Hb zero32_bytes) as [H1 H2]. split; [exact H1|].
  unfold ScMul. rewrite H2. change (le_value zero32) with 0. now rewrite Z.add_0_r.
Qed.

Lemma ScAdd_spec a b : isBytes 32 a -> isBytes 32 b ->
  isBytes 32 (ScAdd a b) /\ le_value (ScAdd a b) = (le_value a + le_value b) mod L.
Proof.
  intros Ha Hb. destruct (ScMulAdd_spec a one32 b Ha one32_bytes Hb) as [H1 H2]. split; [exact H1|].
  unfold ScAdd. rewrite H2. change (le_value one32) with 1. now rewrite Z.mul_1_r.
Qed.

Lemma ScSub_spec a b : isBytes 32 a -> isBytes 32 b ->
  isBytes 32 (ScSub a b) /\ le_value (ScSub a b) = (le_value a - le_value b) mod L.
Proof.
  intros Ha Hb. destruct (ScMulSub_spec a one32 b Ha one32_bytes Hb) as [H1 H2]. split; [exact H1|].
  unfold ScSub. rewrite H2. change (le_value one32) with 1. now rewrite Z.mul_1_r.
Qed.

(** ** The helpers *)

Lemma GetBigIntOrder_L : GetBigIntOrder = L.
Proof. reflexivity. Qed.

Lemma word64_digit s i : Forall (fun x => 0 <= x < 256) s -> word64 s i = (le_value s / 2 ^ (64 * Z.of_nat i)) mod 2 ^ 64.
Proof.
  intros Hs. unfold word64. rewrite le_value_take by now apply Forall_drop. rewrite le_value_drop by assumption.
  change (256 ^ Z.of_nat 8) with (2 ^ 64). do 2 f_equal. rewrite <- (Z.pow_mul_r 2 8) by lia. f_equal. lia.
Qed.

(** The order lies between numbers that agree with it on their upper words. *)
Lemma ScMinimal_spec s : isBytes 32 s -> ScMinimal s = (le_value s <? L).
Proof.
  intros [Hl Hb]. pose proof (le_value_bound s Hb) as Hx. rewrite Hl in Hx. set (x := le_value s) in *.
  unfold ScMinimal. cbn [minimalFrom]. rewrite !word64_digit by assumption. fold x.
  assert (Hx0 : x = x mod 2 ^ 64 + 2 ^ 64 * ((x / 2 ^ 64) mod 2 ^ 64) + 2 ^ 128 * ((x / 2 ^ 128) mod 2 ^ 64) +
                    2 ^ 192 * ((x / 2 ^ 192) mod 2 ^ 64)).
  { change (256 ^ Z.of_nat 32) with (2 ^ 256) in Hx. clearbody x. clear -Hx.
    rewrite (Z.mod_small (x / 2 ^ 192)) by (split; [apply Z.div_pos; lia|apply Z.div_lt_upper_bound; lia]).
    pose proof (Z.div_mod x (2 ^ 64)). pose proof (Z.div_mod (x / 2 ^ 64) (2 ^ 64)). pose proof (Z.div_mod (x / 2 ^ 128) (2 ^ 64)).
    rewrite !Z.div_div in * by lia. change (2 ^ 64 * 2 ^ 64) with (2 ^ 128) in *.
    change (2 ^ 128 * 2 ^ 64) with (2 ^ 192) in *. lia. }
  change (2 ^ (64 * Z.of_nat 0)) with 1. change (2 ^ (64 * Z.of_nat 1)) with (2 ^ 64).
  change (2 ^ (64 * Z.of_nat 2)) with (2 ^ 128). change (2 ^ (64 * Z.of_nat 3)) with (2 ^ 192). rewrite Z.div_1_r.
  cbn [limb orderWords nth]. change L with (0x5812631a5cf5d3ed + 2 ^ 64 * 0x14def9dea2f79cd6 + 2 ^ 192 * 0x1000000000000000).
  pose proof (Z.mod_pos_bound x (2 ^ 64)). pose proof (Z.mod_pos_bound (x / 2 ^ 64) (2 ^ 64)).
  pose proof (Z.mod_pos_bound (x / 2 ^ 128) (2 ^ 64)). pose proof (Z.mod_pos_bound (x / 2 ^ 192) (2 ^ 64)).
  unfold limb. cbn [nth].
  repeat match goal with |- context [?a <? ?b] => destruct (Z.ltb_spec a b) end; try reflexivity; exfalso; lia.
Qed.

Lemma leftPad_value x : 0 <= x < 2 ^ 256 ->
  isBytes 32 (ScReverse (leftPad32 (Bytes x))) /\ le_value (ScReverse (leftPad32 (Bytes x))) = x.
Proof.
  intros Hx. pose proof (Bytes_length x 32) as Hl. change (256 ^ Z.of_nat 32) with (2 ^ 256) in Hl.
  specialize (Hl ltac:(lia)). unfold ScReverse, leftPad32. split.
  - split; [rewrite length_reverse, length_app, length_replicate; lia|].
    rewrite Forall_reverse. apply Forall_app. split; [|apply Bytes_range].
    apply Forall_forall. intros y Hy. apply elem_of_replicate in Hy as [-> _]. lia.
  - rewrite <- SetBytes_reverse, reverse_involutive, SetBytes_zeros, SetBytes_Bytes. lia.
Qed.

Lemma ScModInverse_spec a o : isBytes 32 a ->
  isBytes 32 (ScModInverse a o) /\
  if Z.gcd (le_value a) L =? 1
  then [mod L] le_value (ScModInverse a o) * le_value a == 1 /\ 0 <= le_value (ScModInverse a o) < L
  else ScModInverse a o = zero32.
Proof.
  intros Ha. unfold ScModInverse. replace (SetBytes (ScReverse a)) with (le_value a) by (symmetry; apply SetBytes_reverse).
  rewrite GetBigIntOrder_L.
  assert (HL : 0 < L < 2 ^ 256) by (split; reflexivity).
  unfold ModInverse. destruct (Z.eqb_spec (Z.gcd (le_value a) L) 1) as [Hg|]; [|split; [apply zero32_bytes|reflexivity]].
  rewrite Z.abs_eq by lia.
  assert (Hr : 0 <= Z.invmod (le_value a) L < L) by (rewrite <- Z.mod_invmod; apply Z.mod_pos_bound; lia).
  destruct (leftPad_value (Z.invmod (le_value a) L) ltac:(lia)) as [H1 H2]. split; [exact H1|].
  rewrite H2. split; [|exact Hr]. rewrite Z.mul_comm. now apply invmod_mul.
Qed.

(** * Claims *)

(** C4: the scalar arithmetic is exact.  For all 32-byte arguments [ScMulAdd] returns
    the 32 bytes of [(a*b + c) mod L] and [ScMulSub] those of [(a*b - c) mod L], also
    when the difference is negative; [ScReduce] returns [s mod L] for every 64-byte [s].
    The limbs are [int64] that wrap around: no statement overflows. *)
Theorem scalar_arithmetic a b c s : isBytes 32 a -> isBytes 32 b -> isBytes 32 c -> isBytes 64 s ->
  (isBytes 32 (ScMulAdd a b c) /\ le_value (ScMulAdd a b c) = (le_value a * le_value b + le_value c) mod L) /\
  (isBytes 32 (ScMulSub a b c) /\ le_value (ScMulSub a b c) = (le_value a * le_value b - le_value c) mod L) /\
  (isBytes 32 (ScReduce s) /\ le_value (ScReduce s) = le_value s mod L).
Proof. intros. split; [now apply ScMulAdd_spec|]. split; [now apply ScMulSub_spec|now apply ScReduce_spec]. Qed.

(** The largest arguments. *)
Lemma scalar_arithmetic_witness :
  le_value (ScMulAdd (replicate 32 255) (replicate 32 255) (replicate 32 255)) = ((2 ^ 256 - 1) * 2 ^ 256) mod L /\
  le_value (ScMulSub zero32 one32 one32) = L - 1.
Proof.
  assert (Hb : forall n, isBytes n (replicate n 255)).
  { intros n. split; [apply length_replicate|]. apply Forall_forall. intros y Hy. apply elem_of_replicate in Hy as [-> _]. lia. }
  split.
  - refine (eq_trans (proj2 (proj1 (scalar_arithmetic (replicate 32 255) (replicate 32 255) (replicate 32 255)
      (replicate 64 255) (Hb _) (Hb _) (Hb _) (Hb _)))) _). reflexivity.
  - refine (eq_trans (proj2 (proj1 (proj2 (scalar_arithmetic zero32 one32 one32
      (replicate 64 255) zero32_bytes one32_bytes one32_bytes (Hb _))))) _). reflexivity.
Defined.

(** The scalar helpers.  [ScMinimal] decides whether a scalar is below the order;
    [ScModInverse] inverts every scalar prime to the order and returns zero otherwise,
    whatever its second argument; [GetBytesOrder] encodes the order. *)
Theorem scalar_helpers a o : isBytes 32 a ->
  ScMinimal a = (le_value a <? L) /\
  (isBytes 32 (ScModInverse a o) /\
   if Z.gcd (le_value a) L =? 1
   then [mod L] le_value (ScModInverse a o) * le_value a == 1 /\ 0 <= le_value (ScModInverse a o) < L
   else ScModInverse a o = zero32) /\
  le_value GetBytesOrder = L.
Proof.
  intros Ha. split; [now apply ScMinimal_spec|]. split; [now apply ScModInverse_spec|].
  apply (leftPad_value L). split; [discriminate|reflexivity].
Qed.

Lemma scalar_helpers_witness : ScMinimal GetBytesOrder = false /\ ScModInverse zero32 [] = zero32.
Proof.
  split.
  - refine (eq_trans (proj1 (scalar_helpers GetBytesOrder [] (proj1 (leftPad_value L _)))) _); [|reflexivity].
    split; [discriminate|reflexivity].
  - exact (proj2 (proj1 (proj2 (scalar_helpers zero32 [] zero32_bytes)))).
Defined.
