(* ===== verification/EdField.v ===== *)
(** The field of Ed25519, [smpc-lib/crypto/ed/edwards25519.go]: elements of ten
    alternating 26- and 25-bit limbs, as [int32] that wrap around, with the [int64]
    carries of [FeCombine].

    The file has the operations, an interval analysis of [FeCombine] executed by the
    kernel, and for each operation its value modulo [2^255 - 19] and the bounds of its
    result. *)

From Stdlib Require Import ZArith Lia.
From stdpp Require Import list.
From S2P Require Import Prelude NumTheory Lagrange GoBig EdWords EdScalar.

#[local] Open Scope Z_scope.

(** * The operations *)

(** [FieldElement]: ten limbs. *)
Abbreviation FieldElement := (list Z).

Definition feZero : FieldElement := replicate 10 0.
Definition feOne : FieldElement := 1 :: replicate 9 0.

Definition FeAdd (a b : FieldElement) : FieldElement := zip_with (fun x y => i32 (x + y)) a b.
Definition FeSub (a b : FieldElement) : FieldElement := zip_with (fun x y => i32 (x - y)) a b.
Definition FeNeg (f : FieldElement) : FieldElement := (fun x => i32 (- x)) <$> f.

(** [f[i] ^= b & (f[i] ^ g[i])] with [b] negated. *)
Definition FeCMove (f g : FieldElement) (b : Z) : FieldElement :=
  let b := i32 (- b) in zip_with (fun x y => Z.lxor x (Z.land b (Z.lxor x y))) f g.

(** The bits of limb [i]. *)
Definition feWidth (i : nat) : Z := if Nat.even i then 26 else 25.

(** [ci = (hi + (1 << (w-1))) >> w; h(i+1) += ci; hi -= ci << w], and for the last
    limb [h0 += c9 * 19]. *)
Definition feCarry (i : nat) (h : list Z) : list Z :=
  let w := feWidth i in
  let c := i64 (limb h i + i64 (1 ≪ (w - 1))) ≫ w in
  let h := if Nat.eqb i 9 then set_ 0 (i64 (limb h 0 + i64 (c * 19))) h
           else set_ (S i) (i64 (limb h (S i) + c)) h in
  set_ i (i64 (limb h i - i64 (c ≪ w))) h.

(** The order of the carries. *)
Definition combineOrder : list nat := [0; 4; 1; 5; 2; 6; 3; 7; 4; 8; 9; 0]%nat.

Definition FeCombine (h : list Z) : FieldElement := i32 <$> foldl (fun h i => feCarry i h) h combineOrder.

Definition FeFromBytes (src : list Z) : FieldElement :=
  FeCombine [ load4 src;
    i64 (load3 (drop 4 src) ≪ 6); i64 (load3 (drop 7 src) ≪ 5); i64 (load3 (drop 10 src) ≪ 3);
    i64 (load3 (drop 13 src) ≪ 2); load4 (drop 16 src); i64 (load3 (drop 20 src) ≪ 7);
    i64 (load3 (drop 23 src) ≪ 5); i64 (load3 (drop 26 src) ≪ 4);
    i64 (Z.land (load3 (drop 29 src)) 8388607 ≪ 2) ].

(** Limb [k] of a product: [fi*g(k-i)], where a product of two odd limbs uses
    [fi_2 = 2 * f[i]] and one that wraps around uses [gj_19 = 19 * g[j]], both
    computed as [int32].  One wrap-around stands for those of the sums and products. *)
Definition feTerm (f g : FieldElement) (k i : nat) : Z :=
  let fi := if Nat.even k && Nat.odd i then i32 (2 * limb f i) else limb f i in
  fi * (if Nat.leb i k then limb g (k - i) else i32 (19 * limb g (k + 10 - i))).

Definition FeMul (f g : FieldElement) : FieldElement :=
  FeCombine ((fun k => i64 (zsum (feTerm f g k) (seq 0 10))) <$> seq 0 10).

(** [feSquare]: [f0_2] and so on are [int32], [f5_38] and so on [int64]. *)
Definition feSquare (f : FieldElement) : list Z :=
  let f0 := limb f 0 in let f1 := limb f 1 in let f2 := limb f 2 in let f3 := limb f 3 in let f4 := limb f 4 in
  let f5 := limb f 5 in let f6 := limb f 6 in let f7 := limb f 7 in let f8 := limb f 8 in let f9 := limb f 9 in
  let f0_2 := i32 (2 * f0) in let f1_2 := i32 (2 * f1) in let f2_2 := i32 (2 * f2) in let f3_2 := i32 (2 * f3) in
  let f4_2 := i32 (2 * f4) in let f5_2 := i32 (2 * f5) in let f6_2 := i32 (2 * f6) in let f7_2 := i32 (2 * f7) in
  let f5_38 := i64 (38 * f5) in let f6_19 := i64 (19 * f6) in let f7_38 := i64 (38 * f7) in
  let f8_19 := i64 (19 * f8) in let f9_38 := i64 (38 * f9) in
  i64 <$> [ f0*f0 + f1_2*f9_38 + f2_2*f8_19 + f3_2*f7_38 + f4_2*f6_19 + f5*f5_38;
    f0_2*f1 + f2*f9_38 + f3_2*f8_19 + f4*f7_38 + f5_2*f6_19;
    f0_2*f2 + f1_2*f1 + f3_2*f9_38 + f4_2*f8_19 + f5_2*f7_38 + f6*f6_19;
    f0_2*f3 + f1_2*f2 + f4*f9_38 + f5_2*f8_19 + f6*f7_38;
    f0_2*f4 + f1_2*f3_2 + f2*f2 + f5_2*f9_38 + f6_2*f8_19 + f7*f7_38;
    f0_2*f5 + f1_2*f4 + f2_2*f3 + f6*f9_38 + f7_2*f8_19;
    f0_2*f6 + f1_2*f5_2 + f2_2*f4 + f3_2*f3 + f7_2*f9_38 + f8*f8_19;
    f0_2*f7 + f1_2*f6 + f2_2*f5 + f3_2*f4 + f8*f9_38;
    f0_2*f8 + f1_2*f7_2 + f2_2*f6 + f3_2*f5_2 + f4*f4 + f9*f9_38;
    f0_2*f9 + f1_2*f8 + f2_2*f7 + f3_2*f6 + f4_2*f5 ].

Definition FeSquare (f : FieldElement) : FieldElement := FeCombine (feSquare f).
Definition FeSquare2 (f : FieldElement) : FieldElement := FeCombine ((fun h => i64 (h + h)) <$> feSquare f).

(** [FeSquare(&t, x)] and [for i = 1; i < n; i++ { FeSquare(&t, &t) }]. *)
Definition squareTimes (n : nat) (f : FieldElement) : FieldElement := Nat.iter n FeSquare f.

Definition FeInvert (z : FieldElement) : FieldElement :=
  let t0 := FeSquare z in
  let t1 := squareTimes 2 t0 in
  let t1 := FeMul z t1 in
  let t0 := FeMul t0 t1 in
  let t2 := FeSquare t0 in
  let t1 := FeMul t1 t2 in
  let t2 := squareTimes 5 t1 in
  let t1 := FeMul t2 t1 in
  let t2 := squareTimes 10 t1 in
  let t2 := FeMul t2 t1 in
  let t3 := squareTimes 20 t2 in
  let t2 := FeMul t3 t2 in
  let t2 := squareTimes 10 t2 in
  let t1 := FeMul t2 t1 in
  let t2 := squareTimes 50 t1 in
  let t2 := FeMul t2 t1 in
  let t3 := squareTimes 100 t2 in
  let t2 := FeMul t3 t2 in
  let t2 := squareTimes 50 t2 in
  let t1 := FeMul t2 t1 in
  let t1 := squareTimes 5 t1 in
  FeMul t1 t0.

Definition fePow22523 (z : FieldElement) : FieldElement :=
  let t0 := squareTimes 1 z in
  let t1 := squareTimes 2 t0 in
  let t1 := FeMul z t1 in
  let t0 := FeMul t0 t1 in
  let t0 := squareTimes 1 t0 in
  let t0 := FeMul t1 t0 in
  let t1 := squareTimes 5 t0 in
  let t0 := FeMul t1 t0 in
  let t1 := squareTimes 10 t0 in
  let t1 := FeMul t1 t0 in
  let t2 := squareTimes 20 t1 in
  let t1 := FeMul t2 t1 in
  let t1 := squareTimes 10 t1 in
  let t0 := FeMul t1 t0 in
  let t1 := squareTimes 50 t0 in
  let t1 := FeMul t1 t0 in
  let t2 := squareTimes 100 t1 in
  let t1 := FeMul t2 t1 in
  let t1 := squareTimes 50 t1 in
  let t0 := FeMul t1 t0 in
  let t0 := squareTimes 2 t0 in
  FeMul t0 z.

(** The quotient [q] of [FeToBytes]. *)
Definition feQuotient (h : FieldElement) : Z :=
  foldl (fun q i => i32 (limb h i + q) ≫ feWidth i) (i32 (i32 (19 * limb h 9) + i32 (1 ≪ 24)) ≫ 25) (seq 0 10).

(** [carry[i] = h[i] >> w; h[i+1] += carry[i]; h[i] -= carry[i] << w]; the last carry
    goes nowhere. *)
Definition feFloor (i : nat) (h : FieldElement) : FieldElement :=
  let w := feWidth i in
  let c := limb h i ≫ w in
  let h := if Nat.eqb i 9 then h else set_ (S i) (i32 (limb h (S i) + c)) h in
  set_ i (i32 (limb h i - i32 (c ≪ w))) h.

Definition feFreeze (h : FieldElement) : FieldElement :=
  let h := set_ 0 (i32 (limb h 0 + i32 (19 * feQuotient h))) h in
  foldl (fun h i => feFloor i h) h (seq 0 10).

Definition feBytes (h : FieldElement) : list Z :=
  let lo k r := byte (limb h k ≫ r) in
  let both k r l := byte (Z.lor (limb h k ≫ r) (i32 (limb h (S k) ≪ l))) in
  [ lo 0%nat 0; lo 0%nat 8; lo 0%nat 16; both 0%nat 24 2; lo 1%nat 6; lo 1%nat 14; both 1%nat 22 3; lo 2%nat 5;
    lo 2%nat 13; both 2%nat 21 5; lo 3%nat 3; lo 3%nat 11; both 3%nat 19 6; lo 4%nat 2; lo 4%nat 10; lo 4%nat 18;
    lo 5%nat 0; lo 5%nat 8; lo 5%nat 16; both 5%nat 24 1; lo 6%nat 7; lo 6%nat 15; both 6%nat 23 3; lo 7%nat 5;
    lo 7%nat 13; both 7%nat 21 4; lo 8%nat 4; lo 8%nat 12; both 8%nat 20 6; lo 9%nat 2; lo 9%nat 10; lo 9%nat 18 ].

Definition FeToBytes (h : FieldElement) : list Z := feBytes (feFreeze h).

Definition FeIsNegative (f : FieldElement) : Z := Z.land (limb (FeToBytes f) 0) 1.

(** The bits of all bytes are collected in [x]. *)
Definition FeIsNonZero (f : FieldElement) : Z :=
  let x := foldl Z.lor 0 (FeToBytes f) in
  let x := Z.lor x (x ≫ 4) in
  let x := Z.lor x (x ≫ 2) in
  let x := Z.lor x (x ≫ 1) in
  Z.land x 1.

(** * Values *)

Definition p25519 : Z := 2 ^ 255 - 19.

(** The weight of limb [i] is [2 ^ feOff i], with [feOff i] the least integer not
    below [25.5 * i]. *)
Definition feOff (i : nat) : Z := (51 * Z.of_nat i + 1) / 2.

Definition fval (f : FieldElement) : Z := zsum (fun i => limb f i * 2 ^ feOff i) (seq 0 10).

Lemma fval_set f k v : (k < 10)%nat -> length f = 10%nat -> fval (set_ k v f) = fval f + (v - limb f k) * 2 ^ feOff k.
Proof.
  intros Hk Hf. unfold fval.
  rewrite (zsum_ext _ (fun i => limb f i * 2 ^ feOff i + (if decide (i = k) then (v - limb f k) * 2 ^ feOff k else 0)))
    by (intros i _; rewrite limb_set by lia; destruct (decide (i = k)) as [->|]; ring).
  rewrite zsum_add. f_equal. generalize ((v - limb f k) * 2 ^ feOff k). intros c. cbn [seq].
  unfold zsum. cbn [foldr]. repeat (case_decide; try lia).
Qed.

(** * Bounds *)

(** Results of a carry chain, and sums of up to three of them. *)
Definition tightTop : list Z := flat_map (fun _ => [36909875; 18454937]) (seq 0 5).
Definition looseTop : list Z := flat_map (fun _ => [110729625; 55364811]) (seq 0 5).

Definition below (t : list Z) (f : FieldElement) : Prop := Forall2 (fun x m => Z.abs x <= m) f t.
Abbreviation tight := (below tightTop).
Abbreviation loose := (below looseTop).

Lemma below_length t f : below t f -> length f = length t.
Proof. apply Forall2_length. Qed.

Lemma below_at t f i : below t f -> Z.abs (limb f i) <= limb t i.
Proof.
  intros H. unfold limb. revert i. induction H as [|x m f t Hx _ IH]; intros [|i]; cbn [nth]; try lia. apply IH.
Qed.

Lemma below_weaken t t' f : Forall2 Z.le t t' -> below t f -> below t' f.
Proof.
  intros Ht H. revert t' Ht. induction H as [|x m f t Hx _ IH]; intros t' Ht.
  - apply Forall2_nil_inv_l in Ht as ->. constructor.
  - apply Forall2_cons_inv_l in Ht as (m' & t'' & Hm & Ht & ->). constructor; [lia|]. now apply IH.
Qed.

Lemma tight_loose f : tight f -> loose f.
Proof. apply below_weaken. repeat constructor; lia. Qed.

(** ** The interval analysis of the carries *)

Definition ishrw (w : Z) (i : ival) : ival := (i.1 ≫ w, i.2 ≫ w).

Definition absFeCarry (i : nat) (b : list ival) : option (list ival) :=
  let w := feWidth i in
  x ← guard (iadd (bound b i) (2 ^ (w - 1), 2 ^ (w - 1)));
  let c := ishrw w x in
  _ ← guard (iscale (2 ^ w) c);
  b' ← (if Nat.eqb i 9 then
          p ← guard (iscale 19 c);
          n ← guard (iadd (bound b 0) p);
          Some (<[0%nat := n]> b)
        else
          n ← guard (iadd (bound b (S i)) c);
          Some (<[S i := n]> b));
  if Nat.ltb i 10 && Nat.eqb (length b) 10 then Some (<[i := (- 2 ^ (w - 1), 2 ^ (w - 1) - 1)]> b') else None.

Definition absCombine (b : list ival) : option (list ival) :=
  foldl (fun ob i => b ← ob; absFeCarry i b) (Some b) combineOrder.

Lemma within_shrw w x i : 0 <= w -> within x i -> within (x ≫ w) (ishrw w i).
Proof.
  unfold within, ishrw. intros Hw H. cbn. pose proof (Z.pow_pos_nonneg 2 w).
  rewrite !Z.shiftr_div_pow2 by lia. split; apply Z.div_le_mono; lia.
Qed.

Lemma feWidth_cases i : feWidth i = 26 \/ feWidth i = 25.
Proof. unfold feWidth. destruct (Nat.even i); auto. Qed.

Lemma feOff_S i : (i < 9)%nat -> feOff (S i) = feOff i + feWidth i.
Proof. intros H. do 9 (destruct i as [|i]; [reflexivity|]). lia. Qed.

Lemma feCarry_sound i h b b' : bounded h b -> absFeCarry i b = Some b' ->
  bounded (feCarry i h) b' /\ [mod p25519] fval (feCarry i h) == fval h.
Proof.
  intros Hs H. pose proof (Forall2_length _ _ _ Hs) as Hlen. unfold absFeCarry in H. cbv zeta in H.
  apply bind_Some in H as (x & [-> Hx]%guard_Some & H). apply bind_Some in H as (n & [-> Hn]%guard_Some & H).
  apply bind_Some in H as (b1 & H1 & H).
  destruct (Nat.ltb_spec i 10) as [Hi|], (Nat.eqb_spec (length b) 10) as [Hb|]; try discriminate. injection H as <-.
  unfold feCarry. cbv zeta. set (w := feWidth i) in *. assert (Hw : w = 26 \/ w = 25) by apply feWidth_cases.
  replace (i64 (1 ≪ (w - 1))) with (2 ^ (w - 1)) by (destruct Hw as [->| ->]; reflexivity).
  assert (Hxi : within (limb h i + 2 ^ (w - 1)) (iadd (bound b i) (2 ^ (w - 1), 2 ^ (w - 1))))
    by (apply within_add; [apply bounded_at; [assumption|lia]|unfold within; cbn; lia]).
  rewrite (Hx _ Hxi). set (c := (limb h i + 2 ^ (w - 1)) ≫ w) in *.
  assert (Hc : within c (ishrw w (iadd (bound b i) (2 ^ (w - 1), 2 ^ (w - 1))))) by (apply within_shrw; [lia|exact Hxi]).
  assert (E2 : i64 (c ≪ w) = c * 2 ^ w) by (rewrite Z.shiftl_mul_pow2 by lia; apply Hn, within_scale, Hc).
  assert (Hr : - 2 ^ (w - 1) <= limb h i - c * 2 ^ w <= 2 ^ (w - 1) - 1).
  { unfold c. rewrite Z.shiftr_div_pow2 by lia. pose proof (Z.pow_pos_nonneg 2 w ltac:(lia) ltac:(lia)).
    pose proof (Z.div_mod (limb h i + 2 ^ (w - 1)) (2 ^ w)). pose proof (Z.mod_pos_bound (limb h i + 2 ^ (w - 1)) (2 ^ w)).
    assert (2 ^ w = 2 * 2 ^ (w - 1)) by (rewrite <- Z.pow_succ_r by lia; f_equal; lia). lia. }
  assert (E3 : i64 (limb h i - c * 2 ^ w) = limb h i - c * 2 ^ w).
  { apply i64_id. assert (2 ^ (w - 1) <= 2 ^ 25) by (apply Z.pow_le_mono_r; lia). lia. }
  clearbody c. destruct (Nat.eqb_spec i 9) as [->|Hne].
  - apply bind_Some in H1 as (p & [-> Hp]%guard_Some & H1). apply bind_Some in H1 as (m & [-> Hm]%guard_Some & [= <-]).
    assert (E1 : i64 (limb h 0 + i64 (c * 19)) = limb h 0 + c * 19).
    { rewrite (Hp (c * 19)) by now apply within_scale.
      apply Hm, within_add; [apply bounded_at; [assumption|lia]|now apply within_scale]. }
    rewrite E1, E2, limb_set by lia. cbn [decide]. destruct (decide (9%nat = 0%nat)); [discriminate|]. rewrite E3. split.
    + apply bounded_set; [apply bounded_set; [assumption|]|exact Hr].
      apply within_add; [apply bounded_at; [assumption|lia]|now apply within_scale].
    + rewrite fval_set by (rewrite ?length_set; lia). rewrite fval_set, limb_set by lia.
      destruct (decide (9%nat = 0%nat)); [discriminate|]. change w with 25.
      change (2 ^ feOff 9) with (2 ^ 230). change (2 ^ feOff 0) with 1.
      replace (_ + _ + _) with (fval h + - c * p25519); [apply eqm_add_mul|].
      unfold p25519. change (2 ^ 255) with (2 ^ 25 * 2 ^ 230). ring.
  - apply bind_Some in H1 as (m & [-> Hm]%guard_Some & [= <-]).
    assert (E1 : i64 (limb h (S i) + c) = limb h (S i) + c)
      by (apply Hm, within_add; [apply bounded_at; [assumption|lia]|exact Hc]).
    rewrite E1, E2, limb_set by lia. destruct (decide (i = S i)); [lia|]. rewrite E3. split.
    + apply bounded_set; [apply bounded_set; [assumption|]|exact Hr].
      apply within_add; [apply bounded_at; [assumption|lia]|exact Hc].
    + rewrite fval_set by (rewrite ?length_set; lia). rewrite fval_set, limb_set by lia.
      destruct (decide (i = S i)); [lia|]. rewrite feOff_S by lia. fold w.
      assert (0 <= feOff i) by (unfold feOff; apply Z.div_pos; lia). rewrite Z.pow_add_r by lia.
      replace (_ + _ + _) with (fval h); [reflexivity|]. ring.
Qed.

(** ** Combining limbs *)

Definition fits32 (i : ival) : bool := (- 2 ^ 31 <=? i.1) && (i.2 <? 2 ^ 31).

(** The analysis finds no overflow, and limbs within [t]. *)
Definition combines (t : list Z) (b : list ival) : bool :=
  match absCombine b with
  | Some b' => forallb fits32 b' && forallb (fun '(i, m) => (- m <=? i.1) && (i.2 <=? m)) (zip b' t) &&
               Nat.eqb (length b') (length t)
  | None => false
  end.

Lemma absCombine_sound l : forall h b b', bounded h b ->
  foldl (fun ob i => b ← ob; absFeCarry i b) (Some b) l = Some b' ->
  bounded (foldl (fun h i => feCarry i h) h l) b' /\ [mod p25519] fval (foldl (fun h i => feCarry i h) h l) == fval h.
Proof.
  induction l as [|i l IH]; intros h b b' Hs H; cbn [foldl] in *; [now injection H as <-|].
  cbn [mbind option_bind] in H. destruct (absFeCarry i b) as [b1|] eqn:E1.
  - destruct (feCarry_sound i h b b1 Hs E1) as [Hs1 Hv1]. destruct (IH _ _ _ Hs1 H) as [Hs' Hv']. split; [exact Hs'|].
    now rewrite Hv', Hv1.
  - exfalso. revert H. clear. induction l as [|j l IH]; intros H; [discriminate H|exact (IH H)].
Qed.

Lemma FeCombine_sound t h b : bounded h b -> combines t b = true ->
  below t (FeCombine h) /\ [mod p25519] fval (FeCombine h) == fval h.
Proof.
  intros Hs H. unfold combines in H. destruct (absCombine b) as [b'|] eqn:E; [|discriminate].
  apply andb_true_iff in H as [[Hf Ht]%andb_true_iff Hl%Nat.eqb_eq].
  destruct (absCombine_sound _ _ _ _ Hs E) as [Hs' Hv']. unfold FeCombine.
  set (r := foldl _ h _) in *. clearbody r.
  assert (Hr : i32 <$> r = r).
  { clear -Hs' Hf. induction Hs' as [|x i r b Hx _ IH]; [done|]. cbn [forallb] in Hf. apply andb_true_iff in Hf as [Hi Hf].
    rewrite fmap_cons, IH by assumption. f_equal. apply i32_id. unfold fits32, within in *.
    apply andb_true_iff in Hi as [H1%Z.leb_le H2%Z.ltb_lt]. lia. }
  rewrite Hr. split; [|exact Hv']. clear -Hs' Ht Hl. revert t Ht Hl.
  induction Hs' as [|x i r b Hx _ IH]; intros [|m t] Ht Hl; try discriminate; [constructor|].
  cbn [zip_with zip forallb] in Ht. apply andb_true_iff in Ht as [[H1%Z.leb_le H2%Z.leb_le]%andb_true_iff Ht].
  constructor; [unfold within in Hx; lia|]. apply IH; [exact Ht|now injection Hl].
Qed.

(** ** Products *)

(** The terms and limbs of a product, over the integers. *)
Definition exactTerm (f g : FieldElement) (k i : nat) : Z :=
  (if Nat.even k && Nat.odd i then 2 else 1) * (if Nat.leb i k then 1 else 19) *
  (limb f i * limb g (if Nat.leb i k then k - i else k + 10 - i)).

Definition exactCol (f g : FieldElement) (k : nat) : Z := zsum (exactTerm f g k) (seq 0 10).
Definition exactCols (f g : FieldElement) : list Z := exactCol f g <$> seq 0 10.

Definition colBounds (c : Z) : list ival :=
  (fun k => (- (c * exactCol looseTop looseTop k), c * exactCol looseTop looseTop k)) <$> seq 0 10.

Lemma products_combine : combines tightTop (colBounds 1) = true.
Proof. vm_compute. reflexivity. Qed.

Lemma doubles_combine : combines tightTop (colBounds 2) = true.
Proof. vm_compute. reflexivity. Qed.

Lemma looseTop_bound i : 0 <= limb looseTop i <= 110729625.
Proof. do 10 (destruct i as [|i]; [vm_compute; split; discriminate|]). unfold limb. destruct i; cbn; lia. Qed.

Lemma looseTop_odd i : Nat.odd i = true -> limb looseTop i <= 55364811.
Proof.
  intros H. do 10 (destruct i as [|i]; [(discriminate H) || (vm_compute; discriminate)|]). unfold limb. destruct i; cbn; lia.
Qed.

Section product.
Context (f g : FieldElement) (Hf : loose f) (Hg : loose g).

Lemma loose_int i : i32 (19 * limb g i) = 19 * limb g i.
Proof. apply i32_id. pose proof (below_at _ g i Hg). pose proof (looseTop_bound i). lia. Qed.

Lemma loose_double i : i32 (2 * limb f i) = 2 * limb f i.
Proof. apply i32_id. pose proof (below_at _ f i Hf). pose proof (looseTop_bound i). lia. Qed.

Lemma feTerm_exact k i : feTerm f g k i = exactTerm f g k i.
Proof.
  unfold feTerm, exactTerm. rewrite loose_double, loose_int.
  destruct (Nat.even k && Nat.odd i), (Nat.leb i k); ring.
Qed.

Lemma exactTerm_bound k i : Z.abs (exactTerm f g k i) <= exactTerm looseTop looseTop k i.
Proof.
  unfold exactTerm. set (j := if Nat.leb i k then (k - i)%nat else (k + 10 - i)%nat).
  pose proof (below_at _ f i Hf). pose proof (below_at _ g j Hg). pose proof (looseTop_bound i). pose proof (looseTop_bound j).
  set (c := (if Nat.even k && Nat.odd i then 2 else 1) * (if Nat.leb i k then 1 else 19)).
  assert (0 <= c) by (unfold c; destruct (Nat.even k && Nat.odd i), (Nat.leb i k); lia).
  rewrite Z.abs_mul, (Z.abs_eq c), Z.abs_mul by lia. apply Z.mul_le_mono_nonneg_l; [lia|].
  apply Z.mul_le_mono_nonneg; lia.
Qed.

Lemma exactCol_bound k : Z.abs (exactCol f g k) <= exactCol looseTop looseTop k.
Proof.
  unfold exactCol. induction (seq 0 10) as [|i l IH]; [done|]. rewrite !zsum_cons.
  pose proof (exactTerm_bound k i). lia.
Qed.

Lemma exactCols_bounded c : 0 <= c -> bounded ((fun k => c * exactCol f g k) <$> seq 0 10) (colBounds c).
Proof.
  intros Hc. unfold colBounds. apply Forall2_fmap, Forall2_same_length_lookup. split; [done|]. intros i x y Hx Hy.
  replace y with x by congruence. pose proof (exactCol_bound x) as Hk. unfold within. cbn [fst snd].
  assert (Z.abs (c * exactCol f g x) <= c * exactCol looseTop looseTop x)
    by (rewrite Z.abs_mul, (Z.abs_eq c) by lia; now apply Z.mul_le_mono_nonneg_l). lia.
Qed.

End product.

(** The part of the columns that wraps around. *)
Definition overflow (F G : nat -> Z) : Z :=
  zsum (fun k => zsum (fun i => (if Nat.even k && Nat.odd i then 2 else 1) * (F i * G (k + 10 - i)%nat) * 2 ^ feOff k)
                      (seq (S k) (9 - k))) (seq 0 10).

Ltac weights := repeat match goal with |- context [2 ^ feOff ?k] =>
  let x := eval vm_compute in (2 ^ feOff k) in change (2 ^ feOff k) with x end.

Lemma exactCols_value f g : [mod p25519] fval (exactCols f g) == fval f * fval g.
Proof.
  replace (fval (exactCols f g)) with (fval f * fval g + - overflow (limb f) (limb g) * p25519); [apply eqm_add_mul|].
  unfold fval, overflow, exactCols, exactCol, exactTerm. generalize (limb f) (limb g). intros F G.
  cbv [zsum seq foldr fmap list_fmap limb nth Nat.leb Nat.even Nat.odd Nat.sub Nat.add negb andb].
  weights. change p25519 with 57896044618658097711785492504343953926634992332820282019728792003956564819949. ring.
Qed.

Lemma colBounds_fit : forallb fits (colBounds 1) = true /\ forallb fits (colBounds 2) = true.
Proof. vm_compute. auto. Qed.

Lemma exactCols_once f g : loose f -> loose g -> bounded (exactCols f g) (colBounds 1).
Proof.
  intros Hf Hg. unfold exactCols. replace (exactCol f g <$> seq 0 10) with ((fun k => 1 * exactCol f g k) <$> seq 0 10).
  - now apply exactCols_bounded.
  - apply list_fmap_ext. intros i k _. apply Z.mul_1_l.
Qed.

Lemma FeMul_exact f g : loose f -> loose g -> FeMul f g = FeCombine (exactCols f g).
Proof.
  intros Hf Hg. unfold FeMul. f_equal.
  rewrite <- (bounded_i64 (exactCols f g) (colBounds 1)) by (now apply exactCols_once || apply colBounds_fit).
  unfold exactCols. rewrite <- list_fmap_compose. apply list_fmap_ext. intros i k _. cbn [compose]. f_equal.
  unfold exactCol. apply zsum_ext. intros j _. now apply feTerm_exact.
Qed.

Lemma FeMul_spec f g : loose f -> loose g ->
  tight (FeMul f g) /\ [mod p25519] fval (FeMul f g) == fval f * fval g.
Proof.
  intros Hf Hg. rewrite FeMul_exact by assumption.
  destruct (FeCombine_sound tightTop (exactCols f g) (colBounds 1)) as [Ht Hv];
    [now apply exactCols_once|exact products_combine|]. split; [exact Ht|]. now rewrite Hv, exactCols_value.
Qed.

(** The squaring computes the same limbs. *)
Lemma feSquare_exact f : loose f -> feSquare f = exactCols f f.
Proof.
  intros Hf. rewrite <- (bounded_i64 (exactCols f f) (colBounds 1)) by (now apply exactCols_once || apply colBounds_fit).
  unfold feSquare. cbv zeta. rewrite !(loose_double f Hf).
  assert (H38 : forall i, i64 (38 * limb f i) = 38 * limb f i).
  { intros i. apply i64_id. pose proof (below_at _ f i Hf). pose proof (looseTop_bound i). lia. }
  assert (H19 : forall i, i64 (19 * limb f i) = 19 * limb f i).
  { intros i. apply i64_id. pose proof (below_at _ f i Hf). pose proof (looseTop_bound i). lia. }
  rewrite !H38, !H19. f_equal. unfold exactCols, exactCol, exactTerm. generalize (limb f). intros F. clear.
  cbv [zsum seq foldr fmap list_fmap Nat.leb Nat.even Nat.odd Nat.sub Nat.add negb andb].
  repeat (apply f_equal2; [ring|]). done.
Qed.

Lemma FeSquare_spec f : loose f -> tight (FeSquare f) /\ [mod p25519] fval (FeSquare f) == fval f * fval f.
Proof.
  intros Hf. unfold FeSquare. rewrite feSquare_exact, <- FeMul_exact by assumption. now apply FeMul_spec.
Qed.

Lemma FeSquare2_spec f : loose f -> tight (FeSquare2 f) /\ [mod p25519] fval (FeSquare2 f) == 2 * (fval f * fval f).
Proof.
  intros Hf. unfold FeSquare2. rewrite feSquare_exact by assumption.
  pose proof (exactCols_bounded f f Hf Hf 2 ltac:(lia)) as Hb.
  assert (E : (fun h => i64 (h + h)) <$> exactCols f f = (fun k => 2 * exactCol f f k) <$> seq 0 10).
  { rewrite <- (bounded_i64 _ _ Hb) by apply colBounds_fit. unfold exactCols. rewrite <- !list_fmap_compose.
    apply list_fmap_ext. intros i k _. cbn [compose]. f_equal. ring. }
  rewrite E. destruct (FeCombine_sound tightTop _ (colBounds 2) Hb doubles_combine) as [Ht Hv]. split; [exact Ht|].
  rewrite Hv, <- exactCols_value. replace (fval _) with (2 * fval (exactCols f f)); [reflexivity|].
  unfold fval. rewrite <- zsum_mul. apply zsum_ext. intros i Hi. unfold exactCols.
  unfold limb. rewrite !nth_lookup, !list_lookup_fmap. destruct (seq 0 10 !! i); cbn; ring.
Qed.

(** ** Sums *)

Lemma zip_limbs (h : Z -> Z -> Z) f g i : length f = 10%nat -> length g = 10%nat -> (i < 10)%nat ->
  limb (zip_with h f g) i = h (limb f i) (limb g i).
Proof.
  intros Hf Hg Hi. unfold limb. rewrite !nth_lookup, lookup_zip_with.
  destruct (lookup_lt_is_Some_2 f i ltac:(lia)) as [x ->], (lookup_lt_is_Some_2 g i ltac:(lia)) as [y ->]. done.
Qed.

Definition plus (t u : list Z) : list Z := zip_with Z.add t u.

(** An operation limb by limb that does not leave [int32]. *)
Lemma zip_exact (h : Z -> Z -> Z) t u f g : (forall x y, Z.abs (h x y) <= Z.abs x + Z.abs y) ->
  Forall (fun m => m < 2 ^ 31) (plus t u) -> below t f -> below u g ->
  zip_with (fun x y => i32 (h x y)) f g = zip_with h f g /\ below (plus t u) (zip_with h f g).
Proof.
  intros Hh Hb Hf. unfold plus in *. revert u g Hb. induction Hf as [|x m f t Hx _ IH]; intros u g Hb Hg; [split; [done|constructor]|].
  destruct Hg as [|y n g u Hy Hg]; [split; [done|constructor]|]. cbn [zip_with] in *. apply Forall_cons in Hb as [Hm Hb].
  destruct (IH u g Hb Hg) as [E Hr]. pose proof (Hh x y). split.
  - f_equal; [apply i32_id; lia|exact E].
  - constructor; [lia|exact Hr].
Qed.

Lemma FeAdd_spec t u f g : length t = 10%nat -> length u = 10%nat -> Forall (fun m => m < 2 ^ 31) (plus t u) ->
  below t f -> below u g -> below (plus t u) (FeAdd f g) /\ fval (FeAdd f g) = fval f + fval g.
Proof.
  intros Ht Hu Hb Hf Hg. pose proof (below_length _ _ Hf). pose proof (below_length _ _ Hg).
  destruct (zip_exact Z.add t u f g ltac:(lia) Hb Hf Hg) as [E Hr]. unfold FeAdd. rewrite E. split; [exact Hr|].
  unfold fval. rewrite <- zsum_add. apply zsum_ext. intros i Hi%elem_of_seq. rewrite zip_limbs by lia. ring.
Qed.

Lemma FeSub_spec t u f g : length t = 10%nat -> length u = 10%nat -> Forall (fun m => m < 2 ^ 31) (plus t u) ->
  below t f -> below u g -> below (plus t u) (FeSub f g) /\ fval (FeSub f g) = fval f - fval g.
Proof.
  intros Ht Hu Hb Hf Hg. pose proof (below_length _ _ Hf). pose proof (below_length _ _ Hg).
  destruct (zip_exact Z.sub t u f g ltac:(lia) Hb Hf Hg) as [E Hr]. unfold FeSub. rewrite E. split; [exact Hr|].
  unfold fval. rewrite <- Z.add_opp_r, Z.opp_eq_mul_m1, Z.mul_comm, <- zsum_mul, <- zsum_add.
  apply zsum_ext. intros i Hi%elem_of_seq. rewrite zip_limbs by lia. ring.
Qed.

Lemma FeNeg_spec t f : length t = 10%nat -> Forall (fun m => m < 2 ^ 31) t ->
  below t f -> below t (FeNeg f) /\ fval (FeNeg f) = - fval f.
Proof.
  intros Ht Hb Hf. pose proof (below_length _ _ Hf).
  assert (E : FeNeg f = Z.opp <$> f).
  { unfold FeNeg. clear -Hb Hf. induction Hf as [|x m f t Hx _ IH]; [done|]. apply Forall_cons in Hb as [Hm Hb].
    rewrite !fmap_cons, IH by assumption. f_equal. apply i32_id. lia. }
  rewrite E. split.
  - clear -Hf. induction Hf as [|x m f t Hx _ IH]; constructor; [lia|exact IH].
  - unfold fval. replace (- zsum _ (seq 0 10)) with (-1 * zsum (fun i => limb f i * 2 ^ feOff i) (seq 0 10)) by ring.
    rewrite <- zsum_mul. apply zsum_ext. intros i Hi%elem_of_seq. unfold limb. rewrite !nth_lookup, list_lookup_fmap.
    destruct (f !! i); cbn; ring.
Qed.

Lemma FeCMove_spec f g b : length f = length g -> b = 0 \/ b = 1 -> FeCMove f g b = if b =? 1 then g else f.
Proof.
  intros Hl Hb. unfold FeCMove. revert g Hl. induction f as [|x f IH]; intros [|y g] Hl; try discriminate; [now destruct (b =? 1)|].
  cbn [zip_with]. injection Hl as Hl. rewrite (IH g Hl). destruct Hb as [->| ->]; cbn [Z.eqb].
  - change (i32 (-0)) with 0. rewrite Z.land_0_l, Z.lxor_0_r. done.
  - change (i32 (- (1))) with (-1). rewrite Z.land_m1_l, <- Z.lxor_assoc, Z.lxor_nilpotent, Z.lxor_0_l. done.
Qed.

(** * Reading bytes *)

Definition readTop : list ival :=
  (fun t => (0, t)) <$> [2 ^ 32; 2 ^ 30; 2 ^ 29; 2 ^ 27; 2 ^ 26; 2 ^ 32; 2 ^ 31; 2 ^ 29; 2 ^ 28; 2 ^ 25].

Lemma read_combines : combines tightTop readTop = true.
Proof. vm_compute. reflexivity. Qed.

Lemma FeFromBytes_spec s : isBytes 32 s ->
  tight (FeFromBytes s) /\ [mod p25519] fval (FeFromBytes s) == le_value s mod 2 ^ 255.
Proof.
  intros [Hl Hb]. unfold FeFromBytes.
  assert (H3 : forall j, (j + 3 <= 32)%nat -> load3 (drop j s) = (le_value s / 2 ^ (8 * Z.of_nat j)) mod 2 ^ 24).
  { intros j Hj. pose proof (load3_bits s j 0 24 ltac:(lia) Hb ltac:(lia) ltac:(lia) ltac:(lia)) as H.
    rewrite Z.shiftr_0_r, Z.add_0_r in H. rewrite <- H. symmetry. apply Z.mod_small.
    rewrite load3_value by (rewrite ?length_drop; try lia; now apply Forall_drop). apply Z.mod_pos_bound. lia. }
  assert (H4 : forall j, (j + 4 <= 32)%nat -> load4 (drop j s) = (le_value s / 2 ^ (8 * Z.of_nat j)) mod 2 ^ 32).
  { intros j Hj. pose proof (load4_bits s j 0 32 ltac:(lia) Hb ltac:(lia) ltac:(lia) ltac:(lia)) as H.
    rewrite Z.shiftr_0_r, Z.add_0_r in H. rewrite <- H. symmetry. apply Z.mod_small.
    rewrite load4_value by (rewrite ?length_drop; try lia; now apply Forall_drop). apply Z.mod_pos_bound. lia. }
  change (load4 s) with (load4 (drop 0 s)). rewrite !H3, !H4 by lia. clear H3 H4.
  pose proof (le_value_bound s Hb) as Hx. rewrite Hl in Hx. change (256 ^ Z.of_nat 32) with (2 ^ 256) in Hx.
  set (x := le_value s) in *. clearbody x. clear Hl Hb s.
  change 8388607 with (Z.ones 23). rewrite Z.land_ones by lia. rewrite !Z.shiftl_mul_pow2 by lia.
  assert (Hsplit : forall a b c, 0 <= a -> 0 <= b -> a + b = c -> x mod 2 ^ c = x mod 2 ^ a + 2 ^ a * ((x / 2 ^ a) mod 2 ^ b)).
  { intros a b c Ha Hbb <-. rewrite Z.pow_add_r by lia. apply Z.rem_mul_r; [apply Z.pow_nonzero|apply Z.pow_pos_nonneg]; lia. }
  assert (Htop : ((x / 2 ^ (8 * Z.of_nat 29)) mod 2 ^ 24) mod 2 ^ 23 = (x / 2 ^ 232) mod 2 ^ 23).
  { pose proof (mod_div_mod (x / 2 ^ 232) 24 0 23 ltac:(lia) ltac:(lia) ltac:(lia)) as H. now rewrite !Z.div_1_r in H. }
  rewrite Htop. clear Htop.
  repeat match goal with |- context [8 * Z.of_nat ?n] =>
    let v := eval vm_compute in (8 * Z.of_nat n) in change (8 * Z.of_nat n) with v end.
  assert (Hsum : x mod 2 ^ 255 = (x / 2 ^ 0) mod 2 ^ 32 + 2 ^ 32 * ((x / 2 ^ 32) mod 2 ^ 24) + 2 ^ 56 * ((x / 2 ^ 56) mod 2 ^ 24) +
    2 ^ 80 * ((x / 2 ^ 80) mod 2 ^ 24) + 2 ^ 104 * ((x / 2 ^ 104) mod 2 ^ 24) + 2 ^ 128 * ((x / 2 ^ 128) mod 2 ^ 32) +
    2 ^ 160 * ((x / 2 ^ 160) mod 2 ^ 24) + 2 ^ 184 * ((x / 2 ^ 184) mod 2 ^ 24) + 2 ^ 208 * ((x / 2 ^ 208) mod 2 ^ 24) +
    2 ^ 232 * ((x / 2 ^ 232) mod 2 ^ 23)).
  { rewrite Z.div_1_r. rewrite (Hsplit 232 23 255), (Hsplit 208 24 232), (Hsplit 184 24 208), (Hsplit 160 24 184), (Hsplit 128 32 160),
      (Hsplit 104 24 128), (Hsplit 80 24 104), (Hsplit 56 24 80), (Hsplit 32 24 56) by lia. done. }
  clear Hsplit. rewrite Hsum. clear Hsum.
  repeat match goal with |- context [(x / ?a) mod ?m] =>
    pose proof (Z.mod_pos_bound (x / a) m ltac:(lia)); generalize dependent ((x / a) mod m); intros end.
  rewrite !i64_id by lia.
  match goal with |- below _ (FeCombine ?l) /\ _ => destruct (FeCombine_sound tightTop l readTop) as [Ht Hv] end.
  - repeat constructor; cbn; lia.
  - exact read_combines.
  - split; [exact Ht|]. rewrite Hv. match goal with |- [mod _] ?a == ?b => replace a with b; [reflexivity|] end.
    cbv [fval zsum seq foldr limb nth]. weights. lia.
Qed.

(** * Writing bytes *)

(** The value of the limbs from number [i] on, in units of the first one. *)
Fixpoint horner (i : nat) (l : list Z) : Z :=
  match l with [] => 0 | x :: l' => x + 2 ^ feWidth i * horner (S i) l' end.

(** The bits of [n] limbs from number [i] on. *)
Fixpoint widths (i n : nat) : Z := match n with O => 0 | S n' => feWidth i + widths (S i) n' end.

Lemma widths_nonneg i n : 0 <= widths i n.
Proof. revert i. induction n as [|n IH]; intros i; cbn [widths]; [lia|]. pose proof (IH (S i)). pose proof (feWidth_cases i). lia. Qed.

Lemma horner_app i l1 l2 : horner i (l1 ++ l2) = horner i l1 + 2 ^ widths i (length l1) * horner (i + length l1) l2.
Proof.
  revert i. induction l1 as [|x l1 IH]; intros i; cbn [app horner length widths]; [rewrite Nat.add_0_r; ring|].
  pose proof (feWidth_cases i). pose proof (widths_nonneg (S i) (length l1)).
  rewrite IH, Z.pow_add_r, Nat.add_succ_comm by lia. ring.
Qed.

Lemma fval_horner h : length h = 10%nat -> fval h = horner 0 h.
Proof.
  intros H. do 10 (destruct h as [|? h]; [discriminate H|]). destruct h; [|discriminate H].
  cbv [fval zsum seq foldr limb nth]. weights. cbn [horner]. cbv [feWidth Nat.even]. ring.
Qed.

(** ** The quotient *)

Fixpoint quotients (i : nat) (l : list Z) (q : Z) : Z :=
  match l with [] => q | x :: l' => quotients (S i) l' ((x + q) ≫ feWidth i) end.

Lemma quotients_value l : forall i q, quotients i l q = (horner i l + q) / 2 ^ widths i (length l).
Proof.
  induction l as [|x l IH]; intros i q; cbn [quotients horner widths length]; [now rewrite Z.div_1_r|].
  pose proof (feWidth_cases i). pose proof (widths_nonneg (S i) (length l)).
  rewrite IH, Z.pow_add_r, <- Z.div_div, Z.shiftr_div_pow2 by (try apply Z.pow_nonzero; try apply Z.pow_pos_nonneg; lia).
  f_equal. replace (x + 2 ^ feWidth i * horner (S i) l + q) with (x + q + horner (S i) l * 2 ^ feWidth i) by ring.
  rewrite Z.div_add by (apply Z.pow_nonzero; lia). ring.
Qed.

Lemma feQuotient_eq h : loose h ->
  feQuotient h = quotients 0 h ((19 * limb h 9 + 2 ^ 24) ≫ 25) /\ Z.abs (feQuotient h) <= 2.
Proof.
  intros Hh. unfold feQuotient. rewrite (i32_id (19 * limb h 9)) by (pose proof (below_at _ h 9 Hh); change (limb looseTop 9) with 55364811 in *; lia).
  change (i32 (1 ≪ 24)) with (2 ^ 24).
  rewrite (i32_id (_ + _)) by (pose proof (below_at _ h 9 Hh); change (limb looseTop 9) with 55364811 in *; lia).
  set (q0 := (19 * limb h 9 + 2 ^ 24) ≫ 25).
  assert (Hq0 : Z.abs q0 <= 32).
  { unfold q0. pose proof (below_at _ h 9 Hh). change (limb looseTop 9) with 55364811 in *. rewrite Z.shiftr_div_pow2 by lia.
    assert (-32 <= (19 * limb h 9 + 2 ^ 24) / 2 ^ 25 < 33); [|lia].
    split; [apply Z.div_le_lower_bound|apply Z.div_lt_upper_bound]; lia. }
  clearbody q0.
  assert (Hstep : forall i q, (i < 10)%nat -> Z.abs q <= 32 -> i32 (limb h i + q) = limb h i + q /\
                              Z.abs ((limb h i + q) ≫ feWidth i) <= 2).
  { intros i q Hi Hq. pose proof (below_at _ h i Hh) as Hb. 
    assert (Ht : limb looseTop i <= 2 ^ feWidth i + 2 ^ feWidth i - 33 /\ 0 <= feWidth i <= 26).
    { do 10 (destruct i as [|i]; [vm_compute; repeat split; discriminate|]). lia. }
    destruct Ht as [Ht Hw]. pose proof (Z.pow_le_mono_r 2 (feWidth i) 26 ltac:(lia) ltac:(lia)).
    split; [apply i32_id; lia|]. pose proof (Z.pow_pos_nonneg 2 (feWidth i)). rewrite Z.shiftr_div_pow2 by lia.
    assert (-2 <= (limb h i + q) / 2 ^ feWidth i < 2); [|lia].
    split; [apply Z.div_le_lower_bound|apply Z.div_lt_upper_bound]; lia. }
  pose proof (below_length _ _ Hh) as Hlen. change (length looseTop) with 10%nat in Hlen.
  assert (Hgen : forall n a q, (a + n = 10)%nat -> Z.abs q <= 32 ->
    foldl (fun q i => i32 (limb h i + q) ≫ feWidth i) q (seq a n) = quotients a (drop a h) q /\
    (n <> 0%nat -> Z.abs (quotients a (drop a h) q) <= 2)).
  { induction n as [|n IH]; intros a q Ha Hq; cbn [seq foldl].
    - rewrite drop_ge by lia. done.
    - destruct (Hstep a q ltac:(lia) Hq) as [E Hq'].
      rewrite (drop_S h (limb h a) a) by (unfold limb; destruct (nth_lookup_or_length h a 0); [assumption|lia]).
      cbn [quotients]. rewrite E. destruct (IH (S a) ((limb h a + q) ≫ feWidth a) ltac:(lia) ltac:(lia)) as [E' H'].
      split; [exact E'|]. intros _. destruct n; [|now apply H']. rewrite drop_ge by lia. exact Hq'. }
  destruct (Hgen 10%nat 0%nat q0 eq_refl Hq0) as [E Hb]. rewrite E. split; [done|]. now apply Hb.
Qed.

(** It is the quotient by the prime. *)
Lemma feQuotient_value h : loose h -> feQuotient h = fval h / p25519.
Proof.
  intros Hh. rewrite (proj1 (feQuotient_eq h Hh)), quotients_value.
  pose proof (below_length _ _ Hh) as Hlen. change (length looseTop) with 10%nat in Hlen.
  rewrite Hlen, <- fval_horner by assumption. change (2 ^ widths 0 10) with (2 ^ 255).
  rewrite Z.shiftr_div_pow2 by lia. set (q0 := (19 * limb h 9 + 2 ^ 24) / 2 ^ 25).
  assert (Hlow : Z.abs (fval h - limb h 9 * 2 ^ 230) <= 2 ^ 232).
  { cbv [fval zsum seq foldr]. weights.
    pose proof (below_at _ h 0 Hh). pose proof (below_at _ h 1 Hh). pose proof (below_at _ h 2 Hh). pose proof (below_at _ h 3 Hh).
    pose proof (below_at _ h 4 Hh). pose proof (below_at _ h 5 Hh). pose proof (below_at _ h 6 Hh). pose proof (below_at _ h 7 Hh).
    pose proof (below_at _ h 8 Hh). cbn [looseTop flat_map seq app limb nth] in *. lia. }
  pose proof (below_at _ h 9 Hh) as H9. change (limb looseTop 9) with 55364811 in H9.
  assert (Hq : 2 ^ 25 * q0 <= 19 * limb h 9 + 2 ^ 24 < 2 ^ 25 * q0 + 2 ^ 25).
  { unfold q0. pose proof (Z.div_mod (19 * limb h 9 + 2 ^ 24) (2 ^ 25)). pose proof (Z.mod_pos_bound (19 * limb h 9 + 2 ^ 24) (2 ^ 25)). lia. }
  clearbody q0. pose proof (Z.div_mod (fval h) p25519 ltac:(discriminate)) as Hdm.
  pose proof (Z.mod_pos_bound (fval h) p25519 ltac:(reflexivity)) as Hr. unfold p25519 in *.
  symmetry. apply Z.div_unique with (fval h mod (2 ^ 255 - 19) - 19 * (fval h / (2 ^ 255 - 19)) + q0).
  - left. lia.
  - lia.
Qed.

(** ** The last carries *)

Definition guard32 (i : ival) : option ival := if fits32 i then Some i else None.

Lemma guard32_Some i j : guard32 i = Some j -> j = i /\ (forall x, within x i -> i32 x = x).
Proof.
  unfold guard32, fits32, within. destruct (Z.leb_spec (- 2 ^ 31) i.1), (Z.ltb_spec i.2 (2 ^ 31)); try discriminate.
  intros [= <-]. split; [done|]. intros x Hx. apply i32_id. lia.
Qed.

Definition absFeFloor (i : nat) (b : list ival) : option (list ival) :=
  let w := feWidth i in
  let c := ishrw w (bound b i) in
  _ ← guard32 (iscale (2 ^ w) c);
  b' ← (if Nat.eqb i 9 then Some b else n ← guard32 (iadd (bound b (S i)) c); Some (<[S i := n]> b));
  if Nat.ltb i 10 && Nat.eqb (length b) 10 then Some (<[i := (0, 2 ^ w - 1)]> b') else None.

Lemma feFloor_sound i h b b' : bounded h b -> absFeFloor i b = Some b' ->
  bounded (feFloor i h) b' /\ [mod 2 ^ 255] fval (feFloor i h) == fval h.
Proof.
  intros Hs H. pose proof (Forall2_length _ _ _ Hs) as Hlen. unfold absFeFloor in H. cbv zeta in H.
  apply bind_Some in H as (n & [-> Hn]%guard32_Some & H). apply bind_Some in H as (b1 & H1 & H).
  destruct (Nat.ltb_spec i 10) as [Hi|], (Nat.eqb_spec (length b) 10) as [Hb|]; try discriminate. injection H as <-.
  unfold feFloor. cbv zeta. set (w := feWidth i) in *. assert (Hw : w = 26 \/ w = 25) by apply feWidth_cases.
  assert (Hxi : within (limb h i) (bound b i)) by (apply bounded_at; [assumption|lia]).
  set (c := limb h i ≫ w) in *.
  assert (Hc : within c (ishrw w (bound b i))) by (apply within_shrw; [lia|exact Hxi]).
  assert (E2 : i32 (c ≪ w) = c * 2 ^ w) by (rewrite Z.shiftl_mul_pow2 by lia; apply Hn, within_scale, Hc).
  assert (Hr : 0 <= limb h i - c * 2 ^ w <= 2 ^ w - 1).
  { unfold c. rewrite Z.shiftr_div_pow2 by lia. pose proof (Z.pow_pos_nonneg 2 w ltac:(lia) ltac:(lia)).
    pose proof (Z.div_mod (limb h i) (2 ^ w)). pose proof (Z.mod_pos_bound (limb h i) (2 ^ w)). lia. }
  assert (E3 : i32 (limb h i - c * 2 ^ w) = limb h i - c * 2 ^ w).
  { apply i32_id. assert (2 ^ w <= 2 ^ 26) by (apply Z.pow_le_mono_r; lia). lia. }
  clearbody c. assert (0 <= feOff i) by (unfold feOff; apply Z.div_pos; lia).
  destruct (Nat.eqb_spec i 9) as [->|Hne].
  - injection H1 as <-. rewrite E2, E3. split; [apply bounded_set; [assumption|exact Hr]|].
    rewrite fval_set by lia. change (2 ^ feOff 9) with (2 ^ 230). change w with 25.
    replace (_ + _) with (fval h + - c * 2 ^ 255); [apply eqm_add_mul|]. change (2 ^ 255) with (2 ^ 25 * 2 ^ 230). ring.
  - apply bind_Some in H1 as (m & [-> Hm]%guard32_Some & [= <-]).
    assert (E1 : i32 (limb h (S i) + c) = limb h (S i) + c)
      by (apply Hm, within_add; [apply bounded_at; [assumption|lia]|exact Hc]).
    rewrite E1, E2, limb_set by lia. destruct (decide (i = S i)); [lia|]. rewrite E3. split.
    + apply bounded_set; [apply bounded_set; [assumption|]|exact Hr].
      apply within_add; [apply bounded_at; [assumption|lia]|exact Hc].
    + rewrite fval_set by (rewrite ?length_set; lia). rewrite fval_set, limb_set by lia.
      destruct (decide (i = S i)); [lia|]. rewrite feOff_S by lia. fold w. rewrite Z.pow_add_r by lia.
      replace (_ + _ + _) with (fval h); [reflexivity|]. ring.
Qed.

Definition absFreeze (b : list ival) : option (list ival) :=
  foldl (fun ob i => b ← ob; absFeFloor i b) (Some b) (seq 0 10).

Lemma absFreeze_sound l : forall h b b', bounded h b ->
  foldl (fun ob i => b ← ob; absFeFloor i b) (Some b) l = Some b' ->
  bounded (foldl (fun h i => feFloor i h) h l) b' /\ [mod 2 ^ 255] fval (foldl (fun h i => feFloor i h) h l) == fval h.
Proof.
  induction l as [|i l IH]; intros h b b' Hs H; cbn [foldl] in *; [now injection H as <-|].
  cbn [mbind option_bind] in H. destruct (absFeFloor i b) as [b1|] eqn:E1.
  - destruct (feFloor_sound i h b b1 Hs E1) as [Hs1 Hv1]. destruct (IH _ _ _ Hs1 H) as [Hs' Hv']. split; [exact Hs'|].
    now rewrite Hv', Hv1.
  - exfalso. revert H. clear. induction l as [|j l IH]; intros H; [discriminate H|exact (IH H)].
Qed.

(** Frozen limbs are digits. *)
Definition frozenTop : list ival := (fun i => (0, 2 ^ feWidth i - 1)) <$> seq 0 10.
Definition freezeIn : list ival := match (fun t => (- t, t)) <$> looseTop with
  | (a, c) :: l => (a - 38, c + 38) :: l | [] => [] end.

Lemma freeze_bounds : absFreeze freezeIn = Some frozenTop.
Proof. vm_compute. reflexivity. Qed.

Lemma below_bounded t f : below t f -> bounded f ((fun m => (- m, m)) <$> t).
Proof. induction 1 as [|x m f t Hx _ IH]; constructor; [unfold within; cbn; lia|exact IH]. Qed.

Lemma frozen_range f : bounded f frozenTop -> 0 <= fval f < 2 ^ 255.
Proof.
  intros H. pose proof (Forall2_length _ _ _ H) as Hl. change (length frozenTop) with 10%nat in Hl.
  cbv [fval zsum seq foldr]. weights.
  repeat match goal with |- context [limb f ?i] =>
    let Hi := fresh "Hi" in pose proof (bounded_at f frozenTop i H ltac:(vm_compute; lia)) as Hi;
    let v := eval vm_compute in (bound frozenTop i) in change (bound frozenTop i) with v in Hi;
    unfold within in Hi; cbn [fst snd] in Hi; generalize dependent (limb f i); intros end.
  lia.
Qed.

Lemma feFreeze_spec h : loose h -> bounded (feFreeze h) frozenTop /\ fval (feFreeze h) = fval h mod p25519.
Proof.
  intros Hh. pose proof (below_length _ _ Hh) as Hlen. change (length looseTop) with 10%nat in Hlen.
  unfold feFreeze. destruct (feQuotient_eq h Hh) as [_ Hq]. pose proof (feQuotient_value h Hh) as Hqv.
  set (q := feQuotient h) in *. clearbody q.
  rewrite (i32_id (19 * q)) by lia. pose proof (below_at _ h 0 Hh) as H0. change (limb looseTop 0) with 110729625 in H0.
  rewrite i32_id by lia. set (h1 := set_ 0 (limb h 0 + 19 * q) h).
  assert (Hb1 : bounded h1 freezeIn).
  { unfold h1. change freezeIn with (<[0%nat := (- 110729625 - 38, 110729625 + 38)]> ((fun t => (- t, t)) <$> looseTop)).
    apply bounded_set; [now apply below_bounded|]. unfold within. cbn [fst snd]. lia. }
  assert (Hv1 : fval h1 = fval h + 19 * q).
  { unfold h1. rewrite fval_set by lia. change (2 ^ feOff 0) with 1. ring. }
  destruct (absFreeze_sound (seq 0 10) h1 freezeIn frozenTop Hb1 freeze_bounds) as [Hb2 Hv2]. split; [exact Hb2|].
  pose proof (frozen_range _ Hb2) as Hr. rewrite <- (Z.mod_small _ _ Hr).
  rewrite (eqm_mod_eq _ _ _ Hv2), Hv1. symmetry.
  pose proof (Z.div_mod (fval h) p25519 ltac:(discriminate)) as Hdm. rewrite <- Hqv in Hdm.
  pose proof (Z.mod_pos_bound (fval h) p25519 ltac:(reflexivity)) as Hm. unfold p25519 in *.
  apply Z.mod_unique with q; [left; lia|lia].
Qed.

(** ** Bytes of frozen limbs *)

Section write.
Context (h : FieldElement) (Hh : bounded h frozenTop).

Lemma frozen_length : length h = 10%nat.
Proof. exact (Forall2_length _ _ _ Hh). Qed.

Lemma frozen_at k : (k < 10)%nat -> 0 <= limb h k < 2 ^ feWidth k.
Proof.
  intros Hk. pose proof (bounded_at h frozenTop k Hh ltac:(vm_compute; lia)) as H.
  replace (bound frozenTop k) with (0, 2 ^ feWidth k - 1) in H by (do 10 (destruct k as [|k]; [reflexivity|]); lia).
  unfold within in H. cbn [fst snd] in H. lia.
Qed.

Lemma horner_drop k : (k <= 10)%nat -> fval h / 2 ^ feOff k = horner k (drop k h).
Proof.
  intros Hk. rewrite fval_horner by exact frozen_length. rewrite <- (take_drop k h) at 1. rewrite horner_app.
  assert (Hlt : length (take k h) = k) by (rewrite length_take, frozen_length; lia). rewrite Hlt. cbn [Nat.add].
  assert (Ew : widths 0 k = feOff k) by (do 11 (destruct k as [|k]; [reflexivity|]); lia). rewrite Ew.
  assert (Ho : 0 <= feOff k) by (unfold feOff; apply Z.div_pos; lia).
  assert (Hr : 0 <= horner 0 (take k h) < 2 ^ feOff k).
  { rewrite <- Ew. clear Ew Ho.
    assert (Hg : forall n a, (a + n <= 10)%nat -> 0 <= horner a (take n (drop a h)) < 2 ^ widths a n).
    { induction n as [|n IH]; intros a Ha; [rewrite take_0; cbn; lia|].
      rewrite (drop_S h (limb h a) a) by (unfold limb; destruct (nth_lookup_or_length h a 0); [assumption|rewrite frozen_length in *; lia]).
      rewrite firstn_cons. cbn [horner widths]. pose proof (IH (S a) ltac:(lia)). pose proof (frozen_at a ltac:(lia)).
      pose proof (widths_nonneg (S a) n). pose proof (feWidth_cases a). rewrite Z.pow_add_r by lia. nia. }
    apply (Hg k 0%nat). lia. }
  rewrite Z.mul_comm, Z.div_add by (apply Z.pow_nonzero; lia). rewrite Z.div_small by lia. lia.
Qed.

Lemma frozen_bits k r : (k < 10)%nat -> 0 <= r <= feWidth k ->
  fval h / 2 ^ (feOff k + r) = limb h k / 2 ^ r + 2 ^ (feWidth k - r) * horner (S k) (drop (S k) h).
Proof.
  intros Hk Hr. assert (0 <= feOff k) by (unfold feOff; apply Z.div_pos; lia).
  rewrite Z.pow_add_r, <- Z.div_div by (try apply Z.pow_nonzero; try apply Z.pow_pos_nonneg; lia).
  rewrite horner_drop by lia.
  rewrite (drop_S h (limb h k) k) by (unfold limb; destruct (nth_lookup_or_length h k 0); [assumption|rewrite frozen_length in *; lia]).
  cbn [horner].
  replace (2 ^ feWidth k) with (2 ^ (feWidth k - r) * 2 ^ r) by (rewrite <- Z.pow_add_r by lia; f_equal; lia).
  rewrite <- Z.mul_assoc, (Z.mul_comm (2 ^ r)), Z.mul_assoc. rewrite Z.div_add by (apply Z.pow_nonzero; lia). done.
Qed.

Lemma frozen_lo i k r : (k < 10)%nat -> 0 <= r -> (r + 8 <= feWidth k \/ k = 9%nat /\ r <= 25) ->
  8 * Z.of_nat i = feOff k + r -> byte (limb h k ≫ r) = (fval h / 2 ^ (8 * Z.of_nat i)) mod 256.
Proof.
  intros Hk Hr Hw E. pose proof (feWidth_cases k). unfold byte.
  rewrite E, frozen_bits by (try (destruct Hw as [|[-> ?]]; [lia|change (feWidth 9) with 25]); lia).
  rewrite Z.shiftr_div_pow2 by lia. destruct Hw as [Hw|[-> Hw]]; [now rewrite mod256_add by lia|].
  rewrite drop_ge by (rewrite frozen_length; lia). cbn [horner]. now rewrite Z.mul_0_r, Z.add_0_r.
Qed.

Lemma byte_lor_i32 a b : byte (Z.lor a (i32 b)) = byte (Z.lor a b).
Proof.
  assert (Hm : forall x, x mod 256 = Z.land x (Z.ones 8)) by (intros; now rewrite Z.land_ones by lia).
  unfold byte. rewrite !Hm, !Z.land_lor_distr_l, <- !Hm. f_equal. apply eqm_mod_eq. unfold i32.
  transitivity (b + 2 ^ 31 - 2 ^ 31); [|now replace (b + 2 ^ 31 - 2 ^ 31) with b by ring].
  apply eqm_sub; [|reflexivity]. apply (eqm_weaken (2 ^ 32)); [now exists (2 ^ 24)|apply eqm_mod].
Qed.

Lemma frozen_both i k r l : (k < 9)%nat -> 0 <= r -> 0 <= l <= 8 -> r + l = feWidth k ->
  8 * Z.of_nat i = feOff k + r ->
  byte (Z.lor (limb h k ≫ r) (i32 (limb h (S k) ≪ l))) = (fval h / 2 ^ (8 * Z.of_nat i)) mod 256.
Proof.
  intros Hk Hr Hl Hrl E. rewrite byte_lor_i32, E, frozen_bits by lia. replace (feWidth k - r) with l by lia.
  rewrite (drop_S h (limb h (S k)) (S k)) by (unfold limb; destruct (nth_lookup_or_length h (S k) 0); [assumption|rewrite frozen_length in *; lia]).
  cbn [horner]. assert (Hh0 : 0 <= limb h k ≫ r < 2 ^ l).
  { rewrite Z.shiftr_div_pow2 by lia. pose proof (frozen_at k ltac:(lia)) as Hf. pose proof (Z.pow_pos_nonneg 2 r).
    split; [apply Z.div_pos; lia|]. apply Z.div_lt_upper_bound; [lia|]. rewrite <- Z.pow_add_r by lia. rewrite Hrl. lia. }
  rewrite lor_add by lia. rewrite Z.shiftr_div_pow2 by lia. unfold byte.
  pose proof (feWidth_cases (S k)) as Hw. set (R := horner _ _).
  replace (limb h k / 2 ^ r + 2 ^ l * (limb h (S k) + 2 ^ feWidth (S k) * R))
    with (limb h k / 2 ^ r + limb h (S k) * 2 ^ l + 2 ^ (l + feWidth (S k)) * R)
    by (rewrite (Z.pow_add_r 2 l) by lia; ring).
  rewrite mod256_add by lia. done.
Qed.

Lemma feBytes_spec : isBytes 32 (feBytes h) /\ le_value (feBytes h) = fval h.
Proof.
  assert (E : feBytes h = (fun i => (fval h / 2 ^ (8 * Z.of_nat i)) mod 256) <$> seq 0 32).
  { unfold feBytes. cbv zeta. cbn [seq fmap list_fmap].
    repeat (apply f_equal2; [first
      [ apply frozen_lo; [lia|lia|left; vm_compute; discriminate|reflexivity]
      | apply frozen_both; [lia|lia|lia|reflexivity|reflexivity]
      | apply frozen_lo; [lia|lia|right; split; [reflexivity|lia]|reflexivity] ]|]). done. }
  rewrite E. split.
  - split; [done|]. apply Forall_fmap, Forall_forall. intros i _. cbn. apply Z.mod_pos_bound. lia.
  - rewrite le_value_bytes, Z.div_1_r. apply Z.mod_small. pose proof (frozen_range h Hh).
    change (2 ^ (8 * Z.of_nat 32)) with (2 * 2 ^ 255). lia.
Qed.
End write.

Lemma FeToBytes_spec f : loose f -> isBytes 32 (FeToBytes f) /\ le_value (FeToBytes f) = fval f mod p25519.
Proof. intros Hf. destruct (feFreeze_spec f Hf) as [Hb Hv]. rewrite <- Hv. now apply feBytes_spec. Qed.

(** A frozen element stays usable. *)
Definition midTop : list Z := flat_map (fun _ => [2 ^ 26; 2 ^ 25]) (seq 0 5).

Lemma feFreeze_mid f : loose f -> below midTop (feFreeze f).
Proof.
  intros Hf. destruct (feFreeze_spec f Hf) as [Hb _]. revert Hb. generalize (feFreeze f). intros r Hb.
  apply Forall2_same_length_lookup. split; [exact (frozen_length _ Hb)|].
  intros i x m Hx Hm. pose proof (lookup_lt_Some _ _ _ Hm) as Hi. change (length midTop) with 10%nat in Hi.
  pose proof (frozen_at _ Hb i Hi) as H. unfold limb in H. rewrite (nth_lookup_Some _ _ 0 x Hx) in H.
  assert (m = 2 ^ feWidth i) as ->; [|lia].
  do 10 (destruct i as [|i]; [vm_compute in Hm; now injection Hm as <-|]). lia.
Qed.

Lemma FeIsNegative_spec f : loose f -> FeIsNegative f = (fval f mod p25519) mod 2.
Proof.
  intros Hf. destruct (FeToBytes_spec f Hf) as [[Hl Hb] <-]. unfold FeIsNegative. change 1 with (Z.ones 1). rewrite Z.land_ones by lia.
  destruct (FeToBytes f) as [|b l]; [discriminate|]. cbn [limb nth le_value foldr]. change (2 ^ 1) with 2.
  unfold limb. cbn [nth]. fold (le_value l). replace (b + 256 * le_value l) with (b + 128 * le_value l * 2) by ring. now rewrite Z.mod_add by lia.
Qed.

Lemma foldl_lor_zero l : forall a, foldl Z.lor a l = 0 <-> a = 0 /\ Forall (fun x => x = 0) l.
Proof.
  induction l as [|x l IH]; intros a; cbn [foldl]; [split; [intros ->; auto|tauto]|].
  rewrite IH, Z.lor_eq_0_iff, Forall_cons. tauto.
Qed.

Lemma foldl_lor_byte l : forall a, 0 <= a < 256 -> Forall (fun x => 0 <= x < 256) l -> 0 <= foldl Z.lor a l < 256.
Proof.
  induction l as [|x l IH]; intros a Ha Hl; cbn [foldl]; [exact Ha|]. apply Forall_cons in Hl as [Hx Hl]. apply IH; [|exact Hl].
  split; [apply Z.lor_nonneg; lia|]. destruct (Z.eq_dec (Z.lor a x) 0) as [->|Hn]; [lia|].
  apply (Z.log2_lt_pow2 _ 8); [pose proof (proj2 (Z.lor_nonneg a x)); lia|]. rewrite Z.log2_lor by lia.
  apply Z.max_lub_lt; [destruct (Z.eq_dec a 0) as [->|]; [cbn; lia|apply Z.log2_lt_pow2; lia]|
                       destruct (Z.eq_dec x 0) as [->|]; [cbn; lia|apply Z.log2_lt_pow2; lia]].
Qed.

Lemma le_value_zero l : Forall (fun x => 0 <= x < 256) l -> le_value l = 0 <-> Forall (fun x => x = 0) l.
Proof.
  induction 1 as [|x l Hx Hl IH]; [done|]. cbn [le_value foldr]. fold (le_value l). rewrite Forall_cons, <- IH.
  pose proof (le_value_bound l Hl). lia.
Qed.

Lemma FeIsNonZero_spec f : loose f -> FeIsNonZero f = if fval f mod p25519 =? 0 then 0 else 1.
Proof.
  intros Hf. destruct (FeToBytes_spec f Hf) as [[Hl Hb] <-]. unfold FeIsNonZero.
  pose proof (foldl_lor_byte _ 0 ltac:(lia) Hb) as Hr. pose proof (foldl_lor_zero (FeToBytes f) 0) as Hz.
  rewrite <- le_value_zero in Hz by exact Hb. set (x := foldl Z.lor 0 (FeToBytes f)) in *. clearbody x.
  assert (Hx : forall y, 0 <= y < 256 -> Z.land (Z.lor (Z.lor (Z.lor y (y ≫ 4)) (Z.lor y (y ≫ 4) ≫ 2))
    (Z.lor (Z.lor y (y ≫ 4)) (Z.lor y (y ≫ 4) ≫ 2) ≫ 1)) 1 = if y =? 0 then 0 else 1).
  { intros y Hy. assert (Hall : forallb (fun n => let y := Z.of_nat n in
      Z.land (Z.lor (Z.lor (Z.lor y (y ≫ 4)) (Z.lor y (y ≫ 4) ≫ 2))
        (Z.lor (Z.lor y (y ≫ 4)) (Z.lor y (y ≫ 4) ≫ 2) ≫ 1)) 1 =? if y =? 0 then 0 else 1) (seq 0 256) = true)
      by (vm_compute; reflexivity).
    rewrite forallb_forall in Hall. specialize (Hall (Z.to_nat y)). cbv zeta in Hall. rewrite Z2Nat.id in Hall by lia.
    apply Z.eqb_eq, Hall, list_elem_of_In, elem_of_seq. lia. }
  cbv zeta. rewrite Hx by exact Hr. destruct (Z.eqb_spec x 0), (Z.eqb_spec (le_value (FeToBytes f)) 0); tauto.
Qed.

#[global] Opaque FeCombine FeMul FeSquare FeSquare2 FeFromBytes feFreeze FeToBytes FeAdd FeSub FeNeg.

(** * Powers *)

(** [f] represents [z ^ e]. *)
Definition isPow (z e : Z) (f : FieldElement) : Prop := loose f /\ [mod p25519] fval f == z ^ e /\ 0 <= e.

Lemma isPow_mul z a b f g : isPow z a f -> isPow z b g -> isPow z (a + b) (FeMul f g).
Proof.
  intros (Hf & Ef & Ha) (Hg & Eg & Hb). destruct (FeMul_spec f g Hf Hg) as [Ht Hv].
  split; [now apply tight_loose|]. split; [|lia]. rewrite Z.pow_add_r by lia. now rewrite Hv, Ef, Eg.
Qed.

Lemma isPow_square z a f : isPow z a f -> isPow z (2 * a) (FeSquare f).
Proof.
  intros (Hf & Ef & Ha). destruct (FeSquare_spec f Hf) as [Ht Hv].
  split; [now apply tight_loose|]. split; [|lia]. replace (2 * a) with (a + a) by ring.
  rewrite Z.pow_add_r by lia. now rewrite Hv, Ef.
Qed.

Lemma isPow_eq z e e' f : isPow z e f -> e = e' -> isPow z e' f.
Proof. now intros H <-. Qed.

Lemma isPow_times z n a f : isPow z a f -> isPow z (2 ^ Z.of_nat n * a) (squareTimes n f).
Proof.
  intros H. unfold squareTimes. induction n as [|n IH].
  - change (isPow z (1 * a) f). now rewrite Z.mul_1_l.
  - rewrite Nat.iter_succ. refine (isPow_eq _ _ _ _ (isPow_square _ _ _ IH) _).
    rewrite Nat2Z.inj_succ, Z.pow_succ_r by lia. ring.
Qed.

(** An assignment of an addition chain. *)
Lemma isPow_let z a e x (b : FieldElement -> FieldElement) :
  isPow z a x -> (forall t, isPow z a t -> isPow z e (b t)) -> isPow z e (let t := x in b t).
Proof. intros Hx H. exact (H x Hx). Qed.

Lemma isPow_one f : loose f -> isPow (fval f) 1 f.
Proof. intros Hf. split; [exact Hf|]. rewrite Z.pow_1_r. split; [reflexivity|discriminate]. Qed.

(** The next assignment of an addition chain computes the power [e]. *)
Ltac chain a :=
  lazymatch goal with |- isPow ?z ?e (let t := ?x in @?b t) =>
    refine (isPow_let z a e x b _ _);
      [eapply isPow_eq; [first [eapply isPow_mul; eassumption | eapply isPow_square; eassumption
                               | eapply isPow_times; eassumption]|reflexivity]
      |let t := fresh "t" in let H := fresh "H" in intros t H; cbv beta]
  end.

Lemma FeInvert_pow f : loose f -> isPow (fval f) (2 ^ 255 - 21) (FeInvert f).
Proof.
  intros Hf. pose proof (isPow_one f Hf) as H1. generalize dependent (fval f). intros z H1. cbv beta delta [FeInvert].
  chain 2. chain 8. chain 9. chain 11. chain 22. chain 31. chain (2 ^ 10 - 2 ^ 5). chain (2 ^ 10 - 1).
  chain (2 ^ 20 - 2 ^ 10). chain (2 ^ 20 - 1). chain (2 ^ 40 - 2 ^ 20). chain (2 ^ 40 - 1). chain (2 ^ 50 - 2 ^ 10).
  chain (2 ^ 50 - 1). chain (2 ^ 100 - 2 ^ 50). chain (2 ^ 100 - 1). chain (2 ^ 200 - 2 ^ 100). chain (2 ^ 200 - 1).
  chain (2 ^ 250 - 2 ^ 50). chain (2 ^ 250 - 1). chain (2 ^ 255 - 2 ^ 5).
  eapply isPow_eq; [eapply isPow_mul; eassumption|reflexivity].
Qed.

Lemma fePow22523_pow f : loose f -> isPow (fval f) (2 ^ 252 - 3) (fePow22523 f).
Proof.
  intros Hf. pose proof (isPow_one f Hf) as H1. generalize dependent (fval f). intros z H1. cbv beta delta [fePow22523].
  chain 2. chain 8. chain 9. chain 11. chain 22. chain 31. chain (2 ^ 10 - 2 ^ 5). chain (2 ^ 10 - 1).
  chain (2 ^ 20 - 2 ^ 10). chain (2 ^ 20 - 1). chain (2 ^ 40 - 2 ^ 20). chain (2 ^ 40 - 1). chain (2 ^ 50 - 2 ^ 10).
  chain (2 ^ 50 - 1). chain (2 ^ 100 - 2 ^ 50). chain (2 ^ 100 - 1). chain (2 ^ 200 - 2 ^ 100). chain (2 ^ 200 - 1).
  chain (2 ^ 250 - 2 ^ 50). chain (2 ^ 250 - 1). chain (2 ^ 252 - 2 ^ 2).
  eapply isPow_eq; [eapply isPow_mul; eassumption|reflexivity].
Qed.

#[global] Opaque FeInvert fePow22523.

(** C8: The arithmetic of field elements is exact modulo [2^255 - 19] and never leaves its
    machine integers: on limbs up to three times those of a carry chain, [FeMul],
    [FeSquare] and [FeSquare2] give the product, the square and twice the square with
    limbs of a carry chain; [FeInvert] gives the power [2^255 - 21], the inverse by
    Fermat; and [FeToBytes] writes the canonical 32 bytes of the value, which
    [FeFromBytes] reads back. *)
Theorem field_arithmetic f g : loose f -> loose g ->
  (tight (FeMul f g) /\ fval (FeMul f g) mod p25519 = (fval f * fval g) mod p25519) /\
  (tight (FeSquare f) /\ fval (FeSquare f) mod p25519 = (fval f * fval f) mod p25519) /\
  (tight (FeSquare2 f) /\ fval (FeSquare2 f) mod p25519 = (2 * (fval f * fval f)) mod p25519) /\
  (loose (FeInvert f) /\ fval (FeInvert f) mod p25519 = (fval f ^ (2 ^ 255 - 21)) mod p25519) /\
  (isBytes 32 (FeToBytes f) /\ le_value (FeToBytes f) = fval f mod p25519) /\
  (tight (FeFromBytes (FeToBytes f)) /\ fval (FeFromBytes (FeToBytes f)) mod p25519 = fval f mod p25519).
Proof.
  intros Hf Hg.
  assert (Hs : (fval f mod p25519) mod 2 ^ 255 = fval f mod p25519).
  { apply Z.mod_small. pose proof (Z.mod_pos_bound (fval f) p25519 eq_refl). unfold p25519 in *. lia. }
  destruct (FeMul_spec f g Hf Hg) as [H1 E1], (FeSquare_spec f Hf) as [H2 E2], (FeSquare2_spec f Hf) as [H3 E3].
  destruct (FeInvert_pow f Hf) as (H4 & E4 & _), (FeToBytes_spec f Hf) as [H5 E5].
  destruct (FeFromBytes_spec _ H5) as [H6 E6]. rewrite E5, Hs, eqm_mod in E6.
  split_and!; first [assumption | apply eqm_mod_eq; assumption | exact (proj1 H5) | exact (proj2 H5)].
Qed.

(** The elements zero and one satisfy the premises. *)
Lemma field_arithmetic_witness : tight (FeMul feZero feOne).
Proof.
  assert (Hz : loose feZero) by (repeat constructor; cbn; lia).
  assert (Ho : loose feOne) by (repeat constructor; cbn; lia).
  exact (proj1 (proj1 (field_arithmetic feZero feOne Hz Ho))).
Defined.
