(* ===== verification/EdPrimes.v ===== *)
(** Primality of the two moduli of Ed25519, the field prime [2^255 - 19] and the
    group order, by the certificates of [Primality]. *)

From Stdlib Require Import ZArith Lia Zpow_facts Zdivisibility.
From S2P Require Import Prelude NumTheory Primality.

Lemma prime_8574133 : Z.prime 8574133.
Proof. small_prime. Qed.
#[export] Hint Resolve prime_8574133 : primes.

Lemma prime_191951_386763 : Z.prime 1919519569386763.
Proof. pock [8574133; 127]. Qed.
#[export] Hint Resolve prime_191951_386763 : primes.

Lemma prime_754457_864801 : Z.prime 75445702479781427272750846543864801.
Proof. pock [1919519569386763; 75707]. Qed.
#[export] Hint Resolve prime_754457_864801 : primes.

Lemma prime_740582_340907 : Z.prime 74058212732561358302231226437062788676166966415465897661863160754340907.
Proof. pock [75445702479781427272750846543864801; 353]. Qed.
#[export] Hint Resolve prime_740582_340907 : primes.

Lemma prime_2_255_19 : Z.prime (2 ^ 255 - 19).
Proof. pock_fold 255 19 [74058212732561358302231226437062788676166966415465897661863160754340907]. Qed.
#[export] Hint Resolve prime_2_255_19 : primes.

Lemma prime_125755_178653 : Z.prime 1257559732178653.
Proof. pock [1224481; 531581]. Qed.
#[export] Hint Resolve prime_125755_178653 : primes.

Lemma prime_443415_930479 : Z.prime 4434155615661930479.
Proof. pock [1257559732178653]. Qed.
#[export] Hint Resolve prime_443415_930479 : primes.

Lemma prime_172054_510691 : Z.prime 172054593956031949258510691.
Proof. pock [4434155615661930479]. Qed.
#[export] Hint Resolve prime_172054_510691 : primes.

Lemma prime_197573_476339 : Z.prime 19757330305831588566944191468367130476339.
Proof. pock [172054593956031949258510691]. Qed.
#[export] Hint Resolve prime_197573_476339 : primes.

Lemma prime_276602_668747 : Z.prime 276602624281642239937218680557139826668747.
Proof. pock [19757330305831588566944191468367130476339]. Qed.
#[export] Hint Resolve prime_276602_668747 : primes.

Lemma prime_ed25519_L : Z.prime 7237005577332262213973186563042994240857116359379907606001950938285454250989.
Proof. pock_fold 252 (-27742317777372353535851937790883648493) [276602624281642239937218680557139826668747]. Qed.
#[export] Hint Resolve prime_ed25519_L : primes.
