(* ===== verification/EdCurve.v ===== *)
(** The curve of Ed25519 as a group: the specification the limb arithmetic of
    [EdGroup] refines.

    The field of [2^255 - 19] elements is a type with Leibniz equality, the curve
    is [-x^2 + y^2 = 1 + d x^2 y^2] with [d = -121665/121666], and its points form
    an abelian group under the complete addition law. *)

From Stdlib Require Import ZArith Lia Ring Field Zcong Zdivisibility Zpow_facts.
From stdpp Require Import base decidable proof_irrel.
From S2P Require Import Prelude NumTheory Primality EdField EdPrimes.

#[local] Open Scope Z_scope.

(** * The field *)

Lemma p25519_prime : Z.prime p25519.
Proof. exact prime_2_255_19. Qed.

Lemma p25519_pos : 2 < p25519.
Proof. reflexivity. Qed.

Record F := mkF { toZ : Z; toZ_ok : bool_decide (toZ mod p25519 = toZ) }.

Lemma ofZ_ok z : bool_decide ((z mod p25519) mod p25519 = z mod p25519).
Proof. apply bool_decide_pack, Z.mod_mod. discriminate. Qed.

Definition ofZ (z : Z) : F := mkF (z mod p25519) (ofZ_ok z).

Lemma F_eq a b : toZ a = toZ b -> a = b.
Proof. destruct a as [a Ha], b as [b Hb]. cbn. intros <-. f_equal. apply proof_irrel. Qed.

Lemma toZ_mod a : toZ a mod p25519 = toZ a.
Proof. apply (bool_decide_unpack _), toZ_ok. Qed.

Lemma toZ_range a : 0 <= toZ a < p25519.
Proof. rewrite <- toZ_mod. apply Z.mod_pos_bound. reflexivity. Qed.

Lemma ofZ_toZ a : ofZ (toZ a) = a.
Proof. apply F_eq, toZ_mod. Qed.

Lemma ofZ_eqm a b : ofZ a = ofZ b <-> [mod p25519] a == b.
Proof.
  rewrite eqm_iff. split; [intros H; exact (f_equal toZ H)|]. intros H. now apply F_eq.
Qed.

Lemma toZ_ofZ z : [mod p25519] toZ (ofZ z) == z.
Proof. apply eqm_mod. Qed.

Lemma toZ_ofZ_mod z : toZ (ofZ z) = z mod p25519.
Proof. reflexivity. Qed.

#[global] Instance F_eq_dec : EqDecision F.
Proof.
  intros a b. destruct (decide (toZ a = toZ b)) as [H|H]; [left; now apply F_eq|right; congruence].
Defined.

Definition F0 : F := ofZ 0.
Definition F1 : F := ofZ 1.
Definition Fadd (a b : F) : F := ofZ (toZ a + toZ b).
Definition Fmul (a b : F) : F := ofZ (toZ a * toZ b).
Definition Fsub (a b : F) : F := ofZ (toZ a - toZ b).
Definition Fopp (a : F) : F := ofZ (- toZ a).
Definition Finv (a : F) : F := ofZ (Z.invmod (toZ a) p25519).
Definition Fdiv (a b : F) : F := Fmul a (Finv b).

Declare Scope F_scope.
Delimit Scope F_scope with F.
Bind Scope F_scope with F.
Notation "0" := F0 : F_scope.
Notation "1" := F1 : F_scope.
Infix "+" := Fadd : F_scope.
Infix "*" := Fmul : F_scope.
Infix "-" := Fsub : F_scope.
Infix "/" := Fdiv : F_scope.
Notation "- x" := (Fopp x) : F_scope.

Lemma ofZ_add a b : ofZ (a + b) = (ofZ a + ofZ b)%F.
Proof. apply ofZ_eqm. now rewrite !toZ_ofZ. Qed.

Lemma ofZ_mul a b : ofZ (a * b) = (ofZ a * ofZ b)%F.
Proof. apply ofZ_eqm. now rewrite !toZ_ofZ. Qed.

Lemma ofZ_sub a b : ofZ (a - b) = (ofZ a - ofZ b)%F.
Proof. apply ofZ_eqm. now rewrite !toZ_ofZ. Qed.

Lemma ofZ_opp a : ofZ (- a) = (- ofZ a)%F.
Proof. apply ofZ_eqm. now rewrite !toZ_ofZ. Qed.

Lemma ofZ_0_iff z : ofZ z = 0%F <-> z mod p25519 = 0.
Proof. unfold F0. rewrite ofZ_eqm. apply eqm_0_mod. Qed.

Lemma ofZ_surj a : exists z, a = ofZ z.
Proof. exists (toZ a). symmetry. apply ofZ_toZ. Qed.

Lemma F_ring : ring_theory F0 F1 Fadd Fmul Fsub Fopp (@eq F).
Proof.
  unfold F0, F1.
  split; intros; repeat match goal with a : F |- _ => destruct (ofZ_surj a) as [? ->] end;
    rewrite <- ?ofZ_opp, <- ?ofZ_sub, <- ?ofZ_add, <- ?ofZ_mul, <- ?ofZ_add, <- ?ofZ_mul; f_equal; ring.
Qed.

Lemma F_field : field_theory F0 F1 Fadd Fmul Fsub Fopp Fdiv Finv (@eq F).
Proof.
  split; [exact F_ring|intros H%ofZ_eqm%eqm_iff; discriminate|reflexivity|].
  intros a Ha. unfold Finv, F1. rewrite <- (ofZ_toZ a) at 2. rewrite <- ofZ_mul. apply ofZ_eqm.
  rewrite Z.mul_comm. apply invmod_mul, prime_coprime; [exact p25519_prime|].
  intros Hz. apply Ha. rewrite <- (ofZ_toZ a). now apply ofZ_0_iff.
Qed.

Add Field F_field : F_field.

Lemma ofZ_0 : ofZ 0 = 0%F.
Proof. reflexivity. Qed.

Lemma ofZ_1 : ofZ 1 = 1%F.
Proof. reflexivity. Qed.

#[global] Opaque F0 F1 Fadd Fmul Fsub Fopp Finv ofZ.

Lemma F1_ne0 : 1%F <> 0%F.
Proof. exact (F_1_neq_0 F_field). Qed.

Lemma Fmul_0 a b : (a * b = 0)%F -> a = 0%F \/ b = 0%F.
Proof.
  intros H. destruct (decide (a = 0%F)) as [|Ha]; [now left|right].
  transitivity (Finv a * (a * b))%F; [field; exact Ha|rewrite H; ring].
Qed.

Lemma Fmul_ne0 a b : a <> 0%F -> b <> 0%F -> (a * b <> 0)%F.
Proof. intros Ha Hb [H|H]%Fmul_0; auto. Qed.

Lemma Fsub_0 a b : (a - b = 0)%F <-> a = b.
Proof.
  split; [intros H|intros ->; ring]. transitivity (a - b + b)%F; [ring|rewrite H; ring].
Qed.

Lemma Fdiv_eq a b c d : b <> 0%F -> d <> 0%F -> (a * d = c * b)%F -> (a / b = c / d)%F.
Proof.
  intros Hb Hd H. transitivity ((a * d) / (b * d))%F; [field; auto|]. rewrite H. field. auto.
Qed.

(** The square roots of a square. *)
Lemma Fsqr_eq a b : (a * a = b * b)%F -> a = b \/ a = (- b)%F.
Proof.
  intros H. assert (((a - b) * (a + b))%F = 0%F) as [H0|H0]%Fmul_0.
  { transitivity (a * a - b * b)%F; [ring|rewrite H; ring]. }
  - left. now apply Fsub_0.
  - right. apply Fsub_0. rewrite <- H0. ring.
Qed.

(** * Powers *)

Definition Fpow (a : F) (n : Z) : F := ofZ (toZ a ^ n).

Lemma Fpow_ofZ z n : 0 <= n -> Fpow (ofZ z) n = ofZ (z ^ n).
Proof. intros H. apply ofZ_eqm. now rewrite toZ_ofZ. Qed.

Lemma Fpow_add a m n : 0 <= m -> 0 <= n -> Fpow a (m + n) = (Fpow a m * Fpow a n)%F.
Proof. intros. unfold Fpow. rewrite <- ofZ_mul. f_equal. now apply Z.pow_add_r. Qed.

Lemma Fpow_1 a : Fpow a 1 = a.
Proof. unfold Fpow. rewrite Z.pow_1_r. apply ofZ_toZ. Qed.

Lemma Fpow_mul a b n : 0 <= n -> Fpow (a * b) n = (Fpow a n * Fpow b n)%F.
Proof.
  intros Hn. destruct (ofZ_surj a) as [x ->], (ofZ_surj b) as [y ->].
  rewrite <- ofZ_mul, !Fpow_ofZ, <- ofZ_mul by exact Hn. f_equal. apply Z.pow_mul_l.
Qed.

Lemma Fpow_fermat a : a <> 0%F -> Fpow a (p25519 - 1) = 1%F.
Proof.
  intros Ha. unfold Fpow. rewrite <- ofZ_1. apply ofZ_eqm, fermat; [exact p25519_prime|].
  intros H. apply Ha. rewrite <- (ofZ_toZ a). now apply ofZ_0_iff.
Qed.

Lemma Fpow_inv a : a <> 0%F -> Fpow a (p25519 - 2) = Finv a.
Proof.
  intros Ha. transitivity (Fpow a (p25519 - 2) * Fpow a 1 / a)%F; [rewrite Fpow_1; field; exact Ha|].
  rewrite <- Fpow_add by discriminate. change (p25519 - 2 + 1) with (p25519 - 1). rewrite Fpow_fermat by exact Ha.
  field. exact Ha.
Qed.

(** The exponents [(p - 1) / 2] and [(p - 5) / 8]. *)
Definition halfExp : Z := 2 ^ 254 - 10.
Definition rootExp : Z := 2 ^ 252 - 3.

Lemma halfExp_twice : halfExp + halfExp = p25519 - 1.
Proof. reflexivity. Qed.

Lemma rootExp_half : rootExp + rootExp + (rootExp + rootExp) + (1 + 1) = halfExp.
Proof. reflexivity. Qed.

Lemma halfExp_nonneg : 0 <= halfExp.
Proof. discriminate. Qed.

Lemma rootExp_nonneg : 0 <= rootExp.
Proof. discriminate. Qed.
#[global] Opaque halfExp rootExp.

(** A nonzero element is a square root of one after [halfExp] powers. *)
Lemma Fpow_half a : a <> 0%F -> Fpow a halfExp = 1%F \/ Fpow a halfExp = (- (1))%F.
Proof.
  intros Ha. destruct (Fsqr_eq (Fpow a halfExp) 1) as [H|H]; [|now left|now right].
  rewrite <- Fpow_add by exact halfExp_nonneg. rewrite halfExp_twice, Fpow_fermat by exact Ha. ring.
Qed.

(** The parity of an element, the sign of a coordinate, and of its opposite. *)
Definition odd (a : F) : Z := toZ a mod 2.

Lemma odd_opp a : a <> 0%F -> odd (- a) = 1 - odd a.
Proof.
  intros Ha. unfold odd. assert (E : toZ (- a) = p25519 - toZ a).
  { pose proof (toZ_range a). assert (toZ a <> 0).
    { intros E. apply Ha. rewrite <- (ofZ_toZ a), E. apply ofZ_0. }
    rewrite <- (ofZ_toZ a) at 1. rewrite <- ofZ_opp. apply (eqm_small p25519); [apply toZ_range|lia|].
    rewrite toZ_ofZ. exists (-1). lia. }
  rewrite E. change p25519 with (1 + (2 ^ 254 - 10) * 2).
  replace (1 + (2 ^ 254 - 10) * 2 - toZ a) with (1 - toZ a + (2 ^ 254 - 10) * 2) by ring.
  rewrite Z.mod_add by discriminate. rewrite Zminus_mod.
  pose proof (Z.mod_pos_bound (toZ a) 2 ltac:(lia)). assert (H2 : toZ a mod 2 = 0 \/ toZ a mod 2 = 1) by lia.
  destruct H2 as [-> | ->]; reflexivity.
Qed.
#[global] Opaque Fpow.

(** * The curve *)

Definition dF : F := (ofZ (-121665) / ofZ 121666)%F.

(** A square root of [-1]. *)
Definition iF : F := ofZ 19681161376707505956807079304988542015446066515923890162744021073123829784752.

Lemma iF_sqr : (iF * iF = - (1))%F.
Proof.
  unfold iF. rewrite <- ofZ_mul. transitivity (ofZ (- (1))); [|apply ofZ_opp].
  apply ofZ_eqm, eqm_iff. vm_compute. reflexivity.
Qed.

Lemma F2_ne0 : (1 + 1 <> 0)%F.
Proof.
  intros H. change ((ofZ 1 + ofZ 1)%F = 0%F) in H. rewrite <- ofZ_add in H. apply ofZ_0_iff in H. discriminate.
Qed.

Lemma ofZ_121666_ne0 : ofZ 121666 <> 0%F.
Proof. intros H%ofZ_0_iff. vm_compute in H. discriminate. Qed.

Lemma dF_ne0 : dF <> 0%F.
Proof.
  intros H. assert (Hz : ofZ (-121665) = 0%F).
  { transitivity (dF * ofZ 121666)%F; [unfold dF; field; exact ofZ_121666_ne0|rewrite H; ring]. }
  apply ofZ_0_iff in Hz. vm_compute in Hz. discriminate.
Qed.

(** Euler's criterion. *)
Lemma euler_nonsquare z s : (power (fold3 255 19) z halfExp + 1) mod p25519 = 0 -> ~ [mod p25519] s * s == z.
Proof.
  intros He Hs. assert (Hpos : Zpos (Z.to_pos halfExp) = halfExp) by (apply Z2Pos.id; reflexivity).
  assert (Hm : [mod p25519] z ^ halfExp == -1).
  { apply eqm_0_mod in He. destruct He as [k Hk]. rewrite <- Hpos.
    rewrite <- (powm_eqm p25519 (fold3 255 19) z) by (intros x; now apply fold3_eqm).
    exists k. unfold power in Hk. lia. }
  destruct (Z.eq_dec (s mod p25519) 0) as [H0|H0].
  - apply eqm_0_mod in H0. rewrite <- Hs, H0, Z.pow_0_l in Hm by reflexivity. apply eqm_iff in Hm. discriminate.
  - pose proof (fermat p25519 s p25519_prime H0) as Hf. pose proof halfExp_nonneg.
    rewrite <- Hs, <- Z.pow_2_r, <- Z.pow_mul_r in Hm by lia.
    replace (2 * halfExp) with (p25519 - 1) in Hm by (rewrite <- halfExp_twice; lia).
    rewrite Hf in Hm. apply eqm_iff in Hm. discriminate.
Qed.

Lemma dF_nonsquare s : (s * s)%F <> dF.
Proof.
  intros H. destruct (ofZ_surj s) as [z ->].
  apply (euler_nonsquare (-121665 * 121666) (z * 121666)); [vm_compute; reflexivity|].
  apply ofZ_eqm. rewrite !ofZ_mul.
  transitivity ((ofZ z * ofZ z) * (ofZ 121666 * ofZ 121666))%F; [ring|]. rewrite H. unfold dF.
  field. exact ofZ_121666_ne0.
Qed.
Lemma dF_def : dF = (ofZ (-121665) / ofZ 121666)%F.
Proof. reflexivity. Qed.
#[global] Opaque dF iF.

Definition onCurve (x y : F) : Prop := (y * y - x * x = 1 + dF * (x * x) * (y * y))%F.

(** The equation as a rewriting rule for [ring]. *)
Lemma onCurve_reduce x y : onCurve x y -> (x * x * (y * y) = Finv dF * (y * y - x * x - 1))%F.
Proof.
  unfold onCurve. intros H. rewrite H. pose proof dF_ne0. field. assumption.
Qed.

Lemma dF_inv : (dF * Finv dF = 1)%F.
Proof. pose proof dF_ne0. field. assumption. Qed.

Section completeness.
Context (x1 y1 x2 y2 e : F).
Context (H1 : onCurve x1 y1) (H2 : onCurve x2 y2) (He : (e * e = 1)%F).
Context (Hm : (dF * x1 * x2 * y1 * y2 = e)%F).

Lemma e_ne0 : e <> 0%F.
Proof. intros E. apply F1_ne0. rewrite <- He, E. ring. Qed.

Lemma coords_ne0 : x1 <> 0%F /\ y1 <> 0%F /\ x2 <> 0%F /\ y2 <> 0%F.
Proof. repeat split; intros E; apply e_ne0; rewrite <- Hm, E; ring. Qed.

(** The square [d] would be. *)
Lemma root_of_d s : (s * s = 1)%F ->
  ((iF * x1 + s * e * y1) * (iF * x1 + s * e * y1)
   = dF * ((x1 * y1 * (iF * x2 + s * y2)) * (x1 * y1 * (iF * x2 + s * y2))))%F.
Proof.
  intros Hs. pose proof iF_sqr as Hi.
  assert (Hm2 : (dF * (x1 * x1) * (y1 * y1) * (dF * (x2 * x2) * (y2 * y2)) = 1)%F).
  { rewrite <- He, <- Hm. ring. }
  assert (A : ((iF * x1 + s * e * y1) * (iF * x1 + s * e * y1)
               = (y1 * y1 - x1 * x1) + (1 + 1) * iF * s * x1 * y1 * e)%F) by ring [Hi Hs He].
  rewrite A, H1.
  transitivity (dF * (x1 * x1) * (y1 * y1) * (y2 * y2 - x2 * x2) + (1 + 1) * iF * s * x1 * y1 * e)%F.
  - rewrite H2. transitivity (dF * (x1 * x1) * (y1 * y1) * (dF * (x2 * x2) * (y2 * y2)) + dF * (x1 * x1) * (y1 * y1)
      + (1 + 1) * iF * s * x1 * y1 * e)%F; [rewrite Hm2; ring|ring].
  - rewrite <- Hm. ring [Hi Hs].
Qed.

Lemma not_minus_one : False.
Proof.
  destruct coords_ne0 as (Hx1 & Hy1 & Hx2 & Hy2).
  assert (Hd : forall s, (s * s = 1)%F -> (iF * x2 + s * y2 = 0)%F).
  { intros s Hs. destruct (decide (iF * x2 + s * y2 = 0)%F) as [|Hn]; [assumption|exfalso].
    apply (dF_nonsquare ((iF * x1 + s * e * y1) / (x1 * y1 * (iF * x2 + s * y2)))).
    transitivity ((iF * x1 + s * e * y1) * (iF * x1 + s * e * y1)
      / ((x1 * y1 * (iF * x2 + s * y2)) * (x1 * y1 * (iF * x2 + s * y2))))%F; [field; auto|].
    rewrite (root_of_d s Hs). field. auto. }
  pose proof (Hd 1%F ltac:(ring)) as E1. pose proof (Hd (- (1))%F ltac:(ring)) as E2.
  apply Hy2. destruct (Fmul_0 (1 + 1) y2) as [H|H]; [|now apply F2_ne0 in H|exact H].
  transitivity ((iF * x2 + 1 * y2) - (iF * x2 + - (1) * y2))%F; [ring|]. rewrite E1, E2. ring.
Qed.
End completeness.

(** The denominators of the addition law never vanish. *)
Lemma denominators x1 y1 x2 y2 : onCurve x1 y1 -> onCurve x2 y2 ->
  (1 + dF * x1 * x2 * y1 * y2 <> 0)%F /\ (1 - dF * x1 * x2 * y1 * y2 <> 0)%F.
Proof.
  intros H1 H2. split; intros H.
  - apply (not_minus_one x1 y1 x2 y2 (- (1))%F H1 H2); [ring|]. apply Fsub_0. rewrite <- H. ring.
  - apply (not_minus_one x1 y1 x2 y2 1%F H1 H2); [ring|]. symmetry. now apply Fsub_0.
Qed.

(** * The group *)

Record point := mkPoint { px : F; py : F; p_on : onCurve px py }.

Lemma point_eq P Q : px P = px Q -> py P = py Q -> P = Q.
Proof.
  destruct P as [x y H], Q as [x' y' H']. cbn. intros <- <-. f_equal. apply proof_irrel.
Qed.

#[global] Instance point_eq_dec : EqDecision point.
Proof.
  intros P Q. destruct (decide (px P = px Q /\ py P = py Q)) as [[? ?]|H].
  - left. now apply point_eq.
  - right. intros ->. now apply H.
Defined.

(** The complete addition law. *)
Definition xAdd (x1 y1 x2 y2 : F) : F := ((x1 * y2 + x2 * y1) / (1 + dF * x1 * x2 * y1 * y2))%F.
Definition yAdd (x1 y1 x2 y2 : F) : F := ((y1 * y2 + x1 * x2) / (1 - dF * x1 * x2 * y1 * y2))%F.

(** The denominators of a sum are nonzero. *)
Ltac dens P Q :=
  let H := fresh "Hp" in let H' := fresh "Hm" in
  destruct (denominators _ _ _ _ (p_on P) (p_on Q)) as [H H'].

Lemma padd_on P Q : onCurve (xAdd (px P) (py P) (px Q) (py Q)) (yAdd (px P) (py P) (px Q) (py Q)).
Proof.
  dens P Q. pose proof (onCurve_reduce _ _ (p_on P)) as R1. pose proof (onCurve_reduce _ _ (p_on Q)) as R2.
  pose proof dF_inv as Hd. destruct P as [x1 y1 H1], Q as [x2 y2 H2]. cbn [px py] in *.
  unfold onCurve, xAdd, yAdd. set (m := (dF * x1 * x2 * y1 * y2)%F) in *.
  assert (E : ((y1 * y2 + x1 * x2) * (y1 * y2 + x1 * x2) * ((1 + m) * (1 + m))
              - (x1 * y2 + x2 * y1) * (x1 * y2 + x2 * y1) * ((1 - m) * (1 - m))
              = (1 + m) * (1 + m) * ((1 - m) * (1 - m))
                + dF * ((x1 * y2 + x2 * y1) * (x1 * y2 + x2 * y1)) * ((y1 * y2 + x1 * x2) * (y1 * y2 + x1 * x2)))%F)
    by (unfold m; ring [R1 R2 Hd]).
  transitivity (((y1 * y2 + x1 * x2) * (y1 * y2 + x1 * x2) * ((1 + m) * (1 + m))
              - (x1 * y2 + x2 * y1) * (x1 * y2 + x2 * y1) * ((1 - m) * (1 - m)))
              / ((1 + m) * (1 + m) * ((1 - m) * (1 - m))))%F; [field; auto|]. rewrite E. field. auto.
Qed.

Definition padd (P Q : point) : point := mkPoint _ _ (padd_on P Q).

Lemma px_padd P Q : px (padd P Q) = xAdd (px P) (py P) (px Q) (py Q).
Proof. reflexivity. Qed.

Lemma py_padd P Q : py (padd P Q) = yAdd (px P) (py P) (px Q) (py Q).
Proof. reflexivity. Qed.

Lemma pzero_on : onCurve 0 1.
Proof. unfold onCurve. ring. Qed.
Definition pzero : point := mkPoint _ _ pzero_on.

Lemma pneg_on P : onCurve (- px P) (py P).
Proof.
  pose proof (p_on P) as H. unfold onCurve in *. transitivity (py P * py P - px P * px P)%F; [ring|]. rewrite H. ring.
Qed.
Definition pneg (P : point) : point := mkPoint _ _ (pneg_on P).

Lemma padd_comm P Q : padd P Q = padd Q P.
Proof.
  dens P Q. dens Q P. apply point_eq; cbn [px py padd]; unfold xAdd, yAdd; apply Fdiv_eq; auto; ring.
Qed.

Lemma padd_0_l P : padd pzero P = P.
Proof.
  apply point_eq; cbn [px py padd pzero]; unfold xAdd, yAdd; field; exact F1_ne0.
Qed.

Lemma padd_neg P : padd P (pneg P) = pzero.
Proof.
  dens P (pneg P). pose proof (p_on P) as H. unfold onCurve in H.
  apply point_eq; cbn [px py padd pneg pzero] in *; unfold xAdd, yAdd.
  - field. auto.
  - apply Fsub_0. transitivity (((py P * py P - px P * px P) - (1 + dF * (px P * px P) * (py P * py P)))
      / (1 - dF * px P * - px P * py P * py P))%F; [field; auto|]. rewrite H. field. auto.
Qed.

(** A sum whose first operand is given by fractions. *)
Lemma xAdd_frac a u b v x y : u <> 0%F -> v <> 0%F -> (1 + dF * (a / u) * x * (b / v) * y <> 0)%F ->
  (u * v + dF * a * b * x * y <> 0)%F /\
  xAdd (a / u) (b / v) x y = ((a * y * v + x * b * u) / (u * v + dF * a * b * x * y))%F.
Proof.
  intros Hu Hv Hn. assert (Hd : (u * v + dF * a * b * x * y <> 0)%F).
  { intros H. apply Hn. transitivity ((u * v + dF * a * b * x * y) / (u * v))%F; [field; auto|].
    rewrite H. field. auto. }
  split; [exact Hd|]. unfold xAdd. field. repeat split; auto.
Qed.

Lemma yAdd_frac a u b v x y : u <> 0%F -> v <> 0%F -> (1 - dF * (a / u) * x * (b / v) * y <> 0)%F ->
  (u * v - dF * a * b * x * y <> 0)%F /\
  yAdd (a / u) (b / v) x y = ((b * y * u + a * x * v) / (u * v - dF * a * b * x * y))%F.
Proof.
  intros Hu Hv Hn. assert (Hd : (u * v - dF * a * b * x * y <> 0)%F).
  { intros H. apply Hn. transitivity ((u * v - dF * a * b * x * y) / (u * v))%F; [field; auto|].
    rewrite H. field. auto. }
  split; [exact Hd|]. unfold yAdd. field. repeat split; auto.
Qed.

Lemma padd_rotate P Q R : padd (padd P Q) R = padd (padd Q R) P.
Proof.
  dens P Q. dens Q R. dens (padd P Q) R. dens (padd Q R) P.
  pose proof (onCurve_reduce _ _ (p_on P)) as R1. pose proof (onCurve_reduce _ _ (p_on Q)) as R2.
  pose proof (onCurve_reduce _ _ (p_on R)) as R3. pose proof dF_inv as Hd.
  destruct P as [x1 y1 H1], Q as [x2 y2 H2], R as [x3 y3 H3]. cbn [px py padd] in *.
  destruct (xAdd_frac _ _ _ _ x3 y3 Hp Hm Hp1) as [A1 E1]. destruct (yAdd_frac _ _ _ _ x3 y3 Hp Hm Hm1) as [A2 E2].
  destruct (xAdd_frac _ _ _ _ x1 y1 Hp0 Hm0 Hp2) as [A3 E3]. destruct (yAdd_frac _ _ _ _ x1 y1 Hp0 Hm0 Hm2) as [A4 E4].
  apply point_eq; cbn [px py padd].
  - etransitivity; [exact E1|]. etransitivity; [|symmetry; exact E3]. apply Fdiv_eq; [assumption..|].
    ring [R1 R2 R3 Hd].
  - etransitivity; [exact E2|]. etransitivity; [|symmetry; exact E4]. apply Fdiv_eq; [assumption..|].
    ring [R1 R2 R3 Hd].
Qed.

Lemma padd_assoc P Q R : padd P (padd Q R) = padd (padd P Q) R.
Proof. rewrite padd_rotate. apply padd_comm. Qed.

Lemma padd_0_r P : padd P pzero = P.
Proof. rewrite padd_comm. apply padd_0_l. Qed.

Lemma padd_neg_l P : padd (pneg P) P = pzero.
Proof. rewrite padd_comm. apply padd_neg. Qed.

Lemma padd_cancel P Q R : padd P Q = padd P R -> Q = R.
Proof.
  intros H. rewrite <- (padd_0_l Q), <- (padd_0_l R), <- (padd_neg_l P), <- !padd_assoc. now rewrite H.
Qed.

Lemma pneg_unique P Q : padd P Q = pzero -> Q = pneg P.
Proof. intros H. apply (padd_cancel P). now rewrite H, padd_neg. Qed.

Lemma padd_swap P Q R : padd P (padd Q R) = padd Q (padd P R).
Proof. now rewrite !padd_assoc, (padd_comm P Q). Qed.

Lemma pneg_padd P Q : pneg (padd P Q) = padd (pneg P) (pneg Q).
Proof.
  symmetry. apply pneg_unique. rewrite <- padd_assoc, (padd_swap Q), (padd_assoc P), !padd_neg. apply padd_0_l.
Qed.

Lemma pneg_pneg P : pneg (pneg P) = P.
Proof. symmetry. apply pneg_unique, padd_neg_l. Qed.

Lemma pneg_pzero : pneg pzero = pzero.
Proof. symmetry. apply pneg_unique, padd_0_l. Qed.

(** * Multiples *)

Definition nmul (n : nat) (P : point) : point := Nat.iter n (padd P) pzero.

Definition zmul (z : Z) (P : point) : point :=
  if z <? 0 then pneg (nmul (Z.to_nat (- z)) P) else nmul (Z.to_nat z) P.

Lemma zmul_0 P : zmul 0 P = pzero.
Proof. reflexivity. Qed.

Lemma zmul_succ z P : zmul (Z.succ z) P = padd P (zmul z P).
Proof.
  unfold zmul. destruct (Z.ltb_spec z 0) as [Hz|Hz].
  - replace (Z.to_nat (- z)) with (S (Z.to_nat (- Z.succ z))) by lia. unfold nmul at 3.
    rewrite Nat.iter_succ, pneg_padd, padd_assoc, padd_neg, padd_0_l.
    destruct (Z.ltb_spec (Z.succ z) 0); [reflexivity|]. replace (Z.succ z) with 0 by lia. symmetry. apply pneg_pzero.
  - destruct (Z.ltb_spec (Z.succ z) 0); [lia|]. rewrite Z2Nat.inj_succ by exact Hz. apply Nat.iter_succ.
Qed.

Lemma zmul_1 P : zmul 1 P = P.
Proof. change 1 with (Z.succ 0). rewrite zmul_succ, zmul_0. apply padd_0_r. Qed.

Lemma zmul_add a b P : zmul (a + b) P = padd (zmul a P) (zmul b P).
Proof.
  revert a. apply Z.bi_induction.
  - intros ? ? ->. reflexivity.
  - rewrite zmul_0, padd_0_l. reflexivity.
  - intros a. rewrite Z.add_succ_l, !zmul_succ, <- padd_assoc. split; [now intros ->|apply padd_cancel].
Qed.

Lemma zmul_opp a P : zmul (- a) P = pneg (zmul a P).
Proof. apply pneg_unique. rewrite <- zmul_add, Z.add_opp_diag_r. apply zmul_0. Qed.

Lemma zmul_sub a b P : zmul (a - b) P = padd (zmul a P) (pneg (zmul b P)).
Proof. rewrite <- zmul_opp, <- zmul_add. reflexivity. Qed.

Lemma zmul_mul a b P : zmul (a * b) P = zmul a (zmul b P).
Proof.
  revert a. apply Z.bi_induction.
  - intros ? ? ->. reflexivity.
  - now rewrite Z.mul_0_l, !zmul_0.
  - intros a. rewrite Z.mul_succ_l, zmul_succ, Z.add_comm, zmul_add. split; [now intros ->|apply padd_cancel].
Qed.

Lemma zmul_padd a P Q : zmul a (padd P Q) = padd (zmul a P) (zmul a Q).
Proof.
  revert a. apply Z.bi_induction.
  - intros ? ? ->. reflexivity.
  - now rewrite !zmul_0, padd_0_l.
  - intros a. rewrite !zmul_succ.
    replace (padd (padd P (zmul a P)) (padd Q (zmul a Q))) with (padd (padd P Q) (padd (zmul a P) (zmul a Q)))
      by (rewrite <- !padd_assoc; f_equal; apply padd_swap).
    split; [now intros ->|apply padd_cancel].
Qed.

Lemma zmul_pneg a P : zmul a (pneg P) = pneg (zmul a P).
Proof.
  apply pneg_unique. rewrite <- zmul_padd, padd_neg. clear P. revert a. apply Z.bi_induction.
  - intros ? ? ->. reflexivity.
  - apply zmul_0.
  - intros a. now rewrite zmul_succ, padd_0_l.
Qed.

Lemma zmul_pzero a : zmul a pzero = pzero.
Proof. rewrite <- (zmul_0 pzero), <- zmul_mul, Z.mul_0_r. reflexivity. Qed.

(** A point of order [n] is multiplied modulo [n]. *)
Lemma zmul_eqm n a b P : zmul n P = pzero -> [mod n] a == b -> zmul a P = zmul b P.
Proof.
  intros Hn [k Hk]. replace a with (k * n + b) by lia. now rewrite zmul_add, zmul_mul, Hn, zmul_pzero, padd_0_l.
Qed.
#[global] Opaque zmul padd.

(** * The base point *)

Definition Bx : Z := 15112221349535400772501151409588531511454012693041857206046113283949847762202.
Definition By : Z := 46316835694926478169428394003475163141307993866256225615783033603165251855960.

(** The curve equation without division. *)
Lemma onCurve_Z x y :
  [mod p25519] 121666 * (y * y - x * x) == 121666 - 121665 * (x * x) * (y * y) -> onCurve (ofZ x) (ofZ y).
Proof.
  intros H%ofZ_eqm. rewrite !ofZ_mul, !ofZ_sub, !ofZ_mul in H. unfold onCurve.
  transitivity ((ofZ 121666 * (ofZ y * ofZ y - ofZ x * ofZ x)) / ofZ 121666)%F; [field; exact ofZ_121666_ne0|].
  rewrite H, dF_def. change (-121665) with (- (121665)). rewrite ofZ_opp. field. exact ofZ_121666_ne0.
Qed.

Lemma B_on : onCurve (ofZ Bx) (ofZ By).
Proof. apply onCurve_Z, eqm_iff. vm_compute. reflexivity. Qed.

Definition B : point := mkPoint _ _ B_on.

(** [B] is the point [(x, 4/5)] with [x] even. *)
Lemma B_standard : py B = (ofZ 4 / ofZ 5)%F /\ Z.even Bx = true /\ 0 <= Bx < p25519.
Proof.
  split; [|split; [reflexivity|split; [discriminate|reflexivity]]].
  assert (H5 : ofZ 5 <> 0%F) by (intros H%ofZ_0_iff; vm_compute in H; discriminate).
  transitivity ((ofZ By * ofZ 5) / ofZ 5)%F; [cbn [py B]; field; exact H5|]. rewrite <- ofZ_mul.
  apply (f_equal (fun z => z / ofZ 5)%F), ofZ_eqm, eqm_iff. vm_compute. reflexivity.
Qed.
