(* ===== verification/EdGroup.v ===== *)
(** Group elements of Ed25519, [smpc-lib/crypto/ed/edwards25519.go]: the projective,
    extended, completed, cached and precomputed coordinates and the operations on them.

    Each representation has a relation to the points of [EdCurve], which includes the
    bounds of the limbs, and each operation is shown to implement the group law. *)

From Stdlib Require Import ZArith Lia Ring Field.
From stdpp Require Import list.
From S2P Require Import Prelude NumTheory Lagrange GoBig EdWords EdScalar EdField EdPrimes EdCurve.

#[local] Open Scope Z_scope.

(** * Constants *)

(** [d]. *)
Definition d : FieldElement :=
  [-10913610; 13857413; -15372611; 6949391; 114729; -8787816; -6275908; -3247719; -18696448; -12055116].

Definition d2 : FieldElement :=
  [-21827239; -5839606; -30745221; 13898782; 229458; 15978800; -12551817; -6495438; 29715968; 9444199].

Definition SqrtM1 : FieldElement :=
  [-32595792; -7943725; 9377950; 3500415; 12389472; -272473; -25146209; -2005654; 326686; 11406482].

(** * Representations *)

Record ProjectiveGroupElement := mkProj { pX : FieldElement; pY : FieldElement; pZ : FieldElement }.
Record ExtendedGroupElement := mkExt { eX : FieldElement; eY : FieldElement; eZ : FieldElement; eT : FieldElement }.
Record CompletedGroupElement := mkComp { kX : FieldElement; kY : FieldElement; kZ : FieldElement; kT : FieldElement }.
Record PreComputedGroupElement := mkPre { yPlusX : FieldElement; yMinusX : FieldElement; xy2d : FieldElement }.
Record CachedGroupElement := mkCached {
  cYPlusX : FieldElement; cYMinusX : FieldElement; cZ : FieldElement; cT2d : FieldElement }.

(** * Operations *)

Definition projZero : ProjectiveGroupElement := mkProj feZero feOne feOne.
Definition extZero : ExtendedGroupElement := mkExt feZero feOne feOne feZero.
Definition preZero : PreComputedGroupElement := mkPre feOne feOne feZero.
Definition cachedZero : CachedGroupElement := mkCached feOne feOne feOne feZero.

Definition projDouble (p : ProjectiveGroupElement) : CompletedGroupElement :=
  let rX := FeSquare (pX p) in
  let rZ := FeSquare (pY p) in
  let rT := FeSquare2 (pZ p) in
  let rY := FeAdd (pX p) (pY p) in
  let t0 := FeSquare rY in
  let rY := FeAdd rZ rX in
  let rZ := FeSub rZ rX in
  let rX := FeSub t0 rY in
  let rT := FeSub rT rZ in
  mkComp rX rY rZ rT.

Definition extToProjective (p : ExtendedGroupElement) : ProjectiveGroupElement := mkProj (eX p) (eY p) (eZ p).

Definition extDouble (p : ExtendedGroupElement) : CompletedGroupElement := projDouble (extToProjective p).

Definition extToCached (p : ExtendedGroupElement) : CachedGroupElement :=
  mkCached (FeAdd (eY p) (eX p)) (FeSub (eY p) (eX p)) (eZ p) (FeMul (eT p) d2).

Definition compToProjective (p : CompletedGroupElement) : ProjectiveGroupElement :=
  mkProj (FeMul (kX p) (kT p)) (FeMul (kY p) (kZ p)) (FeMul (kZ p) (kT p)).

Definition compToExtended (p : CompletedGroupElement) : ExtendedGroupElement :=
  mkExt (FeMul (kX p) (kT p)) (FeMul (kY p) (kZ p)) (FeMul (kZ p) (kT p)) (FeMul (kX p) (kY p)).

Definition geAdd (p : ExtendedGroupElement) (q : CachedGroupElement) : CompletedGroupElement :=
  let rX := FeAdd (eY p) (eX p) in
  let rY := FeSub (eY p) (eX p) in
  let rZ := FeMul rX (cYPlusX q) in
  let rY := FeMul rY (cYMinusX q) in
  let rT := FeMul (cT2d q) (eT p) in
  let rX := FeMul (eZ p) (cZ q) in
  let t0 := FeAdd rX rX in
  let rX := FeSub rZ rY in
  let rY := FeAdd rZ rY in
  let rZ := FeAdd t0 rT in
  let rT := FeSub t0 rT in
  mkComp rX rY rZ rT.

Definition geSub (p : ExtendedGroupElement) (q : CachedGroupElement) : CompletedGroupElement :=
  let rX := FeAdd (eY p) (eX p) in
  let rY := FeSub (eY p) (eX p) in
  let rZ := FeMul rX (cYMinusX q) in
  let rY := FeMul rY (cYPlusX q) in
  let rT := FeMul (cT2d q) (eT p) in
  let rX := FeMul (eZ p) (cZ q) in
  let t0 := FeAdd rX rX in
  let rX := FeSub rZ rY in
  let rY := FeAdd rZ rY in
  let rZ := FeSub t0 rT in
  let rT := FeAdd t0 rT in
  mkComp rX rY rZ rT.

Definition geMixedAdd (p : ExtendedGroupElement) (q : PreComputedGroupElement) : CompletedGroupElement :=
  let rX := FeAdd (eY p) (eX p) in
  let rY := FeSub (eY p) (eX p) in
  let rZ := FeMul rX (yPlusX q) in
  let rY := FeMul rY (yMinusX q) in
  let rT := FeMul (xy2d q) (eT p) in
  let t0 := FeAdd (eZ p) (eZ p) in
  let rX := FeSub rZ rY in
  let rY := FeAdd rZ rY in
  let rZ := FeAdd t0 rT in
  let rT := FeSub t0 rT in
  mkComp rX rY rZ rT.

Definition geMixedSub (p : ExtendedGroupElement) (q : PreComputedGroupElement) : CompletedGroupElement :=
  let rX := FeAdd (eY p) (eX p) in
  let rY := FeSub (eY p) (eX p) in
  let rZ := FeMul rX (yMinusX q) in
  let rY := FeMul rY (yPlusX q) in
  let rT := FeMul (xy2d q) (eT p) in
  let t0 := FeAdd (eZ p) (eZ p) in
  let rX := FeSub rZ rY in
  let rY := FeAdd rZ rY in
  let rZ := FeSub t0 rT in
  let rT := FeAdd t0 rT in
  mkComp rX rY rZ rT.

(** [C = A + B]. *)
Definition GeAdd (A B : ExtendedGroupElement) : ExtendedGroupElement := compToExtended (geAdd A (extToCached B)).

(** * Levels of limb bounds *)

(** Limbs up to [k] times those of a carry chain. *)
Definition upto (k : Z) (f : FieldElement) : Prop := below (Z.mul k <$> tightTop) f.

Definition fe (f : FieldElement) : F := ofZ (fval f).

Lemma upto_weaken a b f : a <= b -> upto a f -> upto b f.
Proof. intros H. apply below_weaken. repeat constructor; lia. Qed.

Lemma tight_upto f : tight f -> upto 1 f.
Proof. done. Qed.

Lemma upto_loose f : upto 3 f -> loose f.
Proof. apply below_weaken. repeat constructor; lia. Qed.

Lemma loose_upto f : loose f -> upto 3 f.
Proof. apply below_weaken. repeat constructor; lia. Qed.

Lemma upto_frozen f : loose f -> upto 2 (feFreeze f).
Proof. intros H%feFreeze_mid. revert H. apply below_weaken. repeat constructor; lia. Qed.

Lemma upto_mul f g : upto 3 f -> upto 3 g -> upto 1 (FeMul f g).
Proof. intros Hf%upto_loose Hg%upto_loose. exact (proj1 (FeMul_spec f g Hf Hg)). Qed.

Lemma upto_square f : upto 3 f -> upto 1 (FeSquare f).
Proof. intros Hf%upto_loose. exact (proj1 (FeSquare_spec f Hf)). Qed.

Lemma upto_square2 f : upto 3 f -> upto 1 (FeSquare2 f).
Proof. intros Hf%upto_loose. exact (proj1 (FeSquare2_spec f Hf)). Qed.

Lemma level_length a : length (Z.mul a <$> tightTop) = 10%nat.
Proof. rewrite length_fmap. reflexivity. Qed.

Lemma plus_levels a b : plus (Z.mul a <$> tightTop) (Z.mul b <$> tightTop) = Z.mul (a + b) <$> tightTop.
Proof. cbn. repeat (apply (f_equal2 cons); [ring|]). reflexivity. Qed.

Lemma levels_fit a b : a + b <= 3 -> Forall (fun m => m < 2 ^ 31) (plus (Z.mul a <$> tightTop) (Z.mul b <$> tightTop)).
Proof. intros H. rewrite plus_levels. repeat constructor; lia. Qed.

Lemma add_spec a b f g : a + b <= 3 -> upto a f -> upto b g -> upto (a + b) (FeAdd f g) /\ fe (FeAdd f g) = (fe f + fe g)%F.
Proof.
  intros H Hf Hg. destruct (FeAdd_spec (Z.mul a <$> tightTop) (Z.mul b <$> tightTop) f g (level_length a) (level_length b) (levels_fit a b H) Hf Hg) as [Hb Hv].
  rewrite plus_levels in Hb. split; [exact Hb|]. unfold fe. rewrite Hv. apply ofZ_add.
Qed.

Lemma sub_spec a b f g : a + b <= 3 -> upto a f -> upto b g -> upto (a + b) (FeSub f g) /\ fe (FeSub f g) = (fe f - fe g)%F.
Proof.
  intros H Hf Hg. destruct (FeSub_spec (Z.mul a <$> tightTop) (Z.mul b <$> tightTop) f g (level_length a) (level_length b) (levels_fit a b H) Hf Hg) as [Hb Hv].
  rewrite plus_levels in Hb. split; [exact Hb|]. unfold fe. rewrite Hv. apply ofZ_sub.
Qed.

Lemma upto_add a b f g : upto a f -> upto b g -> a + b <= 3 -> upto (a + b) (FeAdd f g).
Proof. intros. now apply add_spec. Qed.

Lemma upto_sub a b f g : upto a f -> upto b g -> a + b <= 3 -> upto (a + b) (FeSub f g).
Proof. intros. now apply sub_spec. Qed.

Lemma neg_spec a f : a <= 3 -> upto a f -> upto a (FeNeg f) /\ fe (FeNeg f) = (- fe f)%F.
Proof.
  intros H Hf. destruct (FeNeg_spec (Z.mul a <$> tightTop) f (level_length a) ltac:(repeat constructor; lia) Hf) as [Hb Hv].
  split; [exact Hb|]. unfold fe. rewrite Hv. apply ofZ_opp.
Qed.

Lemma upto_zero : upto 1 feZero.
Proof. repeat constructor; cbn; lia. Qed.
Lemma upto_one : upto 1 feOne.
Proof. repeat constructor; cbn; lia. Qed.

(** The level of an expression: the sum of the levels for sums, one for everything
    that passed a carry chain. *)
Ltac infer_level :=
  lazymatch goal with
  | |- upto _ (FeMul _ _) => apply upto_mul; level
  | |- upto _ (FeSquare _) => apply upto_square; level
  | |- upto _ (FeSquare2 _) => apply upto_square2; level
  | |- upto _ (FeAdd _ _) => eapply upto_add; [infer_level|infer_level|lia]
  | |- upto _ (FeSub _ _) => eapply upto_sub; [infer_level|infer_level|lia]
  | |- upto _ feZero => apply upto_zero
  | |- upto _ feOne => apply upto_one
  | |- upto _ _ => eassumption
  end
with level := eapply upto_weaken; [|infer_level]; lia.

Lemma fe_mul f g : upto 3 f -> upto 3 g -> fe (FeMul f g) = (fe f * fe g)%F.
Proof.
  intros Hf%upto_loose Hg%upto_loose. unfold fe. rewrite <- ofZ_mul. apply ofZ_eqm. exact (proj2 (FeMul_spec f g Hf Hg)).
Qed.

Lemma fe_square f : upto 3 f -> fe (FeSquare f) = (fe f * fe f)%F.
Proof.
  intros Hf%upto_loose. unfold fe. rewrite <- ofZ_mul. apply ofZ_eqm. exact (proj2 (FeSquare_spec f Hf)).
Qed.

Lemma fe_square2 f : upto 3 f -> fe (FeSquare2 f) = ((1 + 1) * (fe f * fe f))%F.
Proof.
  intros Hf%upto_loose. unfold fe. transitivity (ofZ (fval f * fval f) + ofZ (fval f * fval f))%F.
  - rewrite <- ofZ_add. apply ofZ_eqm. rewrite (proj2 (FeSquare2_spec f Hf)). replace (2 * (fval f * fval f)) with (fval f * fval f + fval f * fval f) by ring. reflexivity.
  - rewrite ofZ_mul. ring.
Qed.

Lemma fe_add a b f g : upto a f -> upto b g -> a + b <= 3 -> fe (FeAdd f g) = (fe f + fe g)%F.
Proof. intros Hf Hg H. now apply (add_spec a b). Qed.

Lemma fe_sub a b f g : upto a f -> upto b g -> a + b <= 3 -> fe (FeSub f g) = (fe f - fe g)%F.
Proof. intros Hf Hg H. now apply (sub_spec a b). Qed.

Lemma fe_zero : fe feZero = 0%F.
Proof. rewrite <- ofZ_0. now apply ofZ_eqm. Qed.

Lemma fe_one : fe feOne = 1%F.
Proof. rewrite <- ofZ_1. now apply ofZ_eqm. Qed.

Lemma fe_freeze f : loose f -> fe (feFreeze f) = fe f.
Proof. intros H. apply ofZ_eqm. rewrite (proj2 (feFreeze_spec f H)). apply eqm_mod. Qed.

(** Evaluate the field operations of a goal. *)
Ltac fe_eval :=
  repeat first
    [ rewrite fe_mul by level | rewrite fe_square by level | rewrite fe_square2 by level
    | erewrite fe_add by (first [infer_level | lia]) | erewrite fe_sub by (first [infer_level | lia])
    | rewrite fe_zero | rewrite fe_one ].

(** * What the representations mean *)

Definition isProj (p : ProjectiveGroupElement) (A : point) : Prop :=
  upto 2 (pX p) /\ upto 1 (pY p) /\ upto 1 (pZ p) /\
  fe (pZ p) <> 0%F /\ fe (pX p) = (px A * fe (pZ p))%F /\ fe (pY p) = (py A * fe (pZ p))%F.

Definition isExt (p : ExtendedGroupElement) (A : point) : Prop :=
  upto 2 (eX p) /\ upto 1 (eY p) /\ upto 1 (eZ p) /\ upto 1 (eT p) /\
  fe (eZ p) <> 0%F /\ fe (eX p) = (px A * fe (eZ p))%F /\ fe (eY p) = (py A * fe (eZ p))%F /\
  fe (eT p) = (px A * py A * fe (eZ p))%F.

Definition isComp (p : CompletedGroupElement) (A : point) : Prop :=
  upto 3 (kX p) /\ upto 3 (kY p) /\ upto 3 (kZ p) /\ upto 3 (kT p) /\
  fe (kZ p) <> 0%F /\ fe (kT p) <> 0%F /\ fe (kX p) = (px A * fe (kZ p))%F /\ fe (kY p) = (py A * fe (kT p))%F.

Definition isPre (p : PreComputedGroupElement) (A : point) : Prop :=
  upto 3 (yPlusX p) /\ upto 3 (yMinusX p) /\ upto 3 (xy2d p) /\
  fe (yPlusX p) = (py A + px A)%F /\ fe (yMinusX p) = (py A - px A)%F /\
  fe (xy2d p) = ((1 + 1) * dF * px A * py A)%F.

Definition isCached (p : CachedGroupElement) (A : point) : Prop :=
  upto 3 (cYPlusX p) /\ upto 3 (cYMinusX p) /\ upto 3 (cZ p) /\ upto 3 (cT2d p) /\
  fe (cZ p) <> 0%F /\ fe (cYPlusX p) = ((py A + px A) * fe (cZ p))%F /\
  fe (cYMinusX p) = ((py A - px A) * fe (cZ p))%F /\
  fe (cT2d p) = ((1 + 1) * dF * px A * py A * fe (cZ p))%F.

(** ** Constants *)

Lemma upto_d : upto 1 d.
Proof. repeat constructor; cbn; lia. Qed.
Lemma upto_d2 : upto 1 d2.
Proof. repeat constructor; cbn; lia. Qed.
Lemma upto_SqrtM1 : upto 1 SqrtM1.
Proof. repeat constructor; cbn; lia. Qed.

Lemma dF_unique f : [mod p25519] fval f * 121666 == -121665 -> fe f = dF.
Proof.
  intros H. transitivity ((fe f * ofZ 121666) / ofZ 121666)%F; [field; exact ofZ_121666_ne0|].
  unfold fe. rewrite <- ofZ_mul. apply ofZ_eqm in H. rewrite H. exact (eq_sym dF_def).
Qed.

Lemma fe_d : fe d = dF.
Proof. apply dF_unique, eqm_iff. vm_compute. reflexivity. Qed.

Lemma fe_d2 : fe d2 = ((1 + 1) * dF)%F.
Proof.
  transitivity (fe d + fe d)%F; [|rewrite fe_d; ring]. unfold fe. rewrite <- ofZ_add. apply ofZ_eqm, eqm_iff.
  vm_compute. reflexivity.
Qed.

Lemma fe_SqrtM1 : (fe SqrtM1 * fe SqrtM1 = - (1))%F.
Proof.
  unfold fe. rewrite <- ofZ_mul, <- ofZ_1, <- ofZ_opp. apply ofZ_eqm, eqm_iff. vm_compute. reflexivity.
Qed.

(** ** The group law *)

Lemma extZero_spec : isExt extZero pzero.
Proof.
  unfold isExt. cbn [eX eY eZ eT extZero]. rewrite fe_zero, fe_one. cbn [px py pzero].
  split_and!; try level; [exact F1_ne0|ring..].
Qed.

Lemma extToProjective_spec p A : isExt p A -> isProj (extToProjective p) A.
Proof. intros (HX & HY & HZ & HT & Hz & EX & EY & ET). unfold isProj. cbn. auto 10. Qed.

Lemma projDouble_spec p A : isProj p A -> isComp (projDouble p) (padd A A).
Proof.
  intros (HX & HY & HZ & Hz & EX & EY). destruct (denominators _ _ _ _ (p_on A) (p_on A)) as [Hp Hm].
  pose proof (p_on A) as Hc. unfold onCurve in Hc.
  assert (EZ : (fe (pY p) * fe (pY p) - fe (pX p) * fe (pX p)
                = fe (pZ p) * fe (pZ p) * (1 + dF * px A * px A * py A * py A))%F).
  { rewrite EX, EY. transitivity (fe (pZ p) * fe (pZ p) * (py A * py A - px A * px A))%F; [ring|]. rewrite Hc. ring. }
  unfold isComp. cbn [kX kY kZ kT projDouble].
  assert (HZ' : upto 2 (FeSub (FeSquare (pY p)) (FeSquare (pX p)))) by level.
  split_and!; try level.
  - fe_eval. rewrite EZ. repeat apply Fmul_ne0; assumption.
  - fe_eval. rewrite EZ. intros H. apply (Fmul_ne0 (fe (pZ p) * fe (pZ p)) _ (Fmul_ne0 _ _ Hz Hz) Hm). rewrite <- H. ring.
  - fe_eval. rewrite EZ, EX, EY, px_padd. unfold xAdd. field. assumption.
  - fe_eval. rewrite EZ, EX, EY, py_padd. unfold yAdd. field. assumption.
Qed.

Lemma extDouble_spec p A : isExt p A -> isComp (extDouble p) (padd A A).
Proof. intros H. apply projDouble_spec. now apply extToProjective_spec. Qed.

Lemma compToProjective_spec p A : isComp p A -> isProj (compToProjective p) A.
Proof.
  intros (HX & HY & HZ & HT & Hz & Ht & EX & EY). unfold isProj. cbn [pX pY pZ compToProjective].
  split_and!; try level; fe_eval; rewrite ?EX, ?EY; [now apply Fmul_ne0|ring..].
Qed.

Lemma compToExtended_spec p A : isComp p A -> isExt (compToExtended p) A.
Proof.
  intros (HX & HY & HZ & HT & Hz & Ht & EX & EY). unfold isExt. cbn [eX eY eZ eT compToExtended].
  split_and!; try level; fe_eval; rewrite ?EX, ?EY; [now apply Fmul_ne0|ring..].
Qed.

Lemma extToCached_spec p A : isExt p A -> isCached (extToCached p) A.
Proof.
  intros (HX & HY & HZ & HT & Hz & EX & EY & ET). pose proof upto_d2. unfold isCached. cbn [cYPlusX cYMinusX cZ cT2d extToCached].
  split_and!; try level; [assumption|..]; fe_eval; rewrite ?EX, ?EY, ?ET, ?fe_d2; ring.
Qed.

(** The completed sum of [A] and [B] scaled by [w]. *)
Lemma completed_sum X Y Z1 T A B w :
  upto 3 X -> upto 3 Y -> upto 3 Z1 -> upto 3 T -> w <> 0%F ->
  fe X = (w * (px A * py B + px B * py A))%F -> fe Y = (w * (py A * py B + px A * px B))%F ->
  fe Z1 = (w * (1 + dF * px A * px B * py A * py B))%F -> fe T = (w * (1 - dF * px A * px B * py A * py B))%F ->
  isComp (mkComp X Y Z1 T) (padd A B).
Proof.
  intros HX HY HZ HT Hw EX EY EZ ET. destruct (denominators _ _ _ _ (p_on A) (p_on B)) as [Hp Hm].
  unfold isComp. cbn [kX kY kZ kT]. rewrite EX, EY, EZ, ET, px_padd, py_padd. unfold xAdd, yAdd.
  split_and!; auto; [now apply Fmul_ne0|now apply Fmul_ne0|field; auto..].
Qed.

Lemma F2_scale w : w <> 0%F -> ((1 + 1) * w <> 0)%F.
Proof. apply Fmul_ne0, F2_ne0. Qed.

Lemma geAdd_spec p q A B : isExt p A -> isCached q B -> isComp (geAdd p q) (padd A B).
Proof.
  intros (HX & HY & HZ & HT & Hz & EX & EY & ET) (HP & HM & HZ' & HT' & Hz' & EP & EM & ET').
  apply (completed_sum _ _ _ _ A B ((1 + 1) * (fe (eZ p) * fe (cZ q)))%F); try level;
    [now apply F2_scale, Fmul_ne0|..]; fe_eval; rewrite ?EX, ?EY, ?ET, ?EP, ?EM, ?ET'; ring.
Qed.

Lemma geMixedAdd_spec p q A B : isExt p A -> isPre q B -> isComp (geMixedAdd p q) (padd A B).
Proof.
  intros (HX & HY & HZ & HT & Hz & EX & EY & ET) (HP & HM & HT' & EP & EM & ET').
  apply (completed_sum _ _ _ _ A B ((1 + 1) * fe (eZ p))%F); try level;
    [now apply F2_scale|..]; fe_eval; rewrite ?EX, ?EY, ?ET, ?EP, ?EM, ?ET'; ring.
Qed.

(** Subtraction adds the negated operand. *)
Definition cachedNeg (q : CachedGroupElement) : CachedGroupElement :=
  mkCached (cYMinusX q) (cYPlusX q) (cZ q) (FeNeg (cT2d q)).
Definition preNeg (q : PreComputedGroupElement) : PreComputedGroupElement :=
  mkPre (yMinusX q) (yPlusX q) (FeNeg (xy2d q)).

Lemma cachedNeg_spec q B : isCached q B -> isCached (cachedNeg q) (pneg B).
Proof.
  intros (HP & HM & HZ & HT & Hz & EP & EM & ET). destruct (neg_spec 3 (cT2d q) ltac:(lia) HT) as [Hn En].
  unfold isCached. cbn [cYPlusX cYMinusX cZ cT2d cachedNeg px py pneg]. rewrite En, EP, EM, ET.
  split_and!; auto; ring.
Qed.

Lemma preNeg_spec q B : isPre q B -> isPre (preNeg q) (pneg B).
Proof.
  intros (HP & HM & HT & EP & EM & ET). destruct (neg_spec 3 (xy2d q) ltac:(lia) HT) as [Hn En].
  unfold isPre. cbn [yPlusX yMinusX xy2d preNeg px py pneg]. rewrite En, EP, EM, ET.
  split_and!; auto; ring.
Qed.

Lemma geSub_spec p q A B : isExt p A -> isCached q B -> isComp (geSub p q) (padd A (pneg B)).
Proof.
  intros (HX & HY & HZ & HT & Hz & EX & EY & ET) (HP & HM & HZ' & HT' & Hz' & EP & EM & ET').
  apply (completed_sum _ _ _ _ A (pneg B) ((1 + 1) * (fe (eZ p) * fe (cZ q)))%F); try level;
    [now apply F2_scale, Fmul_ne0|..]; fe_eval; rewrite ?EX, ?EY, ?ET, ?EP, ?EM, ?ET'; cbn [px py pneg]; ring.
Qed.

Lemma geMixedSub_spec p q A B : isExt p A -> isPre q B -> isComp (geMixedSub p q) (padd A (pneg B)).
Proof.
  intros (HX & HY & HZ & HT & Hz & EX & EY & ET) (HP & HM & HT' & EP & EM & ET').
  apply (completed_sum _ _ _ _ A (pneg B) ((1 + 1) * fe (eZ p))%F); try level;
    [now apply F2_scale|..]; fe_eval; rewrite ?EX, ?EY, ?ET, ?EP, ?EM, ?ET'; cbn [px py pneg]; ring.
Qed.

Lemma GeAdd_spec p q A B : isExt p A -> isExt q B -> isExt (GeAdd p q) (padd A B).
Proof. intros Hp Hq. apply compToExtended_spec, geAdd_spec; [exact Hp|]. now apply extToCached_spec. Qed.

Lemma projZero_spec : isProj projZero pzero.
Proof. exact (extToProjective_spec _ _ extZero_spec). Qed.

Lemma preZero_spec : isPre preZero pzero.
Proof.
  unfold isPre. cbn [yPlusX yMinusX xy2d preZero]. rewrite fe_zero, fe_one. cbn [px py pzero].
  split_and!; try level; ring.
Qed.

Lemma cachedZero_spec : isCached cachedZero pzero.
Proof.
  unfold isCached. cbn [cYPlusX cYMinusX cZ cT2d cachedZero]. rewrite fe_zero, fe_one. cbn [px py pzero].
  split_and!; try level; [exact F1_ne0|ring..].
Qed.

(** C5: The operations on the coordinates implement the group law of the curve: [Double]
    of extended and projective elements, [geAdd], [geSub], [geMixedAdd], [geMixedSub] and
    [GeAdd] give elements that represent the sum or difference of the points their
    arguments represent, the conversions keep the point, and the limbs of every result
    are small enough for the next operation. *)
Theorem group_operations p q r e A C : isExt p A -> isExt q C -> isProj r A -> isPre e C ->
  isComp (extDouble p) (padd A A) /\ isComp (projDouble r) (padd A A) /\
  isComp (geAdd p (extToCached q)) (padd A C) /\ isComp (geSub p (extToCached q)) (padd A (pneg C)) /\
  isComp (geMixedAdd p e) (padd A C) /\ isComp (geMixedSub p e) (padd A (pneg C)) /\
  isExt (GeAdd p q) (padd A C) /\ isProj (extToProjective p) A /\
  forall k P, isComp k P -> isProj (compToProjective k) P /\ isExt (compToExtended k) P.
Proof.
  intros Hp Hq Hr He. pose proof (extToCached_spec q C Hq) as Hc. split_and!.
  - now apply extDouble_spec.
  - now apply projDouble_spec.
  - now apply geAdd_spec.
  - now apply geSub_spec.
  - now apply geMixedAdd_spec.
  - now apply geMixedSub_spec.
  - now apply GeAdd_spec.
  - now apply extToProjective_spec.
  - intros k P Hk. split; [now apply compToProjective_spec|now apply compToExtended_spec].
Qed.

(** The neutral element in all representations. *)
Lemma group_operations_witness : isExt (GeAdd extZero extZero) pzero.
Proof.
  pose proof (group_operations extZero extZero projZero preZero pzero pzero
    extZero_spec extZero_spec projZero_spec preZero_spec) as (_ & _ & _ & _ & _ & _ & H & _).
  now rewrite padd_0_l in H.
Defined.
