(* ===== verification/EdPoint.v ===== *)
(** The encoding of Ed25519 points in 32 bytes, [ToBytes] and [FromBytes] of
    [smpc-lib/crypto/ed/edwards25519.go]: the [y] coordinate with the parity of [x] in
    the last bit.

    [FromBytes] takes the square root of [(y^2 - 1) / (d y^2 + 1)] by a power; it is
    shown to succeed exactly when the root exists, and the two functions to be inverse
    to each other on the points of the curve. *)

From Stdlib Require Import ZArith Lia Ring Field.
From stdpp Require Import list.
From S2P Require Import Prelude NumTheory Lagrange GoBig EdWords EdScalar EdField EdPrimes EdCurve EdGroup.

#[local] Open Scope Z_scope.

(** The [ToBytes] methods: [s[31] ^= FeIsNegative(&x) << 7]. *)
Definition pointBytes (X Y Z1 : FieldElement) : list Z :=
  let recip := FeInvert Z1 in
  let x := FeMul X recip in
  let y := FeMul Y recip in
  let s := FeToBytes y in
  set_ 31 (Z.lxor (limb s 31) (byte (FeIsNegative x ≪ 7))) s.

Definition projToBytes (p : ProjectiveGroupElement) : list Z := pointBytes (pX p) (pY p) (pZ p).
Definition extToBytes (p : ExtendedGroupElement) : list Z := pointBytes (eX p) (eY p) (eZ p).

(** The end of [FromBytes]: choose the root of the given sign. *)
Definition fixSign (s : list Z) (X Y : FieldElement) : ExtendedGroupElement :=
  let neg := FeIsNegative X in
  let X := feFreeze X in
  let X := if neg =? limb s 31 ≫ 7 then X else FeNeg X in
  mkExt X Y feOne (FeMul X Y).

(** [FromBytes] on the element [p]: the element it leaves, also when it returns
    [false].  [FeToBytes] and [FeIsNegative] leave the frozen limbs in [p.X]; the bytes
    [tmpX] and [tmp2] are never used. *)
Definition FromBytes (p : ExtendedGroupElement) (s : list Z) : ExtendedGroupElement * bool :=
  let Y := FeFromBytes s in
  let Z1 := feOne in
  let u := FeSquare Y in
  let v := FeMul u d in
  let u := FeSub u Z1 in
  let v := FeAdd v Z1 in
  let v3 := FeSquare v in
  let v3 := FeMul v3 v in
  let X := FeSquare v3 in
  let X := FeMul X v in
  let X := FeMul X u in
  let X := fePow22523 X in
  let X := FeMul X v3 in
  let X := FeMul X u in
  let vxx := FeSquare X in
  let vxx := FeMul vxx v in
  if FeIsNonZero (FeSub vxx u) =? 1
  then if FeIsNonZero (FeAdd vxx u) =? 1 then (mkExt X Y Z1 (eT p), false)
       else (fixSign s (feFreeze (FeMul X SqrtM1)) Y, true)
  else (fixSign s X Y, true).

(** * Encoding *)

(** The number a point is encoded as. *)
Definition encoding (A : point) : Z := toZ (py A) + 2 ^ 255 * odd (px A).

Lemma odd_range a : 0 <= odd a < 2.
Proof. apply Z.mod_pos_bound. reflexivity. Qed.

Lemma fe_invert f : upto 3 f -> fe f <> 0%F -> upto 3 (FeInvert f) /\ fe (FeInvert f) = Finv (fe f).
Proof.
  intros Hf Hz. destruct (FeInvert_pow f (upto_loose f Hf)) as (Hl & He & _). split; [now apply loose_upto|].
  rewrite <- Fpow_inv by exact Hz. unfold fe at 2. rewrite Fpow_ofZ by discriminate. now apply ofZ_eqm.
Qed.

Lemma le_value_set k v s : (k < length s)%nat -> le_value (set_ k v s) = le_value s + (v - limb s k) * 256 ^ Z.of_nat k.
Proof.
  unfold set_, limb. revert k. induction s as [|x s IH]; intros [|k] Hk; cbn [length] in Hk; try lia.
  - change (v + 256 * le_value s = x + 256 * le_value s + (v - x) * 1). ring.
  - change (x + 256 * le_value (<[k:=v]> s) = x + 256 * le_value s + (v - nth k s 0) * 256 ^ Z.of_nat (S k)).
    rewrite IH by lia. rewrite Nat2Z.inj_succ, Z.pow_succ_r by lia. ring.
Qed.

Lemma limb_last s n : isBytes (S n) s -> limb s n = le_value s / 256 ^ Z.of_nat n.
Proof.
  intros [Hl Hb]. rewrite <- le_value_drop by exact Hb. unfold limb.
  destruct (lookup_lt_is_Some_2 s n ltac:(lia)) as [x Hx]. rewrite (nth_lookup_Some _ _ _ _ Hx).
  rewrite (drop_S _ _ _ Hx), (drop_ge s (S n)) by lia. cbn. lia.
Qed.

Lemma lxor_top x : 0 <= x < 128 -> Z.lxor x 128 = x + 128.
Proof.
  intros H. symmetry. apply Z.add_nocarry_lxor, Z.bits_inj'. intros n Hn. rewrite Z.land_spec, Z.bits_0.
  change 128 with (2 ^ 7). rewrite Z.pow2_bits_eqb by lia. destruct (Z.eqb_spec 7 n) as [<-|]; [|apply andb_false_r].
  rewrite (Z.bits_above_log2 x 7), andb_false_l; [done|lia|].
  destruct (Z.eq_dec x 0) as [->|]; [reflexivity|]. apply Z.log2_lt_pow2; lia.
Qed.

(** The sign goes to the last bit of the last byte. *)
Lemma set_sign s b : isBytes 32 s -> le_value s < 2 ^ 255 -> 0 <= b < 2 ->
  isBytes 32 (set_ 31 (Z.lxor (limb s 31) (byte (b ≪ 7))) s) /\
  le_value (set_ 31 (Z.lxor (limb s 31) (byte (b ≪ 7))) s) = le_value s + 2 ^ 255 * b.
Proof.
  intros Hs Hv Hb. pose proof (limb_last s 31 Hs) as Ht. destruct Hs as [Hl Hbs]. pose proof (le_value_bound s Hbs) as [H0 _].
  assert (Hx : 0 <= limb s 31 < 128).
  { rewrite Ht. split; [apply Z.div_pos; lia|]. apply Z.div_lt_upper_bound; [lia|]. change (256 ^ Z.of_nat 31 * 128) with (2 ^ 255). exact Hv. }
  assert (E : Z.lxor (limb s 31) (byte (b ≪ 7)) = limb s 31 + 128 * b).
  { assert (b = 0 \/ b = 1) as [-> | ->] by lia.
    - change (byte (0 ≪ 7)) with 0. rewrite Z.lxor_0_r. ring.
    - change (byte (1 ≪ 7)) with 128. rewrite lxor_top by exact Hx. ring. }
  rewrite E. split; [split|].
  - now rewrite length_set.
  - unfold set_. apply Forall_insert; [exact Hbs|lia].
  - rewrite le_value_set by lia. change (256 ^ Z.of_nat 31) with (2 ^ 248). change (2 ^ 255) with (128 * 2 ^ 248). ring.
Qed.

Lemma pointBytes_spec X Y Z1 A : upto 3 X -> upto 3 Y -> upto 3 Z1 -> fe Z1 <> 0%F ->
  fe X = (px A * fe Z1)%F -> fe Y = (py A * fe Z1)%F ->
  isBytes 32 (pointBytes X Y Z1) /\ le_value (pointBytes X Y Z1) = encoding A.
Proof.
  intros HX HY HZ Hz EX EY. destruct (fe_invert Z1 HZ Hz) as [Hi Ei]. unfold pointBytes.
  assert (Ex : fe (FeMul X (FeInvert Z1)) = px A) by (fe_eval; rewrite EX, Ei; field; exact Hz).
  assert (Ey : fe (FeMul Y (FeInvert Z1)) = py A) by (fe_eval; rewrite EY, Ei; field; exact Hz).
  assert (Lx : loose (FeMul X (FeInvert Z1))) by (apply upto_loose; level).
  assert (Ly : loose (FeMul Y (FeInvert Z1))) by (apply upto_loose; level).
  destruct (FeToBytes_spec _ Ly) as [Hb Hv]. rewrite FeIsNegative_spec by exact Lx.
  assert (Vx : fval (FeMul X (FeInvert Z1)) mod p25519 = toZ (px A)) by (rewrite <- Ex; symmetry; apply toZ_ofZ_mod).
  assert (Vy : fval (FeMul Y (FeInvert Z1)) mod p25519 = toZ (py A)) by (rewrite <- Ey; symmetry; apply toZ_ofZ_mod).
  rewrite Vy in Hv. rewrite Vx. unfold encoding. rewrite <- Hv. apply set_sign; [exact Hb| |apply odd_range].
  rewrite Hv. pose proof (toZ_range (py A)). unfold p25519 in *. lia.
Qed.

Lemma extToBytes_spec p A : isExt p A -> isBytes 32 (extToBytes p) /\ le_value (extToBytes p) = encoding A.
Proof.
  intros (HX & HY & HZ & HT & Hz & EX & EY & ET). unfold extToBytes.
  apply (pointBytes_spec (eX p) (eY p) (eZ p) A); [level|level|level|assumption..].
Qed.

Lemma projToBytes_spec p A : isProj p A -> isBytes 32 (projToBytes p) /\ le_value (projToBytes p) = encoding A.
Proof.
  intros (HX & HY & HZ & Hz & EX & EY). unfold projToBytes.
  apply (pointBytes_spec (pX p) (pY p) (pZ p) A); [level|level|level|assumption..].
Qed.
#[global] Opaque pointBytes.

(** * Decoding *)

Section root.
Context (y : F).
Let u : F := (y * y - 1)%F.
Let v : F := (y * y * dF + 1)%F.

Lemma v_ne0 : v <> 0%F.
Proof.
  intros H. destruct (decide (y = 0%F)) as [->|Hy]; [apply F1_ne0; rewrite <- H; unfold v; ring|].
  apply (dF_nonsquare (iF / y)). transitivity ((iF * iF) / (y * y))%F; [field; exact Hy|]. rewrite iF_sqr.
  transitivity ((v - 1) / (y * y))%F; [rewrite H; field; exact Hy|unfold v; field; exact Hy].
Qed.

Lemma onCurve_root x : onCurve x y <-> (x * x * v = u)%F.
Proof.
  unfold onCurve, u, v. rewrite <- (Fsub_0 _ (1 + _)%F), <- (Fsub_0 (x * x * _)%F).
  split; intros H; [transitivity (- (0))%F; [rewrite <- H|]; ring|transitivity (- (0))%F; [rewrite <- H|]; ring].
Qed.

(** The candidate root of the code. *)
Definition candidate : F := (Fpow (v * v * v * (v * v * v) * v * u) rootExp * (v * v * v) * u)%F.

(** If the root exists then the candidate is right up to a factor [sqrt(-1)]. *)
Lemma candidate_spec x : onCurve x y ->
  (candidate * candidate * v = u)%F \/ (candidate * candidate * v = - u)%F.
Proof.
  intros Hx%onCurve_root. pose proof v_ne0 as Hv. destruct (decide (x = 0%F)) as [->|Hx0].
  { left. assert (u = 0%F) as Hu by (rewrite <- Hx; ring). unfold candidate. rewrite Hu. ring. }
  set (g := (x * (v * v * (v * v)))%F). assert (Hg : g <> 0%F) by (unfold g; repeat apply Fmul_ne0; assumption).
  assert (Eg : (v * v * v * (v * v * v) * v * u = g * g)%F) by (unfold g; rewrite <- Hx; ring).
  assert (Ec : (candidate * candidate * v = u * Fpow g halfExp)%F).
  { unfold candidate. rewrite Eg, Fpow_mul by exact rootExp_nonneg. set (h := Fpow g rootExp).
    assert (Eh : Fpow g halfExp = (h * h * (h * h) * (g * g))%F).
    { unfold h. rewrite <- (Fpow_1 g) at 6 7. pose proof rootExp_nonneg. rewrite <- !Fpow_add by lia. now rewrite rootExp_half. }
    rewrite Eh, <- Eg. ring. }
  rewrite Ec. destruct (Fpow_half g Hg) as [-> | ->]; [left|right]; ring.
Qed.
End root.

Lemma fe_isNonZero f : upto 3 f -> (FeIsNonZero f =? 1) = negb (bool_decide (fe f = 0%F)).
Proof.
  intros Hf%upto_loose. rewrite FeIsNonZero_spec by exact Hf. unfold fe.
  destruct (Z.eqb_spec (fval f mod p25519) 0) as [E|E].
  - rewrite bool_decide_true; [done|now apply ofZ_0_iff].
  - rewrite bool_decide_false; [done|]. intros H. now apply E, ofZ_0_iff.
Qed.

Lemma fe_isNegative f : upto 3 f -> FeIsNegative f = odd (fe f).
Proof. intros Hf%upto_loose. rewrite FeIsNegative_spec by exact Hf. unfold odd, fe. now rewrite toZ_ofZ_mod. Qed.

Lemma fe_pow22523 f : upto 3 f -> upto 3 (fePow22523 f) /\ fe (fePow22523 f) = Fpow (fe f) rootExp.
Proof.
  intros Hf. destruct (fePow22523_pow f (upto_loose f Hf)) as (Hl & He & _). split; [now apply loose_upto|].
  unfold fe at 2. rewrite Fpow_ofZ by exact rootExp_nonneg. now apply ofZ_eqm.
Qed.

(** The coordinate and the sign bit of an encoding. *)
Definition encodedY (s : list Z) : F := ofZ (le_value s mod 2 ^ 255).
Definition encodedSign (s : list Z) : Z := le_value s / 2 ^ 255.

Lemma sign_bit s : isBytes 32 s -> limb s 31 ≫ 7 = encodedSign s /\ 0 <= encodedSign s < 2.
Proof.
  intros Hs. rewrite (limb_last s 31 Hs), Z.shiftr_div_pow2, Z.div_div by (lia || discriminate).
  change (256 ^ Z.of_nat 31 * 2 ^ 7) with (2 ^ 255). split; [reflexivity|]. unfold encodedSign.
  destruct Hs as [Hl Hb]. pose proof (le_value_bound s Hb) as H. rewrite Hl in H. change (256 ^ Z.of_nat 32) with (2 ^ 255 * 2) in H.
  split; [apply Z.div_pos; lia|apply Z.div_lt_upper_bound; lia].
Qed.

(** [A] is the point with that coordinate and, unless [x = 0], that sign. *)
Definition decodes (s : list Z) (A : point) : Prop :=
  py A = encodedY s /\ (px A = 0%F \/ odd (px A) = encodedSign s).

Lemma fixSign_spec s X Y : isBytes 32 s -> upto 3 X -> upto 1 Y -> fe Y = encodedY s -> onCurve (fe X) (fe Y) ->
  exists A, isExt (fixSign s X Y) A /\ decodes s A.
Proof.
  intros Hs HX HY EY Hc. destruct (sign_bit s Hs) as [Eb Hb]. unfold fixSign. rewrite fe_isNegative, Eb by exact HX.
  pose proof (upto_frozen X (upto_loose X HX)) as Hf. pose proof (fe_freeze X (upto_loose X HX)) as Ef.
  set (X' := if odd (fe X) =? encodedSign s then feFreeze X else FeNeg (feFreeze X)).
  assert (HX' : upto 2 X' /\ onCurve (fe X') (fe Y) /\ (fe X' = 0%F \/ odd (fe X') = encodedSign s)).
  { unfold X'. destruct (Z.eqb_spec (odd (fe X)) (encodedSign s)) as [E|E].
    - rewrite Ef. auto.
    - destruct (neg_spec 2 (feFreeze X) ltac:(lia) Hf) as [Hn ->]. rewrite Ef. split; [exact Hn|].
      split; [exact (pneg_on (mkPoint _ _ Hc))|]. destruct (decide (fe X = 0%F)) as [->|Hx]; [left; ring|right].
      rewrite odd_opp by exact Hx. pose proof (odd_range (fe X)). lia. }
  clearbody X'. destruct HX' as (HX' & Hc' & Hs'). exists (mkPoint _ _ Hc'). split; [|now split].
  unfold isExt. cbn [eX eY eZ eT px py]. fe_eval. split_and!; try level; [exact F1_ne0|ring..].
Qed.

Theorem FromBytes_spec p s : isBytes 32 s ->
  ((FromBytes p s).2 = true <-> exists x, onCurve x (encodedY s)) /\
  ((FromBytes p s).2 = true -> exists A, isExt (FromBytes p s).1 A /\ decodes s A).
Proof.
  intros Hs. destruct (FeFromBytes_spec s Hs) as [HY%tight_upto VY]. apply ofZ_eqm in VY. fold (encodedY s) in VY.
  change (ofZ (fval (FeFromBytes s))) with (fe (FeFromBytes s)) in VY. unfold FromBytes.
  set (Y := FeFromBytes s) in *. clearbody Y. pose proof upto_d as Hd.
  set (u := FeSub (FeSquare Y) feOne). set (v := FeAdd (FeMul (FeSquare Y) d) feOne).
  assert (Hu : upto 2 u) by (unfold u; level). assert (Hv : upto 2 v) by (unfold v; level).
  assert (Eu : fe u = (encodedY s * encodedY s - 1)%F) by (unfold u; fe_eval; rewrite VY; reflexivity).
  assert (Ev : fe v = (encodedY s * encodedY s * dF + 1)%F) by (unfold v; fe_eval; rewrite VY, fe_d; reflexivity).
  clearbody u v. set (W := FeMul (FeMul (FeSquare (FeMul (FeSquare v) v)) v) u).
  destruct (fe_pow22523 W ltac:(unfold W; level)) as [HP EP].
  set (X := FeMul (FeMul (fePow22523 W) (FeMul (FeSquare v) v)) u).
  assert (HX : upto 1 X) by (unfold X; level).
  assert (EX : fe X = candidate (encodedY s)).
  { unfold X, candidate. fe_eval. rewrite EP. unfold W. fe_eval. rewrite Eu, Ev. reflexivity. }
  clearbody X. set (vxx := FeMul (FeSquare X) v). assert (Hvx : upto 1 vxx) by (unfold vxx; level).
  assert (Evx : fe vxx = (fe X * fe X * fe v)%F) by (unfold vxx; fe_eval; reflexivity). clearbody vxx.
  rewrite !fe_isNonZero by level. fe_eval.
  pose proof (candidate_spec (encodedY s)) as Hcand. rewrite <- EX, <- Ev, <- Eu, <- Evx in Hcand.
  case_bool_decide as H1; cbn [negb].
  - apply (proj1 (Fsub_0 _ _)) in H1. assert (Hc : onCurve (fe X) (fe Y)).
    { rewrite VY. apply onCurve_root. rewrite <- Ev, <- Eu, <- Evx. exact H1. }
    cbn [fst snd]. split; [split; [intros _; exists (fe X); rewrite <- VY; exact Hc|intros _; reflexivity]|]. intros _.
    apply fixSign_spec; [exact Hs|level|exact HY|exact VY|exact Hc].
  - case_bool_decide as H2; cbn [negb].
    + assert (HM : upto 1 (FeMul X SqrtM1)) by (pose proof upto_SqrtM1; level).
      assert (Hc : onCurve (fe (FeMul X SqrtM1)) (fe Y)).
      { rewrite VY. apply onCurve_root. pose proof upto_SqrtM1. fe_eval. rewrite <- Ev, <- Eu.
        transitivity (fe X * fe X * fe v * (fe SqrtM1 * fe SqrtM1))%F; [ring|]. rewrite fe_SqrtM1, <- Evx.
        apply Fsub_0. transitivity (- (fe vxx + fe u))%F; [ring|]. rewrite H2. ring. }
      assert (HL : loose (FeMul X SqrtM1)) by (apply upto_loose, (upto_weaken 1); [lia|exact HM]).
      cbn [fst snd]. split; [split; [intros _; exists (fe (FeMul X SqrtM1)); rewrite <- VY; exact Hc|intros _; reflexivity]|]. intros _.
      apply fixSign_spec; [exact Hs|eapply upto_weaken; [|apply upto_frozen; exact HL]; lia|exact HY|exact VY|].
      rewrite (fe_freeze _ HL). exact Hc.
    + cbn [fst snd]. split; [split; [discriminate|]|discriminate]. intros [x Hx]. exfalso.
      destruct (Hcand x Hx) as [E|E]; [apply H1|apply H2]; rewrite E; ring.
Qed.

Lemma le_value_inj l : forall l', length l = length l' -> Forall (fun x => 0 <= x < 256) l -> Forall (fun x => 0 <= x < 256) l' ->
  le_value l = le_value l' -> l = l'.
Proof.
  induction l as [|x l IH]; intros [|x' l'] Hl H H' E; try discriminate; [done|]. injection Hl as Hl.
  apply Forall_cons in H as [Hx H], H' as [Hx' H'].
  change (x + 256 * le_value l = x' + 256 * le_value l') in E.
  assert (x = x') as <- by lia. f_equal. apply IH; auto. lia.
Qed.

(** A point is given by [y] and the parity of [x]. *)
Lemma point_by_sign A A' : py A = py A' -> px A = 0%F \/ px A' = 0%F \/ odd (px A) = odd (px A') -> A = A'.
Proof.
  intros Hy Hx. apply point_eq; [|exact Hy].
  pose proof (proj1 (onCurve_root (py A) (px A)) (p_on A)) as E.
  assert (E' : (px A' * px A' * (py A * py A * dF + 1) = py A * py A - 1)%F).
  { apply onCurve_root. rewrite Hy. exact (p_on A'). }
  pose proof (v_ne0 (py A)) as Hv. destruct (Fsqr_eq (px A) (px A')) as [H|H]; [|exact H|].
  { transitivity ((px A * px A * (py A * py A * dF + 1)) / (py A * py A * dF + 1))%F; [field; exact Hv|].
    rewrite E, <- E'. field. exact Hv. }
  destruct (decide (px A' = 0%F)) as [H0|H0]; [rewrite H, H0; ring|]. exfalso.
  destruct Hx as [Hx|[Hx|Hx]]; [|now apply H0|].
  - apply H0. transitivity (- (- px A'))%F; [ring|]. rewrite <- H, Hx. ring.
  - rewrite H, odd_opp in Hx by exact H0. pose proof (odd_range (px A')). lia.
Qed.

Lemma decodes_unique s A A' : decodes s A -> decodes s A' -> A = A'.
Proof.
  intros [Hy Hx] [Hy' Hx']. apply point_by_sign; [congruence|].
  destruct Hx as [Hx|Hx]; [auto|]. destruct Hx' as [Hx'|Hx']; [auto|]. right. right. congruence.
Qed.

Lemma encoding_split A : encoding A mod 2 ^ 255 = toZ (py A) /\ encoding A / 2 ^ 255 = odd (px A).
Proof.
  unfold encoding. pose proof (toZ_range (py A)) as H. assert (0 <= toZ (py A) < 2 ^ 255) by (unfold p25519 in H; lia).
  rewrite (Z.mul_comm (2 ^ 255)), Z.mod_add, Z.div_add by discriminate. now rewrite Z.mod_small, Z.div_small by lia.
Qed.

Lemma encoding_decodes s A : le_value s = encoding A -> decodes s A.
Proof.
  intros E. unfold decodes, encodedY, encodedSign. rewrite E. destruct (encoding_split A) as [-> ->].
  rewrite ofZ_toZ. auto.
Qed.

Lemma encoding_inj A A' : encoding A = encoding A' -> A = A'.
Proof.
  intros E. destruct (encoding_split A) as [Hy Hx], (encoding_split A') as [Hy' Hx'].
  rewrite E in Hy, Hx. apply point_by_sign; [apply F_eq|right; right]; congruence.
Qed.

(** Equal bytes, equal points. *)
Lemma bytes_inj s s' A A' : isBytes 32 s -> isBytes 32 s' -> le_value s = encoding A -> le_value s' = encoding A' ->
  s = s' <-> A = A'.
Proof.
  intros [Hl Hb] [Hl' Hb'] E E'. split; [intros <-; apply encoding_inj; congruence|intros <-].
  apply le_value_inj; congruence.
Qed.

(** What the encoding of a point decodes to. *)
Lemma FromBytes_encoding p s A : isBytes 32 s -> le_value s = encoding A ->
  (FromBytes p s).2 = true /\ isExt (FromBytes p s).1 A.
Proof.
  intros Hs E. destruct (FromBytes_spec p s Hs) as [Hok Hdec]. pose proof (encoding_decodes s A E) as HA.
  assert (H : (FromBytes p s).2 = true).
  { apply Hok. exists (px A). rewrite <- (proj1 HA). exact (p_on A). }
  split; [exact H|]. destruct (Hdec H) as (A' & HE & HA'). now rewrite (decodes_unique s A A' HA HA').
Qed.
#[global] Opaque FromBytes.

(** C9: [ToBytes] and [FromBytes] are inverse to each other on the points of the curve:
    what [ToBytes] writes for an element that represents [A] is 32 bytes with the number
    [y + 2^255 * (x mod 2)], from which [FromBytes] recovers an element that represents
    [A] again, with the same bytes; and two elements have the same bytes exactly when
    they represent the same point. *)
Theorem point_encoding p q A A' : isExt p A -> isExt q A' ->
  isBytes 32 (extToBytes p) /\ le_value (extToBytes p) = toZ (py A) + 2 ^ 255 * (toZ (px A) mod 2) /\
  (forall r, (FromBytes r (extToBytes p)).2 = true /\ isExt (FromBytes r (extToBytes p)).1 A /\
     extToBytes (FromBytes r (extToBytes p)).1 = extToBytes p) /\
  (extToBytes p = extToBytes q <-> A = A').
Proof.
  intros Hp Hq. destruct (extToBytes_spec p A Hp) as [Hb Hv], (extToBytes_spec q A' Hq) as [Hb' Hv'].
  split; [exact Hb|]. split; [exact Hv|]. split; [|now apply bytes_inj].
  intros r. destruct (FromBytes_encoding r _ A Hb Hv) as [Hok HE]. split; [exact Hok|]. split; [exact HE|].
  destruct (extToBytes_spec _ A HE) as [Hb2 Hv2]. now apply (bytes_inj _ _ A A).
Qed.

(** The neutral element is written as the number one and read back. *)
Lemma point_encoding_witness :
  le_value (extToBytes extZero) = 1 /\ (FromBytes extZero (extToBytes extZero)).2 = true.
Proof.
  destruct (point_encoding extZero extZero pzero pzero extZero_spec extZero_spec) as (_ & Hv & Hd & _).
  split; [|exact (proj1 (Hd extZero))]. rewrite Hv. cbn [px py pzero]. rewrite <- ofZ_0, <- ofZ_1, !toZ_ofZ_mod. reflexivity.
Defined.

(** C10: [FromBytes] accepts 32 bytes exactly when some point of the curve has the
    encoded [y] coordinate (the first 255 bits, taken modulo [2^255 - 19]), and then
    leaves an element that represents the point with that [y] and the encoded sign;
    only the sign of a point with [x = 0] is not looked at. *)
Theorem FromBytes_decodes p s : isBytes 32 s ->
  ((FromBytes p s).2 = true <-> exists x, onCurve x (ofZ (le_value s mod 2 ^ 255))) /\
  ((FromBytes p s).2 = true -> exists A, isExt (FromBytes p s).1 A /\
     py A = ofZ (le_value s mod 2 ^ 255) /\ (px A = 0%F \/ toZ (px A) mod 2 = le_value s / 2 ^ 255)).
Proof. exact (FromBytes_spec p s). Qed.

(** [y = 1] is the coordinate of the neutral element. *)
Lemma FromBytes_decodes_witness : (FromBytes extZero (1 :: replicate 31 0)).2 = true.
Proof.
  apply (FromBytes_decodes extZero (1 :: replicate 31 0)); [split; [reflexivity|repeat constructor; lia]|].
  exists 0%F. change (le_value (1 :: replicate 31 0) mod 2 ^ 255) with 1. rewrite ofZ_1. exact pzero_on.
Defined.
