(* ===== verification/EdBase.v ===== *)
(** The tables of [EdTables] hold the multiples of the base point they should, and the
    base point has the order of [EdScalar].

    The check is executed: affine and projective additions over integers, with a
    reduction modulo [2^255 - 19] by folding the upper bits. *)

From Stdlib Require Import ZArith Lia Ring Field.
From stdpp Require Import list.
From S2P Require Import Prelude NumTheory Primality EdWords EdScalar EdField EdPrimes EdCurve EdGroup EdTables.

#[local] Open Scope Z_scope.

(** * Integers modulo the field prime *)

Definition red (x : Z) : Z := foldm 255 19 (foldm 255 19 x).
Definition eqp (a b : Z) : bool := let r := red (a - b) in (r =? 0) || (r =? p25519).

Lemma red_eqm x : [mod p25519] red x == x.
Proof. unfold red. change p25519 with (2 ^ 255 - 19). now rewrite !foldm_eqm by discriminate. Qed.

Lemma ofZ_red x : ofZ (red x) = ofZ x.
Proof. apply ofZ_eqm, red_eqm. Qed.

Lemma eqp_sound a b : eqp a b = true -> ofZ a = ofZ b.
Proof.
  unfold eqp. intros H. apply ofZ_eqm. assert (E : [mod p25519] red (a - b) == 0).
  { apply orb_true_iff in H as [->%Z.eqb_eq| ->%Z.eqb_eq]; [reflexivity|exists 1; lia]. }
  rewrite red_eqm in E. destruct E as [k E]. exists k. lia.
Qed.
#[global] Opaque red.

Definition half (x : Z) : Z := if Z.even x then x ≫ 1 else (x + p25519) ≫ 1.

Lemma half_sound x : (ofZ (half x) + ofZ (half x) = ofZ x)%F.
Proof.
  rewrite <- ofZ_add. apply ofZ_eqm. unfold half. rewrite !Z.shiftr_div_pow2 by lia. change (2 ^ 1) with 2.
  destruct (Z.even x) eqn:E.
  - apply Z.even_spec in E as [k ->]. rewrite Z.mul_comm, Z.div_mul by lia. exists 0. ring.
  - assert (Ho : Z.odd x = true) by (now rewrite <- Z.negb_even, E). apply Z.odd_spec in Ho as [k ->].
    replace (2 * k + 1 + p25519) with ((k + 1 + 2 ^ 254 - 10) * 2) by (unfold p25519; lia).
    rewrite Z.div_mul by lia. exists 1. unfold p25519. lia.
Qed.

(** * Points by integers *)

(** Affine and projective coordinates. *)
Definition isAff (q : Z * Z) (A : point) : Prop := ofZ q.1 = px A /\ ofZ q.2 = py A.
Definition isProjZ (t : Z * Z * Z) (A : point) : Prop :=
  ofZ t.2 <> 0%F /\ ofZ t.1.1 = (px A * ofZ t.2)%F /\ ofZ t.1.2 = (py A * ofZ t.2)%F.

(** [q1 + q2 = q3], without division; the denominators of [d] are multiplied out. *)
Definition sumOK (q1 q2 q3 : Z * Z) : bool :=
  let a := red (q1.1 * q2.1) in
  let b := red (q1.2 * q2.2) in
  let m := 121665 * red (a * b) in
  eqp (q3.1 * (121666 - m)) (121666 * ((q1.1 + q1.2) * (q2.1 + q2.2) - a - b)) &&
  eqp (q3.2 * (121666 + m)) (121666 * (a + b)).

Definition doubleZ (t : Z * Z * Z) : Z * Z * Z :=
  let '(X, Y, Z1) := t in
  let a := red (Z.square X) in
  let b := red (Z.square Y) in
  let c := b - a in
  let e := 2 * red (Z.square Z1) - c in
  (red ((red (Z.square (X + Y)) - a - b) * e), red ((a + b) * c), red (c * e)).

Lemma dF_121666 : (dF * ofZ 121666 = - ofZ 121665)%F.
Proof. rewrite dF_def. change (-121665) with (- (121665)). rewrite ofZ_opp. field. exact ofZ_121666_ne0. Qed.

(** Push the integer operations to the field. *)
Ltac inF := repeat first [rewrite Z.square_spec | rewrite ofZ_mul | rewrite ofZ_sub | rewrite ofZ_add | rewrite ofZ_red].

Lemma sumOK_sound q1 q2 q3 A1 A2 : isAff q1 A1 -> isAff q2 A2 -> sumOK q1 q2 q3 = true -> isAff q3 (padd A1 A2).
Proof.
  destruct q1 as [x1 y1], q2 as [x2 y2], q3 as [x3 y3]. unfold isAff, sumOK. cbn [fst snd].
  intros [E1 E2] [E3 E4] [Hx%eqp_sound Hy%eqp_sound]%andb_true_iff. revert Hx Hy. inF. rewrite E1, E2, E3, E4. intros Hx Hy.
  destruct (denominators _ _ _ _ (p_on A1) (p_on A2)) as [Hp Hm]. pose proof dF_121666 as Hd.
  pose proof ofZ_121666_ne0 as Hk. rewrite px_padd, py_padd. unfold xAdd, yAdd. split.
  - transitivity (ofZ x3 * (1 + dF * px A1 * px A2 * py A1 * py A2) * ofZ 121666 / (1 + dF * px A1 * px A2 * py A1 * py A2) / ofZ 121666)%F;
      [field; auto|]. replace (ofZ x3 * (1 + dF * px A1 * px A2 * py A1 * py A2) * ofZ 121666)%F
      with (ofZ x3 * (ofZ 121666 - ofZ 121665 * (px A1 * px A2 * (py A1 * py A2))))%F by ring [Hd].
    rewrite Hx. field. auto.
  - transitivity (ofZ y3 * (1 - dF * px A1 * px A2 * py A1 * py A2) * ofZ 121666 / (1 - dF * px A1 * px A2 * py A1 * py A2) / ofZ 121666)%F;
      [field; auto|]. replace (ofZ y3 * (1 - dF * px A1 * px A2 * py A1 * py A2) * ofZ 121666)%F
      with (ofZ y3 * (ofZ 121666 + ofZ 121665 * (px A1 * px A2 * (py A1 * py A2))))%F by ring [Hd].
    rewrite Hy. field. auto.
Qed.

(** [t + q] in projective coordinates, the denominators of [d] multiplied out. *)
Definition mixedAddZ (t : Z * Z * Z) (q : Z * Z) : Z * Z * Z :=
  let '(X, Y, Z1) := t in
  let a := red (X * q.1) in
  let b := red (Y * q.2) in
  let e := 121665 * red (a * b) in
  let z := 121666 * red (Z.square Z1) in
  let f := z + e in
  let g := z - e in
  let w := 121666 * Z1 in
  (red (red (w * (red ((X + Y) * (q.1 + q.2)) - a - b)) * f), red (red (w * (a + b)) * g), red (f * g)).

Lemma doubleZ_sound t A : isProjZ t A -> isProjZ (doubleZ t) (padd A A).
Proof.
  destruct t as [[X Y] Z1]. unfold isProjZ, doubleZ. cbn [fst snd]. intros (Hz & EX & EY).
  destruct (denominators _ _ _ _ (p_on A) (p_on A)) as [Hp Hm]. pose proof (p_on A) as Hc. unfold onCurve in Hc.
  change 2 with (1 + 1). inF. rewrite EX, EY, ofZ_1.
  set (z := ofZ Z1) in *. clearbody z. set (m := (dF * px A * px A * py A * py A)%F) in *.
  assert (Ec : (py A * z * (py A * z) - px A * z * (px A * z) = z * z * (1 + m))%F).
  { unfold m. transitivity (z * z * (py A * py A - px A * px A))%F; [ring|]. rewrite Hc. ring. }
  rewrite Ec, px_padd, py_padd. unfold xAdd, yAdd. fold m.
  replace ((1 + 1) * (z * z) - z * z * (1 + m))%F with (z * z * (1 - m))%F by ring.
  split; [repeat apply Fmul_ne0; assumption|]. split; field; auto.
Qed.

Lemma mixedAddZ_sound t q A1 A2 : isProjZ t A1 -> isAff q A2 -> isProjZ (mixedAddZ t q) (padd A1 A2).
Proof.
  destruct t as [[X Y] Z1], q as [x y]. unfold isProjZ, isAff, mixedAddZ. cbn [fst snd]. intros (Hz & EX & EY) [Ex Ey].
  destruct (denominators _ _ _ _ (p_on A1) (p_on A2)) as [Hp Hm]. pose proof ofZ_121666_ne0 as Hk.
  inF. rewrite EX, EY, Ex, Ey. set (z := ofZ Z1) in *. clearbody z. set (k := ofZ 121666) in *.
  set (m := (dF * px A1 * px A2 * py A1 * py A2)%F) in *.
  assert (Em : (ofZ 121665 * (px A1 * z * px A2 * (py A1 * z * py A2)) = - (k * z * z * m))%F).
  { unfold m, k. transitivity (- (- ofZ 121665) * z * z * (px A1 * px A2 * py A1 * py A2))%F; [ring|].
    rewrite <- dF_121666. ring. }
  rewrite Em, px_padd, py_padd. unfold xAdd, yAdd. fold m.
  replace (k * (z * z) + - (k * z * z * m))%F with (k * (z * z) * (1 - m))%F by ring.
  replace (k * (z * z) - - (k * z * z * m))%F with (k * (z * z) * (1 + m))%F by ring.
  split; [repeat apply Fmul_ne0; assumption|]. split; field; auto.
Qed.

(** * The tables *)

Definition entryXY (e : PreComputedGroupElement) : Z * Z :=
  (half (fval (yPlusX e) - fval (yMinusX e)), half (fval (yPlusX e) + fval (yMinusX e))).

Definition smallFE (f : FieldElement) : bool :=
  Nat.eqb (length f) 10 && forallb (fun xm => Z.abs xm.1 <=? xm.2) (zip f tightTop).

(** [xy2d] fits the other two, and the limbs are small. *)
Definition entryOK (e : PreComputedGroupElement) : bool :=
  let q := entryXY e in
  smallFE (yPlusX e) && smallFE (yMinusX e) && smallFE (xy2d e) &&
  eqp (121666 * fval (xy2d e)) (- (2 * 121665 * (q.1 * q.2))).

Lemma smallFE_upto f : smallFE f = true -> upto 3 f.
Proof.
  unfold smallFE. intros [Hl%Nat.eqb_eq Hf]%andb_true_iff. apply (upto_weaken 1); [lia|]. apply tight_upto.
  unfold tightTop in *. repeat (destruct f as [|? f]; [discriminate Hl|]). destruct f; [|discriminate Hl].
  cbn in Hf. repeat (apply andb_true_iff in Hf as [?%Z.leb_le Hf]). repeat constructor; assumption.
Qed.

Lemma entry_sound e A : isAff (entryXY e) A -> entryOK e = true -> isPre e A.
Proof.
  unfold entryOK, isAff, entryXY. cbn [fst snd]. intros [Ex Ey] [[[H1 H2]%andb_true_iff H3]%andb_true_iff H4]%andb_true_iff.
  pose proof (half_sound (fval (yPlusX e) - fval (yMinusX e))) as Hx.
  pose proof (half_sound (fval (yPlusX e) + fval (yMinusX e))) as Hy. apply eqp_sound in H4. revert H4 Hx Hy.
  rewrite ofZ_opp. inF. rewrite Ex, Ey. change (ofZ 2) with (ofZ (1 + 1)). rewrite ofZ_add, ofZ_1.
  change (ofZ (fval ?f)) with (fe f). intros H4 Hx Hy. unfold isPre. apply smallFE_upto in H1, H2, H3.
  split_and!; try assumption.
  - transitivity (((fe (yPlusX e) + fe (yMinusX e)) + (fe (yPlusX e) - fe (yMinusX e))) / (1 + 1))%F; [field; exact F2_ne0|].
    rewrite <- Hx, <- Hy. field. exact F2_ne0.
  - transitivity (((fe (yPlusX e) + fe (yMinusX e)) - (fe (yPlusX e) - fe (yMinusX e))) / (1 + 1))%F; [field; exact F2_ne0|].
    rewrite <- Hx, <- Hy. field. exact F2_ne0.
  - pose proof ofZ_121666_ne0 as Hk. transitivity (ofZ 121666 * fe (xy2d e) / ofZ 121666)%F; [field; exact Hk|].
    rewrite H4. transitivity (- ofZ 121665 * (1 + 1) * px A * py A / ofZ 121666)%F; [field; exact Hk|].
    rewrite <- dF_121666. field. exact Hk.
Qed.

(** The entries after [cur] are [cur + q], [cur + 2 q], ...; the last of them. *)
Fixpoint chainOK (q cur : Z * Z) (es : list PreComputedGroupElement) : option (Z * Z) :=
  match es with
  | [] => Some cur
  | e :: es => if sumOK cur q (entryXY e) && entryOK e then chainOK q (entryXY e) es else None
  end.

(** The affine point [q] is the projective [t]. *)
Definition sameOK (q : Z * Z) (t : Z * Z * Z) : bool := eqp (q.1 * t.2) t.1.1 && eqp (q.2 * t.2) t.1.2.

(** Row by row: the first entry is [t], eight entries make a row, and the next row
    starts with [32] times the last entry. *)
Fixpoint rowsOK (t : Z * Z * Z) (rows : list (list PreComputedGroupElement)) : bool :=
  match rows with
  | [] => true
  | [] :: _ => false
  | (e :: es) :: rows =>
      let q := entryXY e in
      sameOK q t && entryOK e && Nat.eqb (length es) 7 &&
      match chainOK q q es with
      | Some r => rowsOK (Nat.iter 5 doubleZ (r.1, r.2, 1)) rows
      | None => false
      end
  end.

Lemma sameOK_sound q t A : isProjZ t A -> sameOK q t = true -> isAff q A.
Proof.
  unfold sameOK, isProjZ, isAff. intros (Hz & EX & EY) [H1%eqp_sound H2%eqp_sound]%andb_true_iff.
  rewrite ofZ_mul in H1, H2. rewrite EX in H1. rewrite EY in H2. split.
  - transitivity (ofZ q.1 * ofZ t.2 / ofZ t.2)%F; [field; exact Hz|]. rewrite H1. field. exact Hz.
  - transitivity (ofZ q.2 * ofZ t.2 / ofZ t.2)%F; [field; exact Hz|]. rewrite H2. field. exact Hz.
Qed.

Lemma isAff_proj q A : isAff q A -> isProjZ (q.1, q.2, 1) A.
Proof.
  intros [Ex Ey]. unfold isProjZ. cbn [fst snd]. rewrite ofZ_1, Ex, Ey. split; [exact F1_ne0|]. split; ring.
Qed.

Lemma doubles_sound n t A k : isProjZ t (zmul k A) -> isProjZ (Nat.iter n doubleZ t) (zmul (2 ^ Z.of_nat n * k) A).
Proof.
  intros H. induction n as [|n IH]; [now rewrite Z.mul_1_l|]. rewrite Nat.iter_succ.
  replace (2 ^ Z.of_nat (S n) * k) with (2 ^ Z.of_nat n * k + 2 ^ Z.of_nat n * k)
    by (rewrite Nat2Z.inj_succ, Z.pow_succ_r by lia; ring).
  rewrite zmul_add. now apply doubleZ_sound.
Qed.

Lemma chainOK_sound P q k es : isAff q P -> forall cur r, isAff cur (zmul k P) -> chainOK q cur es = Some r ->
  isAff r (zmul (k + Z.of_nat (length es)) P) /\
  forall j e, es !! j = Some e -> isPre e (zmul (k + 1 + Z.of_nat j) P).
Proof.
  intros Hq. revert k. induction es as [|e es IH]; intros k cur r Hc; cbn [chainOK length].
  - intros [= <-]. rewrite Z.add_0_r. split; [exact Hc|]. intros j e H. rewrite lookup_nil in H. discriminate.
  - destruct (sumOK cur q (entryXY e) && entryOK e) eqn:E; [|discriminate]. apply andb_true_iff in E as [Hs He]. intros Hr.
    pose proof (sumOK_sound _ _ _ _ _ Hc Hq Hs) as Ha. rewrite <- (zmul_1 P) in Ha at 2. rewrite <- zmul_add in Ha.
    destruct (IH _ _ _ Ha Hr) as [Hl Hj]. split.
    + replace (k + Z.of_nat (S (length es))) with (k + 1 + Z.of_nat (length es)) by lia. exact Hl.
    + intros [|j] e' He'; cbn in He'.
      * injection He' as <-. rewrite Z.add_0_r. now apply entry_sound.
      * replace (k + 1 + Z.of_nat (S j)) with (k + 1 + 1 + Z.of_nat j) by lia. now apply Hj.
Qed.

Lemma rowsOK_sound rows : forall t n, isProjZ t (zmul n B) -> rowsOK t rows = true ->
  forall i j row e, rows !! i = Some row -> row !! j = Some e ->
  length row = 8%nat /\ isPre e (zmul ((Z.of_nat j + 1) * (256 ^ Z.of_nat i * n)) B).
Proof.
  induction rows as [|row rows IH]; intros t n Ht H i j row' e Hi Hj; [rewrite lookup_nil in Hi; discriminate|].
  destruct row as [|e0 es]; [discriminate|]. cbn [rowsOK] in H.
  apply andb_true_iff in H as [[[Hs He]%andb_true_iff Hl%Nat.eqb_eq]%andb_true_iff Hr].
  destruct (chainOK (entryXY e0) (entryXY e0) es) as [r|] eqn:Ec; [|discriminate].
  pose proof (sameOK_sound _ _ _ Ht Hs) as Hq. set (P := zmul n B) in *. 
  assert (Hq1 : isAff (entryXY e0) (zmul 1 P)) by now rewrite zmul_1.
  destruct (chainOK_sound P _ 1 es Hq _ _ Hq1 Ec) as [Hlast Hall]. rewrite Hl in Hlast.
  destruct i as [|i].
  - injection Hi as <-. split; [cbn [length]; lia|]. rewrite Z.mul_1_l, zmul_mul. fold P.
    destruct j as [|j]; cbn in Hj.
    + injection Hj as <-. rewrite zmul_1. now apply entry_sound.
    + replace (Z.of_nat (S j) + 1) with (1 + 1 + Z.of_nat j) by lia. now apply Hall.
  - assert (Hd : isProjZ (Nat.iter 5 doubleZ (r.1, r.2, 1)) (zmul (256 * n) B)).
    { replace (256 * n) with (2 ^ Z.of_nat 5 * ((1 + Z.of_nat 7) * n)) by (change (2 ^ Z.of_nat 5) with 32; change (Z.of_nat 7) with 7; ring).
      apply doubles_sound. rewrite zmul_mul. now apply isAff_proj. }
    destruct (IH _ _ Hd Hr i j row' e Hi Hj) as [Hlen Hp]. split; [exact Hlen|].
    replace (256 ^ Z.of_nat (S i) * n) with (256 ^ Z.of_nat i * (256 * n)) by (rewrite Nat2Z.inj_succ, Z.pow_succ_r by lia; ring).
    exact Hp.
Qed.
#[local] Transparent red.

Lemma base_checked : rowsOK (Bx, By, 1) base = true /\ length base = 32%nat.
Proof. split; [vm_compute|]; reflexivity. Qed.

Lemma base_length : length base = 32%nat.
Proof. exact (proj2 base_checked). Qed.

Lemma base_row_lengths : forallb (fun row => Nat.eqb (length row) 8) base = true.
Proof. vm_compute. reflexivity. Qed.

Lemma B_projective : isProjZ (Bx, By, 1) (zmul 1 B).
Proof. rewrite zmul_1. apply (isAff_proj (Bx, By)). split; reflexivity. Qed.
#[global] Opaque base.

Lemma base_row i row : base !! i = Some row -> length row = 8%nat /\
  forall j e, row !! j = Some e -> isPre e (zmul ((Z.of_nat j + 1) * 256 ^ Z.of_nat i) B).
Proof.
  intros Hi. pose proof (rowsOK_sound base _ 1 B_projective (proj1 base_checked) i) as H. split.
  - apply Nat.eqb_eq. apply (proj1 (forallb_forall _ _) base_row_lengths). now apply list_elem_of_In, list_elem_of_lookup_2 with i.
  - intros j e He. destruct (H j _ _ Hi He) as [_ Hp]. now rewrite Z.mul_1_r in Hp.
Qed.

(** ** Odd multiples *)

Fixpoint oddsOK (q cur : Z * Z) (es : list PreComputedGroupElement) : bool :=
  match es with
  | [] => true
  | e :: es => sumOK cur q (entryXY e) && entryOK e && oddsOK q (entryXY e) es
  end.

Lemma oddsOK_sound P q es : isAff q (zmul 2 P) -> forall k cur, isAff cur (zmul k P) -> oddsOK q cur es = true ->
  forall j e, es !! j = Some e -> isPre e (zmul (k + 2 + 2 * Z.of_nat j) P).
Proof.
  intros Hq. induction es as [|e es IH]; intros k cur Hc H j e' He'; [rewrite lookup_nil in He'; discriminate|].
  cbn [oddsOK] in H. apply andb_true_iff in H as [[Hs He]%andb_true_iff Hr].
  pose proof (sumOK_sound _ _ _ _ _ Hc Hq Hs) as Ha. rewrite <- zmul_add in Ha. destruct j as [|j]; cbn in He'.
  - injection He' as <-. rewrite Z.add_0_r. now apply entry_sound.
  - replace (k + 2 + 2 * Z.of_nat (S j)) with (k + 2 + 2 + 2 * Z.of_nat j) by lia. now apply (IH _ _ Ha Hr).
Qed.

(** [2B], in affine coordinates. *)
Definition twoB : Z * Z := entryXY (nth 1 base0 preZero).

Lemma twoB_checked : sumOK (Bx, By) (Bx, By) twoB = true.
Proof. vm_compute. reflexivity. Qed.

(** [bi] from [-B] on. *)
Lemma bi_checked : oddsOK twoB (- Bx, By) bi = true /\ length bi = 8%nat.
Proof. split; [vm_compute|]; reflexivity. Qed.

Lemma bi_entry j e : bi !! j = Some e -> isPre e (zmul (2 * Z.of_nat j + 1) B).
Proof.
  intros Hj. replace (2 * Z.of_nat j + 1) with (-1 + 2 + 2 * Z.of_nat j) by lia.
  assert (HB : isAff (Bx, By) B) by (split; reflexivity).
  apply (oddsOK_sound B twoB bi) with (cur := (- Bx, By)); [| |exact (proj1 bi_checked)|exact Hj].
  - change 2 with (1 + 1). rewrite zmul_add, !zmul_1. exact (sumOK_sound _ _ _ _ _ HB HB twoB_checked).
  - change (-1) with (- (1)). rewrite zmul_opp, zmul_1. split; [|reflexivity]. cbn [fst px pneg]. apply ofZ_opp.
Qed.

(** * The order of the base point *)

Lemma half_unique x a : ofZ x = (a + a)%F -> ofZ (half x) = a.
Proof.
  intros H. pose proof (half_sound x) as E. rewrite H in E.
  transitivity ((ofZ (half x) + ofZ (half x)) / (1 + 1))%F; [field; exact F2_ne0|]. rewrite E. field. exact F2_ne0.
Qed.

Lemma pre_aff e A : isPre e A -> isAff (entryXY e) A.
Proof.
  intros (_ & _ & _ & Hp & Hm & _). unfold fe in Hp, Hm. split; cbn [fst snd entryXY]; apply half_unique; inF; rewrite Hp, Hm; ring.
Qed.

(** Add [dig * row[0]] for a digit between [-8] and [8]. *)
Definition addDigit (t : Z * Z * Z) (row : list PreComputedGroupElement) (dig : Z) : Z * Z * Z :=
  let q := entryXY (nth (Z.to_nat (Z.abs dig - 1)) row preZero) in
  if dig =? 0 then t else if 0 <? dig then mixedAddZ t q else mixedAddZ t (- q.1, q.2).

Fixpoint addDigits (t : Z * Z * Z) (rows : list (list PreComputedGroupElement)) (digs : list Z) : Z * Z * Z :=
  match rows, digs with
  | row :: rows, dig :: digs => addDigits (addDigit t row dig) rows digs
  | _, _ => t
  end.

(** [sum digs[i] * 256^i]. *)
Definition digits256 (digs : list Z) : Z := foldr (fun dig acc => dig + 256 * acc) 0 digs.

Lemma addDigit_sound t A row dig P : isProjZ t A -> (forall j e, row !! j = Some e -> isPre e (zmul (Z.of_nat j + 1) P)) ->
  length row = 8%nat -> Z.abs dig <= 8 -> isProjZ (addDigit t row dig) (padd A (zmul dig P)).
Proof.
  intros Ht Hrow Hl Hd. unfold addDigit. destruct (Z.eqb_spec dig 0) as [->|Hn]; [now rewrite zmul_0, padd_0_r|].
  destruct (lookup_lt_is_Some_2 row (Z.to_nat (Z.abs dig - 1)) ltac:(lia)) as [e He].
  rewrite (nth_lookup_Some _ _ preZero e He). pose proof (pre_aff _ _ (Hrow _ _ He)) as Ha.
  replace (Z.of_nat (Z.to_nat (Z.abs dig - 1)) + 1) with (Z.abs dig) in Ha by lia.
  destruct (Z.ltb_spec 0 dig).
  - rewrite Z.abs_eq in Ha by lia. now apply mixedAddZ_sound.
  - rewrite Z.abs_neq, zmul_opp in Ha by lia. apply mixedAddZ_sound; [exact Ht|]. destruct Ha as [Ex Ey].
    split; cbn [fst snd]; [|exact Ey]. rewrite ofZ_opp, Ex. cbn [px pneg]. ring.
Qed.

Lemma addDigits_sound rows : forall i t A digs, isProjZ t A -> Forall (fun dig => Z.abs dig <= 8) digs ->
  length rows = length digs -> (forall k row, rows !! k = Some row -> base !! (i + k)%nat = Some row) ->
  isProjZ (addDigits t rows digs) (padd A (zmul (256 ^ Z.of_nat i * digits256 digs) B)).
Proof.
  induction rows as [|row rows IH]; intros i t A [|dig digs] Ht Hd Hl Hb; try discriminate.
  - cbn. now rewrite Z.mul_0_r, zmul_0, padd_0_r.
  - apply Forall_cons in Hd as [Hd Hds]. injection Hl as Hl. cbn [addDigits].
    pose proof (Hb 0%nat row eq_refl) as Hrow. rewrite Nat.add_0_r in Hrow. destruct (base_row i row Hrow) as [Hlen Hpre].
    assert (H1 : isProjZ (addDigit t row dig) (padd A (zmul dig (zmul (256 ^ Z.of_nat i) B)))).
    { apply addDigit_sound; auto. intros j e He. rewrite <- zmul_mul. now apply Hpre. }
    assert (Hb' : forall k row', rows !! k = Some row' -> base !! (S i + k)%nat = Some row').
    { intros k row' Hk. rewrite Nat.add_succ_l, <- Nat.add_succ_r. now apply Hb. }
    pose proof (IH (S i) _ _ digs H1 Hds Hl Hb') as H2. rewrite <- zmul_mul, <- padd_assoc, <- zmul_add in H2.
    replace (256 ^ Z.of_nat i * digits256 (dig :: digs)) with (dig * 256 ^ Z.of_nat i + 256 ^ Z.of_nat (S i) * digits256 digs);
      [exact H2|]. cbn [digits256 foldr]. fold (digits256 digs). rewrite Nat2Z.inj_succ, Z.pow_succ_r by lia. ring.
Qed.

(** The order in signed base 16. *)
Definition orderEven : list Z := [-3; 4; 6; -3; -6; 3; 2; -8; 6; -3; -8; 3; -1; -6; -1; 5] ++ replicate 16 0.
Definition orderOdd : list Z := [-1; -3; -1; 6; 2; 6; 1; 6; -3; -6; 0; -6; -2; 0; -2; 1] ++ replicate 15 0 ++ [1].

Definition orderB : Z * Z * Z := addDigits (Nat.iter 4 doubleZ (addDigits (0, 1, 1) base orderOdd)) base orderEven.

Lemma orderB_spec : isProjZ orderB (zmul L B).
Proof.
  assert (H0 : isProjZ (0, 1, 1) pzero).
  { unfold isProjZ. cbn [fst snd px py pzero]. rewrite ofZ_0, ofZ_1. split; [exact F1_ne0|]. split; ring. }
  assert (Ho : Forall (fun dig => Z.abs dig <= 8) orderOdd) by (repeat constructor; cbn; lia).
  assert (He : Forall (fun dig => Z.abs dig <= 8) orderEven) by (repeat constructor; cbn; lia).
  pose proof (addDigits_sound base 0 _ _ orderOdd H0 Ho base_length (fun k row H => H)) as H1.
  rewrite padd_0_l in H1. pose proof (doubles_sound 4 _ _ _ H1) as H2.
  pose proof (addDigits_sound base 0 _ _ orderEven H2 He base_length (fun k row H => H)) as H3.
  rewrite <- zmul_add in H3. exact H3.
Qed.
#[local] Transparent base.

Lemma orderB_checked : sameOK (0, 1) orderB = true.
Proof. vm_compute. reflexivity. Qed.

(** [B] has order [L]. *)
Lemma order_B : zmul L B = pzero.
Proof.
  destruct (sameOK_sound (0, 1) orderB _ orderB_spec orderB_checked) as [Hx Hy].
  apply point_eq; cbn [px py pzero]; [rewrite <- Hx; apply ofZ_0|rewrite <- Hy; apply ofZ_1].
Qed.
#[global] Opaque base bi.

Lemma L_prime : Z.prime L.
Proof. exact prime_ed25519_L. Qed.

Lemma B_ne0 : B <> pzero.
Proof.
  intros H. apply (f_equal px) in H. cbn [px B pzero] in H. apply ofZ_0_iff in H. vm_compute in H. discriminate.
Qed.

Lemma zmul_B_eqm a b : [mod L] a == b -> zmul a B = zmul b B.
Proof. apply zmul_eqm, order_B. Qed.

Lemma zmul_B_inj a b : zmul a B = zmul b B -> [mod L] a == b.
Proof.
  intros H. assert (H0 : zmul (a - b) B = pzero) by (rewrite zmul_sub, H; apply padd_neg).
  destruct (Z.eq_dec ((a - b) mod L) 0) as [E|E].
  - apply eqm_0_mod in E. destruct E as [k E]. exists k. lia.
  - exfalso. apply B_ne0. rewrite <- (zmul_1 B).
    transitivity (zmul (Z.invmod (a - b) L) (zmul (a - b) B)); [|rewrite H0; apply zmul_pzero].
    rewrite <- zmul_mul. apply zmul_B_eqm. symmetry. rewrite Z.mul_comm. apply invmod_mul, prime_coprime; [exact L_prime|exact E].
Qed.

(** C11: The precomputed tables hold what they should: entry [j] of row [i] of [base] is
    [(j+1) * 256^i] times the base point and entry [j] of [bi] is [2j+1] times it, as the
    fields [y+x], [y-x] and [2dxy] with limbs a multiplication accepts; and the base
    point has the prime order [L] the scalars are reduced by. *)
Theorem precomputed_tables :
  (length base = 32%nat /\ forall i row, base !! i = Some row -> length row = 8%nat /\
     forall j e, row !! j = Some e -> isPre e (zmul ((Z.of_nat j + 1) * 256 ^ Z.of_nat i) B)) /\
  (length bi = 8%nat /\ forall j e, bi !! j = Some e -> isPre e (zmul (2 * Z.of_nat j + 1) B)) /\
  Z.prime L /\ forall a b, zmul a B = zmul b B <-> a mod L = b mod L.
Proof.
  split; [split; [exact base_length|exact base_row]|]. split; [split; [exact (proj2 bi_checked)|exact bi_entry]|].
  split; [exact L_prime|]. intros a b. split; [intros H; now apply eqm_mod_eq, zmul_B_inj|].
  intros H. apply zmul_B_eqm. now apply eqm_iff.
Qed.
