(* ===== verification/EdMult.v ===== *)
(** Scalar multiplication on Ed25519, [smpc-lib/crypto/ed/edwards25519.go]: the signed
    digits of a scalar, the selection of table entries without branches, and
    [GeScalarMultBase] and [GeScalarMult]. *)

From Stdlib Require Import ZArith Lia.
From stdpp Require Import list.
From S2P Require Import Prelude NumTheory Lagrange GoBig EdWords EdScalar EdField EdCurve EdGroup EdPoint EdTables EdBase.

#[local] Open Scope Z_scope.

(** The value of an [int8] after an operation. *)
Definition i8 (z : Z) : Z := (z + 2 ^ 7) mod 2 ^ 8 - 2 ^ 7.

(** * Signed digits *)

(** [e[2*i] = int8(v & 15); e[2*i+1] = int8((v >> 4) & 15)]. *)
Definition nibbles (a : list Z) : list Z := flat_map (fun v => [i8 (Z.land v 15); i8 (Z.land (v ≫ 4) 15)]) a.

(** The carries between the digits; the last digit only receives one. *)
Fixpoint recode (carry : Z) (es : list Z) : list Z :=
  match es with
  | [] => []
  | [e] => [i8 (e + carry)]
  | e :: es =>
      let e := i8 (e + carry) in
      let carry := i8 (e + 8) ≫ 4 in
      i8 (e - i8 (carry ≪ 4)) :: recode carry es
  end.

Definition digits (a : list Z) : list Z := recode 0 (nibbles a).

(** * Selection *)

(** [uint32(b ^ c)], decremented; its top bit. *)
Definition equal (b c : Z) : Z := i32 (((Z.lxor b c mod 2 ^ 32 - 1) mod 2 ^ 32) ≫ 31).

Definition negative (b : Z) : Z := Z.land (b ≫ 31) 1.

(** [b - (((-bNegative) & b) << 1)]. *)
Definition bAbs (b : Z) : Z := i32 (b - i32 (Z.land (i32 (- negative b)) b ≪ 1)).

Definition PreComputedGroupElementCMove (t u : PreComputedGroupElement) (b : Z) : PreComputedGroupElement :=
  mkPre (FeCMove (yPlusX t) (yPlusX u) b) (FeCMove (yMinusX t) (yMinusX u) b) (FeCMove (xy2d t) (xy2d u) b).

Definition CachedGroupElementCMove (t u : CachedGroupElement) (b : Z) : CachedGroupElement :=
  mkCached (FeCMove (cYPlusX t) (cYPlusX u) b) (FeCMove (cYMinusX t) (cYMinusX u) b)
    (FeCMove (cZ t) (cZ u) b) (FeCMove (cT2d t) (cT2d u) b).

Definition selectPoint (pos : nat) (b : Z) : PreComputedGroupElement :=
  let t := foldl (fun t i => PreComputedGroupElementCMove t (nth i (nth pos base []) preZero) (equal (bAbs b) (Z.of_nat i + 1)))
             preZero (seq 0 8) in
  let minusT := mkPre (yMinusX t) (yPlusX t) (FeNeg (xy2d t)) in
  PreComputedGroupElementCMove t minusT (negative b).

Definition selectCachedPoint (cached : list CachedGroupElement) (b : Z) : CachedGroupElement :=
  let t := foldl (fun t i => CachedGroupElementCMove t (nth i cached cachedZero) (equal (bAbs b) (Z.of_nat i + 1)))
             cachedZero (seq 0 8) in
  let minusT := mkCached (cYMinusX t) (cYPlusX t) (cZ t) (FeNeg (cT2d t)) in
  CachedGroupElementCMove t minusT (negative b).

(** * Multiplication *)

(** [selectPoint(&t, i/2, int32(e[i])); geMixedAdd(&r, h, &t); r.ToExtended(h)]. *)
Definition addBase (e : list Z) (h : ExtendedGroupElement) (i : nat) : ExtendedGroupElement :=
  compToExtended (geMixedAdd h (selectPoint (i / 2) (limb e i))).

(** Four doublings of the completed element [r]. *)
Definition times16 (r : CompletedGroupElement) : CompletedGroupElement :=
  Nat.iter 4 (fun r => projDouble (compToProjective r)) r.

Definition GeScalarMultBase (a : list Z) : ExtendedGroupElement :=
  let e := digits a in
  let h := foldl (addBase e) extZero ((fun i => 2 * i + 1)%nat <$> seq 0 32) in
  let r := extDouble h in
  let r := projDouble (compToProjective r) in
  let r := projDouble (compToProjective r) in
  let r := projDouble (compToProjective r) in
  let h := compToExtended r in
  foldl (addBase e) h ((fun i => 2 * i)%nat <$> seq 0 32).

(** The cached multiples [p], ..., [8p]. *)
Definition multiples8 (p : ExtendedGroupElement) : list CachedGroupElement :=
  let p1 := extToCached p in
  let e2 := compToExtended (extDouble p) in
  let p2 := extToCached e2 in
  let e3 := compToExtended (geAdd p p2) in
  let p3 := extToCached e3 in
  let e4 := compToExtended (extDouble e2) in
  let p4 := extToCached e4 in
  let e5 := compToExtended (geAdd p p4) in
  let p5 := extToCached e5 in
  let e6 := compToExtended (extDouble e3) in
  let p6 := extToCached e6 in
  let e7 := compToExtended (geAdd p p6) in
  let p7 := extToCached e7 in
  let e8 := compToExtended (extDouble e4) in
  let p8 := extToCached e8 in
  [p1; p2; p3; p4; p5; p6; p7; p8].

(** The body of the loop from digit 63 down to digit 1. *)
Definition multStep (e : list Z) (pi : list CachedGroupElement) (h : ExtendedGroupElement) (i : nat) : ExtendedGroupElement :=
  compToExtended (times16 (geAdd h (selectCachedPoint pi (limb e i)))).

Definition GeScalarMult (a : list Z) (p : ExtendedGroupElement) : ExtendedGroupElement :=
  let pi := multiples8 p in
  let e := digits a in
  let h := foldl (multStep e pi) extZero (rev (seq 1 63)) in
  compToExtended (geAdd h (selectCachedPoint pi (limb e 0))).

(** * Digits *)

Lemma i8_id z : - 2 ^ 7 <= z < 2 ^ 7 -> i8 z = z.
Proof. intros H. unfold i8. rewrite Z.mod_small; lia. Qed.

(** [sum es[i] * 16^i]. *)
Definition value16 (es : list Z) : Z := foldr (fun e acc => e + 16 * acc) 0 es.

Lemma value16_cons e es : value16 (e :: es) = e + 16 * value16 es.
Proof. reflexivity. Qed.

Lemma nibbles_spec a : Forall (fun x => 0 <= x < 256) a ->
  length (nibbles a) = (2 * length a)%nat /\ Forall (fun e => 0 <= e < 16) (nibbles a) /\ value16 (nibbles a) = le_value a.
Proof.
  induction 1 as [|v a Hv _ (Hl & Hf & Hs)]; [done|]. unfold nibbles in *. cbn [flat_map app length].
  assert (E0 : i8 (Z.land v 15) = v mod 16).
  { change 15 with (Z.ones 4). rewrite Z.land_ones by lia. change (2 ^ 4) with 16. apply i8_id.
    pose proof (Z.mod_pos_bound v 16). lia. }
  assert (E1 : i8 (Z.land (v ≫ 4) 15) = v / 16).
  { change 15 with (Z.ones 4). rewrite Z.land_ones, Z.shiftr_div_pow2 by lia. change (2 ^ 4) with 16.
    pose proof (Z.div_pos v 16). pose proof (Z.div_lt_upper_bound v 16 16). rewrite Z.mod_small by lia. apply i8_id. lia. }
  rewrite E0, E1. pose proof (Z.mod_pos_bound v 16). pose proof (Z.div_pos v 16). pose proof (Z.div_lt_upper_bound v 16 16).
  split; [lia|]. split; [repeat constructor; try lia; exact Hf|]. rewrite !value16_cons, Hs.
  change (le_value (v :: a)) with (v + 256 * le_value a). pose proof (Z.div_mod v 16). lia.
Qed.

(** A digit with its carry. *)
Lemma recode_digit e carry : 0 <= e < 16 -> 0 <= carry <= 1 ->
  let x := i8 (e + carry) in let c := i8 (x + 8) ≫ 4 in
  0 <= c <= 1 /\ - 8 <= i8 (x - i8 (c ≪ 4)) <= 8 /\ i8 (x - i8 (c ≪ 4)) + 16 * c = e + carry.
Proof.
  intros He Hc. cbv zeta. rewrite (i8_id (e + carry)), (i8_id (e + carry + 8)) by lia.
  rewrite Z.shiftr_div_pow2 by lia. change (2 ^ 4) with 16.
  assert (H : (e + carry + 8) / 16 = 0 /\ e + carry < 8 \/ (e + carry + 8) / 16 = 1 /\ 8 <= e + carry).
  { pose proof (Z.div_mod (e + carry + 8) 16 ltac:(lia)). pose proof (Z.mod_pos_bound (e + carry + 8) 16 ltac:(lia)). lia. }
  destruct H as [[-> H]|[-> H]].
  - change (i8 (0 ≪ 4)) with 0. rewrite i8_id by lia. lia.
  - change (i8 (1 ≪ 4)) with 16. rewrite i8_id by lia. lia.
Qed.

Lemma recode_spec es : forall carry, 0 <= carry <= 1 -> Forall (fun e => 0 <= e < 16) es -> es <> [] ->
  List.last es 0 < 8 ->
  length (recode carry es) = length es /\ Forall (fun e => - 8 <= e <= 8) (recode carry es) /\
  value16 (recode carry es) = value16 es + carry.
Proof.
  induction es as [|e es IH]; intros carry Hc Hf Hne Ht; [done|]. apply Forall_cons in Hf as [He Hf].
  destruct es as [|e' es].
  - cbn in Ht |- *. rewrite i8_id by lia. split; [done|]. split; [repeat constructor; lia|lia].
  - destruct (recode_digit e carry He Hc) as (Hc' & Hr & Hs). set (es' := e' :: es) in *.
    change (recode carry (e :: es')) with
      (i8 (i8 (e + carry) - i8 (i8 (i8 (e + carry) + 8) ≫ 4 ≪ 4)) :: recode (i8 (i8 (e + carry) + 8) ≫ 4) es').
    destruct (IH _ Hc' Hf ltac:(discriminate) Ht) as (IHl & IHf & IHs).
    split; [cbn [length]; lia|]. split; [now constructor|]. rewrite !value16_cons, IHs. lia.
Qed.

Lemma value16_last es : Forall (fun e => 0 <= e < 16) es -> es <> [] ->
  value16 es < 8 * 16 ^ Z.of_nat (length es - 1) -> List.last es 0 < 8.
Proof.
  induction 1 as [|e es He Hf IH]; intros Hne Hv; [done|]. destruct es as [|e' es]; [cbn in *; lia|].
  change (List.last (e :: e' :: es) 0) with (List.last (e' :: es) 0). apply IH; [discriminate|].
  rewrite value16_cons in Hv. cbn [length] in Hv |- *.
  replace (Z.of_nat (S (S (length es)) - 1)) with (Z.succ (Z.of_nat (S (length es) - 1))) in Hv by lia.
  rewrite Z.pow_succ_r in Hv by lia. lia.
Qed.

Lemma digits_spec a : isBytes 32 a -> le_value a < 2 ^ 255 ->
  length (digits a) = 64%nat /\ Forall (fun e => - 8 <= e <= 8) (digits a) /\ value16 (digits a) = le_value a.
Proof.
  intros [Hl Hb] Hv. destruct (nibbles_spec a Hb) as (Hn & Hf & Hs). rewrite Hl in Hn.
  assert (Hne : nibbles a <> []) by (intros E; rewrite E in Hn; discriminate).
  destruct (recode_spec (nibbles a) 0 ltac:(lia) Hf Hne) as (H1 & H2 & H3).
  - apply value16_last; [exact Hf|exact Hne|]. rewrite Hn, Hs. exact Hv.
  - unfold digits. rewrite H1, H3, Hs. split; [exact Hn|]. split; [exact H2|lia].
Qed.

(** * Selection *)

(** Digits one by one. *)
Ltac each_digit b H :=
  assert (b = -8 \/ b = -7 \/ b = -6 \/ b = -5 \/ b = -4 \/ b = -3 \/ b = -2 \/ b = -1 \/ b = 0 \/ b = 1 \/ b = 2
    \/ b = 3 \/ b = 4 \/ b = 5 \/ b = 6 \/ b = 7 \/ b = 8) as H by lia;
  repeat (destruct H as [-> |H]); [..|subst b].

Lemma negative_spec b : - 8 <= b <= 8 -> negative b = if b <? 0 then 1 else 0.
Proof. intros Hb. each_digit b H; reflexivity. Qed.

Lemma bAbs_spec b : - 8 <= b <= 8 -> bAbs b = Z.abs b.
Proof. intros Hb. each_digit b H; reflexivity. Qed.

Lemma equal_spec n i : 0 <= n <= 8 -> (i < 8)%nat -> equal n (Z.of_nat i + 1) = if n =? Z.of_nat i + 1 then 1 else 0.
Proof.
  intros Hn Hi. each_digit n H; try lia; do 8 (destruct i as [|i]; [reflexivity|]); lia.
Qed.

Lemma upto_length k f : upto k f -> length f = 10%nat.
Proof. intros H. apply below_length in H. now rewrite level_length in H. Qed.

(** The move copies [u] or keeps [t]. *)
Lemma preCMove_spec t u A C b : isPre t A -> isPre u C -> b = 0 \/ b = 1 ->
  PreComputedGroupElementCMove t u b = if b =? 1 then u else t.
Proof.
  intros (H1 & H2 & H3 & _) (H1' & H2' & H3' & _) Hb. unfold PreComputedGroupElementCMove.
  rewrite !FeCMove_spec by (exact Hb || (erewrite !upto_length by eassumption; reflexivity)).
  destruct t, u. now destruct (b =? 1).
Qed.

Lemma cachedCMove_spec t u A C b : isCached t A -> isCached u C -> b = 0 \/ b = 1 ->
  CachedGroupElementCMove t u b = if b =? 1 then u else t.
Proof.
  intros (H1 & H2 & H3 & H4 & _) (H1' & H2' & H3' & H4' & _) Hb. unfold CachedGroupElementCMove.
  rewrite !FeCMove_spec by (exact Hb || (erewrite !upto_length by eassumption; reflexivity)).
  destruct t, u. now destruct (b =? 1).
Qed.

(** A selection among the multiples [P], ..., [8P] by conditional moves: [rep] is one of
    the two relations and [mv] its conditional move. *)
Section select.
Context {T : Type} (rep : T -> point -> Prop) (mv : T -> T -> Z -> T) (zero : T) (P : point).
Context (mv_spec : forall t u A C b, rep t A -> rep u C -> b = 0 \/ b = 1 -> mv t u b = if b =? 1 then u else t).
Context (zero_spec : rep zero pzero).
Context (tbl : nat -> T) (tbl_spec : forall i, (i < 8)%nat -> rep (tbl i) (zmul (Z.of_nat i + 1) P)).

Lemma select_fold n m : 0 <= n <= 8 -> (m <= 8)%nat ->
  let t := foldl (fun t i => mv t (tbl i) (equal n (Z.of_nat i + 1))) zero (seq 0 m) in
  (1 <= n <= Z.of_nat m -> t = tbl (Z.to_nat (n - 1))) /\ (n = 0 \/ Z.of_nat m < n -> t = zero).
Proof.
  intros Hn. induction m as [|m IH]; intros Hm; cbv zeta in *; [split; [lia|done]|].
  rewrite seq_S, foldl_app. cbn [foldl]. destruct (IH ltac:(lia)) as [IH1 IH2].
  set (t := foldl _ zero (seq 0 m)) in *. assert (Ht : exists A, rep t A).
  { destruct (decide (1 <= n <= Z.of_nat m)) as [H|H].
    - rewrite (IH1 H). eexists. apply tbl_spec. lia.
    - rewrite IH2 by lia. eauto. }
  destruct Ht as [A Ht]. pose proof (tbl_spec m ltac:(lia)) as Hm'.
  rewrite equal_spec, (mv_spec _ _ _ _ _ Ht Hm') by (lia || (destruct (n =? _); auto)).
  change (0 + m)%nat with m. destruct (Z.eqb_spec n (Z.of_nat m + 1)) as [E|E]; cbn.
  - split; [intros _; f_equal; lia|lia].
  - split; intros H; [apply IH1|apply IH2]; lia.
Qed.

Lemma select_spec n : 0 <= n <= 8 ->
  rep (foldl (fun t i => mv t (tbl i) (equal n (Z.of_nat i + 1))) zero (seq 0 8)) (zmul n P).
Proof.
  intros Hn. destruct (select_fold n 8 Hn ltac:(lia)) as [H1 H2]. destruct (decide (n = 0)) as [->|Hne].
  - rewrite H2 by lia. exact zero_spec.
  - rewrite H1 by lia. replace n with (Z.of_nat (Z.to_nat (n - 1)) + 1) at 2 by lia. apply tbl_spec. lia.
Qed.
End select.

Lemma selectPoint_spec pos b : (pos < 32)%nat -> - 8 <= b <= 8 -> isPre (selectPoint pos b) (zmul (b * 256 ^ Z.of_nat pos) B).
Proof.
  intros Hp Hb. set (P := zmul (256 ^ Z.of_nat pos) B). unfold selectPoint. rewrite bAbs_spec by exact Hb.
  destruct (lookup_lt_is_Some_2 base pos ltac:(rewrite base_length; exact Hp)) as [row Hrow].
  rewrite (nth_lookup_Some _ _ [] row Hrow). destruct (base_row pos row Hrow) as [Hlen Hpre].
  assert (Htbl : forall i, (i < 8)%nat -> isPre (nth i row preZero) (zmul (Z.of_nat i + 1) P)).
  { intros i Hi. destruct (lookup_lt_is_Some_2 row i ltac:(lia)) as [e He]. rewrite (nth_lookup_Some _ _ preZero e He).
    unfold P. rewrite <- zmul_mul. now apply Hpre. }
  pose proof (select_spec isPre PreComputedGroupElementCMove preZero P preCMove_spec preZero_spec _ Htbl (Z.abs b) ltac:(lia)) as Ht.
  set (t := foldl _ preZero (seq 0 8)) in *. clearbody t. pose proof (preNeg_spec _ _ Ht) as Hn. unfold preNeg in Hn.
  rewrite negative_spec by exact Hb. rewrite (preCMove_spec _ _ _ _ _ Ht Hn) by (destruct (b <? 0); auto).
  rewrite zmul_mul. fold P. destruct (Z.ltb_spec b 0); cbn.
  - rewrite <- zmul_opp, Z.abs_neq, Z.opp_involutive in Hn by lia. exact Hn.
  - rewrite Z.abs_eq in Ht by lia. exact Ht.
Qed.

Lemma selectCachedPoint_spec cached P b : length cached = 8%nat -> - 8 <= b <= 8 ->
  (forall i c, cached !! i = Some c -> isCached c (zmul (Z.of_nat i + 1) P)) -> isCached (selectCachedPoint cached b) (zmul b P).
Proof.
  intros Hlen Hb Hc. unfold selectCachedPoint. rewrite bAbs_spec by exact Hb.
  assert (Htbl : forall i, (i < 8)%nat -> isCached (nth i cached cachedZero) (zmul (Z.of_nat i + 1) P)).
  { intros i Hi. destruct (lookup_lt_is_Some_2 cached i ltac:(lia)) as [e He]. rewrite (nth_lookup_Some _ _ cachedZero e He).
    now apply Hc. }
  pose proof (select_spec isCached CachedGroupElementCMove cachedZero P cachedCMove_spec cachedZero_spec _ Htbl (Z.abs b) ltac:(lia)) as Ht.
  set (t := foldl _ cachedZero (seq 0 8)) in *. clearbody t. pose proof (cachedNeg_spec _ _ Ht) as Hn. unfold cachedNeg in Hn.
  rewrite negative_spec by exact Hb. rewrite (cachedCMove_spec _ _ _ _ _ Ht Hn) by (destruct (b <? 0); auto).
  destruct (Z.ltb_spec b 0); cbn.
  - rewrite <- zmul_opp, Z.abs_neq, Z.opp_involutive in Hn by lia. exact Hn.
  - rewrite Z.abs_eq in Ht by lia. exact Ht.
Qed.

(** * Multiples *)

Lemma digit_range e i : Forall (fun x => - 8 <= x <= 8) e -> - 8 <= limb e i <= 8.
Proof.
  intros H. unfold limb. revert i. induction H as [|x e Hx _ IH]; intros [|i]; cbn [nth]; try lia. apply IH.
Qed.

Lemma compDouble_spec r A : isComp r A -> isComp (projDouble (compToProjective r)) (padd A A).
Proof. intros H. apply projDouble_spec. now apply compToProjective_spec. Qed.

Lemma zmul_double k P : padd (zmul k P) (zmul k P) = zmul (2 * k) P.
Proof. rewrite <- zmul_add. f_equal. lia. Qed.

Lemma addBase_spec e h i A : Forall (fun x => - 8 <= x <= 8) e -> (i < 64)%nat -> isExt h A ->
  isExt (addBase e h i) (padd A (zmul (limb e i * 256 ^ Z.of_nat (i / 2)) B)).
Proof.
  intros He Hi Hh. apply compToExtended_spec, geMixedAdd_spec; [exact Hh|]. apply selectPoint_spec; [|now apply digit_range].
  apply Nat.Div0.div_lt_upper_bound. lia.
Qed.

Lemma addBase_loop e ix : Forall (fun x => - 8 <= x <= 8) e -> Forall (fun i => i < 64)%nat ix -> forall h k, isExt h (zmul k B) ->
  isExt (foldl (addBase e) h ix) (zmul (k + zsum (fun i => limb e i * 256 ^ Z.of_nat (i / 2)) ix) B).
Proof.
  intros He. induction 1 as [|i ix Hi _ IH]; intros h k Hh; cbn [foldl].
  - change (zsum _ []) with 0. now rewrite Z.add_0_r.
  - rewrite zsum_cons, Z.add_assoc. apply IH. rewrite zmul_add. now apply addBase_spec.
Qed.

(** Even and odd digits separately. *)
Lemma zsum_over_fmap {A C} (g : C -> A) (f : A -> Z) l : zsum f (g <$> l) = zsum (fun x => f (g x)) l.
Proof. induction l as [|x l IH]; [done|]. rewrite fmap_cons, !zsum_cons. now rewrite IH. Qed.

Lemma value16_pairs n : forall e, length e = (2 * n)%nat ->
  value16 e = 16 * zsum (fun k => limb e (2 * k + 1) * 256 ^ Z.of_nat k) (seq 0 n)
            + zsum (fun k => limb e (2 * k) * 256 ^ Z.of_nat k) (seq 0 n).
Proof.
  induction n as [|n IH]; intros e He.
  - destruct e; [reflexivity|discriminate He].
  - destruct e as [|x [|y e]]; cbn [length] in He; try lia. rewrite !value16_cons, (IH e) by lia.
    cbn [seq]. rewrite <- (fmap_S_seq 0 n), !zsum_cons, !zsum_over_fmap.
    rewrite (zsum_ext (fun k => limb (x :: y :: e) (2 * S k + 1) * 256 ^ Z.of_nat (S k)) (fun k => 256 * (limb e (2 * k + 1) * 256 ^ Z.of_nat k))),
      (zsum_ext (fun k => limb (x :: y :: e) (2 * S k) * 256 ^ Z.of_nat (S k)) (fun k => 256 * (limb e (2 * k) * 256 ^ Z.of_nat k))).
    + rewrite !zsum_mul. change (limb (x :: y :: e) (2 * 0 + 1)) with y. change (limb (x :: y :: e) (2 * 0)) with x. change (256 ^ Z.of_nat 0) with 1. ring.
    + intros k _. replace (2 * S k)%nat with (S (S (2 * k))) by lia. rewrite Nat2Z.inj_succ, Z.pow_succ_r by lia.
      change (limb (x :: y :: e) (S (S (2 * k)))) with (limb e (2 * k)). ring.
    + intros k _. replace (2 * S k + 1)%nat with (S (S (2 * k + 1))) by lia. rewrite Nat2Z.inj_succ, Z.pow_succ_r by lia.
      change (limb (x :: y :: e) (S (S (2 * k + 1)))) with (limb e (2 * k + 1)). ring.
Qed.

Lemma value16_halves e : length e = 64%nat ->
  value16 e = 16 * zsum (fun i => limb e i * 256 ^ Z.of_nat (i / 2)) ((fun i => 2 * i + 1)%nat <$> seq 0 32)
            + zsum (fun i => limb e i * 256 ^ Z.of_nat (i / 2)) ((fun i => 2 * i)%nat <$> seq 0 32).
Proof.
  intros He. rewrite (value16_pairs 32 e He), !zsum_over_fmap.
  apply (f_equal2 Z.add); [apply (f_equal (Z.mul 16))|]; apply zsum_ext; intros k _; apply f_equal, f_equal, f_equal; symmetry.
  - rewrite Nat.mul_comm, Nat.div_add_l, Nat.add_0_r by lia. reflexivity.
  - rewrite Nat.mul_comm, Nat.div_mul by lia. reflexivity.
Qed.

Lemma GeScalarMultBase_spec a : isBytes 32 a -> le_value a < 2 ^ 255 -> isExt (GeScalarMultBase a) (zmul (le_value a) B).
Proof.
  intros Ha Hv. destruct (digits_spec a Ha Hv) as (Hl & Hd & Hs). unfold GeScalarMultBase. set (e := digits a) in *. clearbody e.
  assert (H1 : isExt extZero (zmul 0 B)) by exact extZero_spec.
  assert (Ho : Forall (fun i => i < 64)%nat ((fun i => 2 * i + 1)%nat <$> seq 0 32)) by (repeat constructor; lia).
  assert (He : Forall (fun i => i < 64)%nat ((fun i => 2 * i)%nat <$> seq 0 32)) by (repeat constructor; lia).
  pose proof (addBase_loop e _ Hd Ho _ _ H1) as H2. rewrite Z.add_0_l in H2.
  pose proof (extDouble_spec _ _ H2) as H3. rewrite zmul_double in H3.
  do 3 (apply compDouble_spec in H3; rewrite zmul_double in H3).
  pose proof (addBase_loop e _ Hd He _ _ (compToExtended_spec _ _ H3)) as H4.
  rewrite <- Hs, (value16_halves e Hl).
  replace (16 * _) with (2 * (2 * (2 * (2 * zsum (fun i => limb e i * 256 ^ Z.of_nat (i / 2)) ((fun i => 2 * i + 1)%nat <$> seq 0 32)))))
    by ring. exact H4.
Qed.

Lemma multiples8_spec p A : isExt p A -> length (multiples8 p) = 8%nat /\
  forall i c, multiples8 p !! i = Some c -> isCached c (zmul (Z.of_nat i + 1) A).
Proof.
  intros Hp. split; [reflexivity|].
  pose proof Hp as H1. rewrite <- (zmul_1 A) in H1.
  assert (Hdbl : forall q k, isExt q (zmul k A) -> isExt (compToExtended (extDouble q)) (zmul (2 * k) A)).
  { intros q k Hq. rewrite <- zmul_double. now apply compToExtended_spec, extDouble_spec. }
  assert (Hadd : forall c k, isCached c (zmul k A) -> isExt (compToExtended (geAdd p c)) (zmul (1 + k) A)).
  { intros c k Hc. rewrite zmul_add. now apply compToExtended_spec, geAdd_spec. }
  pose proof (Hdbl _ _ H1) as H2. pose proof (Hadd _ _ (extToCached_spec _ _ H2)) as H3. pose proof (Hdbl _ _ H2) as H4.
  pose proof (Hadd _ _ (extToCached_spec _ _ H4)) as H5. pose proof (Hdbl _ _ H3) as H6.
  pose proof (Hadd _ _ (extToCached_spec _ _ H6)) as H7. pose proof (Hdbl _ _ H4) as H8. clear Hdbl Hadd.
  intros i c Hc. unfold multiples8 in Hc.
  do 8 (destruct i as [|i]; [injection Hc as <-; now apply extToCached_spec|]). discriminate Hc.
Qed.

Lemma times16_spec r k P : isComp r (zmul k P) -> isComp (times16 r) (zmul (16 * k) P).
Proof.
  intros H. unfold times16. do 4 (rewrite Nat.iter_succ). change (Nat.iter 0 ?f r) with r.
  replace (16 * k) with (2 * (2 * (2 * (2 * k)))) by ring. do 4 (apply compDouble_spec in H; rewrite zmul_double in H). exact H.
Qed.

(** The loop evaluates the digits from the top. *)
Lemma multStep_loop e pi P : Forall (fun x => - 8 <= x <= 8) e -> length pi = 8%nat ->
  (forall i c, pi !! i = Some c -> isCached c (zmul (Z.of_nat i + 1) P)) -> forall ix h k, isExt h (zmul k P) ->
  isExt (foldl (multStep e pi) h ix) (zmul (foldl (fun k i => 16 * (k + limb e i)) k ix) P).
Proof.
  intros He Hl Hpi. induction ix as [|i ix IH]; intros h k Hh; [exact Hh|]. cbn [foldl]. apply IH.
  apply compToExtended_spec, times16_spec. rewrite zmul_add. apply geAdd_spec; [exact Hh|].
  apply selectCachedPoint_spec; [exact Hl|now apply digit_range|exact Hpi].
Qed.

Lemma value16_horner e : length e = 64%nat ->
  foldl (fun k i => 16 * (k + limb e i)) 0 (rev (seq 1 63)) + limb e 0 = value16 e.
Proof.
  intros He. do 64 (destruct e as [|? e]; [discriminate He|]). destruct e; [|discriminate He].
  cbv [value16 foldr foldl rev app seq limb nth]. ring.
Qed.

Lemma GeScalarMult_spec a p A : isBytes 32 a -> le_value a < 2 ^ 255 -> isExt p A -> isExt (GeScalarMult a p) (zmul (le_value a) A).
Proof.
  intros Ha Hv Hp. destruct (digits_spec a Ha Hv) as (Hl & Hd & Hs). unfold GeScalarMult.
  destruct (multiples8_spec p A Hp) as [Hlen Hpi]. set (e := digits a) in *. set (pi := multiples8 p) in *. clearbody e pi.
  apply compToExtended_spec. rewrite <- Hs, <- (value16_horner e Hl), zmul_add. apply geAdd_spec.
  - apply (multStep_loop e pi A Hd Hlen Hpi). exact extZero_spec.
  - apply selectCachedPoint_spec; [exact Hlen|now apply digit_range|exact Hpi].
Qed.

(** C6: [GeScalarMultBase] and [GeScalarMult] multiply: for 32 bytes whose last is at most
    127 the element they compute represents [a * B], respectively [a * A] for the point
    [A] of the argument, where [a] is the little-endian number of the bytes. *)
Theorem scalar_multiplication a p A : isBytes 32 a -> limb a 31 <= 127 -> isExt p A ->
  isExt (GeScalarMultBase a) (zmul (le_value a) B) /\ isExt (GeScalarMult a p) (zmul (le_value a) A).
Proof.
  intros Ha Ht Hp. assert (Hv : le_value a < 2 ^ 255).
  { rewrite (limb_last a 31 Ha) in Ht. pose proof (Z.div_mod (le_value a) (256 ^ Z.of_nat 31) ltac:(lia)).
    pose proof (Z.mod_pos_bound (le_value a) (256 ^ Z.of_nat 31) ltac:(lia)). change (2 ^ 255) with (256 ^ Z.of_nat 31 * 128). nia. }
  split; [now apply GeScalarMultBase_spec|now apply GeScalarMult_spec].
Qed.

(** The scalar one gives the base point. *)
Lemma scalar_multiplication_witness : isExt (GeScalarMultBase (1 :: replicate 31 0)) B.
Proof.
  assert (Ha : isBytes 32 (1 :: replicate 31 0)) by (split; [reflexivity|repeat constructor; lia]).
  pose proof (scalar_multiplication (1 :: replicate 31 0) extZero pzero Ha ltac:(cbn; lia) extZero_spec) as [H _].
  change (le_value (1 :: replicate 31 0)) with 1 in H. now rewrite zmul_1 in H.
Defined.
