(* ===== verification/EdSlide.v ===== *)
(** The signed sliding windows of [smpc-lib/crypto/ed/edwards25519.go]: [slide] and
    [GeDoubleScalarMultVartime], which signature verification uses.

    [slide] rewrites the bits of a scalar in place to odd digits between [-15] and [15];
    the carries it propagates never leave the array when the scalar is below [2^255]. *)

From Stdlib Require Import ZArith Lia.
From stdpp Require Import list.
From S2P Require Import Prelude NumTheory Lagrange GoBig EdWords EdScalar EdField EdCurve EdGroup EdPoint EdTables EdBase EdMult.

#[local] Open Scope Z_scope.

(** * Sliding windows *)

(** [r[i] = int8(1 & (a[i>>3] >> uint(i&7)))]. *)
Definition slideBits (a : list Z) : list Z :=
  (fun i => i8 (Z.land 1 (limb a (i / 8) ≫ Z.of_nat (i mod 8)))) <$> seq 0 256.

(** [for k := k; k < k+n; k++ { if r[k] == 0 { r[k] = 1; break }; r[k] = 0 }]. *)
Fixpoint slideCarry (n k : nat) (r : list Z) : list Z :=
  match n with
  | O => r
  | S n => if limb r k =? 0 then set_ k 1 r else slideCarry n (S k) (set_ k 0 r)
  end.

(** The loop over [b]. *)
Fixpoint slideWindow (bs : list nat) (i : nat) (r : list Z) : list Z :=
  match bs with
  | [] => r
  | b :: bs =>
      if (i + b <? 256)%nat then
        if limb r (i + b) =? 0 then slideWindow bs i r
        else
          let v := i8 (limb r (i + b) ≪ Z.of_nat b) in
          if i8 (limb r i + v) <=? 15 then slideWindow bs i (set_ (i + b) 0 (set_ i (i8 (limb r i + v)) r))
          else if -15 <=? i8 (limb r i - v)
          then slideWindow bs i (slideCarry (256 - (i + b)) (i + b) (set_ i (i8 (limb r i - v)) r))
          else r
      else r
  end.

Definition slide (a : list Z) : list Z :=
  foldl (fun r i => if limb r i =? 0 then r else slideWindow [1; 2; 3; 4; 5; 6]%nat i r) (slideBits a) (seq 0 256).

(** * Two scalar multiplications at once *)

(** [A], [3A], ..., [15A]. *)
Fixpoint oddMultiples (n : nat) (A2 : ExtendedGroupElement) (c : CachedGroupElement) : list CachedGroupElement :=
  match n with
  | O => [c]
  | S n => c :: oddMultiples n A2 (extToCached (compToExtended (geAdd A2 c)))
  end.

(** The additions of one digit. *)
Definition addCachedDigit (Ai : list CachedGroupElement) (t : CompletedGroupElement) (dig : Z) : CompletedGroupElement :=
  if 0 <? dig then geAdd (compToExtended t) (nth (Z.to_nat (Z.quot dig 2)) Ai cachedZero)
  else if dig <? 0 then geSub (compToExtended t) (nth (Z.to_nat (Z.quot (i8 (- dig)) 2)) Ai cachedZero)
  else t.

Definition addBiDigit (t : CompletedGroupElement) (dig : Z) : CompletedGroupElement :=
  if 0 <? dig then geMixedAdd (compToExtended t) (nth (Z.to_nat (Z.quot dig 2)) bi preZero)
  else if dig <? 0 then geMixedSub (compToExtended t) (nth (Z.to_nat (Z.quot (i8 (- dig)) 2)) bi preZero)
  else t.

(** The highest position, counted from one, at which one of the slides is not zero. *)
Fixpoint slideTop (n : nat) (aSlide bSlide : list Z) : nat :=
  match n with
  | O => O
  | S i => if (negb (limb aSlide i =? 0)) || (negb (limb bSlide i =? 0)) then S i else slideTop i aSlide bSlide
  end.

Definition doubleStep (aSlide bSlide : list Z) (Ai : list CachedGroupElement) (r : ProjectiveGroupElement) (i : nat)
  : ProjectiveGroupElement :=
  compToProjective (addBiDigit (addCachedDigit Ai (projDouble r) (limb aSlide i)) (limb bSlide i)).

Definition GeDoubleScalarMultVartime (a : list Z) (A : ExtendedGroupElement) (b : list Z) : ProjectiveGroupElement :=
  let aSlide := slide a in
  let bSlide := slide b in
  let A2 := compToExtended (extDouble A) in
  let Ai := oddMultiples 7 A2 (extToCached A) in
  foldl (doubleStep aSlide bSlide Ai) projZero (rev (seq 0 (slideTop 256 aSlide bSlide))).

(** * Values *)

(** [sum r[i] * 2^i]. *)
Definition value2 (r : list Z) : Z := foldr (fun x acc => x + 2 * acc) 0 r.

Lemma value2_cons x r : value2 (x :: r) = x + 2 * value2 r.
Proof. reflexivity. Qed.

Lemma value2_app l1 l2 : value2 (l1 ++ l2) = value2 l1 + 2 ^ Z.of_nat (length l1) * value2 l2.
Proof.
  induction l1 as [|x l1 IH]; [change (value2 l2 = 0 + 1 * value2 l2); lia|]. change ((x :: l1) ++ l2) with (x :: (l1 ++ l2)).
  rewrite !value2_cons, IH. cbn [length]. rewrite Nat2Z.inj_succ, Z.pow_succ_r by lia. ring.
Qed.

Lemma value2_set k v r : (k < length r)%nat -> value2 (set_ k v r) = value2 r + (v - limb r k) * 2 ^ Z.of_nat k.
Proof.
  unfold set_, limb. revert k. induction r as [|x r IH]; intros [|k] Hk; cbn [length] in Hk; try lia.
  - change (v + 2 * value2 r = x + 2 * value2 r + (v - x) * 1). ring.
  - change (x + 2 * value2 (<[k:=v]> r) = x + 2 * value2 r + (v - nth k r 0) * 2 ^ Z.of_nat (S k)).
    rewrite IH by lia. rewrite Nat2Z.inj_succ, Z.pow_succ_r by lia. ring.
Qed.

Lemma value2_split k r : (k <= length r)%nat -> value2 r = value2 (take k r) + 2 ^ Z.of_nat k * value2 (drop k r).
Proof.
  intros Hk. rewrite <- (take_drop k r) at 1. rewrite value2_app, length_take. now rewrite Nat.min_l by lia.
Qed.

Lemma limb_drop r k : drop k r = if decide (k < length r)%nat then limb r k :: drop (S k) r else [].
Proof.
  destruct (decide (k < length r)%nat) as [H|H]; [|apply drop_ge; lia].
  destruct (lookup_lt_is_Some_2 r k H) as [x Hx]. rewrite (drop_S _ _ _ Hx). unfold limb. now rewrite (nth_lookup_Some _ _ _ _ Hx).
Qed.

Definition bit (x : Z) : Prop := x = 0 \/ x = 1.

(** The value of the bits from [k] on, when they are all one. *)
Lemma value2_ones k n r : length r = (k + n)%nat -> (forall j, (k <= j < k + n)%nat -> limb r j = 1) -> value2 (drop k r) = 2 ^ Z.of_nat n - 1.
Proof.
  revert k. induction n as [|n IH]; intros k Hl Ho.
  - rewrite drop_ge by lia. reflexivity.
  - rewrite limb_drop. destruct (decide (k < length r)%nat); [|lia]. rewrite value2_cons, (IH (S k)), (Ho k) by (lia || (intros; apply Ho; lia)).
    rewrite Nat2Z.inj_succ, Z.pow_succ_r by lia. ring.
Qed.

(** ** Carries *)

Lemma take_set k i v r : (k <= i)%nat -> take k (set_ i v r) = take k r.
Proof. intros H. unfold set_. now apply take_insert_ge. Qed.

Lemma slideCarry_spec n : forall k r, length r = (k + n)%nat -> (forall j, (k <= j < k + n)%nat -> bit (limb r j)) ->
  length (slideCarry n k r) = length r /\ take k (slideCarry n k r) = take k r /\
  (forall j, (k <= j)%nat -> bit (limb (slideCarry n k r) j)) /\
  (value2 (slideCarry n k r) = value2 r + 2 ^ Z.of_nat k \/ forall j, (k <= j < k + n)%nat -> limb r j = 1).
Proof.
  induction n as [|n IH]; intros k r Hl Hb; cbn [slideCarry].
  - split_and!; [done|done| |right; lia]. intros j Hj. unfold limb. rewrite nth_overflow by lia. now left.
  - destruct (Z.eqb_spec (limb r k) 0) as [E|E].
    + rewrite length_set. split_and!; [done|now apply take_set| |].
      * intros j Hj. rewrite limb_set by lia. case_decide; [now right|]. destruct (decide (j < k + S n)%nat); [now apply Hb; lia|].
        left. unfold limb. now rewrite nth_overflow by lia.
      * left. rewrite value2_set, E by lia. ring.
    + assert (Hk : limb r k = 1) by (destruct (Hb k ltac:(lia)); congruence).
      destruct (IH (S k) (set_ k 0 r)) as (H1 & H2 & H3 & H4).
      * rewrite length_set. lia.
      * intros j Hj. rewrite limb_set by lia. case_decide; [now left|]. apply Hb. lia.
      * rewrite length_set in H1. split_and!; [exact H1| | |].
        -- apply (f_equal (take k)) in H2. rewrite !take_take, Nat.min_l, take_set in H2 by lia. exact H2.
        -- intros j Hj. destruct (decide (j = k)) as [->|]; [|apply H3; lia]. left.
           apply (f_equal (fun l => limb l k)) in H2. unfold limb in H2 |- *. rewrite !nth_lookup, !lookup_take in H2 by lia.
           rewrite decide_True, decide_True in H2 by lia. rewrite nth_lookup, H2, <- nth_lookup. 
           change (limb (set_ k 0 r) k = 0). rewrite limb_set by lia. now rewrite decide_True.
        -- destruct H4 as [H4|H4].
           ++ left. rewrite H4, value2_set, Hk, Nat2Z.inj_succ, Z.pow_succ_r by lia. ring.
           ++ right. intros j Hj. destruct (decide (j = k)) as [->|]; [exact Hk|].
              specialize (H4 j ltac:(lia)). rewrite limb_set in H4 by lia. now rewrite decide_False in H4.
Qed.

(** ** Windows *)

Lemma value2_zeros k m r : (k + m <= length r)%nat -> (forall j, (k <= j < k + m)%nat -> limb r j = 0) ->
  value2 (drop k r) = 2 ^ Z.of_nat m * value2 (drop (k + m) r).
Proof.
  revert k. induction m as [|m IH]; intros k Hl Hz; [rewrite Nat.add_0_r; cbn [Z.of_nat]; lia|].
  rewrite limb_drop. destruct (decide (k < length r)%nat); [|lia].
  rewrite value2_cons, (IH (S k)), (Hz k) by (lia || (intros; apply Hz; lia)).
  rewrite Nat2Z.inj_succ, Z.pow_succ_r, Nat.add_succ_l, Nat.add_succ_r by lia. ring.
Qed.

Lemma limb_take r r' i j : take i r = take i r' -> (j < i)%nat -> limb r j = limb r' j.
Proof.
  intros E Hj. unfold limb. rewrite !nth_lookup. f_equal. rewrite <- (lookup_take_lt r i j Hj), <- (lookup_take_lt r' i j Hj). now rewrite E.
Qed.

Lemma take_limb r i : (i < length r)%nat -> take (S i) r = take i r ++ [limb r i].
Proof.
  intros H. destruct (lookup_lt_is_Some_2 r i H) as [x Hx]. rewrite (take_S_r _ _ _ Hx). unfold limb.
  now rewrite (nth_lookup_Some _ _ _ _ Hx).
Qed.

Definition oddDigit (x : Z) : Prop := Z.odd x = true /\ Z.abs x <= 15.

Section slide.
Context (a : Z) (Ha : a < 2 ^ 255).

(** During the window of position [i]: the bits before [i + b] are collected in [r[i]]. *)
Definition windowInv (i b : nat) (pre r : list Z) : Prop :=
  length r = 256%nat /\ take i r = pre /\ oddDigit (limb r i) /\
  (forall j, (i < j < i + b)%nat -> limb r j = 0) /\ (forall j, (i + b <= j)%nat -> bit (limb r j)) /\ value2 r = a.

Lemma odd_pow2 b : (1 <= b)%nat -> Z.odd (2 ^ Z.of_nat b) = false.
Proof. intros Hb. rewrite Z.odd_pow by lia. reflexivity. Qed.

(** The bits from [i + b] on cannot all be one when the window borrows. *)
Lemma no_overflow i b pre r : (1 <= b)%nat -> (i + b < 256)%nat -> windowInv i b pre r -> - 2 ^ Z.of_nat i < value2 pre ->
  1 <= limb r i -> ~ (forall j, (i + b <= j < 256)%nat -> limb r j = 1).
Proof.
  intros Hb Hi (Hl & Ht & _ & Hz & _ & Hv) Hp Hx Hall.
  rewrite (value2_split i r), Ht, limb_drop in Hv by lia. destruct (decide (i < length r)%nat); [|lia].
  rewrite value2_cons, (value2_zeros (S i) (b - 1) r) in Hv by (lia || (intros; apply Hz; lia)).
  replace (S i + (b - 1))%nat with (i + b)%nat in Hv by lia.
  rewrite (value2_ones (i + b) (256 - (i + b)) r) in Hv by (lia || (intros; apply Hall; lia)).
  assert (E1 : 2 ^ Z.of_nat i * (2 * (2 ^ Z.of_nat (b - 1) * (2 ^ Z.of_nat (256 - (i + b)) - 1))) = 2 ^ 256 - 2 ^ Z.of_nat (i + b)).
  { replace (2 * (2 ^ Z.of_nat (b - 1) * (2 ^ Z.of_nat (256 - (i + b)) - 1)))
      with (2 ^ Z.of_nat b * 2 ^ Z.of_nat (256 - (i + b)) - 2 ^ Z.of_nat b).
    - rewrite Z.mul_sub_distr_l, Z.mul_assoc, <- !Z.pow_add_r, <- !Nat2Z.inj_add by lia.
      now replace (i + b + (256 - (i + b)))%nat with 256%nat by lia.
    - replace (2 ^ Z.of_nat b) with (2 * 2 ^ Z.of_nat (b - 1)); [ring|]. rewrite <- Z.pow_succ_r by lia. f_equal. lia. }
  assert (E2 : 2 ^ Z.of_nat (i + b) <= 2 ^ 255) by (apply Z.pow_le_mono_r; lia).
  assert (E3 : 2 ^ Z.of_nat i * 1 <= 2 ^ Z.of_nat i * limb r i) by (apply Z.mul_le_mono_nonneg_l; lia).
  change (2 ^ 256) with (2 * 2 ^ 255) in E1. lia.
Qed.

(** One bit is added to the digit, one is left for the borrow. *)
Lemma window_add i b pre r : (1 <= b <= 6)%nat -> (i + b < 256)%nat -> windowInv i b pre r -> limb r (i + b) = 1 ->
  limb r i + 2 ^ Z.of_nat b <= 15 -> windowInv i (S b) pre (set_ (i + b) 0 (set_ i (limb r i + 2 ^ Z.of_nat b) r)).
Proof.
  intros Hb Hi (Hl & Ht & [Ho Hx] & Hz & Hbits & Hv) H1 Hle. unfold windowInv.
  assert (Hset : forall j, limb (set_ (i + b) 0 (set_ i (limb r i + 2 ^ Z.of_nat b) r)) j =
    if decide (j = (i + b)%nat) then 0 else if decide (j = i) then limb r i + 2 ^ Z.of_nat b else limb r j).
  { intros j. rewrite limb_set by (rewrite length_set; lia). case_decide; [done|]. now rewrite limb_set by lia. }
  assert (Hp : 2 <= 2 ^ Z.of_nat b) by (change 2 with (2 ^ 1) at 1; apply Z.pow_le_mono_r; lia).
  split_and!.
  - now rewrite !length_set.
  - now rewrite !take_set by lia.
  - rewrite Hset, decide_False, decide_True by lia. split; [|lia]. rewrite Z.odd_add, Ho, odd_pow2 by lia. reflexivity.
  - intros j Hj. rewrite Hset. case_decide; [done|]. rewrite decide_False by lia. apply Hz. lia.
  - intros j Hj. rewrite Hset, !decide_False by lia. apply Hbits. lia.
  - rewrite value2_set, value2_set, limb_set, decide_False, H1, Hv by (rewrite ?length_set; lia).
    rewrite Nat2Z.inj_add, Z.pow_add_r by lia. ring.
Qed.

Lemma window_sub i b pre r : (1 <= b <= 6)%nat -> (i + b < 256)%nat -> windowInv i b pre r -> - 2 ^ Z.of_nat i < value2 pre ->
  limb r (i + b) = 1 -> 15 < limb r i + 2 ^ Z.of_nat b -> -15 <= limb r i - 2 ^ Z.of_nat b ->
  windowInv i (S b) pre (slideCarry (256 - (i + b)) (i + b) (set_ i (limb r i - 2 ^ Z.of_nat b) r)).
Proof.
  intros Hb Hi Hinv Hp H1 Hgt Hge. pose proof Hinv as (Hl & Ht & [Ho Hx] & Hz & Hbits & Hv).
  assert (Hpos : 1 <= limb r i) by (destruct (Z.le_gt_cases 16 (2 ^ Z.of_nat b)); lia).
  set (r1 := set_ i (limb r i - 2 ^ Z.of_nat b) r).
  assert (L1 : forall j, limb r1 j = if decide (j = i) then limb r i - 2 ^ Z.of_nat b else limb r j)
    by (intros j; unfold r1; now rewrite limb_set by lia).
  replace (256 - (i + b))%nat with (S (255 - (i + b))) by lia. cbn [slideCarry].
  rewrite (L1 (i + b)%nat), decide_False, H1 by lia. change (1 =? 0) with false. cbv iota.
  set (r2 := set_ (i + b) 0 r1).
  assert (L2 : forall j, limb r2 j = if decide (j = (i + b)%nat) then 0 else limb r1 j)
    by (intros j; unfold r2; rewrite limb_set; [done|unfold r1; rewrite length_set; lia]).
  assert (V2 : value2 r2 = a - 2 ^ Z.of_nat (S (i + b))).
  { unfold r2. rewrite value2_set, L1, decide_False, H1 by (unfold r1; rewrite ?length_set; lia). unfold r1.
    rewrite value2_set, Hv, Nat2Z.inj_succ, Nat2Z.inj_add, Z.pow_succ_r, Z.pow_add_r by lia. ring. }
  assert (Len2 : length r2 = (S (i + b) + (255 - (i + b)))%nat) by (unfold r2, r1; rewrite !length_set; lia).
  destruct (slideCarry_spec (255 - (i + b)) (S (i + b)) r2 Len2) as (C1 & C2 & C3 & C4).
  { intros j Hj. rewrite L2, decide_False, L1, decide_False by lia. apply Hbits. lia. }
  assert (Hlow : forall j, (j < S (i + b))%nat -> limb (slideCarry (255 - (i + b)) (S (i + b)) r2) j = limb r2 j)
    by (intros j Hj; now apply (limb_take _ _ (S (i + b)))).
  unfold windowInv. split_and!.
  - rewrite C1, Len2. lia.
  - apply (f_equal (take i)) in C2. rewrite !take_take, !Nat.min_l in C2 by lia. rewrite C2. unfold r2, r1.
    now rewrite !take_set by lia.
  - rewrite Hlow, L2, decide_False, L1, decide_True by lia. split; [|lia].
    rewrite Z.odd_sub, Ho, odd_pow2 by lia. reflexivity.
  - intros j Hj. rewrite Hlow, L2 by lia. case_decide; [done|]. rewrite L1, decide_False by lia. apply Hz. lia.
  - intros j Hj. apply C3. lia.
  - destruct C4 as [C4|C4]; [rewrite C4, V2; ring|]. exfalso. apply (no_overflow i b pre r ltac:(lia) Hi Hinv Hp Hpos).
    intros j Hj. destruct (decide (j = (i + b)%nat)) as [->|]; [exact H1|].
    specialize (C4 j ltac:(lia)). now rewrite L2, decide_False, L1, decide_False in C4 by lia.
Qed.

(** What a window leaves. *)
Lemma slideWindow_spec i pre n : forall b r, (i < 256)%nat -> (1 <= b)%nat -> (b + n = 7)%nat -> windowInv i b pre r ->
  - 2 ^ Z.of_nat i < value2 pre ->
  exists b', (b <= b' <= 7)%nat /\ windowInv i b' pre (slideWindow (seq b n) i r) /\
    ((256 <= i + b')%nat \/ 1 + Z.abs (limb (slideWindow (seq b n) i r) i) <= 2 ^ Z.of_nat b').
Proof.
  induction n as [|n IH]; intros b r Hi Hb1 Hb Hinv Hp; cbn [seq slideWindow].
  - exists b. split; [lia|]. split; [exact Hinv|]. right. destruct Hinv as (_ & _ & [_ Hx] & _).
    replace b with 7%nat by lia. change (2 ^ Z.of_nat 7) with 128. lia.
  - destruct (Nat.ltb_spec (i + b) 256) as [Hlt|Hge]; [|exists b; split; [lia|]; split; [exact Hinv|left; exact Hge]].
    destruct (Z.eqb_spec (limb r (i + b)) 0) as [E|E].
    + destruct (IH (S b) r Hi ltac:(lia) ltac:(lia)) as (b' & Hb' & H); [|exact Hp|exists b'; split; [lia|exact H]].
      destruct Hinv as (Hl & Ht & Ho & Hz & Hbits & Hv). split_and!; try assumption; [..|intros j Hj; apply Hbits; lia].
      intros j Hj. destruct (decide (j = (i + b)%nat)) as [->|]; [exact E|apply Hz; lia].
    + assert (H1 : limb r (i + b) = 1).
      { destruct Hinv as (_ & _ & _ & _ & Hbits & _). destruct (Hbits (i + b)%nat ltac:(lia)); congruence. }
      assert (Hpow : 2 ^ Z.of_nat b <= 64) by (change 64 with (2 ^ 6); apply Z.pow_le_mono_r; lia).
      assert (Hpos : 0 < 2 ^ Z.of_nat b) by (apply Z.pow_pos_nonneg; lia).
      assert (Hx : Z.abs (limb r i) <= 15) by (destruct Hinv as (_ & _ & [_ Hx] & _); exact Hx).
      rewrite H1, Z.shiftl_1_l, (i8_id (2 ^ Z.of_nat b)), (i8_id (limb r i + 2 ^ Z.of_nat b)), (i8_id (limb r i - 2 ^ Z.of_nat b)) by lia.
      destruct (Z.leb_spec (limb r i + 2 ^ Z.of_nat b) 15) as [Hle|Hgt].
      * destruct (IH (S b) _ Hi ltac:(lia) ltac:(lia) (window_add i b pre r ltac:(lia) Hlt Hinv H1 Hle) Hp) as (b' & Hb' & H).
        exists b'. split; [lia|exact H].
      * destruct (Z.leb_spec (-15) (limb r i - 2 ^ Z.of_nat b)) as [Hge|Hsm].
        -- destruct (IH (S b) _ Hi ltac:(lia) ltac:(lia) (window_sub i b pre r ltac:(lia) Hlt Hinv Hp H1 Hgt Hge) Hp) as (b' & Hb' & H).
           exists b'. split; [lia|exact H].
        -- exists b. split; [lia|]. split; [exact Hinv|]. right. lia.
Qed.

(** Between the windows: the digits before [i] are final, and either nothing is left or
    a gap separates the bits from a low part that is small against it. *)
Definition slideInv (i : nat) (r : list Z) : Prop :=
  length r = 256%nat /\ (forall j, (j < i)%nat -> limb r j = 0 \/ oddDigit (limb r j)) /\
  (forall j, (i <= j)%nat -> bit (limb r j)) /\ value2 r = a /\
  ((forall j, (i <= j)%nat -> limb r j = 0) \/
   exists g, (forall j, (i <= j < i + g)%nat -> limb r j = 0) /\ Z.abs (value2 (take i r)) < 2 ^ Z.of_nat (i + g)).

Lemma slide_zero i r : (i < 256)%nat -> slideInv i r -> limb r i = 0 -> slideInv (S i) r.
Proof.
  intros Hi (Hl & Hd & Hb & Hv & Hg) H0. unfold slideInv. split_and!; [exact Hl| |intros j Hj; apply Hb; lia|exact Hv|].
  - intros j Hj. destruct (decide (j = i)) as [->|]; [now left|apply Hd; lia].
  - destruct Hg as [Hg|(g & Hz & Hlow)]; [left; intros j Hj; apply Hg; lia|]. right. exists (g - 1)%nat. split; [intros j Hj; apply Hz; lia|].
    rewrite take_limb, value2_app, H0 by lia. change (value2 [0]) with 0. rewrite Z.mul_0_r, Z.add_0_r.
    eapply Z.lt_le_trans; [exact Hlow|]. apply Z.pow_le_mono_r; lia.
Qed.

Lemma slide_window i r : (i < 256)%nat -> slideInv i r -> limb r i <> 0 -> slideInv (S i) (slideWindow [1; 2; 3; 4; 5; 6]%nat i r).
Proof.
  intros Hi (Hl & Hd & Hb & Hv & Hg) Hne. assert (H1 : limb r i = 1) by (destruct (Hb i ltac:(lia)); congruence).
  assert (Hlow : Z.abs (value2 (take i r)) < 2 ^ Z.of_nat i).
  { destruct Hg as [Hg|(g & Hz & Hlow)]; [exfalso; apply Hne, Hg; lia|]. destruct g as [|g]; [now rewrite Nat.add_0_r in Hlow|].
    exfalso. apply Hne, Hz. lia. }
  assert (Hinv : windowInv i 1 (take i r) r).
  { unfold windowInv. rewrite H1. split_and!; [exact Hl|done|split; [reflexivity|lia]|lia|intros j Hj; apply Hb; lia|exact Hv]. }
  destruct (slideWindow_spec i (take i r) 6 1 r Hi ltac:(lia) eq_refl Hinv ltac:(lia)) as (b & Hbr & Hw & Hend).
  change (seq 1 6) with [1; 2; 3; 4; 5; 6]%nat in Hw, Hend.
  set (r' := slideWindow [1; 2; 3; 4; 5; 6]%nat i r) in *. clearbody r'. destruct Hw as (Hl' & Ht' & Ho' & Hz' & Hb' & Hv').
  unfold slideInv. split_and!; [exact Hl'| | |exact Hv'|].
  - intros j Hj. destruct (decide (j = i)) as [->|]; [now right|]. rewrite (limb_take r' r i j Ht') by lia. apply Hd. lia.
  - intros j Hj. destruct (decide (j < i + b)%nat); [left; apply Hz'; lia|apply Hb'; lia].
  - destruct Hend as [Hend|Hend].
    + left. intros j Hj. destruct (decide (j < i + b)%nat); [apply Hz'; lia|]. unfold limb. now rewrite nth_overflow by lia.
    + right. exists (b - 1)%nat. split; [intros j Hj; apply Hz'; lia|]. rewrite take_limb, Ht', value2_app, length_take by lia.
      rewrite Nat.min_l by lia. replace (value2 [limb r' i]) with (limb r' i) by (cbn; lia).
      replace (S i + (b - 1))%nat with (i + b)%nat by lia. rewrite Nat2Z.inj_add, Z.pow_add_r by lia.
      assert (Hm : 2 ^ Z.of_nat i * (1 + Z.abs (limb r' i)) <= 2 ^ Z.of_nat i * 2 ^ Z.of_nat b)
        by (apply Z.mul_le_mono_nonneg_l; lia).
      assert (Ha' : Z.abs (2 ^ Z.of_nat i * limb r' i) = 2 ^ Z.of_nat i * Z.abs (limb r' i)) by (rewrite Z.abs_mul, (Z.abs_eq (2 ^ _)) by lia; ring).
      lia.
Qed.

Lemma slide_loop n r : slideInv 0 r -> (n <= 256)%nat ->
  slideInv n (foldl (fun r i => if limb r i =? 0 then r else slideWindow [1; 2; 3; 4; 5; 6]%nat i r) r (seq 0 n)).
Proof.
  intros H0. induction n as [|n IH]; intros Hn; [exact H0|]. rewrite seq_S, foldl_app. cbn [foldl]. change (0 + n)%nat with n.
  specialize (IH ltac:(lia)). revert IH. generalize (foldl (fun r i => if limb r i =? 0 then r else slideWindow [1; 2; 3; 4; 5; 6]%nat i r) r (seq 0 n)).
  intros r' IH. destruct (Z.eqb_spec (limb r' n) 0) as [E|E].
  - apply slide_zero; [lia|exact IH|exact E].
  - apply slide_window; [lia|exact IH|exact E].
Qed.
End slide.

(** ** The bits of a scalar *)

Lemma value2_bits x n : forall k, value2 ((fun i => (x / 2 ^ Z.of_nat i) mod 2) <$> seq k n) = (x / 2 ^ Z.of_nat k) mod 2 ^ Z.of_nat n.
Proof.
  induction n as [|n IH]; intros k; [cbn; now rewrite Z.mod_1_r|]. cbn [seq]. rewrite fmap_cons, value2_cons, IH.
  rewrite (Nat2Z.inj_succ n), (Nat2Z.inj_succ k), !Z.pow_succ_r, (Z.mul_comm 2 (2 ^ Z.of_nat k)), <- Z.div_div by lia.
  rewrite (Z.rem_mul_r _ 2) by lia. reflexivity.
Qed.

Lemma slideBits_spec a i : isBytes 32 a -> (i < 256)%nat ->
  i8 (Z.land 1 (limb a (i / 8) ≫ Z.of_nat (i mod 8))) = (le_value a / 2 ^ Z.of_nat i) mod 2.
Proof.
  intros [Hl Hb] Hi. pose proof (Nat.div_mod i 8 ltac:(lia)) as Hdm. pose proof (Nat.mod_upper_bound i 8 ltac:(lia)) as Hm.
  set (q := (i / 8)%nat) in *. set (m := (i mod 8)%nat) in *.
  rewrite Z.land_comm. change 1 with (Z.ones 1) at 1. rewrite Z.land_ones, Z.shiftr_div_pow2 by lia. change (2 ^ 1) with 2.
  assert (Hq : limb a q = (le_value a / 256 ^ Z.of_nat q) mod 256).
  { rewrite <- le_value_drop by exact Hb. destruct (lookup_lt_is_Some_2 a q ltac:(lia)) as [x Hx].
    rewrite (drop_S _ _ _ Hx). unfold limb. rewrite (nth_lookup_Some _ _ _ _ Hx).
    change (le_value (x :: drop (S q) a)) with (x + 256 * le_value (drop (S q) a)).
    rewrite Z.mul_comm, Z.mod_add by lia. symmetry. apply Z.mod_small. rewrite Forall_lookup in Hb. now apply (Hb q). }
  pose proof (mod_div_mod (le_value a / 256 ^ Z.of_nat q) 8 (Z.of_nat m) 1 ltac:(lia) ltac:(lia) ltac:(lia)) as Hd.
  change (2 ^ 8) with 256 in Hd. change (2 ^ 1) with 2 in Hd. rewrite Hq, Hd.
  change (256 ^ Z.of_nat q) with ((2 ^ 8) ^ Z.of_nat q). rewrite <- Z.pow_mul_r, Z.div_div, <- Z.pow_add_r by lia.
  replace (8 * Z.of_nat q + Z.of_nat m) with (Z.of_nat i) by lia. apply i8_id.
  pose proof (Z.mod_pos_bound (le_value a / 2 ^ Z.of_nat i) 2 ltac:(lia)). lia.
Qed.

Lemma slide_spec a : isBytes 32 a -> le_value a < 2 ^ 255 ->
  length (slide a) = 256%nat /\ value2 (slide a) = le_value a /\ forall j, limb (slide a) j = 0 \/ oddDigit (limb (slide a) j).
Proof.
  intros Ha Hv. assert (E : slideBits a = (fun i => (le_value a / 2 ^ Z.of_nat i) mod 2) <$> seq 0 256).
  { apply list_fmap_ext. intros k i Hk. apply slideBits_spec; [exact Ha|]. apply lookup_seq in Hk. lia. }
  pose proof (le_value_bound a (proj2 Ha)) as Hr. rewrite (proj1 Ha) in Hr.
  assert (H0 : slideInv (le_value a) 0 (slideBits a)).
  { unfold slideInv. split_and!; [unfold slideBits; now rewrite length_fmap, length_seq|lia| | |right; exists 0%nat; split; [lia|rewrite take_0; reflexivity]].
    - intros j _. rewrite E. unfold limb. rewrite nth_lookup, list_lookup_fmap. destruct (seq 0 256 !! j) as [i|]; cbn; [|now left].
      pose proof (Z.mod_pos_bound (le_value a / 2 ^ Z.of_nat i) 2 ltac:(lia)). unfold bit. lia.
    - rewrite E, value2_bits. change (2 ^ Z.of_nat 0) with 1. rewrite Z.div_1_r. apply Z.mod_small. exact Hr. }
  assert (H : slideInv (le_value a) 256 (slide a)) by (unfold slide; apply slide_loop; [exact Hv|exact H0|lia]).
  revert H. generalize (slide a). intros r (Hl & Hd & _ & Hval & _).
  split; [exact Hl|]. split; [exact Hval|]. intros j. destruct (decide (j < 256)%nat); [now apply Hd|].
  left. unfold limb. now rewrite nth_overflow by lia.
Qed.

(** * The double multiplication *)

Lemma oddMultiples_spec A2 A : isExt A2 (zmul 2 A) -> forall n c k, isCached c (zmul k A) ->
  length (oddMultiples n A2 c) = S n /\
  forall i e, oddMultiples n A2 c !! i = Some e -> isCached e (zmul (k + 2 * Z.of_nat i) A).
Proof.
  intros H2. induction n as [|n IH]; intros c k Hc; cbn [oddMultiples length].
  - split; [done|]. intros [|i] e He; [|discriminate]. injection He as <-. now rewrite Z.add_0_r.
  - assert (Hn : isCached (extToCached (compToExtended (geAdd A2 c))) (zmul (2 + k) A)).
    { apply extToCached_spec, compToExtended_spec. rewrite zmul_add. now apply geAdd_spec. }
    destruct (IH _ _ Hn) as [Hl Hi]. split; [lia|]. intros [|i] e He.
    + injection He as <-. now rewrite Z.add_0_r.
    + replace (k + 2 * Z.of_nat (S i)) with (2 + k + 2 * Z.of_nat i) by lia. now apply Hi.
Qed.

(** The table index of an odd digit. *)
Lemma odd_index x : Z.odd x = true -> 0 < x <= 15 -> (Z.to_nat (Z.quot x 2) < 8)%nat /\ 2 * Z.of_nat (Z.to_nat (Z.quot x 2)) + 1 = x.
Proof.
  intros Ho Hx. apply Z.odd_spec in Ho as [k ->]. assert (E : Z.quot (2 * k + 1) 2 = k).
  { rewrite Z.quot_div_nonneg by lia. rewrite Z.mul_comm, Z.div_add_l by lia. change (1 / 2) with 0. lia. }
  rewrite E. lia.
Qed.

Lemma addCachedDigit_spec Ai A t P dig : length Ai = 8%nat ->
  (forall i e, Ai !! i = Some e -> isCached e (zmul (1 + 2 * Z.of_nat i) A)) -> isComp t P ->
  dig = 0 \/ oddDigit dig -> isComp (addCachedDigit Ai t dig) (padd P (zmul dig A)).
Proof.
  intros Hl HA Ht Hd. unfold addCachedDigit. destruct (Z.ltb_spec 0 dig) as [Hpos|Hpos].
  - destruct Hd as [->|[Ho Hb]]; [lia|]. destruct (odd_index dig Ho ltac:(lia)) as [Hi He].
    destruct (lookup_lt_is_Some_2 Ai (Z.to_nat (Z.quot dig 2)) ltac:(lia)) as [e Hget].
    rewrite (nth_lookup_Some _ _ cachedZero e Hget). pose proof (HA _ _ Hget) as Hc.
    replace (1 + _) with dig in Hc by lia. apply geAdd_spec; [now apply compToExtended_spec|exact Hc].
  - destruct (Z.ltb_spec dig 0) as [Hneg|Hz].
    + destruct Hd as [->|[Ho Hb]]; [lia|]. rewrite i8_id by lia.
      destruct (odd_index (- dig)) as [Hi He]; [now rewrite Z.odd_opp|lia|].
      destruct (lookup_lt_is_Some_2 Ai (Z.to_nat (Z.quot (- dig) 2)) ltac:(lia)) as [e Hget].
      rewrite (nth_lookup_Some _ _ cachedZero e Hget). pose proof (HA _ _ Hget) as Hc.
      replace (1 + _) with (- dig) in Hc by lia. replace (zmul dig A) with (pneg (zmul (- dig) A)) by (now rewrite zmul_opp, pneg_pneg).
      apply geSub_spec; [now apply compToExtended_spec|exact Hc].
    + replace dig with 0 by lia. now rewrite zmul_0, padd_0_r.
Qed.

Lemma addBiDigit_spec t P dig : isComp t P -> dig = 0 \/ oddDigit dig -> isComp (addBiDigit t dig) (padd P (zmul dig B)).
Proof.
  intros Ht Hd. pose proof (proj2 bi_checked) as Hl. unfold addBiDigit. destruct (Z.ltb_spec 0 dig) as [Hpos|Hpos].
  - destruct Hd as [->|[Ho Hb]]; [lia|]. destruct (odd_index dig Ho ltac:(lia)) as [Hi He].
    destruct (lookup_lt_is_Some_2 bi (Z.to_nat (Z.quot dig 2)) ltac:(lia)) as [e Hget].
    rewrite (nth_lookup_Some _ _ preZero e Hget). pose proof (bi_entry _ _ Hget) as Hc. rewrite He in Hc.
    apply geMixedAdd_spec; [now apply compToExtended_spec|exact Hc].
  - destruct (Z.ltb_spec dig 0) as [Hneg|Hz].
    + destruct Hd as [->|[Ho Hb]]; [lia|]. rewrite i8_id by lia.
      destruct (odd_index (- dig)) as [Hi He]; [now rewrite Z.odd_opp|lia|].
      destruct (lookup_lt_is_Some_2 bi (Z.to_nat (Z.quot (- dig) 2)) ltac:(lia)) as [e Hget].
      rewrite (nth_lookup_Some _ _ preZero e Hget). pose proof (bi_entry _ _ Hget) as Hc. rewrite He in Hc.
      replace (zmul dig B) with (pneg (zmul (- dig) B)) by (now rewrite zmul_opp, pneg_pneg).
      apply geMixedSub_spec; [now apply compToExtended_spec|exact Hc].
    + replace dig with 0 by lia. now rewrite zmul_0, padd_0_r.
Qed.

Definition two (a b : Z) (A : point) : point := padd (zmul a A) (zmul b B).

Lemma doubleStep_spec sa sb Ai A r i a b : length Ai = 8%nat ->
  (forall i e, Ai !! i = Some e -> isCached e (zmul (1 + 2 * Z.of_nat i) A)) ->
  limb sa i = 0 \/ oddDigit (limb sa i) -> limb sb i = 0 \/ oddDigit (limb sb i) -> isProj r (two a b A) ->
  isProj (doubleStep sa sb Ai r i) (two (2 * a + limb sa i) (2 * b + limb sb i) A).
Proof.
  intros Hl HA Ha Hb Hr. apply compToProjective_spec.
  replace (two (2 * a + limb sa i) (2 * b + limb sb i) A)
    with (padd (padd (padd (two a b A) (two a b A)) (zmul (limb sa i) A)) (zmul (limb sb i) B)).
  - apply addBiDigit_spec; [|exact Hb]. apply addCachedDigit_spec; [exact Hl|exact HA| |exact Ha]. now apply projDouble_spec.
  - unfold two. rewrite !zmul_add. replace (2 * a) with (a + a) by lia. replace (2 * b) with (b + b) by lia. rewrite !zmul_add.
    rewrite <- !padd_assoc. f_equal. rewrite (padd_swap (zmul b B)). f_equal. rewrite !(padd_swap (zmul b B) (zmul (limb sa i) A)).
    reflexivity.
Qed.

Lemma take_value2 r n : (n < length r)%nat -> value2 (take (S n) r) = value2 (take n r) + 2 ^ Z.of_nat n * limb r n.
Proof.
  intros H. rewrite take_limb, value2_app, length_take, Nat.min_l by lia. replace (value2 [limb r n]) with (limb r n) by (cbn; lia). reflexivity.
Qed.

Lemma doubleStep_loop sa sb Ai A : length Ai = 8%nat ->
  (forall i e, Ai !! i = Some e -> isCached e (zmul (1 + 2 * Z.of_nat i) A)) ->
  (forall j, limb sa j = 0 \/ oddDigit (limb sa j)) -> (forall j, limb sb j = 0 \/ oddDigit (limb sb j)) ->
  length sa = 256%nat -> length sb = 256%nat ->
  forall n r a b, (n <= 256)%nat -> isProj r (two a b A) ->
  isProj (foldl (doubleStep sa sb Ai) r (rev (seq 0 n)))
    (two (2 ^ Z.of_nat n * a + value2 (take n sa)) (2 ^ Z.of_nat n * b + value2 (take n sb)) A).
Proof.
  intros Hl HA Ha Hb Hla Hlb. induction n as [|n IH]; intros r a b Hn Hr.
  - rewrite !take_0. change (value2 []) with 0. change (2 ^ Z.of_nat 0) with 1. now rewrite !Z.mul_1_l, !Z.add_0_r.
  - rewrite seq_S, rev_app_distr. cbn [rev app foldl]. change (0 + n)%nat with n.
    pose proof (doubleStep_spec sa sb Ai A r n a b Hl HA (Ha n) (Hb n) Hr) as Hs.
    pose proof (IH _ _ _ ltac:(lia) Hs) as H. rewrite !take_value2, Nat2Z.inj_succ, Z.pow_succ_r by lia.
    replace (2 * 2 ^ Z.of_nat n * a + (value2 (take n sa) + 2 ^ Z.of_nat n * limb sa n))
      with (2 ^ Z.of_nat n * (2 * a + limb sa n) + value2 (take n sa)) by ring.
    replace (2 * 2 ^ Z.of_nat n * b + (value2 (take n sb) + 2 ^ Z.of_nat n * limb sb n))
      with (2 ^ Z.of_nat n * (2 * b + limb sb n) + value2 (take n sb)) by ring. exact H.
Qed.

(** Nothing is lost above the highest nonzero digit. *)
Lemma slideTop_spec sa sb n : (n <= length sa)%nat -> (n <= length sb)%nat ->
  (slideTop n sa sb <= n)%nat /\ value2 (take (slideTop n sa sb) sa) = value2 (take n sa) /\
  value2 (take (slideTop n sa sb) sb) = value2 (take n sb).
Proof.
  induction n as [|n IH]; intros Ha Hb; [done|]. cbn [slideTop].
  destruct (Z.eqb_spec (limb sa n) 0) as [Ea|]; [|done]. destruct (Z.eqb_spec (limb sb n) 0) as [Eb|]; [|done]. cbn [negb orb].
  destruct (IH ltac:(lia) ltac:(lia)) as (H1 & H2 & H3). rewrite H2, H3, !take_value2, Ea, Eb by lia. lia.
Qed.

Lemma GeDoubleScalarMultVartime_spec a p A b : isBytes 32 a -> le_value a < 2 ^ 255 -> isBytes 32 b -> le_value b < 2 ^ 255 ->
  isExt p A -> isProj (GeDoubleScalarMultVartime a p b) (padd (zmul (le_value a) A) (zmul (le_value b) B)).
Proof.
  intros Ha Hva Hb Hvb Hp. destruct (slide_spec a Ha Hva) as (La & Va & Da), (slide_spec b Hb Hvb) as (Lb & Vb & Db).
  unfold GeDoubleScalarMultVartime. revert La Va Da Lb Vb Db. generalize (slide a) (slide b). intros sa sb La Va Da Lb Vb Db.
  assert (H2 : isExt (compToExtended (extDouble p)) (zmul 2 A)).
  { change 2 with (1 + 1). rewrite zmul_add, zmul_1. now apply compToExtended_spec, extDouble_spec. }
  assert (H1 : isCached (extToCached p) (zmul 1 A)) by (rewrite zmul_1; now apply extToCached_spec).
  destruct (oddMultiples_spec _ A H2 7 _ 1 H1) as [Hl Hi].
  destruct (slideTop_spec sa sb 256 ltac:(lia) ltac:(lia)) as (Ht & Ea & Eb).
  assert (H0 : isProj projZero (two 0 0 A)) by (unfold two; rewrite !zmul_0, padd_0_l; exact projZero_spec).
  pose proof (doubleStep_loop sa sb _ A Hl Hi Da Db La Lb _ _ _ _ Ht H0) as H.
  rewrite !Z.mul_0_r, !Z.add_0_l, Ea, Eb, !take_ge, Va, Vb in H by lia. exact H.
Qed.

(** C7: The sliding windows and the double multiplication are exact: for scalars below
    [2^255] the digits of [slide] are zero or odd between [-15] and [15] and add up to the
    scalar, no carry leaves the array, and [GeDoubleScalarMultVartime] computes an element
    that represents [a * A + b * B]. *)
Theorem double_multiplication a p A b : isBytes 32 a -> le_value a < 2 ^ 255 -> isBytes 32 b -> le_value b < 2 ^ 255 -> isExt p A ->
  (length (slide a) = 256%nat /\ value2 (slide a) = le_value a /\
   forall j, limb (slide a) j = 0 \/ Z.odd (limb (slide a) j) = true /\ Z.abs (limb (slide a) j) <= 15) /\
  isProj (GeDoubleScalarMultVartime a p b) (padd (zmul (le_value a) A) (zmul (le_value b) B)).
Proof. intros Ha Hva Hb Hvb Hp. split; [exact (slide_spec a Ha Hva)|now apply GeDoubleScalarMultVartime_spec]. Qed.

(** [0 * A + 1 * B]. *)
Lemma double_multiplication_witness : isProj (GeDoubleScalarMultVartime (replicate 32 0) extZero (1 :: replicate 31 0)) B.
Proof.
  assert (H0 : isBytes 32 (replicate 32 0)) by (split; [reflexivity|repeat constructor; lia]).
  assert (H1 : isBytes 32 (1 :: replicate 31 0)) by (split; [reflexivity|repeat constructor; lia]).
  pose proof (double_multiplication _ _ _ _ H0 eq_refl H1 eq_refl extZero_spec) as [_ H].
  change (le_value (replicate 32 0)) with 0 in H. change (le_value (1 :: replicate 31 0)) with 1 in H.
  now rewrite zmul_0, zmul_1, padd_0_l in H.
Defined.
